(* ===== verification/_CoqProject ===== *)
-Q . S2P
Prelude.v
RustStr.v
Types.v
Budget.v
Stream.v
StreamTrace.v
Upstream.v
Wake.v
Request.v
World.v
Client.v
Envoy.v
EnvoyExample.v
Metrics.v
Calls.v
StreamCalls.v
Authority.v
Worker.v
WorkerView.v
WorkerBody.v
WorkerEnd.v
WorkerApart.v
WorkerPump.v
Delivery.v
Ruby.v
Chunks.v
RubyExample.v
Fibers.v
FiberLogic.v
RackInput.v
RackInputSpec.v
Duplex.v
DuplexSpec.v
DuplexRead.v
Relay.v
Extensions.v
ExtensionsSpec.v
UpstreamRb.v
UpstreamRbSpec.v
UpstreamBodySpec.v
Rack.v
RackEnv.v
Fiber.v
Runner.v
Execution.v
Drain.v
Admission.v
RunnerSpec.v
Probe.v
ProbeSpec.v
Lifecycle.v
Loading.v
FailedStart.v
SyncRuntime.v
SyncServe.v
SyncMain.v
SyncWorker.v
Config.v
ConfigSafety.v
Host.v
ConfigTests.v
Bootstrap.v
Baseline.v
QueueTests.v
WorkerTests.v
