(* ===== verification/Prelude.v ===== *)
(** * Ruvoy: a verification development

    Ruvoy serves Ruby applications from inside Envoy.  Envoy's worker threads run a
    filter written in Rust for each request; one other thread owns the Ruby VM; owned
    messages and byte-bounded queues join them.  This library models the Rust code under
    [src/src] and [src/crates], and the Ruby code of the project that runs on the other
    side of the queues ([src/ruby]), and proves what makes them correct.

    ** The program, and which file models what

    A request enters through [FiberRackFilter] (crates/ruvoy-envoy-fiber/src/worker.rs),
    takes a permit of the admission budget, and is sent as a command to the Ruby thread
    (src/fiber.rs), which is woken through a socket (src/wake.rs).  Its body goes down
    through one queue and its response comes back through another (src/stream.rs).  The
    Ruby side calls Rust back through objects it was given: the bridge (src/fiber.rs),
    the ends of queues (src/chunks.rs), the request's context and its way to other
    clusters (src/extensions.rs); those calls are queued on a route (src/upstream.rs)
    that the worker empties (crates/ruvoy-envoy-fiber/src/upstream.rs).  A bootstrap
    extension (bootstrap.rs, runtime.rs) starts the one runtime of the process.

    - [Prelude], [RustStr]: results, the state monad, integers at their width, lists;
      Rust's strings.
    - [Types]: src/error.rs, response.rs, context.rs.  [Request]: src/request.rs.
    - [Budget]: src/budget.rs.  [Stream]: src/stream.rs.  [Upstream]: src/upstream.rs.
      [Wake]: src/wake.rs.
    - [World]: what both sides share behind an [Arc], as one store; objects are named by
      reference, so that aliasing is explicit.  An operation of the code that reaches a
      shared object is an operation on the store.
    - [Client]: [FiberRuntimeClient] and the collectors of src/fiber.rs.  [Fiber]: the
      bridge the reactor calls and the runtime that failed to load.  [Lifecycle]: the
      runtime object, started, stopped and dropped.  [Loading]: what the Ruby thread
      does before it is ready (src/fiber.rs, extensions.rs, chunks.rs, sync.rs, vm.rs),
      and the thread's body.
    - [Ruby]: the VM, an interface.  [Rack]: src/rack.rs.  [Chunks]: src/chunks.rs.
      [Extensions]: src/extensions.rs.
    - [SyncRuntime], [SyncMain]: src/sync.rs, the serial runtime; [SyncWorker]:
      crates/ruvoy-envoy-sync.
    - [Envoy]: the SDK, an interface: queries of its state and calls that are logged,
      answered, and may report events before they return.  [Metrics], [Authority],
      [Calls], [Worker]: metrics.rs, context.rs and the metadata part of worker.rs,
      upstream.rs, and worker.rs of crates/ruvoy-envoy-fiber.
    - [Config]: runtime.rs, lib.rs and the settings of bootstrap.rs; [Bootstrap]: the
      rest of bootstrap.rs.  [Host]: src/host.rs and what runs when a process starts and
      exits.  [Baseline]: crates/ruvoy-envoy-baseline.
    - [Fibers]: Ruby code that parks instead of blocking, as functions of the store and of
      a schedule of what other threads and fibers do between its calls and while it waits;
      [FiberLogic]: how such code is reasoned about.  [RackInput]: ruby/request_body.rb.
      [Duplex]: ruby/stream.rb and the body readers.  [UpstreamRb]: ruby/upstream.rb.
      [Runner]: ruby/fiber_runner.rb, the reactor's loop and its fibers, and what decides
      something of ruby/lifecycle.rb and ruby/offload.rb.
    - [Probe]: examples/fiber_stability_probe.rs, a client of the runtime under load.
    - [QueueTests], [WorkerTests], [ConfigTests]: the source's own unit and [loom] tests,
      translated and run on the model, so that it is seen to answer as the code is tested to.

    A function of the code that changes state is a [St S A], from a state to a value and
    a state; one that may fail returns a [result].  A method that takes a lock once is
    one transition.  Names are the code's; where the same name occurs twice in a file
    the second has a suffix.

    ** What is proved

    - End to end.  [Delivery]: the client is sent exactly what the items queued by the
      application make, in order and once, under any order of callbacks and writes.
      [Execution]: what one execution leaves in that queue, whatever the worker does to
      it meanwhile.  [WorkerView]: the client sees one well-formed response, and each
      request is counted once.  [WorkerBody]: the request's body is moved without loss
      or repetition.  [WorkerEnd]: nobody is left waiting at the end.
    - Data structures against their specification.  [StreamTrace]: a queue refines a log
      with a cursor, stays bounded and well formed.  [Upstream]: a route hands each call
      out once.  [Budget]: the compare-and-swap loop never lends more than there is,
      under any interleaving and relaxed loads.
    - Hand-over between threads.  [Wake]: no command is lost and none waits for ever;
      what an owed wakeup may wait for.  [Drain]: a pass of the reactor.  [Admission]:
      permits are conserved over the runtime's whole life.  [RunnerSpec]: the reactor's
      loop over both: what is handed over runs once and has ended at the end.
      [SyncServe], [SyncMain]: the serial runtime's thread.  [SyncWorker], [Baseline]:
      the other filters.  [ProbeSpec]: what a load driver needs of the admission limit,
      over the client and its collectors.
    - Upstream calls.  [Calls], [StreamCalls]: what is asked of Envoy, and every way a
      call or stream may end; [WorkerPump]: pumping a stream ends; [ExtensionsSpec]: what
      the fiber may ask and reads back.
    - The fibers' side of the queues.  [RackInputSpec]: [rack.input] refines a string with
      a position in it, whatever arrives when.  [DuplexSpec], [DuplexRead]: what a fiber
      writes arrives, and what it reads is what arrived; [Relay]: the two together, one
      direction of a relay.  [UpstreamRbSpec], [UpstreamBodySpec]: the fields of a call,
      its answer, a streamed response and a streamed request.  Each states that its loops
      end or wait parked, and what the others may do meanwhile is a [FiberLogic.Role]: a
      queue has one party at each end.
    - Translation.  [RackEnv]: what a client cannot forge in the environment, and when a
      connection is switched.  [Authority]: metadata and its defaults.  [Client]: the
      two collectors agree.
    - Start and configuration.  [ConfigSafety]: one runtime per process, usable settings.
      [FailedStart]: a runtime that did not load answers.  [Bootstrap]: what Envoy hears.

    ** Conventions

    Concurrency is interleaving: of locked methods ([StreamTrace], [Upstream]), of single
    shared accesses ([Budget], [Wake.Handover]), of the worker's steps with a running
    execution ([Execution]), of whole callbacks with the application's writes
    ([Delivery], [Admission]), of a fiber's calls with everybody else's ([Fibers]), of the
    loop's steps with its fibers' starts and ends ([Runner]), of a program's calls of the
    client with the Ruby thread's turns ([Probe]).  Coarser than the code's locks are a
    pass of the reactor's receiver ([Fiber.receive]: what arrives meanwhile counts as
    queued before), the pushes of one delivered call ([Calls.deliver]) and a turn of the
    serial runtime.  The start of an upstream stream is the first step of its life
    ([StreamCalls.start_is_next]).

    Fuel: loops that are not structural take fuel computed from the state they run on:
    the items queued ([Worker.drain_stream], [Client.gather_all]), the commands queued
    ([Fiber.receive_all], [SyncRuntime.sync_pass]), unread bytes and interruptions
    ([Wake.drain]), a stream's items and its reset ([Worker.pump_stream]), a string's
    characters ([RustStr], [Bootstrap.words]), and for a fiber's loops the items it may
    take, the bytes it has to write and the events of its schedule; the probe's waves take
    their number of requests ([Probe.complete]).  The theorems about
    these loops state that they end with what is left or done ([Delivery.drain_loop_passes],
    [Drain.receive_hands_over], [Wake.signal_then_drain], [WorkerPump.pump_ends],
    [Bootstrap.words_fuel]), not only what holds if they do.

    Integers: [usize] and [u64] are 64 bits wide, with the wrap-around of a release
    build where the code adds without checking, and saturation where it saturates.
    Seconds from Ruby and numbers in metadata are [spec_float]s.

    Parameters: Envoy ([Envoy.EnvoyHttpFilter]), the VM ([Ruby.RubyVM],
    [Loading.RubyHost]), the parser of settings and the file system ([Config]); what the
    operating system answers ([Lifecycle], [Bootstrap]).  What a theorem relies on of
    them is a hypothesis or a class of its own ([WorkerBody.EnvoyBody],
    [Execution.Confined], [FiberLogic.QuietLookup], [RunnerSpec.QuietResolve]), with an
    instance in [EnvoyExample], [RubyExample], [RackInputSpec] or [ConfigTests].  Ruby's
    Unicode case mappings and [inspect] are a parameter too ([UpstreamRb.TextOps]).

    ** Not modelled

    - Of the Ruby sources, what the admin pages report of the VM, registering hooks and
      the limit of an Offload, which the async gem keeps; the two fibers of a relay
      against each other, of which one direction ([Duplex.copy]) and the end
      ([Duplex.relay_ends]) are modelled; checks of the types of arguments.  For the Rust
      code the body readers are calls of the VM.
    - magnus, the Envoy SDK and its ABI, serde_json, loom: code of other repositories.
    - Build scripts, src/main.rs: they link and demonstrate; they decide nothing.
    - What Envoy might report from inside the local reply of a filter that has already
      responded ([Worker.send_bridge_error]); changes of the file system while a process
      runs ([Config]); [gets] with an empty separator in the theorem about [rack.input],
      whose answer depends on timing; the encodings of strings.
    - Printing through serde_json; logging; [Debug] output; accessors that only return a
      field; creating the socket pair.
    - Two of the programs under src/examples, which time batches of requests, and what the
      third prints.  Of the source's tests, those that start a VM or only look at a
      buffer's allocation.
    - Two threads inside one callback of the worker, other than in [Execution] and
      [StreamTrace]: [Delivery] orders whole callbacks. *)

From Stdlib Require Export Lia ZifyBool.
From Stdlib Require Export Strings.Byte.
From stdpp Require Export base tactics list gmap strings numbers.

(** The development's notations live in a scope of their own. *)

Declare Scope ruvoy_scope.
Delimit Scope ruvoy_scope with ruvoy.

(** ** Results

    Rust's [Result<A, E>].  [match r with Ok a => k a | Err e => Err e end] is
    what the [?] operator does, written [let? x := r in k]. *)

Inductive result (A E : Type) :=
| Ok (a : A)
| Err (e : E).
Arguments Ok {A E} a.
Arguments Err {A E} e.

Definition result_bind {A B E} (r : result A E) (k : A -> result B E) : result B E :=
  match r with
  | Ok a => k a
  | Err e => Err e
  end.

Definition map_err {A E F} (f : E -> F) (r : result A E) : result A F :=
  match r with
  | Ok a => Ok a
  | Err e => Err (f e)
  end.

Definition ok_or {A E} (o : option A) (e : E) : result A E :=
  match o with
  | Some a => Ok a
  | None => Err e
  end.

Definition is_err {A E} (r : result A E) : bool :=
  match r with
  | Ok _ => false
  | Err _ => true
  end.

Notation "'let?' x := r 'in' k" := (result_bind r (fun x => k))
  (at level 10, x pattern, r at level 100, k at level 200) : ruvoy_scope.

(** ** State passing

    Stateful code is written in the state monad [St S A := S -> A * S]. *)

Definition St (S A : Type) : Type := S -> A * S.

Definition st_ret {S A} (a : A) : St S A := fun s => (a, s).

Definition st_bind {S A B} (m : St S A) (k : A -> St S B) : St S B :=
  fun s => let '(a, s') := m s in k a s'.

(** [for x in l { m x }] *)
Fixpoint st_iter {S A} (m : A -> St S unit) (l : list A) : St S unit :=
  match l with
  | [] => st_ret tt
  | x :: l => st_bind (m x) (fun _ => st_iter m l)
  end.

(** The same, keeping what each pass returns. *)
Fixpoint st_map {S A B} (m : A -> St S B) (l : list A) : St S (list B) :=
  match l with
  | [] => st_ret []
  | x :: l => st_bind (m x) (fun b => st_bind (st_map m l) (fun bs => st_ret (b :: bs)))
  end.

Notation "'let*' x := m 'in' k" := (st_bind m (fun x => k))
  (at level 10, x pattern, m at level 100, k at level 200) : ruvoy_scope.
Notation "'do*' m 'in' k" := (st_bind m (fun _ => k))
  (at level 10, m at level 100, k at level 200) : ruvoy_scope.

Open Scope ruvoy_scope.

(** ** Machine integers

    [usize] and [u64] are 64 bits wide on the platforms the program supports;
    they are [N] with the wrap-around of a release build written out where the
    source adds without checking. *)

Definition width64 : N := 2 ^ 64.
Definition usize_MAX : N := width64 - 1.
Definition u64_MAX : N := width64 - 1.
Definition u16_MAX : N := 65535.

Definition usize_add (a b : N) : N := (a + b) mod width64.
Definition saturating_sub (a b : N) : N := a - b.
Definition saturating_add (a b : N) : N := N.min (a + b) usize_MAX.

(** [u64::try_from(x).unwrap_or(u64::MAX)] on a wider unsigned value. *)
Definition u64_clamp (x : N) : N := if (x <=? u64_MAX)%N then x else u64_MAX.

(** [u16::try_from] on a signed value. *)
Definition u16_try_from (z : Z) : option N :=
  if (0 <=? z)%Z && (z <=? 65535)%Z then Some (Z.to_N z) else None.

(** [u64::try_from] on a signed value. *)
Definition u64_try_from (z : Z) : option N :=
  if (0 <=? z)%Z then Some (Z.to_N z) else None.

(** ** Bytes

    [Vec<u8>] and [&[u8]] are lists of bytes; [len] is [Vec::len]. *)

Abbreviation bytes := (list byte).

Definition len {A} (l : list A) : N := N.of_nat (length l).

#[export] Instance byte_eq_dec : EqDecision byte := Byte.byte_eq_dec.

Definition ntake {A} (n : N) (l : list A) : list A := take (N.to_nat n) l.
Definition ndrop {A} (n : N) (l : list A) : list A := drop (N.to_nat n) l.

(** A Rust [String] is a sequence of bytes: Rocq's [string], converted to and
    from [bytes] as [into_bytes] and [from_utf8_unchecked] do. *)

Definition into_bytes (s : string) : bytes := String.list_byte_of_string s.
Definition of_bytes (b : bytes) : string := String.string_of_list_byte b.

(** A Ruby [VALUE] behind magnus' [Opaque<Value>]: a machine word that the
    code stores and hands back, and never looks into. *)

Definition Value := N.

(** ** Generic lemmas *)

Lemma len_nil {A} : len (@nil A) = 0%N.
Proof. reflexivity. Qed.

Lemma len_cons {A} (x : A) l : len (x :: l) = (1 + len l)%N.
Proof. unfold len; cbn [length]; lia. Qed.

Lemma len_app {A} (l k : list A) : len (l ++ k) = (len l + len k)%N.
Proof. unfold len; rewrite length_app; lia. Qed.

Lemma len_ntake {A} n (l : list A) : len (ntake n l) = N.min n (len l).
Proof. unfold len, ntake; rewrite length_take; lia. Qed.

Lemma len_ndrop {A} n (l : list A) : len (ndrop n l) = (len l - n)%N.
Proof. unfold len, ndrop; rewrite length_drop; lia. Qed.

Lemma len_0_nil {A} (l : list A) : len l = 0%N -> l = [].
Proof. destruct l; [done|]. rewrite len_cons. lia. Qed.

Lemma ntake_ndrop {A} n (l : list A) : ntake n l ++ ndrop n l = l.
Proof. apply take_drop. Qed.

Lemma ntake_ge {A} n (l : list A) : (len l <= n)%N -> ntake n l = l.
Proof. unfold len, ntake; intros; apply take_ge; lia. Qed.

Lemma ntake_ntake_add {A} n m (l : list A) :
  ntake n l ++ ntake m (ndrop n l) = ntake (n + m) l.
Proof.
  unfold ntake, ndrop.
  rewrite N2Nat.inj_add. symmetry.
  rewrite <- (take_drop (N.to_nat n) l) at 1.
  destruct (decide (N.to_nat n <= length l)%nat) as [H|H].
  - rewrite take_app_add'; [done | rewrite length_take; lia].
  - rewrite (take_ge l), (drop_ge l), app_nil_r by lia.
    rewrite take_nil, app_nil_r. apply take_ge. lia.
Qed.

Lemma ndrop_ndrop {A} n m (l : list A) : ndrop m (ndrop n l) = ndrop (n + m) l.
Proof. unfold ndrop. rewrite drop_drop. f_equal. lia. Qed.

Lemma usize_add_small a b : (a + b < width64)%N -> usize_add a b = (a + b)%N.
Proof. intros; unfold usize_add; by apply N.mod_small. Qed.

(** Saturation does not change a comparison with a limit below it. *)
Lemma saturating_add_exceeds limit a b :
  (limit < usize_MAX)%N -> (limit <? saturating_add a b)%N = (limit <? a + b)%N.
Proof.
  intros Hl. unfold saturating_add.
  destruct (N.ltb_spec limit (N.min (a + b) usize_MAX)), (N.ltb_spec limit (a + b)); try done; exfalso; lia.
Qed.

Lemma st_bind_ret_l {S A B} (a : A) (k : A -> St S B) (s : S) :
  st_bind (st_ret a) k s = k a s.
Proof. reflexivity. Qed.

Lemma bind_run {S A B} (m : St S A) (k : A -> St S B) (s : S) : st_bind m k s = k (m s).1 (m s).2.
Proof. unfold st_bind. by destruct (m s). Qed.

Lemma result_bind_ok {A B E} (r : result A E) (k : A -> result B E) b :
  result_bind r k = Ok b <-> exists a, r = Ok a /\ k a = Ok b.
Proof.
  split.
  - destruct r as [a|e]; cbn; [by exists a | done].
  - by intros (a & -> & ?).
Qed.

Create HintDb ruvoy discriminated.
Create Rewrite HintDb len.
#[export] Hint Rewrite @len_nil @len_cons @len_app @len_ntake @len_ndrop : len.

(** ** Tactics *)

(** Arithmetic on [len] after pushing it through the list operations. *)
Ltac len_lia := autorewrite with len in *; lia.

(** Case on every [if] and [match] of the goal, reducing as it goes. *)
Ltac cases := repeat (case_match; simplify_eq/=; try done).

(** Invert an equation between [Ok]s, [Some]s or pairs and substitute. *)
Ltac invert H := inversion H; subst; clear H.
