(* ===== verification/RustStr.v ===== *)
(** * Rust's [str], as far as the program uses it

    A [&str] or [String] is its UTF-8 bytes: Rocq's [string].  This file holds
    the standard-library operations the program calls on them, each executable:
    ASCII case, splitting, trimming, parsing and printing of unsigned integers,
    and the two ways bytes become text ([str::from_utf8] and
    [String::from_utf8_lossy]). *)

From S2P Require Import Prelude.
From Stdlib Require Import Ascii.

Local Open Scope string_scope.
Arguments String.append : simpl nomatch.

(** ** Characters and ASCII case *)

Definition code (c : ascii) : N := N_of_ascii c.

Definition in_range (lo hi : N) (c : ascii) : bool :=
  (lo <=? code c)%N && (code c <=? hi)%N.

Definition to_ascii_uppercase (c : ascii) : ascii :=
  if in_range 97 122 c then ascii_of_N (code c - 32) else c.

Definition to_ascii_lowercase (c : ascii) : ascii :=
  if in_range 65 90 c then ascii_of_N (code c + 32) else c.

Fixpoint map_chars (f : ascii -> ascii) (s : string) : string :=
  match s with
  | EmptyString => EmptyString
  | String c s' => String (f c) (map_chars f s')
  end.

Definition lowercase (s : string) : string := map_chars to_ascii_lowercase s.

(** [str::eq_ignore_ascii_case] *)
Definition eq_ignore_ascii_case (a b : string) : bool :=
  String.eqb (lowercase a) (lowercase b).

(** ** Searching and splitting *)

Fixpoint starts_with (p s : string) : bool :=
  match p, s with
  | EmptyString, _ => true
  | String a p', String b s' => Ascii.eqb a b && starts_with p' s'
  | String _ _, EmptyString => false
  end.

Definition starts_with_char (c : ascii) (s : string) : bool :=
  match s with
  | EmptyString => false
  | String d _ => Ascii.eqb c d
  end.

Fixpoint contains_char (c : ascii) (s : string) : bool :=
  match s with
  | EmptyString => false
  | String d s' => Ascii.eqb c d || contains_char c s'
  end.

(** [str::find], of a character: the byte index of its first occurrence. *)
Fixpoint find_char (c : ascii) (s : string) : option nat :=
  match s with
  | EmptyString => None
  | String d s' => if Ascii.eqb c d then Some 0 else S <$> find_char c s'
  end.

(** [&s[..n]] and [&s[n..]] *)
Fixpoint str_take (n : nat) (s : string) : string :=
  match n, s with
  | S n', String c s' => String c (str_take n' s')
  | _, _ => EmptyString
  end.

Fixpoint str_drop (n : nat) (s : string) : string :=
  match n, s with
  | S n', String _ s' => str_drop n' s'
  | O, _ => s
  | _, EmptyString => EmptyString
  end.

(** [str::strip_prefix], of a character *)
Definition strip_prefix_char (c : ascii) (s : string) : option string :=
  match s with
  | EmptyString => None
  | String d s' => if Ascii.eqb c d then Some s' else None
  end.

(** [str::split_once] and [str::rsplit_once], of a character *)
Fixpoint split_once (c : ascii) (s : string) : option (string * string) :=
  match s with
  | EmptyString => None
  | String d s' =>
      if Ascii.eqb c d then Some (EmptyString, s')
      else '(a, b) ← split_once c s'; Some (String d a, b)
  end.

Fixpoint rsplit_once (c : ascii) (s : string) : option (string * string) :=
  match s with
  | EmptyString => None
  | String d s' =>
      match rsplit_once c s' with
      | Some (a, b) => Some (String d a, b)
      | None => if Ascii.eqb c d then Some (EmptyString, s') else None
      end
  end.

(** [str::split], of a character: always at least one piece. *)
Fixpoint split (c : ascii) (s : string) : list string :=
  match s with
  | EmptyString => [EmptyString]
  | String d s' =>
      if Ascii.eqb c d then EmptyString :: split c s'
      else
        match split c s' with
        | p :: ps => String d p :: ps
        | [] => [String d EmptyString]
        end
  end.

Definition is_empty (s : string) : bool :=
  match s with
  | EmptyString => true
  | String _ _ => false
  end.

(** ** Trimming

    [str::trim] removes the characters Unicode calls White_Space from both
    ends.  Each is written as its UTF-8 bytes; in a valid string no character
    but itself ends in the bytes of one. *)

Definition ascii_ws (c : ascii) : bool := in_range 9 13 c || in_range 32 32 c.

Definition is_code (n : N) (c : ascii) : bool := (code c =? n)%N.

(** The bytes after the white-space character [s] starts with, if it does. *)
Definition skip_ws (s : string) : option string :=
  match s with
  | String a s1 =>
      if ascii_ws a then Some s1
      else
        match s1 with
        | String b s2 =>
            if is_code 194 a && (is_code 133 b || is_code 160 b) then Some s2
            else
              match s2 with
              | String c s3 =>
                  if (is_code 225 a && is_code 154 b && is_code 128 c)
                     || (is_code 226 a && is_code 128 b
                         && (in_range 128 138 c || in_range 168 169 c || is_code 175 c))
                     || (is_code 226 a && is_code 129 b && is_code 159 c)
                     || (is_code 227 a && is_code 128 b && is_code 128 c)
                  then Some s3
                  else None
              | EmptyString => None
              end
        | EmptyString => None
        end
  | EmptyString => None
  end.

(** The same on the reversed string, whose characters end with their lead
    byte. *)
Definition skip_ws_rev (s : string) : option string :=
  match s with
  | String c s1 =>
      if ascii_ws c then Some s1
      else
        match s1 with
        | String b s2 =>
            if is_code 194 b && (is_code 133 c || is_code 160 c) then Some s2
            else
              match s2 with
              | String a s3 =>
                  if (is_code 225 a && is_code 154 b && is_code 128 c)
                     || (is_code 226 a && is_code 128 b
                         && (in_range 128 138 c || in_range 168 169 c || is_code 175 c))
                     || (is_code 226 a && is_code 129 b && is_code 159 c)
                     || (is_code 227 a && is_code 128 b && is_code 128 c)
                  then Some s3
                  else None
              | EmptyString => None
              end
        | EmptyString => None
        end
  | EmptyString => None
  end.

Fixpoint skip_while (skip : string -> option string) (fuel : nat) (s : string) : string :=
  match fuel with
  | O => s
  | S fuel' =>
      match skip s with
      | Some s' => skip_while skip fuel' s'
      | None => s
      end
  end.

Fixpoint str_rev (s acc : string) : string :=
  match s with
  | EmptyString => acc
  | String c s' => str_rev s' (String c acc)
  end.

Definition trim (s : string) : string :=
  let n := String.length s in
  str_rev (skip_while skip_ws_rev n (str_rev (skip_while skip_ws n s) "")) "".

(** ** Unsigned decimal integers *)

Definition digit_of (c : ascii) : option N :=
  if in_range 48 57 c then Some (code c - 48)%N else None.

Fixpoint parse_digits (acc : N) (s : string) : option N :=
  match s with
  | EmptyString => Some acc
  | String c s' => d ← digit_of c; parse_digits (acc * 10 + d) s'
  end.

(** [str::parse] at an unsigned type of largest value [max]: digits, at least
    one, after at most one [+]; a value past [max] is an error. *)
Definition parse_uint (max : N) (s : string) : option N :=
  let digits :=
    match s with
    | String c s' => if is_code 43 c then s' else s
    | EmptyString => s
    end in
  if is_empty digits then None
  else n ← parse_digits 0 digits; if (n <=? max)%N then Some n else None.

Definition parse_u16 : string -> option N := parse_uint u16_MAX.
Definition parse_u64 : string -> option N := parse_uint u64_MAX.

Definition digit (n : N) : ascii := ascii_of_N (48 + n).

Fixpoint show_digits (fuel : nat) (n : N) (acc : string) : string :=
  let acc' := String (digit (n mod 10)) acc in
  match fuel with
  | O => acc'
  | S fuel' => if (n / 10 =? 0)%N then acc' else show_digits fuel' (n / 10) acc'
  end.

(** [to_string] at an unsigned type; a number has at most as many decimal as
    binary digits, so the fuel is enough. *)
Definition show (n : N) : string := show_digits (N.size_nat n) n "".

Definition show_Z (z : Z) : string :=
  if (z <? 0)%Z then "-" ++ show (Z.to_N (- z)) else show (Z.to_N z).

(** ** UTF-8 *)

Definition bcode (b : byte) : N := Byte.to_N b.

Definition brange (lo hi : N) (b : byte) : bool := (lo <=? bcode b)%N && (bcode b <=? hi)%N.

Definition continuation : byte -> bool := brange 128 191.

(** The leads of two-byte characters, and the first two bytes of three- and
    four-byte ones: Unicode's table of well-formed sequences. *)
Definition lead2 : byte -> bool := brange 194 223.

Definition lead3 (b0 b1 : byte) : bool :=
  (brange 224 224 b0 && brange 160 191 b1)
  || (brange 225 236 b0 && brange 128 191 b1)
  || (brange 237 237 b0 && brange 128 159 b1)
  || (brange 238 239 b0 && brange 128 191 b1).

Definition lead4 (b0 b1 : byte) : bool :=
  (brange 240 240 b0 && brange 144 191 b1)
  || (brange 241 243 b0 && brange 128 191 b1)
  || (brange 244 244 b0 && brange 128 143 b1).

(** U+FFFD *)
Definition replacement : bytes := [xef; xbf; xbd].

(** [String::from_utf8_lossy] on bytes: each maximal ill-formed run becomes one
    replacement character. *)
Fixpoint lossy (s : bytes) : bytes :=
  match s with
  | [] => []
  | b0 :: r0 =>
      if brange 0 127 b0 then b0 :: lossy r0
      else
        match r0 with
        | [] => replacement
        | b1 :: r1 =>
            if lead2 b0 && continuation b1 then b0 :: b1 :: lossy r1
            else if lead3 b0 b1 then
              match r1 with
              | [] => replacement
              | b2 :: r2 =>
                  if continuation b2 then b0 :: b1 :: b2 :: lossy r2
                  else replacement ++ lossy r1
              end
            else if lead4 b0 b1 then
              match r1 with
              | [] => replacement
              | b2 :: r2 =>
                  if continuation b2 then
                    match r2 with
                    | [] => replacement
                    | b3 :: r3 =>
                        if continuation b3 then b0 :: b1 :: b2 :: b3 :: lossy r3
                        else replacement ++ lossy r2
                    end
                  else replacement ++ lossy r1
              end
            else replacement ++ lossy r0
        end
  end.

(** [str::from_utf8] succeeds *)
Fixpoint utf8_valid (s : bytes) : bool :=
  match s with
  | [] => true
  | b0 :: r0 =>
      if brange 0 127 b0 then utf8_valid r0
      else
        match r0 with
        | [] => false
        | b1 :: r1 =>
            if lead2 b0 && continuation b1 then utf8_valid r1
            else
              match r1 with
              | [] => false
              | b2 :: r2 =>
                  if lead3 b0 b1 then continuation b2 && utf8_valid r2
                  else
                    match r2 with
                    | [] => false
                    | b3 :: r3 =>
                        lead4 b0 b1 && continuation b2 && continuation b3 && utf8_valid r3
                    end
              end
        end
  end.

Definition from_utf8 (s : bytes) : option string :=
  if utf8_valid s then Some (of_bytes s) else None.

Definition from_utf8_lossy (s : bytes) : string := of_bytes (lossy s).

(** ** [Debug] of a string

    Quoted, with the quote, the backslash and the ASCII control characters
    escaped.  Characters outside ASCII are passed through, which is what Rust
    does for the printable ones. *)

Definition dquote : ascii := ascii_of_N 34.

Definition hex_digit (n : N) : ascii :=
  if (n <? 10)%N then ascii_of_N (48 + n) else ascii_of_N (87 + n).

Definition escape_char (c : ascii) : string :=
  let n := code c in
  if (n =? 34)%N then String "\" (String dquote "")
  else if (n =? 92)%N then "\\"
  else if (n =? 10)%N then "\n"
  else if (n =? 13)%N then "\r"
  else if (n =? 9)%N then "\t"
  else if (n =? 0)%N then "\0"
  else if (n <? 16)%N then "\u{" ++ String (hex_digit n) "}"
  else if (n <? 32)%N || (n =? 127)%N then
    "\u{" ++ String (hex_digit (n / 16)) (String (hex_digit (n mod 16)) "}")
  else String c "".

Fixpoint escape (s : string) : string :=
  match s with
  | EmptyString => EmptyString
  | String c s' => escape_char c ++ escape s'
  end.

Definition debug_str (s : string) : string := String dquote (escape s ++ String dquote "").

(** ** Lemmas *)

Lemma str_app_nil_r (s : string) : s ++ "" = s.
Proof. induction s; cbn; congruence. Qed.

Lemma str_app_assoc (a b c : string) : (a ++ b) ++ c = a ++ (b ++ c).
Proof. induction a; cbn; congruence. Qed.

Lemma str_length_app (a b : string) :
  String.length (a ++ b) = (String.length a + String.length b)%nat.
Proof. induction a; cbn; congruence. Qed.

Lemma str_take_app (a b : string) : str_take (String.length a) (a ++ b) = a.
Proof. induction a; cbn; [by destruct b | congruence]. Qed.

Lemma str_drop_app (a b : string) : str_drop (String.length a) (a ++ b) = b.
Proof. induction a; cbn; congruence. Qed.

Lemma map_chars_app f (a b : string) : map_chars f (a ++ b) = map_chars f a ++ map_chars f b.
Proof. induction a; cbn; congruence. Qed.

Lemma eq_ignore_ascii_case_refl s : eq_ignore_ascii_case s s = true.
Proof. apply String.eqb_refl. Qed.

Lemma eq_ignore_ascii_case_spec a b :
  eq_ignore_ascii_case a b = true <-> lowercase a = lowercase b.
Proof. apply String.eqb_eq. Qed.

Lemma split_once_app c (a b : string) :
  contains_char c a = false -> split_once c (a ++ String c b) = Some (a, b).
Proof.
  induction a as [|d a IH]; cbn; intros H.
  - by rewrite Ascii.eqb_refl.
  - apply orb_false_elim in H as [-> H]. by rewrite IH.
Qed.

Lemma split_once_none c (a : string) : contains_char c a = false -> split_once c a = None.
Proof.
  induction a as [|d a IH]; cbn; [done|]. intros H.
  apply orb_false_elim in H as [-> H]. by rewrite IH.
Qed.

Lemma split_none c (a : string) : contains_char c a = false -> split c a = [a].
Proof.
  induction a as [|d a IH]; cbn; [done|]. destruct (Ascii.eqb c d); [done|]. intros Ha. by rewrite (IH Ha).
Qed.

Lemma split_app c (a b : string) :
  contains_char c a = false -> split c (a ++ String c b) = a :: split c b.
Proof.
  induction a as [|d a IH]; cbn; [by rewrite Ascii.eqb_refl|].
  destruct (Ascii.eqb c d); [done|]. intros Ha. by rewrite (IH Ha).
Qed.

Lemma rsplit_once_none c (a : string) : contains_char c a = false -> rsplit_once c a = None.
Proof.
  induction a as [|d a IH]; cbn; [done|]. intros H.
  apply orb_false_elim in H as [Hd H]. by rewrite IH, Hd.
Qed.

Lemma rsplit_once_app c (a b : string) :
  contains_char c b = false -> rsplit_once c (a ++ String c b) = Some (a, b).
Proof.
  intros Hb. induction a as [|d a IH]; cbn.
  - by rewrite rsplit_once_none, Ascii.eqb_refl.
  - by rewrite IH.
Qed.

Lemma find_char_app c (a b : string) :
  contains_char c a = false -> find_char c (a ++ String c b) = Some (String.length a).
Proof.
  induction a as [|d a IH]; cbn; intros H.
  - by rewrite Ascii.eqb_refl.
  - apply orb_false_elim in H as [-> H]. by rewrite IH.
Qed.

Lemma contains_char_app c (a b : string) :
  contains_char c (a ++ b) = contains_char c a || contains_char c b.
Proof. induction a; cbn; [done|]. rewrite IHa. by rewrite orb_assoc. Qed.

(** Printing and parsing numbers. *)

Lemma digit_code n : (n < 10)%N -> code (digit n) = (48 + n)%N.
Proof. intros. unfold code, digit. apply N_ascii_embedding. lia. Qed.

Lemma digit_of_digit n : (n < 10)%N -> digit_of (digit n) = Some n.
Proof.
  intros Hn. unfold digit_of, in_range. rewrite (digit_code n Hn).
  rewrite (proj2 (N.leb_le _ _)), (proj2 (N.leb_le _ _)) by lia. cbn. f_equal. lia.
Qed.

Lemma mod10_lt n : (n mod 10 < 10)%N.
Proof. by apply N.mod_lt. Qed.

Lemma parse_show_digits fuel n a acc :
  (n < 10 ^ N.of_nat (S fuel))%N ->
  exists k, parse_digits a (show_digits fuel n acc) = parse_digits (a * 10 ^ k + n) acc.
Proof.
  revert n acc. induction fuel as [|fuel IH]; intros n acc Hn; cbn [show_digits].
  - change (10 ^ N.of_nat 1)%N with 10%N in Hn. exists 1%N. rewrite N.mod_small by lia.
    cbn [parse_digits]. by rewrite (digit_of_digit n Hn).
  - assert (Hdiv : (n = 10 * (n / 10) + n mod 10)%N) by apply N.div_mod'.
    pose proof (mod10_lt n) as Hm.
    destruct (N.eqb_spec (n / 10) 0) as [H0|H0].
    + exists 1%N. cbn [parse_digits]. rewrite (digit_of_digit _ Hm); cbn.
      f_equal. lia.
    + destruct (IH (n / 10)%N (String (digit (n mod 10)) acc)) as [k Hk].
      { apply N.Div0.div_lt_upper_bound. rewrite Nat2N.inj_succ, N.pow_succ_r' in Hn. lia. }
      exists (N.succ k). rewrite Hk. cbn [parse_digits]. rewrite (digit_of_digit _ Hm); cbn.
      f_equal. rewrite N.pow_succ_r'. lia.
Qed.

Lemma size_nat_pow10 n : (n < 10 ^ N.of_nat (S (N.size_nat n)))%N.
Proof.
  destruct n as [|p]; [done|].
  apply N.lt_le_trans with (2 ^ N.size (N.pos p))%N; [apply N.size_gt|].
  replace (N.size (N.pos p)) with (N.of_nat (N.size_nat (N.pos p))).
  - etransitivity; [apply (N.pow_le_mono_l 2 10); lia | apply N.pow_le_mono_r; lia].
  - cbn. induction p; cbn; lia.
Qed.

Lemma parse_digits_show n : parse_digits 0 (show n) = Some n.
Proof.
  unfold show. destruct (parse_show_digits _ n 0 "" (size_nat_pow10 n)) as [k ->].
  reflexivity.
Qed.

Lemma show_head fuel n acc :
  exists d s, show_digits fuel n acc = String (digit d) s /\ (d < 10)%N.
Proof.
  revert n acc. induction fuel as [|fuel IH]; intros n acc; cbn.
  - eexists _, _. split; [reflexivity | apply mod10_lt].
  - case_match; [|apply IH]. eexists _, _. split; [reflexivity | apply mod10_lt].
Qed.

Lemma parse_uint_show max n : (n <= max)%N -> parse_uint max (show n) = Some n.
Proof.
  intros Hn. pose proof (parse_digits_show n) as Hp.
  destruct (show_head (N.size_nat n) n "") as (d & s & Hs & Hd).
  unfold parse_uint. fold (show n) in Hs. rewrite Hs in *.
  replace (is_code 43 (digit d)) with false.
  - cbn [is_empty]. rewrite Hp. cbn. by rewrite (proj2 (N.leb_le _ _) Hn).
  - unfold is_code. rewrite digit_code by done. symmetry. apply N.eqb_neq. lia.
Qed.

Lemma parse_uint_bound max s n : parse_uint max s = Some n -> (n <= max)%N.
Proof.
  unfold parse_uint. case_match; [done|].
  destruct (parse_digits _ _) as [k|]; cbn; [|done].
  destruct (N.leb_spec k max); intros; simplify_eq. done.
Qed.

Lemma show_digits_no_char c fuel n acc :
  digit_of c = None -> contains_char c acc = false ->
  contains_char c (show_digits fuel n acc) = false.
Proof.
  intros Hc. revert n acc. induction fuel as [|fuel IH]; intros n acc Hacc; cbn.
  - rewrite Hacc, orb_false_r. apply Ascii.eqb_neq. intros ->.
    by rewrite digit_of_digit in Hc by apply mod10_lt.
  - assert (Hd : contains_char c (String (digit (n mod 10)) acc) = false).
    { cbn. rewrite Hacc, orb_false_r. apply Ascii.eqb_neq. intros ->.
      by rewrite digit_of_digit in Hc by apply mod10_lt. }
    case_match; [exact Hd | by apply IH].
Qed.

Lemma show_no_char c n : digit_of c = None -> contains_char c (show n) = false.
Proof. intros. by apply show_digits_no_char. Qed.

(** Well-formed text survives the lossy conversion, which always gives
    well-formed text. *)

Lemma brange_spec lo hi b : brange lo hi b = true <-> (lo <= bcode b <= hi)%N.
Proof. unfold brange. lia. Qed.

Lemma lossy_id s : utf8_valid s = true -> lossy s = s.
Proof.
  remember (length s) as n eqn:Hn. revert s Hn.
  induction n as [n IH] using lt_wf_ind. intros s -> H.
  destruct s as [|b0 r0]; cbn in *; [done|].
  assert (Hs : forall t, (length t < S (length r0))%nat -> utf8_valid t = true -> lossy t = t).
  { intros t Ht. eapply IH; [exact Ht | done]. }
  clear IH. case_match; [f_equal; apply Hs; [lia|done]|].
  destruct r0 as [|b1 r1]; [done|]. cbn [length] in Hs.
  case_match; [do 2 f_equal; apply Hs; [lia|done]|].
  destruct r1 as [|b2 r2]; [done|]. cbn [length] in Hs.
  case_match.
  { apply andb_prop in H as [-> H]. do 3 f_equal. apply Hs; [lia|done]. }
  destruct r2 as [|b3 r3]; [done|]. cbn [length] in Hs.
  apply andb_prop in H as [[[-> ->]%andb_prop ->]%andb_prop H].
  do 4 f_equal. apply Hs; [lia|done].
Qed.

Lemma replacement_valid s : utf8_valid s = true -> utf8_valid (replacement ++ s) = true.
Proof. done. Qed.

Lemma lossy_valid s : utf8_valid (lossy s) = true.
Proof.
  remember (length s) as n eqn:Hn. revert s Hn.
  induction n as [n IH] using lt_wf_ind. intros s ->.
  assert (Hs : forall t, (length t < length s)%nat -> utf8_valid (lossy t) = true).
  { intros t Ht. by eapply IH. }
  clear IH.
  destruct s as [|b0 r0]; [done|]. cbn [lossy length] in *.
  destruct (brange 0 127 b0) eqn:E0; [cbn; rewrite E0; apply Hs; lia|].
  destruct r0 as [|b1 r1]; [done|]. cbn [length] in *.
  destruct (lead2 b0 && continuation b1) eqn:E2; [cbn; rewrite E0, E2; apply Hs; lia|].
  destruct (lead3 b0 b1) eqn:E3.
  { destruct r1 as [|b2 r2]; [done|]. cbn [length] in *.
    destruct (continuation b2) eqn:C2;
      [cbn; rewrite E0, E2, E3, C2; apply Hs; lia | apply replacement_valid, Hs; cbn; lia]. }
  destruct (lead4 b0 b1) eqn:E4; [|apply replacement_valid, Hs; cbn; lia].
  destruct r1 as [|b2 r2]; [done|]. cbn [length] in *.
  destruct (continuation b2) eqn:C2; [|apply replacement_valid, Hs; cbn; lia].
  destruct r2 as [|b3 r3]; [done|]. cbn [length] in *.
  destruct (continuation b3) eqn:C3;
    [cbn; rewrite E0, E2, E3, E4, C2, C3; apply Hs; lia | apply replacement_valid, Hs; cbn; lia].
Qed.

Example trim_ex : trim "  keep-alive	" = "keep-alive".
Proof. reflexivity. Qed.
