(* ===== verification/Types.v ===== *)
(** * The vocabulary both runtimes share

    Owned data that crosses between Envoy's workers and the Ruby thread:
    errors ([src/src/error.rs]), responses ([src/src/response.rs]) and Envoy's
    view of a request ([src/src/context.rs]). *)

From S2P Require Import Prelude RustStr.
From Stdlib Require Import Floats.SpecFloat.

Local Open Scope string_scope.

(** ** Errors *)

Inductive BridgeError :=
| Io (message : string)
| Spawn (message : string)
| Startup (message : string)
| Ruby (message : string)
| InvalidResponse (message : string)
| Overloaded
| RuntimeStopped
| ResponseTimeout
| RuntimePanicked (message : string)
| Upstream (message : string)
| UpstreamTooLarge (message : string)
| UpstreamOverflow (message : string).

#[export] Instance BridgeError_eq_dec : EqDecision BridgeError.
Proof. solve_decision. Defined.

(** [impl Display for BridgeError] *)
Definition error_to_string (error : BridgeError) : string :=
  match error with
  | Io message => "bridge I/O error: " ++ message
  | Spawn message => "failed to spawn Ruby runtime thread: " ++ message
  | Startup message => "Ruby runtime startup failed: " ++ message
  | Ruby message => "Ruby call failed: " ++ message
  | InvalidResponse message => "invalid Rack-like response: " ++ message
  | Overloaded => "Ruby runtime admission limit reached"
  | RuntimeStopped => "Ruby runtime has stopped"
  | ResponseTimeout => "timed out waiting for Ruby runtime"
  | RuntimePanicked message => "Ruby runtime panicked: " ++ message
  | Upstream message => "upstream call failed: " ++ message
  | UpstreamTooLarge message => "upstream response too large: " ++ message
  | UpstreamOverflow message => "upstream stream overflowed: " ++ message
  end.

(** A [magnus::Error], as far as the code uses it: its [Display] text. *)
Record MagnusError := { magnus_text : string }.

Definition ruby_error (context : string) (error : MagnusError) : BridgeError :=
  Ruby (context ++ ": " ++ magnus_text error).

(** What [Box<dyn Any + Send>] a panic carries can be downcast to. *)
Inductive PanicPayload :=
| PayloadStr (message : string)
| PayloadString (message : string)
| PayloadOther.

Definition panic_message (payload : PanicPayload) : string :=
  match payload with
  | PayloadStr message => message
  | PayloadString message => message
  | PayloadOther => "unknown panic payload"
  end.

(** ** Responses *)

Record Response := {
  resp_status : N;
  resp_headers : list (string * string);
  resp_body : bytes;
  resp_ruby_thread_object_id : N;
}.

(** [Response::header]: the first header matching [name], ignoring case. *)
Definition header (r : Response) (name : string) : option string :=
  snd <$> List.find (fun '(key, _) => eq_ignore_ascii_case key name) (resp_headers r).

Record ResponseHead := {
  status : N;
  headers : list (string * string);
  ruby_thread_object_id : N;
}.

#[export] Instance ResponseHead_eq_dec : EqDecision ResponseHead.
Proof. solve_decision. Defined.

(** ** Envoy's view of a request

    Metadata stores every number as a double: an [f64] is a [spec_float]. *)

Definition f64 : Set := spec_float.

Inductive MetadataValue :=
| MString (text : string)
| MNumber (number : f64)
| MBool (flag : bool)
| MList (values : list MetadataValue).

Record Namespace := {
  ns_name : string;
  ns_fields : list (string * MetadataValue);
}.

Record PeerCertificate := {
  subject : option string;
  uri_san : option string;
  dns_san : option string;
  sha256 : option string;
}.

Record Tls := {
  tls_version : string;
  tls_server_name : option string;
  peer_certificate : option PeerCertificate;
}.

Record Connection := {
  conn_id : option N;
  source_address : option string;
  source_port : option N;
  destination_address : option string;
  destination_port : option N;
}.

Record Context := {
  route_name : option string;
  connection : Connection;
  tls : option Tls;
  dynamic_metadata : list Namespace;
  route_metadata : list Namespace;
}.

(** ** Time

    [Instant] and [Duration] are counts of nanoseconds; the clock itself is a
    parameter wherever the code reads it. *)

Definition Instant := N.
Definition Duration := N.

Definition NANOS_PER_MILLI : N := 1000000.
Definition NANOS_PER_SEC : N := 1000000000.

Definition as_millis (d : Duration) : N := (d / NANOS_PER_MILLI)%N.
Definition from_millis (ms : N) : Duration := (ms * NANOS_PER_MILLI)%N.
Definition from_secs (s : N) : Duration := (s * NANOS_PER_SEC)%N.

(** [later.duration_since(earlier)] and [saturating_duration_since]: both
    saturate at zero. *)
Definition duration_since (later earlier : Instant) : Duration := (later - earlier)%N.

(** How long a caller waits for a buffered response before giving up
    ([src/src/lib.rs]). *)
Definition DEFAULT_RESPONSE_TIMEOUT : Duration := from_secs 10.
