(* ===== verification/Budget.v ===== *)
(** * The admission budget ([src/src/budget.rs])

    A ceiling shared by every producer and enforced with a compare-and-swap
    loop.  The sequential operations come first; [Race] runs any number of
    [try_acquire] loops and lease drops against each other, one atomic access
    at a time, with relaxed loads that may return any value the counter ever
    held and weak exchanges that may fail for no reason. *)

From S2P Require Import Prelude.

Local Open Scope N_scope.

(** ** Data and sequential operations *)

Record Ceiling := { used : N; capacity : N }.

(** A [Lease] of the one budget in play: how much it holds. *)
Record Lease := { held : N }.

#[export] Instance Lease_eq_dec : EqDecision Lease.
Proof. solve_decision. Defined.

Definition Budget_new (capacity : N) : Ceiling := {| used := 0; capacity := capacity |}.

(** The test the loop makes on the value it read. *)
Definition refuses (b : Ceiling) (observed amount : N) : bool :=
  saturating_sub (capacity b) observed <? amount.

Definition add_used (b : Ceiling) (amount : N) : Ceiling :=
  {| used := usize_add (used b) amount; capacity := capacity b |}.

(** [fetch_sub] wraps. *)
Definition sub_used (b : Ceiling) (amount : N) : Ceiling :=
  {| used := (used b + width64 - amount) mod width64; capacity := capacity b |}.

(** [Budget::take], uninterrupted: the loop's first load is the current value
    and its first exchange succeeds. *)
Definition take_ (b : Ceiling) (amount : N) : bool * Ceiling :=
  if refuses b (used b) amount then (false, b) else (true, add_used b amount).

Definition try_acquire (b : Ceiling) (amount : N) : option Lease * Ceiling :=
  match take_ b amount with
  | (true, b') => (Some {| held := amount |}, b')
  | (false, b') => (None, b')
  end.

(** [impl Drop for Lease] *)
Definition drop_lease (lease : Lease) (b : Ceiling) : Ceiling := sub_used b (held lease).

(** ** The loop, one atomic access at a time *)

(** Where one acquisition stands in [take], or in the lease it returned. *)
Inductive Pc :=
| Start (amount : N)                (* about to load [used] *)
| Loop (amount observed : N)        (* at the top of the loop, having read [observed] *)
| Refused                           (* [take] returned [false] *)
| Holding (lease : Lease)           (* [take] returned [true]; the lease is alive *)
| Released.                         (* the lease was dropped *)

Record Race := {
  ceiling : Ceiling;
  history : list N;                 (* every value [used] has held *)
  threads : list Pc;
}.

Definition set_thread (r : Race) (i : nat) (pc : Pc) : Race :=
  {| ceiling := ceiling r; history := history r; threads := <[i := pc]> (threads r) |}.

Definition write_used (r : Race) (b : Ceiling) (i : nat) (pc : Pc) : Race :=
  {| ceiling := b; history := used b :: history r; threads := <[i := pc]> (threads r) |}.

Inductive race_step : Race -> Race -> Prop :=
| step_spawn r amount :
    race_step r {| ceiling := ceiling r; history := history r;
                   threads := threads r ++ [Start amount] |}
| step_load r i amount observed :
    threads r !! i = Some (Start amount) ->
    observed ∈ history r ->
    race_step r (set_thread r i (Loop amount observed))
| step_refuse r i amount observed :
    threads r !! i = Some (Loop amount observed) ->
    refuses (ceiling r) observed amount = true ->
    race_step r (set_thread r i Refused)
| step_exchange r i amount observed :
    threads r !! i = Some (Loop amount observed) ->
    refuses (ceiling r) observed amount = false ->
    used (ceiling r) = observed ->
    race_step r (write_used r (add_used (ceiling r) amount) i (Holding {| held := amount |}))
| step_exchange_failed r i amount observed other :
    threads r !! i = Some (Loop amount observed) ->
    refuses (ceiling r) observed amount = false ->
    other ∈ history r ->
    race_step r (set_thread r i (Loop amount other))
| step_drop r i lease :
    threads r !! i = Some (Holding lease) ->
    race_step r (write_used r (drop_lease lease (ceiling r)) i Released).

Definition race_init (capacity : N) : Race :=
  {| ceiling := Budget_new capacity; history := [0]; threads := [] |}.

Definition race_reachable (capacity : N) : Race -> Prop :=
  rtc race_step (race_init capacity).

(** What a thread holds, and what all of them do. *)
Definition holds (pc : Pc) : N :=
  match pc with
  | Holding lease => held lease
  | _ => 0
  end.

Definition held_by (l : list Pc) : N := foldr (fun pc n => holds pc + n) 0 l.

Definition lent (r : Race) : N := held_by (threads r).

(** ** Lemmas *)

Definition race_inv (r : Race) : Prop :=
  used (ceiling r) = lent r
  /\ used (ceiling r) <= capacity (ceiling r)
  /\ Forall (fun u => u <= capacity (ceiling r)) (history r)
  /\ used (ceiling r) ∈ history r
  /\ capacity (ceiling r) < width64.

Lemma lent_insert (l : list Pc) i pc pc' :
  l !! i = Some pc ->
  held_by (<[i := pc']> l) + holds pc = held_by l + holds pc'.
Proof.
  unfold held_by. revert i. induction l as [|p l IH]; intros [|i] H; simplify_eq/=; [lia|].
  specialize (IH _ H). lia.
Qed.

Lemma lent_app l k :
  held_by (l ++ k) = held_by l + held_by k.
Proof. unfold held_by. induction l as [|p l IH]; cbn [foldr app]; [done|]. rewrite IH. lia. Qed.

Lemma refuses_false b u a :
  u <= capacity b -> refuses b u a = false -> u + a <= capacity b.
Proof. unfold refuses, saturating_sub. lia. Qed.

Lemma refuses_spec b a :
  used b <= capacity b -> refuses b (used b) a = negb (used b + a <=? capacity b).
Proof. unfold refuses, saturating_sub. intros. lia. Qed.

Lemma sub_used_exact b a :
  a <= used b -> used b < width64 -> used (sub_used b a) = used b - a.
Proof.
  intros. cbn. replace (used b + width64 - a) with (used b - a + 1 * width64) by lia.
  rewrite N.Div0.mod_add. apply N.mod_small. lia.
Qed.

Lemma add_used_exact b a :
  used b + a < width64 -> used (add_used b a) = used b + a.
Proof. apply usize_add_small. Qed.

Lemma holds_le_lent (l : list Pc) i pc :
  l !! i = Some pc -> holds pc <= held_by l.
Proof.
  unfold held_by. revert i. induction l as [|p l IH]; intros [|i] H; simplify_eq/=; [lia|].
  specialize (IH _ H). lia.
Qed.

(** Moving a thread that holds nothing to another such place keeps the
    invariant. *)
Lemma race_inv_set r i pc pc' :
  threads r !! i = Some pc -> holds pc = 0 -> holds pc' = 0 ->
  race_inv r -> race_inv (set_thread r i pc').
Proof.
  intros Hi H0 H1 (Hu & Hc & Hh & Hin & Hw). repeat split; try done.
  unfold lent in *; cbn [ceiling threads set_thread]. pose proof (lent_insert _ _ _ pc' Hi). lia.
Qed.

Lemma race_inv_step r r' : race_step r r' -> race_inv r -> race_inv r'.
Proof.
  intros Hstep Hinv. pose proof Hinv as (Hu & Hc & Hh & Hin & Hw).
  destruct Hstep as [r a|r i a u Hi _|r i a u Hi _|r i a u Hi Hr Hob|r i a u v Hi _ _|r i l Hi].
  - repeat split; try done. unfold lent in *; cbn [ceiling threads].
    rewrite lent_app. cbn. lia.
  - by eapply race_inv_set.
  - by eapply race_inv_set.
  - subst u. pose proof (refuses_false _ _ _ Hc Hr) as Hfit.
    pose proof (lent_insert _ _ _ (Holding {| held := a |}) Hi) as Hl; cbn [holds held] in Hl.
    assert (Hused : used (add_used (ceiling r) a) = used (ceiling r) + a)
      by (apply add_used_exact; lia).
    unfold lent in Hu. repeat split; cbn [write_used ceiling history threads capacity].
    + rewrite Hused. unfold lent; cbn [threads write_used]. lia.
    + rewrite Hused. done.
    + constructor; [rewrite Hused; done | done].
    + apply elem_of_cons; by left.
    + done.
  - by eapply race_inv_set.
  - pose proof (holds_le_lent _ _ _ Hi) as Hle. cbn [holds held] in Hle. unfold lent in Hu.
    pose proof (lent_insert _ _ _ Released Hi) as Hl; cbn [holds held] in Hl.
    assert (Hused : used (drop_lease l (ceiling r)) = used (ceiling r) - held l)
      by (apply sub_used_exact; lia).
    repeat split; cbn [write_used ceiling history threads capacity].
    + rewrite Hused. unfold lent; cbn [threads write_used]. lia.
    + rewrite Hused. change (capacity (drop_lease l (ceiling r))) with (capacity (ceiling r)). lia.
    + constructor; [rewrite Hused|done].
      change (capacity (drop_lease l (ceiling r))) with (capacity (ceiling r)). lia.
    + apply elem_of_cons; by left.
    + done.
Qed.

Lemma race_inv_init c : c < width64 -> race_inv (race_init c).
Proof.
  intros Hc. repeat split; cbn; try done; try lia.
  - repeat constructor. lia.
  - apply elem_of_cons; by left.
Qed.

Lemma race_step_capacity r r' :
  race_step r r' -> capacity (ceiling r') = capacity (ceiling r).
Proof. by destruct 1. Qed.

Lemma race_reachable_inv c r :
  c < width64 -> race_reachable c r -> race_inv r /\ capacity (ceiling r) = c.
Proof.
  intros Hc Hr. unfold race_reachable in Hr.
  assert (Hi : race_inv (race_init c) /\ capacity (ceiling (race_init c)) = c)
    by (split; [by apply race_inv_init | done]).
  revert Hi. generalize (race_init c) Hr. clear Hr. intros r0 Hr.
  induction Hr as [r0|r0 r1 r2 Hs _ IH]; [done|].
  intros [Hi He]. apply IH. split; [by eapply race_inv_step|].
  by rewrite (race_step_capacity _ _ Hs).
Qed.

(** Sequential facts the runtime's client builds on. *)

Definition budget_ok (b : Ceiling) : Prop := used b <= capacity b /\ capacity b < width64.

Lemma budget_new_ok c : c < width64 -> budget_ok (Budget_new c).
Proof. unfold budget_ok; cbn; lia. Qed.

Lemma try_acquire_some b a b' l :
  budget_ok b -> try_acquire b a = (Some l, b') ->
  held l = a /\ used b' = used b + a /\ capacity b' = capacity b
  /\ used b + a <= capacity b.
Proof.
  intros [Hu Hw]. unfold try_acquire, take_. destruct (refuses b (used b) a) eqn:E;
    intros [= <- <-]. pose proof (refuses_false _ _ _ Hu E).
  rewrite add_used_exact by lia. done.
Qed.

Lemma try_acquire_none b a b' :
  budget_ok b -> try_acquire b a = (None, b') ->
  b' = b /\ capacity b < used b + a.
Proof.
  intros [Hu Hw]. unfold try_acquire, take_. destruct (refuses b (used b) a) eqn:E;
    intros [= <-]. unfold refuses, saturating_sub in E. split; [done|lia].
Qed.

Lemma drop_lease_used l b :
  budget_ok b -> held l <= used b -> used (drop_lease l b) = used b - held l.
Proof. intros [? ?] ?. apply sub_used_exact; lia. Qed.

(** ** Properties *)

(** C30: However the acquire loops and the lease drops of any number of threads
    interleave, whatever stale value a relaxed load returns and whichever weak
    exchange fails, the counter is exactly what the live leases hold, and never
    more than the capacity: the ceiling is never over-lent, a dropped lease
    returns all it took, and no addition or subtraction wraps. *)
Theorem budget_never_over_lent (c : N) (r : Race) :
  c < width64 -> race_reachable c r ->
  used (ceiling r) = lent r /\ lent r <= c
  /\ (Forall (fun pc => holds pc = 0) (threads r) -> used (ceiling r) = 0).
Proof.
  intros Hc Hr. destruct (race_reachable_inv c r Hc Hr) as [(Hu & Hl & _) <-].
  repeat split; [done | lia |].
  intros Hall. rewrite Hu. unfold lent.
  unfold held_by. induction Hall as [|pc l Hpc _ IH]; cbn; lia.
Qed.

(** A race of two acquisitions of two units under a ceiling of two. *)
Definition race_example : Race :=
  {| ceiling := {| used := 2; capacity := 2 |}; history := [2; 0];
     threads := [Holding {| held := 2 |}; Loop 2 0] |}.

Lemma race_example_reachable : race_reachable 2 race_example.
Proof.
  eapply rtc_l; [apply (step_spawn _ 2)|].
  eapply rtc_l; [apply (step_spawn _ 2)|].
  eapply rtc_l; [apply (step_load _ 0 2 0); [reflexivity | apply elem_of_cons; by left]|].
  eapply rtc_l; [apply (step_load _ 1 2 0); [reflexivity | apply elem_of_cons; by left]|].
  eapply rtc_l; [apply (step_exchange _ 0 2 0); reflexivity|].
  apply rtc_refl.
Qed.

Lemma budget_never_over_lent_witness :
  used (ceiling race_example) = lent race_example /\ lent race_example <= 2.
Proof.
  destruct (budget_never_over_lent 2 race_example) as (H1 & H2 & _);
    [reflexivity | apply race_example_reachable | split; assumption].
Defined.

(** From any reachable state, an acquisition that runs without interference
    leaves its loop at once: reading the current value, it holds a lease after
    one exchange exactly when the amount fits under what is lent, and is refused
    after the test otherwise; a refusal changes nothing. *)
Theorem budget_take_decides (c : N) (r : Race) (i : nat) (amount : N) :
  c < width64 -> race_reachable c r -> threads r !! i = Some (Start amount) ->
  exists r', race_step r (set_thread r i (Loop amount (used (ceiling r))))
    /\ race_step (set_thread r i (Loop amount (used (ceiling r)))) r'
    /\ (if lent r + amount <=? c
        then threads r' !! i = Some (Holding {| held := amount |})
             /\ used (ceiling r') = used (ceiling r) + amount
        else threads r' !! i = Some Refused /\ ceiling r' = ceiling r).
Proof.
  intros Hc Hr Hi. destruct (race_reachable_inv c r Hc Hr) as [(Hu & Hl & _ & Hin & Hw) <-].
  assert (Hlen : (i < length (threads r))%nat) by (by eapply lookup_lt_Some).
  set (r1 := set_thread r i (Loop amount (used (ceiling r)))).
  assert (Hi1 : threads r1 !! i = Some (Loop amount (used (ceiling r))))
    by (by apply list_lookup_insert_eq).
  pose proof (refuses_spec (ceiling r) amount Hl) as Href. rewrite <- Hu.
  destruct (used (ceiling r) + amount <=? capacity (ceiling r)) eqn:Hfit; cbn [negb] in Href.
  - eexists. split_and!.
    + by apply step_load.
    + eapply (step_exchange r1); [exact Hi1 | exact Href | done].
    + cbn. by rewrite list_insert_insert_eq, list_lookup_insert_eq.
    + apply add_used_exact. lia.
  - eexists. split_and!.
    + by apply step_load.
    + eapply (step_refuse r1); [exact Hi1 | exact Href].
    + cbn. by rewrite list_insert_insert_eq, list_lookup_insert_eq.
    + done.
Qed.

Definition race_started : Race :=
  {| ceiling := Budget_new 2; history := [0]; threads := [Start 2] |}.

Lemma budget_take_decides_witness :
  exists r', threads r' !! 0%nat = Some (Holding {| held := 2 |}).
Proof.
  destruct (budget_take_decides 2 race_started 0 2) as (r' & _ & _ & H).
  - reflexivity.
  - eapply rtc_l; [apply (step_spawn _ 2) | apply rtc_refl].
  - reflexivity.
  - exists r'. exact (proj1 H).
Defined.
