(* ===== verification/Stream.v ===== *)
(** * The byte-bounded queue ([src/src/stream.rs])

    [ResponseStream] is the hand-off between the Ruby thread and one Envoy
    worker stream, in either direction.  Every method takes the lock once, so
    each is one atomic transition on the record below. *)

From S2P Require Import Prelude Types.

Local Open Scope N_scope.

(** ** Data *)

Inductive StreamItem :=
| Head (head : ResponseHead)
| Chunk (chunk : bytes)
| End
| Failed (error : BridgeError).

#[export] Instance StreamItem_eq_dec : EqDecision StreamItem.
Proof. solve_decision. Defined.

(** [ResponseStreamInner] and the bound beside it. *)
Record ResponseStream := {
  items : list StreamItem;
  buffered_bytes : N;
  cancelled : bool;
  ended : bool;
  paused : bool;
  waiter : option Value;
  max_buffered_bytes : N;
}.

Definition stream_new (max_buffered_bytes : N) : ResponseStream :=
  {| items := []; buffered_bytes := 0; cancelled := false; ended := false;
     paused := false; waiter := None; max_buffered_bytes := N.max max_buffered_bytes 1 |}.

(** Field updates. *)

Definition set_items (s : ResponseStream) (its : list StreamItem) (buffered : N) (end_ : bool)
    : ResponseStream :=
  {| items := its; buffered_bytes := buffered; cancelled := cancelled s; ended := end_;
     paused := paused s; waiter := waiter s; max_buffered_bytes := max_buffered_bytes s |}.

Definition set_waiter (s : ResponseStream) (w : option Value) : ResponseStream :=
  {| items := items s; buffered_bytes := buffered_bytes s; cancelled := cancelled s;
     ended := ended s; paused := paused s; waiter := w;
     max_buffered_bytes := max_buffered_bytes s |}.

(** ** Observations *)

Definition full (s : ResponseStream) : bool :=
  paused s || (max_buffered_bytes s <=? buffered_bytes s).

Definition is_saturated (s : ResponseStream) : bool := full s.

Definition spare_capacity (s : ResponseStream) : N :=
  saturating_sub (max_buffered_bytes s) (buffered_bytes s).

Definition writer_owed_wakeup (s : ResponseStream) : bool :=
  bool_decide (is_Some (waiter s)) && (cancelled s || negb (full s)).

Definition is_finished (s : ResponseStream) : bool :=
  cancelled s || (ended s && (buffered_bytes s =? 0)).

Definition is_cancelled (s : ResponseStream) : bool := cancelled s.

(** ** Operations *)

Definition cancel (s : ResponseStream) : ResponseStream :=
  {| items := []; buffered_bytes := 0; cancelled := true; ended := ended s;
     paused := paused s; waiter := waiter s; max_buffered_bytes := max_buffered_bytes s |}.

Definition set_paused (p : bool) (s : ResponseStream) : ResponseStream :=
  {| items := items s; buffered_bytes := buffered_bytes s; cancelled := cancelled s;
     ended := ended s; paused := p; waiter := waiter s;
     max_buffered_bytes := max_buffered_bytes s |}.

Definition park (w : Value) : St ResponseStream bool := fun s =>
  if (0 <? buffered_bytes s) || ended s || cancelled s then (false, s)
  else (true, set_waiter s (Some w)).

Definition unpark : St ResponseStream (option Value) := fun s =>
  (waiter s, set_waiter s None).

Definition park_writer (w : Value) : St ResponseStream bool := fun s =>
  if cancelled s || negb (full s) then (false, s)
  else (true, set_waiter s (Some w)).

Definition push (item : StreamItem) : St ResponseStream bool := fun s =>
  if cancelled s || ended s then (false, s)
  else
    let buffered :=
      match item with
      | Chunk chunk => usize_add (buffered_bytes s) (len chunk)
      | End | Failed _ | Head _ => buffered_bytes s
      end in
    let end_ :=
      match item with
      | End | Failed _ => true
      | Chunk _ | Head _ => ended s
      end in
    (true, set_items s (items s ++ [item]) buffered end_).

Definition push_head (head : ResponseHead) : St ResponseStream bool := push (Head head).
Definition push_chunk (chunk : bytes) : St ResponseStream bool := push (Chunk chunk).
Definition push_end : St ResponseStream bool := push End.
Definition push_failure (error : BridgeError) : St ResponseStream bool := push (Failed error).

Definition push_chunk_within_budget (b : bytes) : St ResponseStream (option N) := fun s =>
  if cancelled s || ended s then (None, s)
  else
    let taken := N.min (len b) (saturating_sub (max_buffered_bytes s) (buffered_bytes s)) in
    (Some taken,
      if 0 <? taken
      then set_items s (items s ++ [Chunk (ntake taken b)])
             (usize_add (buffered_bytes s) taken) (ended s)
      else s).

Definition push_chunk_if_room (chunk : bytes) : St ResponseStream (option bool) := fun s =>
  if cancelled s || ended s then (None, s)
  else
    let room := saturating_sub (max_buffered_bytes s) (buffered_bytes s) in
    if (0 <? buffered_bytes s) && (room <? len chunk) then (Some false, s)
    else
      (Some true,
        set_items s (items s ++ [Chunk chunk]) (usize_add (buffered_bytes s) (len chunk))
          (ended s)).

Definition take_next : St ResponseStream (option StreamItem) := fun s =>
  if paused s then (None, s)
  else
    match items s with
    | [] => (None, s)
    | item :: rest =>
        let buffered :=
          match item with
          | Chunk chunk => saturating_sub (buffered_bytes s) (len chunk)
          | _ => buffered_bytes s
          end in
        (Some item, set_items s rest buffered (ended s))
    end.

(** ** Handles and owed wakeups

    An [Arc<ResponseStream>] is a reference into the shared store: a queue of its
    own, or one direction of a streamed call's channel. *)

Inductive QRef :=
| Direct (n : N)
| ResponseOf (channel : N)
| RequestOf (channel : N).

#[export] Instance QRef_eq_dec : EqDecision QRef.
Proof. solve_decision. Defined.

(** A [StreamWaker] is a closure that owns an Envoy scheduler and commits one
    event to the filter it was made for; calling it adds to the posted events. *)
Record Waker := { waker_filter : N; waker_event : N }.

#[export] Instance Waker_eq_dec : EqDecision Waker.
Proof. solve_decision. Defined.

Definition call_waker (w : Waker) (posted : list Waker) : list Waker := posted ++ [w].

Record StreamHandle := { stream : QRef; waker : Waker }.

Definition wake (h : StreamHandle) (posted : list Waker) : list Waker :=
  call_waker (waker h) posted.

(** A queue that takes nothing more. *)
Definition settled (s : ResponseStream) : bool := cancelled s || ended s.

(** [Wakeups]: the streams whose parked fiber is owed a wakeup. *)
Definition owe (r : QRef) (owed : list QRef) : list QRef := owed ++ [r].
Definition take_owed : St (list QRef) (list QRef) := fun owed => (owed, []).

(** ** The bytes a queue holds *)

Definition item_bytes (item : StreamItem) : bytes :=
  match item with
  | Chunk chunk => chunk
  | _ => []
  end.

Definition queued_bytes (its : list StreamItem) : bytes := its ≫= item_bytes.

Definition terminal (item : StreamItem) : bool :=
  match item with
  | End | Failed _ => true
  | _ => false
  end.

Lemma queued_bytes_app l k : queued_bytes (l ++ k) = (queued_bytes l ++ queued_bytes k)%list.
Proof. apply bind_app. Qed.

Lemma queued_bytes_cons item l : queued_bytes (item :: l) = (item_bytes item ++ queued_bytes l)%list.
Proof. reflexivity. Qed.

#[export] Hint Rewrite @queued_bytes_app @queued_bytes_cons : len.

(** ** Well-formed queues

    [buffered_bytes] is what the queued chunks hold, a cancelled queue is empty,
    and only the last queued item can be terminal, which then has ended the
    queue. *)

Record stream_wf (s : ResponseStream) : Prop := {
  wf_buffered : buffered_bytes s = len (queued_bytes (items s));
  wf_max : 1 <= max_buffered_bytes s < width64;
  wf_width : buffered_bytes s < width64;
  wf_cancelled : cancelled s = true -> items s = [];
  wf_open : ended s = false -> Forall (fun i => terminal i = false) (items s);
  wf_last : forall l i k, items s = (l ++ i :: k)%list -> terminal i = true -> k = [];
}.

Lemma stream_new_wf n : n < width64 -> stream_wf (stream_new n).
Proof.
  unfold width64. intros H. constructor; cbn; unfold width64; try done; try lia.
  by intros [|? ?] ? ? [=].
Qed.

(** Appending one item to an open queue. *)
Lemma open_push_wf s item e :
  stream_wf s -> cancelled s = false -> ended s = false ->
  e = terminal item ->
  len (queued_bytes (items s)) + len (item_bytes item) < width64 ->
  stream_wf (set_items s (items s ++ [item])
               (len (queued_bytes (items s)) + len (item_bytes item)) e).
Proof.
  intros [Hb Hm Hw Hc Ho Hl] Hcan Hend -> Hroom.
  constructor; cbn [set_items items buffered_bytes cancelled ended max_buffered_bytes]; try done.
  - autorewrite with len. change (queued_bytes []) with (@nil byte). len_lia.
  - by rewrite Hcan.
  - intros Ht. apply Forall_app. split; [by apply Ho | by constructor].
  - intros l i k Heq Ht. destruct k as [|j k _] using rev_ind; [done|].
    exfalso. rewrite app_comm_cons, app_assoc in Heq. apply app_inj_tail in Heq as [Heq _].
    specialize (Ho Hend). rewrite Heq in Ho. apply Forall_app in Ho as [_ Ho].
    apply Forall_cons_1 in Ho as [Ho _]. congruence.
Qed.

Lemma push_wf item s :
  stream_wf s -> buffered_bytes s + len (item_bytes item) < width64 ->
  stream_wf (push item s).2.
Proof.
  intros Hwf Hroom. unfold push. destruct (cancelled s || ended s) eqn:E; [done|].
  apply orb_false_elim in E as [Hc He].
  pose proof (wf_buffered _ Hwf) as Hb. rewrite Hb in Hroom.
  pose proof (open_push_wf s item (terminal item) Hwf Hc He eq_refl Hroom) as H.
  destruct item; cbn [item_bytes terminal snd] in *;
    try rewrite len_nil, N.add_0_r in H; rewrite Hb; try rewrite usize_add_small by lia;
    rewrite ?He; exact H.
Qed.

Lemma push_chunk_within_budget_wf b s :
  stream_wf s -> stream_wf (push_chunk_within_budget b s).2.
Proof.
  intros Hwf. unfold push_chunk_within_budget, saturating_sub.
  destruct (cancelled s || ended s) eqn:E; [done|].
  apply orb_false_elim in E as [Hc He]. cbn [snd].
  destruct (0 <? _) eqn:Et; [|done]. pose proof (wf_buffered _ Hwf). pose proof (wf_max _ Hwf).
  set (n := N.min _ _) in *.
  pose proof (open_push_wf s (Chunk (ntake n b)) (terminal End && false) Hwf Hc He) as H1.
  cbn [item_bytes terminal andb] in H1. rewrite len_ntake in H1.
  replace (N.min n (len b)) with n in H1 by lia.
  rewrite He, usize_add_small by lia. rewrite wf_buffered by done. apply H1; [done|lia].
Qed.

Lemma push_chunk_if_room_wf c s :
  stream_wf s -> len c < width64 -> stream_wf (push_chunk_if_room c s).2.
Proof.
  intros Hwf Hlen. unfold push_chunk_if_room, saturating_sub.
  destruct (cancelled s || ended s) eqn:E; [done|].
  apply orb_false_elim in E as [Hc He].
  destruct (_ && _) eqn:Et; [done|].
  pose proof (wf_buffered _ Hwf). pose proof (wf_max _ Hwf). pose proof (wf_width _ Hwf).
  pose proof (open_push_wf s (Chunk c) false Hwf Hc He) as Hp. cbn [item_bytes terminal snd] in *.
  rewrite He, usize_add_small by lia. rewrite wf_buffered by done. apply Hp; [done|lia].
Qed.

Lemma take_next_wf s : stream_wf s -> stream_wf (take_next s).2.
Proof.
  intros Hwf. unfold take_next, saturating_sub. destruct (paused s); [done|].
  destruct (items s) as [|i rest] eqn:Ei; [done|]. destruct Hwf as [Hb Hm Hw Hc Ho Hl].
  rewrite Ei in *. cbn [snd].
  assert (Hi : match i with Chunk chunk => buffered_bytes s - len chunk | _ => buffered_bytes s end
               = len (queued_bytes rest)).
  { rewrite queued_bytes_cons, len_app in Hb. destruct i; cbn [item_bytes] in Hb; rewrite ?len_nil in *; lia. }
  rewrite Hi. constructor; cbn; try done.
  - rewrite queued_bytes_cons, len_app in Hb. lia.
  - intros H. by specialize (Hc H).
  - intros H. specialize (Ho H). by apply Forall_cons_1 in Ho as [_ ?].
  - intros l j k Heq. apply (Hl (i :: l)). by rewrite Heq.
Qed.

Lemma cancel_wf s : stream_wf s -> stream_wf (cancel s).
Proof.
  intros [Hb Hm Hw Hc Ho Hl]. constructor; cbn; try done. by intros [|? ?] ? ? [=].
Qed.

Lemma set_paused_wf p s : stream_wf s -> stream_wf (set_paused p s).
Proof. by intros []; constructor. Qed.

Lemma set_waiter_wf w s : stream_wf s -> stream_wf (set_waiter s w).
Proof. by intros []; constructor. Qed.

Lemma park_wf w s : stream_wf s -> stream_wf (park w s).2.
Proof. unfold park. case_match; [done | apply set_waiter_wf]. Qed.

Lemma park_writer_wf w s : stream_wf s -> stream_wf (park_writer w s).2.
Proof. unfold park_writer. case_match; [done | apply set_waiter_wf]. Qed.

Lemma unpark_wf s : stream_wf s -> stream_wf (unpark s).2.
Proof. apply set_waiter_wf. Qed.

#[export] Hint Resolve stream_new_wf push_wf push_chunk_within_budget_wf push_chunk_if_room_wf
  take_next_wf cancel_wf set_paused_wf set_waiter_wf park_wf park_writer_wf unpark_wf : ruvoy.
