(* ===== verification/StreamTrace.v ===== *)
(** * What a [ResponseStream] promises

    [StreamOp] is one locked method call, [impl_run] a whole schedule of them from a
    fresh queue.  [Channel] is the specification: a log of everything accepted, a
    cursor, and flags; every answer is computed from the log.  The queue refines
    it, and the bounds on buffered bytes follow for whole schedules. *)

From S2P Require Import Prelude Types Stream.

Local Open Scope N_scope.

(** ** Schedules of method calls *)

Inductive StreamOp :=
| OpCancel
| OpPause (p : bool)
| OpPush (item : StreamItem)
| OpWithinBudget (b : bytes)
| OpIfRoom (chunk : bytes)
| OpTake
| OpPark (w : Value)
| OpParkWriter (w : Value)
| OpUnpark
| OpSaturated
| OpFinished
| OpOwed.

Inductive Reply :=
| RUnit
| RBool (b : bool)
| RTaken (o : option N)
| RRoom (o : option bool)
| RItem (o : option StreamItem)
| RWaiter (o : option Value).

Definition reply {S A} (f : A -> Reply) (m : St S A) : St S Reply := fun s =>
  let '(a, s') := m s in (f a, s').

Definition impl_step (op : StreamOp) : St ResponseStream Reply :=
  match op with
  | OpCancel => fun s => (RUnit, cancel s)
  | OpPause p => fun s => (RUnit, set_paused p s)
  | OpPush item => reply RBool (push item)
  | OpWithinBudget b => reply RTaken (push_chunk_within_budget b)
  | OpIfRoom chunk => reply RRoom (push_chunk_if_room chunk)
  | OpTake => reply RItem take_next
  | OpPark w => reply RBool (park w)
  | OpParkWriter w => reply RBool (park_writer w)
  | OpUnpark => reply RWaiter unpark
  | OpSaturated => fun s => (RBool (is_saturated s), s)
  | OpFinished => fun s => (RBool (is_finished s), s)
  | OpOwed => fun s => (RBool (writer_owed_wakeup s), s)
  end.

Fixpoint run_with {S} (step : StreamOp -> St S Reply) (ops : list StreamOp) : St S (list Reply) :=
  fun s =>
  match ops with
  | [] => ([], s)
  | op :: ops =>
      let '(r, s1) := step op s in
      let '(rs, s2) := run_with step ops s1 in (r :: rs, s2)
  end.

Definition impl_run : list StreamOp -> St ResponseStream (list Reply) := run_with impl_step.

(** ** The specification: a log and a cursor *)

Record Channel := {
  log : list StreamItem;            (* everything ever accepted *)
  cursor : nat;                     (* how many of those were handed out *)
  dead : bool;
  hold : bool;
  parked : option Value;
  bound : N;
}.

Definition channel_new (n : N) : Channel :=
  {| log := []; cursor := 0; dead := false; hold := false; parked := None; bound := N.max n 1 |}.

Definition pending (c : Channel) : list StreamItem :=
  if dead c then [] else drop (cursor c) (log c).
Definition pending_bytes (c : Channel) : N := len (queued_bytes (pending c)).
Definition closed (c : Channel) : bool := existsb terminal (log c).
Definition stuck (c : Channel) : bool := hold c || (bound c <=? pending_bytes c).

Definition append (c : Channel) (item : StreamItem) : Channel :=
  {| log := log c ++ [item]; cursor := cursor c; dead := dead c; hold := hold c;
     parked := parked c; bound := bound c |}.
Definition with_parked (c : Channel) (w : option Value) : Channel :=
  {| log := log c; cursor := cursor c; dead := dead c; hold := hold c; parked := w;
     bound := bound c |}.

Definition spec_step (op : StreamOp) : St Channel Reply := fun c =>
  let gone := dead c || closed c in
  match op with
  | OpCancel =>
      (RUnit, {| log := log c; cursor := cursor c; dead := true; hold := hold c;
                 parked := parked c; bound := bound c |})
  | OpPause p =>
      (RUnit, {| log := log c; cursor := cursor c; dead := dead c; hold := p;
                 parked := parked c; bound := bound c |})
  | OpPush item => if gone then (RBool false, c) else (RBool true, append c item)
  | OpWithinBudget b =>
      if gone then (RTaken None, c)
      else
        let n := N.min (len b) (bound c - pending_bytes c) in
        (RTaken (Some n), if n =? 0 then c else append c (Chunk (ntake n b)))
  | OpIfRoom chunk =>
      if gone then (RRoom None, c)
      else if (pending_bytes c =? 0) || (pending_bytes c + len chunk <=? bound c)
              || (len chunk =? 0)
      then (RRoom (Some true), append c (Chunk chunk))
      else (RRoom (Some false), c)
  | OpTake =>
      if hold c then (RItem None, c)
      else
        match pending c with
        | [] => (RItem None, c)
        | item :: _ =>
            (RItem (Some item),
              {| log := log c; cursor := S (cursor c); dead := dead c; hold := hold c;
                 parked := parked c; bound := bound c |})
        end
  | OpPark w =>
      if (pending_bytes c =? 0) && negb gone
      then (RBool true, with_parked c (Some w)) else (RBool false, c)
  | OpParkWriter w =>
      if stuck c && negb (dead c)
      then (RBool true, with_parked c (Some w)) else (RBool false, c)
  | OpUnpark => (RWaiter (parked c), with_parked c None)
  | OpSaturated => (RBool (stuck c), c)
  | OpFinished => (RBool (dead c || (closed c && (pending_bytes c =? 0))), c)
  | OpOwed => (RBool (bool_decide (is_Some (parked c)) && (dead c || negb (stuck c))), c)
  end.

Definition spec_run : list StreamOp -> St Channel (list Reply) := run_with spec_step.

(** The bytes a schedule offers: what could at most be queued at once. *)
Definition op_bytes (op : StreamOp) : N :=
  match op with
  | OpPush item => len (item_bytes item)
  | OpWithinBudget b => len b
  | OpIfRoom chunk => len chunk
  | _ => 0
  end.

Definition offered (ops : list StreamOp) : N := foldr (fun op n => op_bytes op + n) 0 ops.

(** ** The simulation *)

Record stream_refines (s : ResponseStream) (c : Channel) : Prop := {
  sr_wf : stream_wf s;
  sr_items : items s = pending c;
  sr_cancelled : cancelled s = dead c;
  sr_ended : ended s = closed c;
  sr_paused : paused s = hold c;
  sr_waiter : waiter s = parked c;
  sr_max : max_buffered_bytes s = bound c;
  sr_cursor : (cursor c <= length (log c))%nat;
}.

Lemma sr_buffered s c : stream_refines s c -> buffered_bytes s = pending_bytes c.
Proof. intros H. unfold pending_bytes. rewrite <- (sr_items _ _ H). apply wf_buffered, H. Qed.

Lemma stream_new_refines n : n < width64 -> stream_refines (stream_new n) (channel_new n).
Proof. intros H. constructor; try done. by apply stream_new_wf. Qed.

Lemma impl_step_wf op s :
  stream_wf s -> buffered_bytes s + op_bytes op < width64 -> stream_wf (impl_step op s).2.
Proof.
  intros Hwf Hroom.
  assert (Hsnd : forall A (f : A -> Reply) (m : St ResponseStream A),
            (reply f m s).2 = (m s).2) by (intros; unfold reply; by destruct (m s)).
  destruct op; cbn [impl_step op_bytes snd] in *; rewrite ?Hsnd; auto with ruvoy.
  apply push_chunk_if_room_wf; [done|lia].
Qed.

Lemma impl_step_grows op s :
  buffered_bytes s + op_bytes op < width64 ->
  buffered_bytes (impl_step op s).2 <= buffered_bytes s + op_bytes op.
Proof.
  intros Hroom. destruct op as [| |item|b|chunk| | | | | | |]; cbn [impl_step reply op_bytes] in *.
  all: unfold push, push_chunk_within_budget, push_chunk_if_room, take_next, park, park_writer,
    unpark, reply, saturating_sub.
  all: repeat case_match; simplify_eq/=; try lia.
  all: rewrite ?usize_add_small by lia; lia.
Qed.

Lemma pending_append c item :
  dead c = false -> (cursor c <= length (log c))%nat ->
  pending (append c item) = (pending c ++ [item])%list.
Proof. intros Hd Hc. unfold pending; cbn. rewrite Hd. by rewrite drop_app_le. Qed.

Lemma closed_append c item : closed (append c item) = closed c || terminal item.
Proof. unfold closed; cbn. rewrite existsb_app; cbn. by rewrite orb_false_r. Qed.

(** An accepted item lands at the end of both. *)
Lemma append_refines s c item b e :
  stream_refines s c -> dead c = false -> e = closed c || terminal item ->
  stream_wf (set_items s (items s ++ [item]) b e) ->
  stream_refines (set_items s (items s ++ [item]) b e) (append c item).
Proof.
  intros [Hwf Hi Hca He Hp Hw Hm Hc] Hd -> Hwf'.
  constructor; cbn [set_items items cancelled ended paused waiter max_buffered_bytes]; try done.
  - by rewrite pending_append, Hi.
  - by rewrite closed_append.
  - cbn. rewrite length_app; cbn; lia.
Qed.

Lemma parked_refines s c w :
  stream_refines s c -> stream_refines (set_waiter s w) (with_parked c w).
Proof. intros []; constructor; try done. by apply set_waiter_wf. Qed.

Ltac sr_rewrite H :=
  rewrite ?(sr_cancelled _ _ H), ?(sr_ended _ _ H), ?(sr_paused _ _ H), ?(sr_waiter _ _ H),
    ?(sr_max _ _ H), ?(sr_buffered _ _ H) in *.

Lemma full_refines s c : stream_refines s c -> full s = stuck c.
Proof. intros H. unfold full, stuck. by sr_rewrite H. Qed.

Lemma zero_lt_eqb n : (0 <? n) = negb (n =? 0).
Proof. lia. Qed.

Lemma take_refines s c :
  stream_refines s c ->
  exists r, impl_step OpTake s = (r, (impl_step OpTake s).2)
    /\ spec_step OpTake c = (r, (spec_step OpTake c).2)
    /\ stream_refines (impl_step OpTake s).2 (spec_step OpTake c).2.
Proof.
  intros H. pose proof (take_next_wf s (sr_wf _ _ H)) as Hwf.
  unfold impl_step, reply, spec_step, take_next in *. sr_rewrite H.
  destruct (hold c) eqn:Eh; [by exists (RItem None)|].
  rewrite (sr_items _ _ H) in *. destruct (pending c) as [|i rest] eqn:Ep; [by exists (RItem None)|].
  exists (RItem (Some i)). split_and!; try done. cbn [snd] in *.
  unfold pending in Ep. destruct (dead c) eqn:Ed; [done|].
  destruct H as [_ Hi Hca He Hp Hw Hm Hc]. constructor; cbn; try done; try congruence.
  - unfold pending; cbn. apply (f_equal (drop 1)) in Ep.
    rewrite drop_drop in Ep. by rewrite Nat.add_1_r in Ep.
  - apply (f_equal length) in Ep. rewrite length_drop in Ep. cbn in Ep. lia.
Qed.

Lemma step_refines op s c :
  stream_refines s c -> buffered_bytes s + op_bytes op < width64 ->
  (impl_step op s).1 = (spec_step op c).1
  /\ stream_refines (impl_step op s).2 (spec_step op c).2.
Proof.
  intros H Hroom. pose proof (impl_step_wf op s (sr_wf _ _ H) Hroom) as Hwf.
  destruct op as [|p|item|b|chunk| |w|w| | | |]; cbn [op_bytes] in *.
  - split; [done|]. destruct H; constructor; try done.
  - split; [done|]. destruct H; constructor; try done.
  - cbn in *. unfold reply, push in *. sr_rewrite H. destruct (dead c || closed c) eqn:E; [done|].
    split; [done|]. apply orb_false_elim in E as [Ed Ec]. apply append_refines; try done.
    rewrite Ec. by destruct item.
  - cbn in *. unfold reply, push_chunk_within_budget, saturating_sub in *. sr_rewrite H.
    destruct (dead c || closed c) eqn:E; [done|]. cbn [fst snd] in *. rewrite zero_lt_eqb in *.
    destruct (N.min _ _ =? 0) eqn:Et; cbn [negb] in *; [done|].
    split; [done|]. apply orb_false_elim in E as [Ed Ec]. apply append_refines; try done.
    by rewrite Ec.
  - cbn in *. unfold reply, push_chunk_if_room, saturating_sub in *. sr_rewrite H.
    destruct (dead c || closed c) eqn:E; [done|].
    replace ((pending_bytes c =? 0) || (pending_bytes c + len chunk <=? bound c) || (len chunk =? 0))
      with (negb ((0 <? pending_bytes c) && (bound c - pending_bytes c <? len chunk))) by lia.
    destruct (_ && _); cbn [negb fst snd] in *; [done|].
    split; [done|]. apply orb_false_elim in E as [Ed Ec]. apply append_refines; try done.
    by rewrite Ec.
  - destruct (take_refines s c H) as (r & -> & -> & ?). done.
  - clear Hwf. cbn. unfold reply, park. sr_rewrite H. rewrite zero_lt_eqb.
    replace ((pending_bytes c =? 0) && negb (dead c || closed c))
      with (negb (negb (pending_bytes c =? 0) || closed c || dead c)) by (destruct (_ =? 0), (dead c), (closed c); done).
    destruct (_ || dead c); cbn; [done|]. split; [done|]. by apply parked_refines.
  - clear Hwf. cbn. unfold reply, park_writer. rewrite (full_refines _ _ H). sr_rewrite H.
    replace (stuck c && negb (dead c)) with (negb (dead c || negb (stuck c)))
      by (by destruct (dead c), (stuck c)).
    destruct (_ || _); cbn; [done|]. split; [done|]. by apply parked_refines.
  - cbn. split; [by sr_rewrite H|]. by apply parked_refines.
  - cbn. unfold is_saturated. by rewrite (full_refines _ _ H).
  - cbn. unfold is_finished. by sr_rewrite H.
  - cbn. unfold writer_owed_wakeup. rewrite (full_refines _ _ H). by sr_rewrite H.
Qed.

Lemma run_refines ops s c :
  stream_refines s c -> buffered_bytes s + offered ops < width64 ->
  (impl_run ops s).1 = (spec_run ops c).1
  /\ stream_refines (impl_run ops s).2 (spec_run ops c).2.
Proof.
  revert s c. induction ops as [|op ops IH]; intros s c H Hroom; [done|].
  cbn [offered foldr] in Hroom. change (foldr _ 0 ops) with (offered ops) in Hroom.
  destruct (step_refines op s c H ltac:(lia)) as [Hr Hs].
  pose proof (impl_step_grows op s ltac:(lia)) as Hg.
  unfold impl_run, spec_run in *. cbn [run_with].
  destruct (impl_step op s) as [r1 s1], (spec_step op c) as [r2 c1]. cbn [fst snd] in *. subst r2.
  destruct (IH s1 c1 Hs ltac:(lia)) as [Hr2 Hs2].
  destruct (run_with impl_step ops s1), (run_with spec_step ops c1). cbn in *. by subst.
Qed.

(** ** What went in and what came out, read off a schedule's answers *)

Definition accepted_by (op : StreamOp) (r : Reply) : list StreamItem :=
  match op, r with
  | OpPush item, RBool true => [item]
  | OpWithinBudget b, RTaken (Some n) => if n =? 0 then [] else [Chunk (ntake n b)]
  | OpIfRoom chunk, RRoom (Some true) => [Chunk chunk]
  | _, _ => []
  end.

Definition handed_by (r : Reply) : list StreamItem :=
  match r with
  | RItem (Some item) => [item]
  | _ => []
  end.

Definition accepted (ops : list StreamOp) (rs : list Reply) : list StreamItem :=
  concat (zip_with accepted_by ops rs).
Definition handed (rs : list Reply) : list StreamItem := rs ≫= handed_by.

(** Only the last entry of a log is terminal. *)
Definition log_ok (l : list StreamItem) : Prop :=
  forall a i k, l = (a ++ i :: k)%list -> terminal i = true -> k = [].

Lemma log_ok_snoc l item : existsb terminal l = false -> log_ok (l ++ [item]).
Proof.
  intros Hno a i k Heq Ht. destruct k as [|j k _] using rev_ind; [done|].
  exfalso. rewrite app_comm_cons, app_assoc in Heq. apply app_inj_tail in Heq as [-> _].
  rewrite existsb_app in Hno. cbn in Hno. rewrite Ht in Hno. by destruct (existsb terminal a).
Qed.

(** One step of the specification extends the log by what it accepted, and the
    handed-out prefix by what it handed. *)
Lemma spec_step_log op c :
  (cursor c <= length (log c))%nat -> log_ok (log c) ->
  let '(r, c') := spec_step op c in
  log c' = (log c ++ accepted_by op r)%list
  /\ take (cursor c') (log c') = (take (cursor c) (log c) ++ handed_by r)%list
  /\ (cursor c' <= length (log c'))%nat /\ log_ok (log c').
Proof.
  intros Hc Hok.
  assert (Happ : forall item, dead c || closed c = false ->
    log (append c item) = (log c ++ [item])%list
    /\ take (cursor c) (log (append c item)) = (take (cursor c) (log c) ++ [])%list
    /\ (cursor c <= length (log (append c item)))%nat /\ log_ok (log (append c item))).
  { intros item Hg. apply orb_false_elim in Hg as [_ Hg]. cbn. rewrite app_nil_r, length_app.
    split_and!; [done | by rewrite take_app_le | lia | by apply log_ok_snoc]. }
  destruct op as [|p|item|b|chunk| |w|w| | | |]; cbn [spec_step].
  3: { destruct (dead c || closed c) eqn:E; cbn; [by rewrite !app_nil_r | by apply Happ]. }
  3: { destruct (dead c || closed c) eqn:E; cbn; [by rewrite !app_nil_r|].
       destruct (_ =? 0) eqn:Et; cbn; [by rewrite !app_nil_r | by apply Happ]. }
  3: { destruct (dead c || closed c) eqn:E; cbn; [by rewrite !app_nil_r|].
       match goal with |- context [if ?b then (RRoom (Some true), _) else _] => destruct b end;
         cbn; [by apply Happ | by rewrite !app_nil_r]. }
  3: { destruct (hold c); cbn; [by rewrite !app_nil_r|].
       unfold pending. destruct (dead c); cbn; [by rewrite !app_nil_r|].
       destruct (drop (cursor c) (log c)) as [|i rest] eqn:Ed; cbn; rewrite ?app_nil_r; [done|].
       assert (Hi : log c !! cursor c = Some i)
         by (apply (f_equal (.!! 0%nat)) in Ed; by rewrite lookup_drop, Nat.add_0_r in Ed).
       split_and!; [done | by apply take_S_r | by apply lookup_lt_Some in Hi | done]. }
  all: repeat match goal with |- context [if ?b then (_, _) else _] => destruct b end;
    cbn; by rewrite !app_nil_r.
Qed.

Lemma spec_run_log ops c :
  (cursor c <= length (log c))%nat -> log_ok (log c) ->
  let '(rs, c') := spec_run ops c in
  log c' = (log c ++ accepted ops rs)%list
  /\ take (cursor c') (log c') = (take (cursor c) (log c) ++ handed rs)%list
  /\ (cursor c' <= length (log c'))%nat /\ log_ok (log c').
Proof.
  unfold spec_run, accepted, handed. revert c. induction ops as [|op ops IH]; intros c Hc Hok; cbn [run_with].
  { cbn. by rewrite !app_nil_r. }
  pose proof (spec_step_log op c Hc Hok) as Hs.
  destruct (spec_step op c) as [r c1]. destruct Hs as (Hl & Ht & Hc1 & Hok1).
  pose proof (IH c1 Hc1 Hok1) as H. destruct (run_with spec_step ops c1) as [rs c2].
  destruct H as (Hl2 & Ht2 & ? & ?). cbn [zip_with concat].
  change ((r :: rs) ≫= handed_by) with (handed_by r ++ (rs ≫= handed_by))%list.
  split_and!; [by rewrite Hl2, Hl, <- app_assoc | by rewrite Ht2, Ht, <- app_assoc | done | done].
Qed.

(** ** Bytes stay under the bound when chunks are pushed with a check *)

Definition checked (op : StreamOp) : bool :=
  match op with
  | OpPush (Chunk _) => false
  | _ => true
  end.

(** An oversized chunk is alone: everything else queued beside it is empty. *)
Definition alone (s : ResponseStream) : Prop :=
  Forall (fun i => len (item_bytes i) = 0 \/ len (item_bytes i) = buffered_bytes s) (items s).

Definition under_bound (ops : list StreamOp) (s : ResponseStream) : Prop :=
  buffered_bytes s <= max_buffered_bytes s
  \/ exists chunk, OpIfRoom chunk ∈ ops /\ buffered_bytes s = len chunk /\ alone s.

Lemma queued_empty its :
  len (queued_bytes its) = 0 -> Forall (fun i => len (item_bytes i) = 0) its.
Proof.
  induction its as [|i its IH]; [done|]. rewrite queued_bytes_cons, len_app. intros H.
  constructor; [lia | apply IH; lia].
Qed.

(** A step that keeps the byte count, and queues at most an empty item, or that
    ends within the bound, keeps [under_bound]. *)
Lemma under_bound_keep done op s s' :
  under_bound done s -> max_buffered_bytes s' = max_buffered_bytes s ->
  buffered_bytes s' <= max_buffered_bytes s
  \/ (buffered_bytes s' = buffered_bytes s
      /\ Forall (fun i => i ∈ items s \/ len (item_bytes i) = 0) (items s')) ->
  under_bound (done ++ [op]) s'.
Proof.
  intros Hb Hm [Hle|[He Hi]]; [left; lia|]. destruct Hb as [Hb|(chunk & Hin & Hb & Ha)]; [left; lia|].
  right. exists chunk. split_and!; [apply elem_of_app; by left | congruence |].
  unfold alone in *. rewrite He. rewrite list.Forall_forall in Hi, Ha. apply list.Forall_forall. intros i Hii.
  destruct (Hi i Hii) as [Hold|Hz]; [by apply Ha | by left].
Qed.

Lemma Forall_items_refl (its : list StreamItem) :
  Forall (fun i => i ∈ its \/ len (item_bytes i) = 0) its.
Proof. apply list.Forall_forall. by left. Qed.

(** A step that touches neither items nor counters keeps it. *)
Lemma under_bound_same done op s s' :
  under_bound done s -> max_buffered_bytes s' = max_buffered_bytes s ->
  buffered_bytes s' = buffered_bytes s -> items s' = items s -> under_bound (done ++ [op]) s'.
Proof.
  intros Hb Hm He Hi. eapply under_bound_keep; [done|done|].
  right. rewrite Hi. split; [done | apply Forall_items_refl].
Qed.

Lemma Forall_items_snoc (its : list StreamItem) item :
  len (item_bytes item) = 0 -> Forall (fun i => i ∈ its \/ len (item_bytes i) = 0) (its ++ [item]).
Proof. intros. apply Forall_app; split; [apply Forall_items_refl | by apply Forall_singleton; right]. Qed.

Lemma if_room_bound done chunk s :
  stream_wf s -> buffered_bytes s + len chunk < width64 ->
  under_bound done s -> under_bound (done ++ [OpIfRoom chunk]) (push_chunk_if_room chunk s).2.
Proof.
  intros Hwf Hroom Hb. pose proof (wf_max _ Hwf). pose proof (wf_buffered _ Hwf) as Hq.
  unfold push_chunk_if_room, saturating_sub.
  destruct (_ || ended s); [by eapply under_bound_same|].
  destruct (_ && _) eqn:E; [by eapply under_bound_same|].
  cbn [snd]. destruct (N.eq_dec (buffered_bytes s) 0) as [Hz|Hnz].
  - right. exists chunk. split_and!; [apply elem_of_app; right; by apply list_elem_of_singleton| |].
    + cbn. rewrite usize_add_small; lia.
    + unfold alone. cbn [set_items items buffered_bytes]. rewrite usize_add_small by lia.
      apply Forall_app; split; [|apply Forall_singleton; right; cbn; lia].
      rewrite Hz in Hq. pose proof (queued_empty (items s) (eq_sym Hq)) as He.
      eapply list.Forall_impl; [exact He|]. cbn. intros; by left.
  - eapply under_bound_keep; [done|done|]. cbn [set_items items buffered_bytes].
    rewrite usize_add_small by lia.
    destruct (N.leb_spec (buffered_bytes s) (max_buffered_bytes s)); [left; lia|].
    right. split; [lia|]. apply Forall_items_snoc. cbn. lia.
Qed.

Lemma take_bound done s :
  stream_wf s -> under_bound done s -> under_bound (done ++ [OpTake]) (take_next s).2.
Proof.
  intros Hwf Hb. unfold take_next, saturating_sub.
  destruct (paused s); [by eapply under_bound_same|].
  destruct (items s) as [|i rest] eqn:Ei; [by eapply under_bound_same|].
  cbn [snd]. destruct Hb as [Hb|(c & Hin & Hb & Ha)];
    [left; destruct i; cbn; lia|].
  unfold alone in Ha. rewrite Ei in Ha. apply Forall_cons_1 in Ha as [Hi Hr].
  assert (Hcase : len (item_bytes i) = 0 \/ len (item_bytes i) = buffered_bytes s) by done.
  destruct Hcase as [Hz|Hall].
  - right. exists c. split_and!; [apply elem_of_app; by left | |].
    + destruct i; cbn in *; lia.
    + unfold alone. eapply list.Forall_impl; [exact Hr|]. intros j [?|?]; [by left|right].
      destruct i; cbn in *; lia.
  - destruct i as [|b| |]; cbn [item_bytes] in Hall; rewrite ?len_nil in Hall;
      left; cbn; lia.
Qed.

Lemma impl_step_bound done op s :
  stream_wf s -> checked op = true -> buffered_bytes s + op_bytes op < width64 ->
  under_bound done s -> under_bound (done ++ [op]) (impl_step op s).2.
Proof.
  intros Hwf Hck Hroom Hb. pose proof (wf_max _ Hwf).
  destruct op as [| |item|b|chunk| | | | | | |]; cbn [impl_step op_bytes] in *.
  - left. cbn. lia.
  - by eapply under_bound_same.
  - unfold reply, push. destruct (_ || ended s); [by eapply under_bound_same|].
    eapply under_bound_keep; [done|done|]. right.
    destruct item; [|done|..]; (split; [done|by apply Forall_items_snoc]).
  - unfold reply, push_chunk_within_budget, saturating_sub.
    destruct (_ || ended s); [by eapply under_bound_same|].
    cbn [snd]. destruct (0 <? _) eqn:E; [|by eapply under_bound_same].
    eapply under_bound_keep; [done|done|]. left. cbn [set_items buffered_bytes].
    rewrite usize_add_small; lia.
  - pose proof (if_room_bound done chunk s Hwf Hroom Hb) as Hg. unfold reply.
    by destruct (push_chunk_if_room chunk s).
  - pose proof (take_bound done s Hwf Hb) as Hg. unfold reply. by destruct (take_next s).
  - unfold reply, park. destruct (_ || cancelled s); by eapply under_bound_same.
  - unfold reply, park_writer. destruct (cancelled s || _); by eapply under_bound_same.
  - by eapply under_bound_same.
  - by eapply under_bound_same.
  - by eapply under_bound_same.
  - by eapply under_bound_same.
Qed.

Lemma run_bound done ops s :
  stream_wf s -> Forall (fun op => checked op = true) ops ->
  buffered_bytes s + offered ops < width64 -> under_bound done s ->
  under_bound (done ++ ops) (impl_run ops s).2
  /\ max_buffered_bytes (impl_run ops s).2 = max_buffered_bytes s.
Proof.
  unfold impl_run. revert done s.
  induction ops as [|op ops IH]; intros done s Hwf Hck Hroom Hb; [by rewrite app_nil_r|].
  apply Forall_cons_1 in Hck as [Hop Hck]. cbn [offered foldr] in Hroom.
  change (foldr _ 0 ops) with (offered ops) in Hroom.
  assert (Hw : buffered_bytes s + op_bytes op < width64) by lia.
  pose proof (impl_step_bound done op s Hwf Hop Hw Hb) as Hb1.
  pose proof (impl_step_wf op s Hwf Hw) as Hwf1. pose proof (impl_step_grows op s Hw) as Hg.
  assert (Hm : max_buffered_bytes (impl_step op s).2 = max_buffered_bytes s).
  { destruct op; cbn; unfold reply, push, push_chunk_within_budget, push_chunk_if_room, take_next,
      park, park_writer, unpark; repeat case_match; by simplify_eq/=. }
  cbn [run_with]. destruct (impl_step op s) as [r s1]. cbn [snd] in *.
  destruct (IH (done ++ [op])%list s1 Hwf1 Hck ltac:(lia) Hb1) as [Hfin Hm2].
  rewrite <- app_assoc in Hfin. destruct (run_with impl_step ops s1). cbn in *. by rewrite Hm2.
Qed.

(** ** Properties *)

(** C12: The queue refines its specification.  For every schedule of method calls
    on a fresh queue, in whatever order the two threads' calls are serialised by
    the lock, each call answers exactly what the specification computes from its
    log: the cached byte count is what the queued chunks hold, and the [ended]
    flag is set exactly when a terminal item was accepted. *)
Theorem stream_refines_channel (n : N) (ops : list StreamOp) :
  n < width64 -> offered ops < width64 ->
  (impl_run ops (stream_new n)).1 = (spec_run ops (channel_new n)).1
  /\ stream_refines (impl_run ops (stream_new n)).2 (spec_run ops (channel_new n)).2.
Proof. intros Hn Ho. apply run_refines; [by apply stream_new_refines | done]. Qed.

(** A schedule with a pause, a slice, a full queue and a terminal item. *)
Definition schedule_example : list StreamOp :=
  [OpParkWriter 7; OpWithinBudget [x61; x62; x63]; OpParkWriter 7; OpPause true; OpTake;
   OpPause false; OpTake; OpOwed; OpPush End; OpPush End; OpTake; OpTake; OpFinished].

Lemma stream_refines_channel_witness :
  (spec_run schedule_example (channel_new 2)).1
  = [RBool false; RTaken (Some 2); RBool true; RUnit; RItem None; RUnit;
     RItem (Some (Chunk [x61; x62])); RBool true; RBool true; RBool false;
     RItem (Some End); RItem None; RBool true].
Proof.
  destruct (stream_refines_channel 2 schedule_example) as [<- _]; reflexivity.
Defined.

(** First in, first out, once each, and nothing after the end.  For every
    schedule, the items handed to the consumer followed by those still queued are
    exactly the items accepted, in order; after a cancellation what was handed
    out is still a prefix of what was accepted; and only the last accepted item
    can be an [End] or a failure. *)
Theorem stream_fifo (n : N) (ops : list StreamOp) :
  n < width64 -> offered ops < width64 ->
  let '(rs, s) := impl_run ops (stream_new n) in
  (cancelled s = false -> accepted ops rs = handed rs ++ items s)%list
  /\ handed rs `prefix_of` accepted ops rs
  /\ log_ok (accepted ops rs).
Proof.
  intros Hn Ho.
  destruct (run_refines ops _ _ (stream_new_refines n Hn)) as [Hr Hs]; [cbn; lia|].
  pose proof (spec_run_log ops (channel_new n)) as Hl.
  destruct (impl_run ops (stream_new n)) as [rs s], (spec_run ops (channel_new n)) as [rs' c].
  cbn [fst snd] in *. subst rs'.
  destruct Hl as (Hlog & Htake & Hc & Hok); [cbn; lia | by intros [|? ?] ? ? [=]|].
  cbn [channel_new log cursor app take] in Hlog, Htake. rewrite <- Hlog.
  assert (Hh : take (cursor c) (log c) = handed rs) by (by rewrite Htake).
  rewrite <- Hh. split_and!; [|by eexists; rewrite take_drop | done].
  intros Hcan. rewrite (sr_items _ _ Hs). unfold pending.
  rewrite <- (sr_cancelled _ _ Hs), Hcan. by rewrite take_drop.
Qed.

Lemma stream_fifo_witness :
  let '(rs, s) := impl_run schedule_example (stream_new 2) in
  accepted schedule_example rs = [Chunk [x61; x62]; End] /\ handed rs = accepted schedule_example rs.
Proof.
  pose proof (stream_fifo 2 schedule_example) as H. vm_compute in H |- *.
  destruct H as (H & _); [reflexivity | reflexivity |]. specialize (H eq_refl).
  split; [exact H | exact (eq_sym H)].
Defined.

(** C36: Memory stays bounded.  When chunks are only queued through the two checked
    pushes, every schedule leaves at most the budget buffered, or exactly one
    chunk that was pushed whole into a queue that held no bytes: neither a slow
    reader nor a fast writer makes the queue grow beyond that. *)
Theorem stream_bounded (n : N) (ops : list StreamOp) :
  n < width64 -> offered ops < width64 -> Forall (fun op => checked op = true) ops ->
  let s := (impl_run ops (stream_new n)).2 in
  buffered_bytes s = len (queued_bytes (items s))
  /\ (buffered_bytes s <= N.max n 1
      \/ exists chunk, OpIfRoom chunk ∈ ops /\ buffered_bytes s = len chunk
           /\ Forall (fun i => len (item_bytes i) = 0 \/ len (item_bytes i) = len chunk) (items s)).
Proof.
  intros Hn Ho Hck. cbn zeta.
  destruct (run_bound [] ops (stream_new n)) as [Hb Hm];
    [by apply stream_new_wf | done | done | left; cbn; lia |].
  destruct (run_refines ops _ _ (stream_new_refines n Hn)) as [_ Hs]; [cbn; lia|].
  split; [apply wf_buffered, Hs|]. cbn [app] in Hb. destruct Hb as [Hb|(chunk & Hin & Hb & Ha)].
  - left. rewrite Hm in Hb. done.
  - right. exists chunk. unfold alone in Ha. rewrite Hb in Ha. done.
Qed.

Lemma stream_bounded_witness :
  buffered_bytes (impl_run schedule_example (stream_new 2)).2 <= 2.
Proof.
  destruct (stream_bounded 2 schedule_example) as [_ [H|(chunk & Hin & _)]].
  - reflexivity.
  - reflexivity.
  - repeat constructor.
  - exact H.
  - exfalso. repeat (apply elem_of_cons in Hin as [Hin|Hin]; [discriminate|]).
    by apply not_elem_of_nil in Hin.
Defined.

(** ** The representation *)

(** C13: every method keeps the queue's representation, from any state that has it and
    for any schedule: the cached byte count is what the queued chunks hold and fits a
    [usize], a terminal item is queued only once the queue is marked ended and then is
    its last item, and a cancelled queue holds nothing.  The count never grows by more
    than what was offered, so that nothing wraps while the bytes offered fit. *)
Theorem stream_representation (s : ResponseStream) (ops : list StreamOp) :
  stream_wf s -> buffered_bytes s + offered ops < width64 ->
  stream_wf (impl_run ops s).2 /\ buffered_bytes (impl_run ops s).2 <= buffered_bytes s + offered ops.
Proof.
  unfold impl_run. revert s. induction ops as [|op ops IH]; intros s Hwf Hroom; [split; [done|cbn; lia]|].
  cbn [offered foldr] in Hroom |- *. change (foldr _ 0 ops) with (offered ops) in *.
  pose proof (impl_step_wf op s Hwf ltac:(lia)) as Hwf1.
  pose proof (impl_step_grows op s ltac:(lia)) as Hg.
  cbn [run_with]. destruct (impl_step op s) as [r s1]. cbn [snd] in *.
  destruct (IH s1 Hwf1 ltac:(lia)) as [H1 H2]. destruct (run_with impl_step ops s1). cbn in *.
  split; [done|lia].
Qed.

(** A queue in the middle of its life: two chunks, a parked fiber, a paused reader. *)
Definition busy_example : ResponseStream :=
  (impl_run [OpWithinBudget [x61; x62]; OpPause true; OpPush (Chunk [x63]); OpParkWriter 7] (stream_new 3)).2.

Lemma stream_representation_witness :
  stream_wf busy_example /\ stream_wf (impl_run schedule_example busy_example).2.
Proof.
  assert (stream_wf busy_example) as Hb
    by (apply (stream_representation (stream_new 3)); [by apply stream_new_wf | reflexivity]).
  split; [exact Hb|]. apply (stream_representation busy_example schedule_example); [exact Hb | reflexivity].
Defined.
