(* ===== verification/Upstream.v ===== *)
(** * Calls on their way to the worker ([src/src/upstream.rs])

    The terms calls are made on, the channel of one streamed call, and the route
    a request's calls are queued on until the worker takes them or the request
    goes away. *)

From S2P Require Import Prelude Types Stream.

Local Open Scope N_scope.

(** ** Settings *)

Record UpstreamSettings := {
  clusters : list string;
  timeout : Duration;
  max_response_bytes : N;
  stream_buffer_bytes : N;
}.

#[export] Instance UpstreamSettings_eq_dec : EqDecision UpstreamSettings.
Proof. solve_decision. Defined.

Definition allows (settings : UpstreamSettings) (cluster : string) : bool :=
  existsb (fun allowed => bool_decide (allowed = cluster)) (clusters settings).

(** ** Requests *)

Record UpstreamRequest := {
  req_cluster : string;
  req_headers : list (string * bytes);
  req_body : bytes;
  req_timeout : Duration;
  req_response : QRef;
}.

Record UpstreamStreamRequest := {
  sreq_cluster : string;
  sreq_headers : list (string * bytes);
  sreq_timeout : Duration;
  sreq_channel : N;
}.

(** ** One streamed call's channel

    Both directions are part of the record: the store keeps one per call, and the
    fiber and the worker share it by reference. *)

Record StreamChannel := {
  response : ResponseStream;
  request : ResponseStream;
  reset_wanted : bool;
  timed_out : bool;
  trailers : option (list (string * string));
}.

Definition channel_new (budget : N) : StreamChannel :=
  {| response := stream_new budget; request := stream_new budget;
     reset_wanted := false; timed_out := false; trailers := None |}.

Definition set_response (c : StreamChannel) (s : ResponseStream) : StreamChannel :=
  {| response := s; request := request c; reset_wanted := reset_wanted c;
     timed_out := timed_out c; trailers := trailers c |}.

Definition set_request (c : StreamChannel) (s : ResponseStream) : StreamChannel :=
  {| response := response c; request := s; reset_wanted := reset_wanted c;
     timed_out := timed_out c; trailers := trailers c |}.

(** A method of either direction, as an operation on the channel. *)
Definition on_response {A} (m : St ResponseStream A) : St StreamChannel A := fun c =>
  let '(a, s) := m (response c) in (a, set_response c s).
Definition on_request {A} (m : St ResponseStream A) : St StreamChannel A := fun c =>
  let '(a, s) := m (request c) in (a, set_request c s).

Definition want_reset (c : StreamChannel) : StreamChannel :=
  {| response := response c; request := request c; reset_wanted := true;
     timed_out := timed_out c; trailers := trailers c |}.

Definition close (c : StreamChannel) : StreamChannel :=
  let c := set_response c (cancel (response c)) in
  let c := set_request c (cancel (request c)) in
  want_reset c.

Definition time_out (c : StreamChannel) : StreamChannel :=
  close {| response := response c; request := request c; reset_wanted := reset_wanted c;
           timed_out := true; trailers := trailers c |}.

Definition fail (error : BridgeError) (c : StreamChannel) : StreamChannel :=
  let c := (on_response (push_failure error) c).2 in
  let c := set_request c (cancel (request c)) in
  want_reset c.

Definition wants_reset (c : StreamChannel) : bool := reset_wanted c.

Definition set_trailers (t : list (string * string)) (c : StreamChannel) : StreamChannel :=
  {| response := response c; request := request c; reset_wanted := reset_wanted c;
     timed_out := timed_out c; trailers := Some t |}.

(** ** The route of one request *)

Record Calls := {
  queued : list UpstreamRequest;
  streams : list UpstreamStreamRequest;
  closed : bool;
}.

Definition calls_new : Calls := {| queued := []; streams := []; closed := false |}.

Record Unsent := {
  unsent_calls : list UpstreamRequest;
  unsent_streams : list UpstreamStreamRequest;
}.

Definition no_unsent : Unsent := {| unsent_calls := []; unsent_streams := [] |}.

(** [Upstreams]: the settings, the shared queue, and the worker's waker. *)
Record Upstreams := {
  settings : UpstreamSettings;
  calls : Calls;
  route_waker : Waker;
}.

Definition upstreams_new (s : UpstreamSettings) (w : Waker) : Upstreams :=
  {| settings := s; calls := calls_new; route_waker := w |}.

(** [Upstreams::push] under its lock; the caller wakes the worker after an [Ok]. *)
Definition push_call (add : Calls -> Calls) : St Calls (result unit BridgeError) := fun c =>
  if closed c
  then (Err (Types.Upstream "the request this call belongs to has finished"%string), c)
  else (Ok tt, add c).

Definition add_queued (request : UpstreamRequest) (c : Calls) : Calls :=
  {| queued := queued c ++ [request]; streams := streams c; closed := closed c |}.

Definition add_stream (request : UpstreamStreamRequest) (c : Calls) : Calls :=
  {| queued := queued c; streams := streams c ++ [request]; closed := closed c |}.

(** A route operation that may post to the worker: the route and the events
    posted so far. *)
Definition push_route (add : Calls -> Calls)
    : St (Upstreams * list Waker) (result unit BridgeError) := fun '(u, posted) =>
  let '(r, c) := push_call add (calls u) in
  let u := {| settings := settings u; calls := c; route_waker := route_waker u |} in
  match r with
  | Ok _ => (r, (u, call_waker (route_waker u) posted))
  | Err _ => (r, (u, posted))
  end.

Definition queue (request : UpstreamRequest) := push_route (add_queued request).
Definition queue_stream (request : UpstreamStreamRequest) := push_route (add_stream request).

Definition take_queued : St Calls (list UpstreamRequest) := fun c =>
  (queued c, {| queued := []; streams := streams c; closed := closed c |}).

Definition take_queued_streams : St Calls (list UpstreamStreamRequest) := fun c =>
  (streams c, {| queued := queued c; streams := []; closed := closed c |}).

Definition close_calls : St Calls Unsent := fun c =>
  ({| unsent_calls := queued c; unsent_streams := streams c |},
   {| queued := []; streams := []; closed := true |}).

(** ** Any schedule of a route's locked operations *)

Inductive RouteOp :=
| RQueue (request : UpstreamRequest)
| RQueueStream (request : UpstreamStreamRequest)
| RTake
| RTakeStreams
| RClose.

(** What one operation accepted, and what it handed to its caller: the worker
    (a take) or the teardown (a close). *)
Record Moved := {
  in_calls : list UpstreamRequest; out_calls : list UpstreamRequest;
  in_streams : list UpstreamStreamRequest; out_streams : list UpstreamStreamRequest;
  refused : nat;
}.

Definition moved_none : Moved :=
  {| in_calls := []; out_calls := []; in_streams := []; out_streams := []; refused := 0 |}.

Definition moved_app (a b : Moved) : Moved :=
  {| in_calls := in_calls a ++ in_calls b; out_calls := out_calls a ++ out_calls b;
     in_streams := in_streams a ++ in_streams b; out_streams := out_streams a ++ out_streams b;
     refused := refused a + refused b |}.

Definition route_step (op : RouteOp) (st : Upstreams * list Waker)
    : Moved * (Upstreams * list Waker) :=
  let with_calls c := ({| settings := settings st.1; calls := c; route_waker := route_waker st.1 |}, st.2) in
  match op with
  | RQueue q =>
      let '(r, st') := queue q st in
      (if is_err r then {| in_calls := []; out_calls := []; in_streams := []; out_streams := []; refused := 1 |}
       else {| in_calls := [q]; out_calls := []; in_streams := []; out_streams := []; refused := 0 |}, st')
  | RQueueStream q =>
      let '(r, st') := queue_stream q st in
      (if is_err r then {| in_calls := []; out_calls := []; in_streams := []; out_streams := []; refused := 1 |}
       else {| in_calls := []; out_calls := []; in_streams := [q]; out_streams := []; refused := 0 |}, st')
  | RTake =>
      let '(out, c) := take_queued (calls st.1) in
      ({| in_calls := []; out_calls := out; in_streams := []; out_streams := []; refused := 0 |}, with_calls c)
  | RTakeStreams =>
      let '(out, c) := take_queued_streams (calls st.1) in
      ({| in_calls := []; out_calls := []; in_streams := []; out_streams := out; refused := 0 |}, with_calls c)
  | RClose =>
      let '(out, c) := close_calls (calls st.1) in
      ({| in_calls := []; out_calls := unsent_calls out; in_streams := [];
          out_streams := unsent_streams out; refused := 0 |}, with_calls c)
  end.

Fixpoint route_run (ops : list RouteOp) (st : Upstreams * list Waker)
    : Moved * (Upstreams * list Waker) :=
  match ops with
  | [] => (moved_none, st)
  | op :: ops =>
      let '(m, st) := route_step op st in
      let '(m', st) := route_run ops st in (moved_app m m', st)
  end.

Definition is_close (op : RouteOp) : bool :=
  match op with
  | RClose => true
  | _ => false
  end.

Definition is_queue (op : RouteOp) : bool :=
  match op with
  | RQueue _ | RQueueStream _ => true
  | _ => false
  end.

(** ** Lemmas *)

Lemma route_step_conserves op st :
  let '(m, st') := route_step op st in
  (queued (calls st.1) ++ in_calls m = out_calls m ++ queued (calls st'.1)
   /\ streams (calls st.1) ++ in_streams m = out_streams m ++ streams (calls st'.1))%list
  /\ closed (calls st'.1) = closed (calls st.1) || is_close op
  /\ st'.2 = st.2 ++ replicate (length (in_calls m) + length (in_streams m)) (route_waker st.1)
  /\ route_waker st'.1 = route_waker st.1
  /\ (length (in_calls m) + length (in_streams m) + refused m = if is_queue op then 1 else 0)%nat
  /\ (closed (calls st.1) = true -> in_calls m = [] /\ in_streams m = []).
Proof.
  destruct st as [[s [q ss cl] w] posted].
  destruct op; cbn; unfold queue, queue_stream, push_route, push_call; cbn; destruct cl; cbn;
    rewrite ?app_nil_r, ?orb_true_r, ?orb_false_r; split_and!; done.
Qed.

Lemma route_run_conserves ops st :
  let '(m, st') := route_run ops st in
  (queued (calls st.1) ++ in_calls m = out_calls m ++ queued (calls st'.1)
   /\ streams (calls st.1) ++ in_streams m = out_streams m ++ streams (calls st'.1))%list
  /\ closed (calls st'.1) = closed (calls st.1) || existsb is_close ops
  /\ st'.2 = st.2 ++ replicate (length (in_calls m) + length (in_streams m)) (route_waker st.1)
  /\ route_waker st'.1 = route_waker st.1
  /\ (length (in_calls m) + length (in_streams m) + refused m = length (List.filter is_queue ops))%nat
  /\ (closed (calls st.1) = true -> in_calls m = [] /\ in_streams m = []).
Proof.
  revert st. induction ops as [|op ops IH]; intros st; cbn [route_run].
  { cbn. rewrite !app_nil_r, orb_false_r. split_and!; done. }
  pose proof (route_step_conserves op st) as H. destruct (route_step op st) as [m1 st1].
  destruct H as ((Hq & Hs) & Hc & Hp & Hw & Hn & Hz).
  specialize (IH st1). destruct (route_run ops st1) as [m2 st2].
  destruct IH as ((Hq2 & Hs2) & Hc2 & Hp2 & Hw2 & Hn2 & Hz2).
  cbn [moved_app in_calls out_calls in_streams out_streams refused existsb List.filter].
  split_and!.
  - by rewrite app_assoc, Hq, <- !app_assoc, Hq2.
  - by rewrite app_assoc, Hs, <- !app_assoc, Hs2.
  - by rewrite Hc2, Hc, orb_assoc.
  - rewrite Hp2, Hp, Hw, <- app_assoc, <- replicate_add. do 2 f_equal. rewrite !length_app. lia.
  - congruence.
  - rewrite !length_app. destruct (is_queue op); cbn [length]; lia.
  - intros Ht. destruct (Hz Ht) as [-> ->]. rewrite Hc in Hz2.
    by destruct (Hz2 ltac:(by rewrite Ht)) as [-> ->].
Qed.

(** ** Properties *)

(** C29: Every call is accounted for exactly once.  However queueing, the worker's
    takes and the teardown interleave, each call or stream the application queued
    is refused, still on the route, or handed out exactly once and in the order it
    was queued; each accepted one posted exactly one event to the worker, and a
    refused one none; and once the route has closed nothing is left on it, so no
    call is stranded. *)
Theorem route_accounts_once (s : UpstreamSettings) (w : Waker) (ops : list RouteOp) :
  let '(m, (u, posted)) := route_run ops (upstreams_new s w, []) in
  in_calls m = (out_calls m ++ queued (calls u))%list
  /\ in_streams m = (out_streams m ++ streams (calls u))%list
  /\ (length (in_calls m) + length (in_streams m) + refused m
      = length (List.filter is_queue ops))%nat
  /\ posted = replicate (length (in_calls m) + length (in_streams m)) w
  /\ (existsb is_close ops = true -> queued (calls u) = [] /\ streams (calls u) = []).
Proof.
  pose proof (route_run_conserves ops (upstreams_new s w, [])) as H.
  assert (Hclosed : forall ops st, (closed (calls st.1) = true -> queued (calls st.1) = [] /\ streams (calls st.1) = []) ->
    closed (calls (route_run ops st).2.1) = true ->
    queued (calls (route_run ops st).2.1) = [] /\ streams (calls (route_run ops st).2.1) = []).
  { clear. intros ops. induction ops as [|op ops IH]; intros st Hst; [exact Hst|]. cbn [route_run].
    specialize (IH (route_step op st).2). destruct (route_step op st) as [m1 st1] eqn:E. cbn [snd] in IH.
    destruct (route_run ops st1) as [m2 st2]. apply IH. intros Ht.
    destruct st as [[s [q ss cl] w] posted]. destruct op, cl; cbn in E, Hst; simplify_eq/=; try done; auto.
    all: by destruct (Hst eq_refl) as [-> ->]. }
  specialize (Hclosed ops (upstreams_new s w, [])).
  destruct (route_run ops (upstreams_new s w, [])) as [m [u posted]].
  destruct H as ((Hq & Hs) & Hc & Hp & _ & Hn & _). cbn in *.
  split_and!; try done. intros Ht. apply Hclosed; [done|]. by rewrite Hc.
Qed.
