(* ===== verification/Wake.v ===== *)
(** * Wakeup plumbing ([src/src/wake.rs]) and the hand-over it carries

    A producer queues its work and then writes one byte to a socket the Ruby
    thread blocks on.  [signal] and [drain] are the two functions on the socket;
    [Handover] runs any number of producers against the reactor's loop, one shared
    access at a time. *)

From S2P Require Import Prelude Types.

Local Open Scope N_scope.

(** ** The socket pair *)

(** The non-blocking pair as its two ends see it: bytes written and not yet read,
    how many the buffer takes, and whether each end is still open. *)
Record Socket := {
  unread : N;
  room : N;
  reader_open : bool;
  writer_open : bool;
}.

Definition set_unread (s : Socket) (n : N) : Socket :=
  {| unread := n; room := room s; reader_open := reader_open s; writer_open := writer_open s |}.

Inductive IoResult :=
| IoCount (n : N)
| IoInterrupted
| IoWouldBlock
| IoError (message : string).

(** [write(&[1])] and [read(&mut [0; 256])] on a non-blocking stream socket. *)
Definition socket_write : St Socket IoResult := fun s =>
  if negb (reader_open s) then (IoError "Broken pipe", s)
  else if unread s <? room s then (IoCount 1, set_unread s (unread s + 1))
  else (IoWouldBlock, s).

Definition socket_read : St Socket IoResult := fun s =>
  if unread s =? 0
  then (if writer_open s then IoWouldBlock else IoCount 0, s)
  else let n := N.min 256 (unread s) in (IoCount n, set_unread s (unread s - n)).

(** A system call may be interrupted before it does anything. *)
Definition interruptible (m : St Socket IoResult) (interrupted : bool) : St Socket IoResult :=
  if interrupted then fun s => (IoInterrupted, s) else m.

(** [signal]'s loop.  [interrupts] says which of the successive calls are
    interrupted; once it is used up no call is. *)
Fixpoint signal (interrupts : list bool) : St Socket (result unit BridgeError) := fun s =>
  let '(r, s') := interruptible socket_write (default false (head interrupts)) s in
  match r with
  | IoCount 1 => (Ok tt, s')
  | IoCount _ => (Err (Io "wake socket accepted zero bytes"), s')
  | IoInterrupted =>
      match interrupts with
      | _ :: rest => signal rest s'
      | [] => (Ok tt, s')
      end
  | IoWouldBlock => (Ok tt, s')
  | IoError message => (Err (Io message), s')
  end.

(** [drain]'s loop, with fuel for the reads. *)
Fixpoint drain_loop (fuel : nat) (interrupts : list bool)
    : St Socket (option (result unit BridgeError)) := fun s =>
  match fuel with
  | O => (None, s)
  | S fuel =>
      let '(r, s') := interruptible socket_read (default false (head interrupts)) s in
      match r with
      | IoCount 0 => (Some (Err (Io "wake socket closed before shutdown")), s')
      | IoCount _ => drain_loop fuel (tail interrupts) s'
      | IoInterrupted => drain_loop fuel (tail interrupts) s'
      | IoWouldBlock => (Some (Ok tt), s')
      | IoError message => (Some (Err (Io message)), s')
      end
  end.

(** Each read that is not interrupted takes at least one byte. *)
Definition drain_fuel (interrupts : list bool) (s : Socket) : nat :=
  (length interrupts + N.to_nat (unread s) + 1)%nat.

Definition drain (interrupts : list bool) : St Socket (option (result unit BridgeError)) := fun s =>
  drain_loop (drain_fuel interrupts s) interrupts s.

(** ** Replies *)

Inductive RecvTimeoutError := Timeout | Disconnected.

Definition map_recv_timeout (error : RecvTimeoutError) : BridgeError :=
  match error with
  | Timeout => ResponseTimeout
  | Disconnected => RuntimeStopped
  end.

Definition recv_reply {T} (received : result (result T BridgeError) RecvTimeoutError)
    : result (result T BridgeError) BridgeError :=
  map_err map_recv_timeout received.

(** ** Lemmas *)

Definition socket_ok (s : Socket) : Prop :=
  1 <= room s /\ unread s <= room s /\ reader_open s = true /\ writer_open s = true.

Lemma signal_ok interrupts s :
  socket_ok s ->
  signal interrupts s = (Ok tt, set_unread s (N.min (unread s + 1) (room s))).
Proof.
  intros (Hr & Hu & Ho & Hw).
  assert (Hdone : forall rest, signal (false :: rest) s = (Ok tt, set_unread s (N.min (unread s + 1) (room s)))
            /\ signal [] s = (Ok tt, set_unread s (N.min (unread s + 1) (room s)))).
  { intros rest. cbn. unfold socket_write. rewrite Ho. cbn.
    destruct (unread s <? room s) eqn:E; rewrite ?N.min_l, ?N.min_r by lia; split; try done.
    all: destruct s; unfold set_unread; cbn in *; do 2 f_equal; lia. }
  induction interrupts as [|[] rest IH]; [apply (Hdone []) | exact IH | apply Hdone].
Qed.

Lemma drain_loop_ok fuel interrupts s :
  writer_open s = true -> (length interrupts + N.to_nat (unread s) < fuel)%nat ->
  drain_loop fuel interrupts s = (Some (Ok tt), set_unread s 0).
Proof.
  revert interrupts s. induction fuel as [|fuel IH]; intros interrupts s Hw Hf; [lia|].
  cbn [drain_loop]. unfold interruptible, socket_read.
  destruct interrupts as [|[] rest]; cbn -[N.min drain_loop] in *.
  2: { apply IH; [done | lia]. }
  all: rewrite Hw; destruct (N.eqb_spec (unread s) 0) as [Hz|Hnz]; [by destruct s; cbn in *; subst|].
  all: destruct (N.min 256 (unread s)) as [|p] eqn:Hp; [lia|].
  all: rewrite IH; [done | done | cbn; lia].
Qed.

(** An interrupted write is simply made again: what [signal] does never depends
    on the interruptions. *)
Lemma signal_interrupts interrupts s : signal interrupts s = signal [] s.
Proof.
  induction interrupts as [|[] rest IH]; [done | exact IH|].
  cbn. unfold socket_write. by destruct (reader_open s); cbn; [destruct (_ <? _)|].
Qed.

(** ** Properties of the two functions *)

(** [signal] always returns, however often its writes are interrupted, and
    whenever it succeeds at least one byte is waiting: a full buffer is not an
    error, and a later [drain] always returns too and leaves the socket empty, so
    that the next block waits for a byte written after it. *)
Theorem signal_then_drain (interrupts interrupts' : list bool) (s : Socket) :
  socket_ok s ->
  let '(r, s1) := signal interrupts s in
  r = Ok tt /\ 1 <= unread s1 /\ socket_ok s1
  /\ drain interrupts' s1 = (Some (Ok tt), set_unread s1 0).
Proof.
  intros H. rewrite signal_ok by done. destruct H as (Hr & Hu & Ho & Hw).
  split_and!; [done | cbn; lia | by repeat split; cbn; try lia |].
  apply drain_loop_ok; [done|]. unfold drain_fuel. lia.
Qed.

Lemma signal_then_drain_witness :
  drain [true; false] (signal [true; true] {| unread := 600; room := 600; reader_open := true; writer_open := true |}).2
  = (Some (Ok tt), {| unread := 0; room := 600; reader_open := true; writer_open := true |}).
Proof.
  pose proof (signal_then_drain [true; true] [true; false]
    {| unread := 600; room := 600; reader_open := true; writer_open := true |}) as H.
  rewrite signal_ok in * by (repeat split; cbn; lia).
  destruct H as (_ & _ & _ & H); [repeat split; cbn; lia | exact H].
Defined.

(** ** The hand-over

    The reactor's loop ([ruby/fiber_runner.rb] around [FiberBridge::drain], and
    the loop of [sync.rs], which has no deadline and owes no wakeups): wait until
    the socket is readable or the deadline passes, resolve the owed wakeups, drain
    the socket, receive commands until there are none, wait again. *)

Module Handover.

Inductive Phase := Waiting | Resolving | Draining | Receiving.

Record State (C R : Type) := {
  socket : Socket;
  sent : list C;                    (* every command ever sent, in order *)
  commands : list C;                (* the channel: sent and not yet received *)
  received : list C;
  owed : list R;
  resolved : list R;
  signalling : nat;                 (* producers that have queued and not yet signalled *)
  phase : Phase;
}.
Arguments socket {C R}.
Arguments sent {C R}.
Arguments commands {C R}.
Arguments received {C R}.
Arguments owed {C R}.
Arguments resolved {C R}.
Arguments signalling {C R}.
Arguments phase {C R}.

Definition init {C R} (room : N) : State C R :=
  {| socket := {| unread := 0; room := room; reader_open := true; writer_open := true |};
     sent := []; commands := []; received := []; owed := []; resolved := []; signalling := 0;
     phase := Waiting |}.

(** The producers: [send_and_wake] and [wake_body]. *)
Inductive producer_step {C R} : State C R -> State C R -> Prop :=
| p_send h c :
    producer_step h {| socket := socket h; sent := sent h ++ [c]; commands := commands h ++ [c];
      received := received h; owed := owed h; resolved := resolved h;
      signalling := S (signalling h); phase := phase h |}
| p_owe h r :
    producer_step h {| socket := socket h; sent := sent h; commands := commands h;
      received := received h; owed := owed h ++ [r]; resolved := resolved h;
      signalling := S (signalling h); phase := phase h |}
| p_signal h n interrupts :
    signalling h = S n ->
    producer_step h {| socket := (signal interrupts (socket h)).2; sent := sent h;
      commands := commands h; received := received h; owed := owed h; resolved := resolved h;
      signalling := n; phase := phase h |}.

Definition enter {C R} (h : State C R) (p : Phase) : State C R :=
  {| socket := socket h; sent := sent h; commands := commands h; received := received h;
     owed := owed h; resolved := resolved h; signalling := signalling h; phase := p |}.

(** The reactor's own steps; [r_wake] is the only way out of a wait other than
    the deadline. *)
Inductive reactor_step {C R} : State C R -> State C R -> Prop :=
| r_wake h :
    phase h = Waiting -> 0 < unread (socket h) -> reactor_step h (enter h Resolving)
| r_resolve h :
    phase h = Resolving ->
    reactor_step h {| socket := socket h; sent := sent h; commands := commands h;
      received := received h; owed := []; resolved := resolved h ++ owed h;
      signalling := signalling h; phase := Draining |}
| r_drain h interrupts :
    phase h = Draining ->
    reactor_step h {| socket := (drain interrupts (socket h)).2; sent := sent h;
      commands := commands h; received := received h; owed := owed h; resolved := resolved h;
      signalling := signalling h; phase := Receiving |}
| r_receive h c rest :
    phase h = Receiving -> commands h = c :: rest ->
    reactor_step h {| socket := socket h; sent := sent h; commands := rest;
      received := received h ++ [c]; owed := owed h; resolved := resolved h;
      signalling := signalling h; phase := Receiving |}
| r_empty h :
    phase h = Receiving -> commands h = [] -> reactor_step h (enter h Waiting).

Definition deadline_step {C R} (h h' : State C R) : Prop :=
  phase h = Waiting /\ h' = enter h Resolving.

Definition step {C R} (h h' : State C R) : Prop :=
  producer_step h h' \/ reactor_step h h' \/ deadline_step h h'.

Definition reachable {C R} (room : N) : State C R -> Prop := rtc step (init room).

Record inv {C R} (h : State C R) : Prop := {
  i_socket : socket_ok (socket h);
  i_order : sent h = (received h ++ commands h)%list;
  i_wake : phase h <> Receiving -> commands h <> [] ->
    0 < unread (socket h) \/ (0 < signalling h)%nat;
}.

Lemma set_unread_ok s n : socket_ok s -> n <= room s -> socket_ok (set_unread s n).
Proof. unfold socket_ok. cbn. naive_solver. Qed.

Lemma drain_ok interrupts s :
  socket_ok s -> drain interrupts s = (Some (Ok tt), set_unread s 0).
Proof. intros (_ & _ & _ & Hw). apply drain_loop_ok; [done|]. unfold drain_fuel. lia. Qed.

Lemma inv_step {C R} (h h' : State C R) : step h h' -> inv h -> inv h'.
Proof.
  intros Hstep [Hs Ho Hw]. pose proof Hs as (Hr & _).
  destruct Hstep as [Hp|[Hr'|[Hph ->]]]; [destruct Hp|destruct Hr'|].
  - constructor; cbn; [done | by rewrite Ho, app_assoc | right; lia].
  - constructor; cbn; [done | done | right; lia].
  - rewrite signal_ok by done. constructor; cbn; [apply set_unread_ok; [done|lia] | done | left; lia].
  - constructor; cbn; [done | done | intros _; apply Hw; congruence].
  - constructor; cbn; [done | done | intros _; apply Hw; congruence].
  - rewrite drain_ok by done. constructor; cbn; [apply set_unread_ok; [done|lia] | done | done].
  - constructor; cbn; [done | by rewrite Ho, H0, <- app_assoc | done].
  - constructor; cbn; [done | done | by rewrite H0].
  - constructor; cbn; [done | done | intros _; apply Hw; congruence].
Qed.

Lemma reachable_inv {C R} room (h : State C R) : 1 <= room -> reachable room h -> inv h.
Proof.
  intros Hr H. assert (Hi : inv (init (C:=C) (R:=R) room)).
  { constructor; cbn; [repeat split; cbn; lia | done | done]. }
  revert Hi. unfold reachable in H. induction H as [|x y z Hxy _ IH]; [done|].
  intros Hi. by apply IH, (inv_step x).
Qed.

(** Receiving goes on until the channel is empty. *)
Lemma receive_all {C R} (h : State C R) :
  phase h = Receiving ->
  exists h', rtc reactor_step h h' /\ phase h' = Waiting /\ commands h' = []
    /\ received h' = (received h ++ commands h)%list /\ owed h' = owed h /\ sent h' = sent h.
Proof.
  remember (commands h) as cs eqn:Hc. revert h Hc.
  induction cs as [|c cs IH]; intros h Hc Hp.
  - exists (enter h Waiting). split_and!; [by apply rtc_once, r_empty|done|done|by rewrite app_nil_r|done|done].
  - edestruct (IH {| socket := socket h; sent := sent h; commands := cs;
      received := received h ++ [c]; owed := owed h; resolved := resolved h;
      signalling := signalling h; phase := Receiving |})
      as (h' & Hr & Hp' & Hc' & Hd & Ho & Hs); [done|done|].
    exists h'. split_and!; try done; [|by rewrite Hd; cbn; rewrite <- app_assoc].
    eapply rtc_l; [by apply (r_receive h c cs)|exact Hr].
Qed.

(** One pass, from the moment the wait ends. *)
Lemma pass {C R} (h : State C R) :
  phase h = Resolving ->
  exists h', rtc reactor_step h h' /\ phase h' = Waiting /\ commands h' = []
    /\ received h' = (received h ++ commands h)%list /\ owed h' = [] /\ sent h' = sent h.
Proof.
  intros Hp.
  set (h1 := {| socket := socket h; sent := sent h; commands := commands h;
    received := received h; owed := []; resolved := resolved h ++ owed h;
    signalling := signalling h; phase := Draining |}).
  set (h2 := {| socket := (drain [] (socket h1)).2; sent := sent h1;
    commands := commands h1; received := received h1; owed := owed h1; resolved := resolved h1;
    signalling := signalling h1; phase := Receiving |}).
  destruct (receive_all h2 eq_refl) as (h' & Hr & ? & ? & ? & ? & ?).
  exists h'. split_and!; try done.
  eapply rtc_l; [by apply r_resolve|]. eapply rtc_l; [by apply (r_drain h1 [])|]. exact Hr.
Qed.

(** C31: No command is lost, and none waits for the deadline.  However the
    producers' sends and signals interleave with the reactor's loop, commands are
    received in the order they were sent and each once; and whenever the reactor
    blocks with a command still queued and no producer about to signal, a byte is
    waiting, so the reactor's own steps (no deadline needed, which the serial
    runtime does not have) receive everything that was sent. *)
Theorem commands_never_lost {C R} (room : N) (h : State C R) :
  1 <= room -> reachable room h ->
  sent h = (received h ++ commands h)%list
  /\ (phase h = Waiting -> signalling h = 0%nat -> commands h <> [] ->
      exists h', rtc reactor_step h h' /\ phase h' = Waiting /\ commands h' = []
        /\ received h' = sent h).
Proof.
  intros Hroom Hr. destruct (reachable_inv room h Hroom Hr) as [Hs Ho Hw].
  split; [exact Ho|]. intros Hp Hn Hc.
  destruct (Hw ltac:(congruence) Hc) as [Hu|Hu]; [|lia].
  destruct (pass (enter h Resolving) eq_refl) as (h' & Hr' & Hp' & Hc' & Hd & _ & _).
  exists h'. split_and!; try done; [|by rewrite Hd, Ho].
  eapply rtc_l; [by apply r_wake|exact Hr'].
Qed.

(** A command sent and signalled while the reactor waits. *)
Definition handover_example : State nat nat :=
  {| socket := {| unread := 1; room := 4; reader_open := true; writer_open := true |};
     sent := [5%nat]; commands := [5%nat]; received := []; owed := []; resolved := [];
     signalling := 0; phase := Waiting |}.

Lemma handover_example_reachable : reachable 4 handover_example.
Proof.
  eapply rtc_l; [left; apply (p_send _ 5%nat)|].
  eapply rtc_l; [left; by apply (p_signal _ 0 [])|]. apply rtc_refl.
Qed.

Lemma commands_never_lost_witness :
  exists h', rtc reactor_step handover_example h' /\ received h' = [5%nat].
Proof.
  destruct (commands_never_lost 4 handover_example) as [_ H];
    [lia | apply handover_example_reachable|].
  destruct H as (h' & ? & _ & _ & ?); [reflexivity | reflexivity | discriminate |].
  exists h'. split; assumption.
Defined.

(** C38: A wakeup can wait for the deadline, and no longer.  The owed wakeups are
    taken before the socket is drained, so one that is owed and signalled between
    the two loses its byte: a reachable state has a wakeup owed, no byte waiting
    and no producer about to signal, and the reactor's own steps leave it there.
    The deadline's pass then resolves it, as a pass does with everything owed when
    it starts. *)
Theorem wakeup_waits_for_deadline (room : N) :
  1 <= room ->
  (exists h : State nat nat, reachable room h /\ owed h = [7%nat] /\ signalling h = 0%nat
     /\ phase h = Waiting /\ ~ (exists h', reactor_step h h'))
  /\ (forall h : State nat nat, phase h = Waiting ->
        exists h1 h', deadline_step h h1 /\ rtc reactor_step h1 h' /\ owed h' = []
          /\ commands h' = []).
Proof.
  intros Hroom. split.
  - set (s0 := {| unread := 0; room := room; reader_open := true; writer_open := true |}).
    assert (Hok : socket_ok s0) by (repeat split; cbn; lia).
    exists {| socket := s0; sent := []; commands := []; received := []; owed := [7%nat]; resolved := [];
      signalling := 0; phase := Waiting |}.
    split_and!; try done.
    + eapply rtc_l; [right; right; by split|].
      eapply rtc_l; [right; left; by apply r_resolve|]. cbn.
      eapply rtc_l; [left; apply (p_owe _ 7%nat)|]. cbn.
      eapply rtc_l; [left; by apply (p_signal _ 0 [])|].
      eapply rtc_l; [right; left; by apply (r_drain _ [])|].
      eapply rtc_l; [right; left; by apply r_empty|]. cbn -[signal drain].
      rewrite signal_ok by done. rewrite drain_ok by (apply set_unread_ok; [done|cbn; lia]).
      apply rtc_refl.
    + intros (h' & Hs). inversion Hs; cbn in *; try done.
  - intros h Hp. destruct (pass (enter h Resolving) eq_refl) as (h' & ? & ? & ? & ? & ? & ?).
    exists (enter h Resolving), h'. by split_and!.
Qed.

Lemma wakeup_waits_for_deadline_witness :
  exists h : State nat nat, reachable 1 h /\ owed h = [7%nat] /\ phase h = Waiting.
Proof.
  destruct (wakeup_waits_for_deadline 1) as [(h & ? & ? & _ & ? & _) _]; [reflexivity|].
  exists h. split; [assumption|split; assumption].
Defined.

End Handover.
