(* ===== verification/Request.v ===== *)
(** * Requests ([src/src/request.rs])

    One request, owned outright, as it crosses into the Ruby thread.  A request
    names its body stream and its route by reference. *)

From S2P Require Import Prelude Types Stream.

Local Open Scope string_scope.

Record RequestMetadata := {
  authority : string;
  scheme : string;
  server_name : string;
  server_port : N;
  protocol : string;
  remote_addr : option string;
}.

#[export] Instance RequestMetadata_eq_dec : EqDecision RequestMetadata.
Proof. solve_decision. Defined.

Definition RequestMetadata_default : RequestMetadata :=
  {| authority := "localhost"; scheme := "http"; server_name := "localhost";
     server_port := 80%N; protocol := "HTTP/1.1"; remote_addr := None |}.

Record RequestDiagnostics := {
  received_at : Instant;
  body_copy_time : Duration;
  body_callbacks : N;
  diag_submitted_at : option Instant;
}.

Definition RequestDiagnostics_new (received_at : Instant) : RequestDiagnostics :=
  {| received_at := received_at; body_copy_time := 0%N; body_callbacks := 0%N;
     diag_submitted_at := None |}.

Record Request := {
  method : string;
  path : string;
  body : bytes;
  body_stream : option StreamHandle;
  request_headers : list (string * bytes);
  metadata : RequestMetadata;
  context : option Context;
  upstreams : option N;
  force_gc : bool;
  diagnostics : option RequestDiagnostics;
}.

Definition Request_new (m p : string) (b : bytes) : Request :=
  {| method := m; path := p; body := b; body_stream := None; request_headers := [];
     metadata := RequestMetadata_default; context := None; upstreams := None;
     force_gc := false; diagnostics := None |}.

Definition with_header (r : Request) (name : string) (value : bytes) : Request :=
  {| method := method r; path := path r; body := body r; body_stream := body_stream r;
     request_headers := (request_headers r ++ [(name, value)])%list; metadata := metadata r;
     context := context r; upstreams := upstreams r; force_gc := force_gc r;
     diagnostics := diagnostics r |}.

Definition with_forced_gc (r : Request) : Request :=
  {| method := method r; path := path r; body := body r; body_stream := body_stream r;
     request_headers := request_headers r; metadata := metadata r; context := context r;
     upstreams := upstreams r; force_gc := true; diagnostics := diagnostics r |}.

Definition with_metadata (r : Request) (m : RequestMetadata) : Request :=
  {| method := method r; path := path r; body := body r; body_stream := body_stream r;
     request_headers := request_headers r; metadata := m; context := context r;
     upstreams := upstreams r; force_gc := force_gc r; diagnostics := diagnostics r |}.

(** What [submit] fills in: the streamed body, the route, the time of submission. *)
Definition with_streams (r : Request) (handle : StreamHandle) (route : option N)
    (d : option RequestDiagnostics) : Request :=
  {| method := method r; path := path r; body := body r; body_stream := Some handle;
     request_headers := request_headers r; metadata := metadata r; context := context r;
     upstreams := route; force_gc := force_gc r; diagnostics := d |}.
