(* ===== verification/World.v ===== *)
(** * The store both runtimes' threads share

    Everything behind an [Arc]: the queues, the channels of streamed calls, the
    routes, the list of owed wakeups, the command channel and its wake socket, the
    admission budget, and the events posted to Envoy's workers.  Objects are named
    by the references that stand for their [Arc]s. *)

From S2P Require Import Prelude Types Budget Stream Upstream Wake Request.

Local Open Scope N_scope.

(** ** Commands to the Ruby thread ([src/src/fiber.rs]) *)

Record FiberCall := {
  call_request : Request;
  call_handle : StreamHandle;
  permit : Lease;
}.

Record AdminRequest := {
  admin_method : string;
  admin_path : string;
  admin_body : bytes;
  inflight : N;
}.

(** [reply] names the reply channel. *)
Record AdminCall := { admin_request : AdminRequest; admin_reply : N }.

Inductive FiberCommand :=
| Call (call : FiberCall)
| Admin (call : AdminCall)
| Drain
| Shutdown (reply : N).

(** ** The store *)

Record World := {
  queues : gmap N ResponseStream;
  channels : gmap N StreamChannel;
  routes : gmap N Upstreams;
  owed : list QRef;
  wake_socket : Socket;
  commands : list FiberCommand;
  receiving : bool;                 (* the receiver of [commands] is alive *)
  admission : Ceiling;
  posted : list Waker;              (* events committed to Envoy's schedulers *)
  next_ref : N;
  instants : list Instant;          (* what successive reads of the clock return *)
  vm : list N;                      (* the Ruby VM's own state, never looked into *)
}.

Definition set_queues (w : World) q : World :=
  {| queues := q; channels := channels w; routes := routes w; owed := owed w;
     wake_socket := wake_socket w; commands := commands w; receiving := receiving w;
     admission := admission w; posted := posted w; next_ref := next_ref w;
     instants := instants w; vm := vm w |}.
Definition set_channels (w : World) c : World :=
  {| queues := queues w; channels := c; routes := routes w; owed := owed w;
     wake_socket := wake_socket w; commands := commands w; receiving := receiving w;
     admission := admission w; posted := posted w; next_ref := next_ref w;
     instants := instants w; vm := vm w |}.
Definition set_routes (w : World) r : World :=
  {| queues := queues w; channels := channels w; routes := r; owed := owed w;
     wake_socket := wake_socket w; commands := commands w; receiving := receiving w;
     admission := admission w; posted := posted w; next_ref := next_ref w;
     instants := instants w; vm := vm w |}.
Definition set_owed (w : World) o : World :=
  {| queues := queues w; channels := channels w; routes := routes w; owed := o;
     wake_socket := wake_socket w; commands := commands w; receiving := receiving w;
     admission := admission w; posted := posted w; next_ref := next_ref w;
     instants := instants w; vm := vm w |}.
Definition set_socket (w : World) s : World :=
  {| queues := queues w; channels := channels w; routes := routes w; owed := owed w;
     wake_socket := s; commands := commands w; receiving := receiving w;
     admission := admission w; posted := posted w; next_ref := next_ref w;
     instants := instants w; vm := vm w |}.
Definition set_commands (w : World) c : World :=
  {| queues := queues w; channels := channels w; routes := routes w; owed := owed w;
     wake_socket := wake_socket w; commands := c; receiving := receiving w;
     admission := admission w; posted := posted w; next_ref := next_ref w;
     instants := instants w; vm := vm w |}.
Definition set_admission (w : World) a : World :=
  {| queues := queues w; channels := channels w; routes := routes w; owed := owed w;
     wake_socket := wake_socket w; commands := commands w; receiving := receiving w;
     admission := a; posted := posted w; next_ref := next_ref w;
     instants := instants w; vm := vm w |}.
Definition set_posted (w : World) p : World :=
  {| queues := queues w; channels := channels w; routes := routes w; owed := owed w;
     wake_socket := wake_socket w; commands := commands w; receiving := receiving w;
     admission := admission w; posted := p; next_ref := next_ref w;
     instants := instants w; vm := vm w |}.
Definition set_next (w : World) n : World :=
  {| queues := queues w; channels := channels w; routes := routes w; owed := owed w;
     wake_socket := wake_socket w; commands := commands w; receiving := receiving w;
     admission := admission w; posted := posted w; next_ref := n;
     instants := instants w; vm := vm w |}.
Definition set_instants (w : World) i : World :=
  {| queues := queues w; channels := channels w; routes := routes w; owed := owed w;
     wake_socket := wake_socket w; commands := commands w; receiving := receiving w;
     admission := admission w; posted := posted w; next_ref := next_ref w;
     instants := i; vm := vm w |}.

(** ** Objects of the store *)

Definition get_channel (w : World) (c : N) : StreamChannel :=
  default (channel_new 1) (channels w !! c).

Definition on_channel {A} (c : N) (m : St StreamChannel A) : St World A := fun w =>
  let '(a, ch) := m (get_channel w c) in (a, set_channels w (<[c := ch]> (channels w))).

Definition get_queue (w : World) (r : QRef) : ResponseStream :=
  match r with
  | Direct n => default (stream_new 1) (queues w !! n)
  | ResponseOf c => response (get_channel w c)
  | RequestOf c => request (get_channel w c)
  end.

Definition on_queue {A} (r : QRef) (m : St ResponseStream A) : St World A :=
  match r with
  | Direct n => fun w =>
      let '(a, s) := m (get_queue w r) in (a, set_queues w (<[n := s]> (queues w)))
  | ResponseOf c => on_channel c (on_response m)
  | RequestOf c => on_channel c (on_request m)
  end.

(** A method that returns nothing. *)
Definition modify {S} (f : S -> S) : St S unit := fun s => (tt, f s).

(** A read of the store. *)
Definition read {A} (f : World -> A) : St World A := fun w => (f w, w).

Definition fresh : St World N := fun w => (next_ref w, set_next w (next_ref w + 1)).

Definition new_queue (max : N) : St World QRef := fun w =>
  let '(n, w) := fresh w in (Direct n, set_queues w (<[n := stream_new max]> (queues w))).

Definition new_channel (budget : N) : St World N := fun w =>
  let '(n, w) := fresh w in (n, set_channels w (<[n := channel_new budget]> (channels w))).

Definition new_route (s : UpstreamSettings) (wk : Waker) : St World N := fun w =>
  let '(n, w) := fresh w in (n, set_routes w (<[n := upstreams_new s wk]> (routes w))).

(** A method of a route, which may post an event. *)
Definition on_route {A} (absent : A) (n : N) (m : St (Upstreams * list Waker) A) : St World A := fun w =>
  match routes w !! n with
  | Some u => let '(a, (u, p)) := m (u, posted w) in
      (a, set_posted (set_routes w (<[n := u]> (routes w))) p)
  | None => (absent, w)
  end.

(** A locked method of a route's calls. *)
Definition on_calls {A} (m : St Calls A) : St (Upstreams * list Waker) A := fun '(u, p) =>
  let '(a, c) := m (calls u) in
  (a, ({| settings := settings u; calls := c; route_waker := route_waker u |}, p)).

Definition wake_handle (h : StreamHandle) : St World unit :=
  modify (fun w => set_posted w (wake h (posted w))).

(** [Upstreams::wake] *)
Definition wake_route (n : N) : St World unit :=
  on_route tt n (fun '(u, p) => (tt, (u, call_waker (route_waker u) p))).

(** [Instant::now()] *)
Definition now : St World Instant := fun w =>
  match instants w with
  | t :: rest => (t, set_instants w rest)
  | [] => (0, w)
  end.

(** ** Lemmas *)

Lemma get_on_channel {A} c (m : St StreamChannel A) w :
  get_channel (on_channel c m w).2 c = (m (get_channel w c)).2.
Proof.
  unfold on_channel. destruct (m (get_channel w c)) as [a ch]. cbn.
  unfold get_channel. cbn. by rewrite lookup_insert_eq.
Qed.

Lemma get_on_queue {A} r (m : St ResponseStream A) w :
  get_queue (on_queue r m w).2 r = (m (get_queue w r)).2.
Proof.
  destruct r as [n|c|c]; cbn [on_queue].
  - destruct (m (get_queue w (Direct n))) as [a s] eqn:E. cbn. by rewrite lookup_insert_eq.
  - cbn [get_queue]. rewrite get_on_channel. unfold on_response. by destruct (m _).
  - cbn [get_queue]. rewrite get_on_channel. unfold on_request. by destruct (m _).
Qed.

(** A store with nothing in it, an admission limit and a wake socket. *)
Definition world_new (limit : N) : World :=
  {| queues := ∅; channels := ∅; routes := ∅; owed := [];
     wake_socket := {| unread := 0; room := 64; reader_open := true; writer_open := true |};
     commands := []; receiving := true; admission := Budget_new limit; posted := [];
     next_ref := 1; instants := []; vm := [] |}.

Lemma on_queue_fst {A} r (m : St ResponseStream A) w : (on_queue r m w).1 = (m (get_queue w r)).1.
Proof.
  destruct r as [n|c|c]; cbn [on_queue get_queue]; unfold on_channel, on_response, on_request;
    by destruct (m _).
Qed.

Lemma get_channel_ne c c' ch w : c <> c' ->
  get_channel (set_channels w (<[c' := ch]> (channels w))) c = get_channel w c.
Proof. intros Hne. unfold get_channel. cbn. by rewrite lookup_insert_ne. Qed.

Lemma get_queue_channel_ne {A} (m : St StreamChannel A) c c' w : c <> c' ->
  get_queue (on_channel c' m w).2 (ResponseOf c) = get_queue w (ResponseOf c)
  /\ get_queue (on_channel c' m w).2 (RequestOf c) = get_queue w (RequestOf c).
Proof.
  intros Hne. unfold on_channel. destruct (m _) as [a ch]. cbn [snd get_queue]. by rewrite get_channel_ne.
Qed.

(** An operation on one queue leaves the others alone. *)
Lemma get_on_queue_ne {A} r r' (m : St ResponseStream A) w :
  r <> r' -> get_queue (on_queue r' m w).2 r = get_queue w r.
Proof.
  intros Hne. destruct r' as [n'|c'|c'], r as [n|c|c]; cbn [on_queue].
  1: destruct (m _); cbn; rewrite lookup_insert_ne; congruence.
  1,2: by destruct (m _).
  1: unfold on_channel; by destruct (on_response _ _).
  3: unfold on_channel; by destruct (on_request _ _).
  - apply get_queue_channel_ne. congruence.
  - destruct (decide (c = c')) as [->|Hc]; [|by apply get_queue_channel_ne].
    cbn [get_queue]. rewrite get_on_channel. unfold on_response. by destruct (m _).
  - destruct (decide (c = c')) as [->|Hc]; [|by apply get_queue_channel_ne].
    cbn [get_queue]. rewrite get_on_channel. unfold on_request. by destruct (m _).
  - apply get_queue_channel_ne. congruence.
Qed.
