(* ===== verification/Client.v ===== *)
(** * The runtime's client ([FiberRuntimeClient] in [src/src/fiber.rs])

    What any thread may ask of the Ruby thread: submit a request under the
    admission budget, report progress on a queue, pass an admin request, a drain or
    a shutdown on; and the two ways of collecting a streamed response into one. *)

From S2P Require Import Prelude Types Budget Stream StreamTrace Upstream Wake Request World.

Local Open Scope N_scope.

(** ** Sending *)

(** [wake::signal] on the client's writer; interrupted writes are retried without
    effect ([Wake.signal_interrupts]). *)
Definition signal_runtime : St World (result unit BridgeError) := fun w =>
  let '(r, s) := signal [] (wake_socket w) in (r, set_socket w s).

(** A command nobody receives is dropped, and with it the lease it carries. *)
Definition drop_command (command : FiberCommand) (w : World) : World :=
  match command with
  | Call call => set_admission w (drop_lease (permit call) (admission w))
  | Admin _ | Drain | Shutdown _ => w
  end.

Definition send_and_wake (command : FiberCommand) : St World (result unit BridgeError) := fun w =>
  if receiving w
  then signal_runtime (set_commands w (commands w ++ [command]))
  else (Err RuntimeStopped, drop_command command w).

Definition submit (request : Request) (handle : StreamHandle)
    : St World (result unit BridgeError) := fun w =>
  match try_acquire (admission w) 1 with
  | (None, a) => (Err Overloaded, set_admission w a)
  | (Some lease, a) =>
      send_and_wake (Call {| call_request := request; call_handle := handle; permit := lease |})
        (set_admission w a)
  end.

Definition wake_body (stream : QRef) : St World unit :=
  do* modify (fun w => set_owed w (owe stream (owed w))) in
  do* signal_runtime in st_ret tt.

Lemma wake_body_eq r w :
  wake_body r w = (tt, set_socket (set_owed w (owe r (owed w))) (signal [] (wake_socket w)).2).
Proof.
  unfold wake_body, signal_runtime, modify, st_bind. cbn [fst snd wake_socket set_owed].
  by destruct (signal [] (wake_socket w)).
Qed.

Definition inflight_requests (w : World) : N := used (admission w).

(** ** Requests that wait for an answer

    [await] is what [recv_timeout] on the reply channel does: the other threads run
    until an answer arrives, the asker's time is up, or the sender is dropped. *)

Section replies.
Context (await_admin : N -> St World (result (N * string) RecvTimeoutError)).
Context (await_shutdown : N -> St World (result unit RecvTimeoutError)).

Definition admin (m p : string) (b : bytes) : St World (result (N * string) BridgeError) :=
  let* reply := fresh in
  let* inflight := read inflight_requests in
  let* sent := send_and_wake (Admin {|
    admin_request := {| admin_method := m; admin_path := p; admin_body := b; inflight := inflight |};
    admin_reply := reply |}) in
  match sent with
  | Err e => st_ret (Err e)
  | Ok _ => let* answer := await_admin reply in st_ret (map_err map_recv_timeout answer)
  end.

Definition request_shutdown : St World (result unit BridgeError) :=
  let* reply := fresh in
  let* sent := send_and_wake (Shutdown reply) in
  match sent with
  | Err e => st_ret (Err e)
  | Ok _ => let* answer := await_shutdown reply in st_ret (map_err map_recv_timeout answer)
  end.

End replies.

Definition drain_application : St World (result unit BridgeError) := send_and_wake Drain.

(** ** The reactor's heartbeat *)

Record ReactorHeartbeat := { started_at : Instant; last_pass_ms : N }.

(** [as u64] keeps the low 64 bits of the 128-bit count. *)
Definition elapsed_ms (h : ReactorHeartbeat) (t : Instant) : N :=
  as_millis (duration_since t (started_at h)) mod width64.

Definition record_pass (h : ReactorHeartbeat) (t : Instant) : ReactorHeartbeat :=
  {| started_at := started_at h; last_pass_ms := elapsed_ms h t |}.

Definition idle_for (h : ReactorHeartbeat) (t : Instant) : Duration :=
  from_millis (saturating_sub (elapsed_ms h t) (last_pass_ms h)).

(** ** Collecting a response: [call] *)

Definition no_head : BridgeError := InvalidResponse "stream ended without a head".

(** What [call] has gathered, and what one item makes of it. *)
Record Gathered := { g_head : option ResponseHead; g_body : bytes }.

Definition gathered_none : Gathered := {| g_head := None; g_body := [] |}.

Definition response_of (g : Gathered) : result Response BridgeError :=
  let? head := ok_or (g_head g) no_head in
  Ok {| resp_status := status head; resp_headers := headers head; resp_body := g_body g;
        resp_ruby_thread_object_id := ruby_thread_object_id head |}.

(** [inl]: the loop goes on; [inr]: [call] returns. *)
Definition gather_item (g : Gathered) (item : StreamItem)
    : Gathered + result Response BridgeError :=
  match item with
  | Head head => inl {| g_head := Some head; g_body := g_body g |}
  | Chunk chunk => inl {| g_head := g_head g; g_body := g_body g ++ chunk |}
  | Failed error => inr (Err error)
  | End => inr (response_of g)
  end.

(** [while let Some(item) = stream.take_next()], with fuel for the items queued. *)
Fixpoint gather (fuel : nat) (g : Gathered)
    : St ResponseStream (Gathered + result Response BridgeError) := fun s =>
  match fuel with
  | O => (inl g, s)
  | S fuel =>
      let '(item, s') := take_next s in
      match item with
      | None => (inl g, s')
      | Some item =>
          match gather_item g item with
          | inl g' => gather fuel g' s'
          | inr r => (inr r, s')
          end
      end
  end.

Definition gather_all (g : Gathered) : St ResponseStream (Gathered + result Response BridgeError) :=
  fun s => gather (S (length (items s))) g s.

Section call.
(** What the other threads do while the caller waits in [recv_timeout]. *)
Context (recv_timeout : Duration -> St World unit).

Fixpoint call_rounds (rounds : nat) (r : QRef) (deadline : Instant) (g : Gathered)
    : St World (option (result Response BridgeError)) :=
  match rounds with
  | O => st_ret None
  | S rounds =>
      let* out := on_queue r (gather_all g) in
      match out with
      | inr answer => st_ret (Some answer)
      | inl g' =>
          let* t := now in
          let remaining := duration_since deadline t in
          if remaining =? 0 then st_ret (Some (Err ResponseTimeout))
          else do* recv_timeout remaining in call_rounds rounds r deadline g'
      end
  end.

Definition call_ (rounds : nat) (request : Request) (wk : Waker)
    : St World (option (result Response BridgeError)) :=
  let* r := new_queue usize_MAX in
  let* submitted := submit request {| stream := r; waker := wk |} in
  match submitted with
  | Err e => st_ret (Some (Err e))
  | Ok _ => let* t := now in call_rounds rounds r (t + DEFAULT_RESPONSE_TIMEOUT) gathered_none
  end.

End call.

(** ** Collecting a response: [submit_collected] *)

(** [CollectingResponse]; [completed] logs the calls of the completion. *)
Record CollectingResponse := {
  c_head : option ResponseHead;
  c_body : bytes;
  completion : bool;
  completed : list (result Response BridgeError);
}.

Definition collecting_new : CollectingResponse :=
  {| c_head := None; c_body := []; completion := true; completed := [] |}.

Definition finish (c : CollectingResponse) (r : result Response BridgeError) : CollectingResponse :=
  if completion c
  then {| c_head := c_head c; c_body := c_body c; completion := false; completed := completed c ++ [r] |}
  else c.

Definition collect_item (c : CollectingResponse) (item : StreamItem) : CollectingResponse :=
  match item with
  | Head head => {| c_head := Some head; c_body := c_body c; completion := completion c;
                    completed := completed c |}
  | Chunk chunk => {| c_head := c_head c; c_body := c_body c ++ chunk; completion := completion c;
                      completed := completed c |}
  | Failed error => finish c (Err error)
  | End =>
      match c_head c with
      | Some head =>
          finish {| c_head := None; c_body := []; completion := completion c; completed := completed c |}
            (Ok {| resp_status := status head; resp_headers := headers head; resp_body := c_body c;
                   resp_ruby_thread_object_id := ruby_thread_object_id head |})
      | None => finish c (Err no_head)
      end
  end.

(** One call of the waker. *)
Fixpoint collect (fuel : nat) (c : CollectingResponse) : St ResponseStream CollectingResponse := fun s =>
  match fuel with
  | O => (c, s)
  | S fuel =>
      let '(item, s') := take_next s in
      match item with
      | None => (c, s')
      | Some item => collect fuel (collect_item c item) s'
      end
  end.

Definition collect_wake (c : CollectingResponse) : St ResponseStream CollectingResponse :=
  fun s => collect (S (length (items s))) c s.

(** ** What a response collected from a list of items is *)

Fixpoint assemble (g : Gathered) (its : list StreamItem) : Gathered + result Response BridgeError :=
  match its with
  | [] => inl g
  | item :: its =>
      match gather_item g item with
      | inl g' => assemble g' its
      | inr r => inr r
      end
  end.

(** The producer's side between two looks of the collector: it pushes items. *)
Definition push_all (its : list StreamItem) (s : ResponseStream) : ResponseStream :=
  foldl (fun s item => (push item s).2) s its.

(** [call]: the looks of its loop, one per batch of items the other threads push. *)
Fixpoint call_looks (batches : list (list StreamItem)) (g : Gathered) (s : ResponseStream)
    : Gathered + result Response BridgeError :=
  match batches with
  | [] => inl g
  | batch :: rest =>
      let '(out, s') := gather_all g (push_all batch s) in
      match out with
      | inl g' => call_looks rest g' s'
      | inr r => inr r
      end
  end.

(** [submit_collected]: one call of the waker per batch. *)
Fixpoint collect_looks (batches : list (list StreamItem)) (c : CollectingResponse)
    (s : ResponseStream) : CollectingResponse :=
  match batches with
  | [] => c
  | batch :: rest =>
      let '(c', s') := collect_wake c (push_all batch s) in collect_looks rest c' s'
  end.

Lemma assemble_app g a b :
  assemble g (a ++ b) = match assemble g a with inl g' => assemble g' b | inr r => inr r end.
Proof.
  revert g. induction a as [|i a IH]; intros g; cbn; [done|].
  destruct (gather_item g i); [apply IH | done].
Qed.

Lemma take_next_cons s i rest :
  paused s = false -> items s = i :: rest ->
  exists s', take_next s = (Some i, s') /\ items s' = rest /\ paused s' = false
    /\ cancelled s' = cancelled s /\ ended s' = ended s.
Proof.
  intros Hp Hi. unfold take_next. rewrite Hp, Hi. eexists. split; [done|]. by split_and!.
Qed.

Lemma take_next_nil s : items s = [] -> take_next s = (None, s).
Proof. intros Hi. unfold take_next. rewrite Hi. by destruct (paused s). Qed.

Lemma gather_spec fuel g s :
  paused s = false -> (length (items s) < fuel)%nat ->
  (gather fuel g s).1 = assemble g (items s)
  /\ (forall g', (gather fuel g s).1 = inl g' ->
        items (gather fuel g s).2 = [] /\ paused (gather fuel g s).2 = false
        /\ cancelled (gather fuel g s).2 = cancelled s /\ ended (gather fuel g s).2 = ended s).
Proof.
  revert g s. induction fuel as [|fuel IH]; intros g s Hp Hf; [lia|]. cbn [gather].
  destruct (items s) as [|i rest] eqn:Ei.
  - rewrite (take_next_nil s Ei). cbn. by rewrite Ei.
  - destruct (take_next_cons s i rest Hp Ei) as (s' & -> & Hi & Hp' & Hc & He). cbn [assemble].
    destruct (gather_item g i) as [g1|r]; [|done]. rewrite <- Hi, <- Hc, <- He. apply IH; [done|].
    rewrite Hi. cbn in Hf. lia.
Qed.

Lemma collect_spec fuel c s :
  paused s = false -> (length (items s) < fuel)%nat ->
  (collect fuel c s).1 = foldl collect_item c (items s)
  /\ items (collect fuel c s).2 = [] /\ paused (collect fuel c s).2 = false
  /\ cancelled (collect fuel c s).2 = cancelled s /\ ended (collect fuel c s).2 = ended s.
Proof.
  revert c s. induction fuel as [|fuel IH]; intros c s Hp Hf; [lia|]. cbn [collect].
  destruct (items s) as [|i rest] eqn:Ei.
  - rewrite (take_next_nil s Ei). cbn. by rewrite Ei.
  - destruct (take_next_cons s i rest Hp Ei) as (s' & -> & Hi & Hp' & Hc & He). cbn [foldl].
    rewrite <- Hi, <- Hc, <- He. apply IH; [done|]. rewrite Hi. cbn in Hf. lia.
Qed.

(** Pushing a log whose only terminal item is last queues all of it. *)
Lemma push_all_items its s :
  paused s = false -> cancelled s = false -> ended s = false ->
  (forall a i k, its = (a ++ i :: k)%list -> terminal i = true -> k = []) ->
  items (push_all its s) = (items s ++ its)%list
  /\ paused (push_all its s) = false /\ cancelled (push_all its s) = false
  /\ ended (push_all its s) = existsb terminal its.
Proof.
  revert s. induction its as [|i its IH]; intros s Hp Hc He Hlast; [by rewrite app_nil_r|].
  unfold push_all. cbn [foldl existsb]. fold (push_all its (push i s).2).
  assert (Hpush : push i s = (true, (push i s).2)
    /\ items (push i s).2 = (items s ++ [i])%list /\ paused (push i s).2 = false
    /\ cancelled (push i s).2 = false /\ ended (push i s).2 = terminal i).
  { unfold push. rewrite Hc, He. cbn. destruct i; by rewrite ?He. }
  destruct Hpush as (_ & Hi & Hp' & Hc' & He').
  destruct (terminal i) eqn:Ht.
  - rewrite (Hlast [] i its eq_refl Ht). cbn. by rewrite Hi.
  - destruct (IH (push i s).2 Hp' Hc' He') as (Hits & ? & ? & ?).
    { intros a j k Heq. apply (Hlast (i :: a)). by rewrite Heq. }
    rewrite Hits, Hi, <- app_assoc. by split_and!.
Qed.

(** The two collectors' states agree until the response is complete. *)
Definition collect_agrees (g : Gathered) (c : CollectingResponse) : Prop :=
  c_head c = g_head g /\ c_body c = g_body g /\ completion c = true /\ completed c = [].

Lemma collect_items_agree its g c :
  collect_agrees g c ->
  (forall a i k, its = (a ++ i :: k)%list -> terminal i = true -> k = []) ->
  match assemble g its with
  | inl g' => collect_agrees g' (foldl collect_item c its)
  | inr r => completed (foldl collect_item c its) = [r]
  end.
Proof.
  revert g c. induction its as [|i its IH]; intros g c Hag Hlast; [done|].
  pose proof Hag as (Hh & Hb & Hc & Hd). cbn [assemble foldl].
  assert (Hrest : forall a j k, its = (a ++ j :: k)%list -> terminal j = true -> k = []).
  { intros a j k Heq. apply (Hlast (i :: a)). by rewrite Heq. }
  destruct i as [head|chunk| |e]; cbn [gather_item collect_item].
  - apply IH; [by split_and! | done].
  - apply IH; [|done]. split_and!; cbn; congruence.
  - rewrite (Hlast [] End its eq_refl eq_refl). unfold response_of, ok_or. cbn [foldl].
    rewrite Hh. destruct (g_head g); unfold finish; cbn; rewrite Hc, Hd, ?Hb; done.
  - rewrite (Hlast [] (Failed e) its eq_refl eq_refl). cbn. unfold finish. by rewrite Hc, Hd.
Qed.

Lemma assemble_open its g g' : assemble g its = inl g' -> existsb terminal its = false.
Proof.
  revert g. induction its as [|i its IH]; intros g H; cbn in *; [done|].
  destruct i; cbn in *; try done; by eapply IH.
Qed.

Lemma assemble_closed its g r : assemble g its = inr r -> existsb terminal its = true.
Proof.
  revert g. induction its as [|i its IH]; intros g H; cbn in *; [done|].
  destruct i; cbn in *; try done; by eapply IH.
Qed.

Lemma collect_looks_nil batches c s :
  concat batches = [] -> items s = [] -> collect_looks batches c s = c.
Proof.
  revert c s. induction batches as [|b bs IH]; intros c s Hn Hi; [done|]. cbn in Hn.
  apply app_eq_nil in Hn as [-> Hn]. cbn. unfold collect_wake. cbn [collect].
  rewrite (take_next_nil s Hi). by apply IH.
Qed.

(** A terminal item in a batch leaves nothing for the later ones. *)
Lemma closed_batch_last batch (rest : list StreamItem) :
  (forall a i k, (batch ++ rest = a ++ i :: k)%list -> terminal i = true -> k = []) ->
  existsb terminal batch = true -> rest = [].
Proof.
  intros Hlast Ht. apply existsb_exists in Ht as (i & Hin & Ht).
  apply in_split in Hin as (a & k & ->). specialize (Hlast a i (k ++ rest)%list).
  rewrite <- app_assoc in Hlast. specialize (Hlast eq_refl Ht).
  by apply app_eq_nil in Hlast as [_ ->].
Qed.

(** A log cut into batches: a terminal item ends the last non-empty one. *)
Lemma looks_agree batches g c s :
  paused s = false -> cancelled s = false -> ended s = false -> items s = [] ->
  collect_agrees g c ->
  (forall a i k, concat batches = (a ++ i :: k)%list -> terminal i = true -> k = []) ->
  call_looks batches g s = assemble g (concat batches)
  /\ match assemble g (concat batches) with
     | inl g' => collect_agrees g' (collect_looks batches c s)
     | inr r => completed (collect_looks batches c s) = [r]
     end.
Proof.
  revert g c s. induction batches as [|batch batches IH]; intros g c s Hp Hc He Hi Hag Hlast; [done|].
  cbn [concat call_looks collect_looks] in *.
  assert (Hb : forall a i k, batch = (a ++ i :: k)%list -> terminal i = true -> k = []).
  { intros a i k -> Ht. specialize (Hlast a i (k ++ concat batches)%list). rewrite <- app_assoc in Hlast.
    specialize (Hlast eq_refl Ht). by apply app_eq_nil in Hlast as [-> _]. }
  destruct (push_all_items batch s Hp Hc He Hb) as (Hits & Hp1 & Hc1 & He1). rewrite Hi in Hits. cbn in Hits.
  unfold gather_all, collect_wake. set (s1 := push_all batch s) in *.
  pose proof (gather_spec (S (length (items s1))) g s1 Hp1 ltac:(lia)) as [Hg Hg2].
  pose proof (collect_spec (S (length (items s1))) c s1 Hp1 ltac:(lia)) as (Hco & Hci & Hcp & Hcc & Hce).
  pose proof (collect_items_agree batch g c Hag Hb) as Hagree. rewrite assemble_app.
  destruct (gather _ g s1) as [out s2], (collect _ c s1) as [c' s3]. cbn [fst snd] in *.
  rewrite Hits in Hg, Hco. subst out c'.
  destruct (assemble g batch) as [g'|r] eqn:Ea.
  - destruct (Hg2 g' eq_refl) as (Hi2 & Hp2 & Hc2 & He2).
    rewrite (assemble_open _ _ _ Ea) in He1.
    assert (Hlast' : forall a i k, concat batches = (a ++ i :: k)%list -> terminal i = true -> k = []).
    { intros a i k Heq. apply (Hlast (batch ++ a)%list). by rewrite Heq, app_assoc. }
    destruct (IH g' (foldl collect_item c batch) s2) as [Hl _]; [done|congruence|congruence|done|done|done|].
    destruct (IH g' (foldl collect_item c batch) s3) as [_ Hr]; [done|congruence|congruence|done|done|done|].
    by split.
  - split; [done|]. rewrite collect_looks_nil; [done | | done].
    eapply closed_batch_last; [exact Hlast | by eapply assemble_closed].
Qed.

(** ** Properties *)

(** C37: Both collectors return the response the application streamed, however its
    items are spread over time.  Cut any item log whose only terminal item is last
    into batches in any way, with a look of the collector after each: [call]
    returns what the whole log assembles to (the last head, the chunks
    concatenated in order, the failure instead when there is one, an error when no
    head came), and [submit_collected] calls its completion with that same result
    exactly once, and not at all while the log has no terminal item. *)
Theorem collectors_agree (batches : list (list StreamItem)) :
  log_ok (concat batches) ->
  call_looks batches gathered_none (stream_new usize_MAX) = assemble gathered_none (concat batches)
  /\ completed (collect_looks batches collecting_new (stream_new usize_MAX))
     = match assemble gathered_none (concat batches) with inl _ => [] | inr r => [r] end.
Proof.
  intros Hlog.
  destruct (looks_agree batches gathered_none collecting_new (stream_new usize_MAX)) as [Hl Hr];
    try done.
  split; [done|]. destruct (assemble _ _); [by destruct Hr as (_ & _ & _ & ?) | done].
Qed.

Definition batches_example : list (list StreamItem) :=
  [[Head {| status := 200; headers := []; ruby_thread_object_id := 3 |}]; [];
   [Chunk [x61]; Chunk [x62]]; [Chunk [x63]; End]].

Lemma collectors_agree_witness :
  completed (collect_looks batches_example collecting_new (stream_new usize_MAX))
  = [Ok {| resp_status := 200; resp_headers := []; resp_body := [x61; x62; x63];
           resp_ruby_thread_object_id := 3 |}].
Proof.
  destruct (collectors_agree batches_example) as [_ ->]; [|reflexivity].
  intros a i k H Ht.
  destruct a as [|? [|? [|? [|? [|? [|? ?]]]]]]; cbn in H; injection H as ?; subst; try discriminate; reflexivity.
Defined.
