(* ===== verification/Envoy.v ===== *)
(** * Envoy, as the filter sees it

    The SDK's [EnvoyHttpFilter] trait is code of another repository: it is a
    typeclass here.  The queries are functions of Envoy's state; everything the
    filter asks Envoy to do is an [EnvoyCall], which is logged and answered.  Envoy
    may report events from inside a call: they are part of the answer. *)

From S2P Require Import Prelude Types Stream World.

Local Open Scope N_scope.

(** ** Enumerations of the ABI the source names *)

Inductive AttributeId :=
| RequestScheme | RequestHost | RequestProtocol
| SourceAddress | SourcePort | DestinationAddress | DestinationPort
| XdsRouteName | ConnectionId
| ConnectionTlsVersion | ConnectionMtls | ConnectionRequestedServerName
| ConnectionSubjectPeerCertificate | ConnectionUriSanPeerCertificate
| ConnectionDnsSanPeerCertificate | ConnectionSha256PeerCertificateDigest.

Inductive MetadataSource := Dynamic | RouteSource.

Inductive CalloutInitResult :=
| InitSuccess | ClusterNotFound | CannotCreateRequest | MissingRequiredHeaders | DuplicateCalloutId.

Inductive CalloutResult := CalloutSuccess | CalloutReset | ExceedResponseBufferLimit.

Inductive StreamResetReason :=
| ConnectionFailure | ConnectionTermination | LocalReset | LocalRefusedStreamReset
| Overflow | RemoteReset | RemoteRefusedStreamReset | ProtocolError.

#[export] Instance StreamResetReason_eq_dec : EqDecision StreamResetReason.
Proof. solve_decision. Defined.

(** Header pairs and body pieces arrive as Envoy's own buffers. *)
Definition EnvoyHeaders := list (bytes * bytes).

(** ** What Envoy may report from inside a call: an upstream stream's progress, or
    the downstream write buffer crossing a watermark *)

Inductive StreamEvent :=
| StreamHeaders (handle : N) (response_headers : EnvoyHeaders) (end_stream : bool)
| StreamData (handle : N) (data : list bytes) (end_stream : bool)
| StreamTrailers (handle : N) (trailers : EnvoyHeaders)
| StreamComplete (handle : N)
| StreamReset (handle : N) (reason : StreamResetReason)
| AboveHighWatermark
| BelowLowWatermark.

(** ** What the filter asks of Envoy *)

Inductive Metric :=
| Requests | Rejected | Responses | DurationMs | UpstreamCalls | UpstreamDurationMs.

Inductive EnvoyCall :=
| SendResponse (status : N) (headers : list (string * bytes)) (body : option bytes) (details : string)
| SendResponseHeaders (headers : list (string * bytes)) (end_stream : bool)
| SendResponseData (data : bytes) (end_stream : bool)
| ResetStream (details : string)
| DrainReceived (n : N)
| DrainBuffered (n : N)
| SendHttpCallout (cluster : string) (headers : list (string * bytes)) (body : option bytes) (timeout_ms : N)
| StartHttpStream (cluster : string) (headers : list (string * bytes)) (body : option bytes)
    (end_stream : bool) (timeout_ms : N)
| SendHttpStreamData (handle : N) (data : bytes) (end_stream : bool)
| ResetHttpStream (handle : N)
| Increment (metric : Metric) (labels : list string) (by_ : N)
| RecordValue (metric : Metric) (labels : list string) (value : N).

Record EnvoyReply := {
  init_result : CalloutInitResult;
  reply_id : N;
  reentrant : list StreamEvent;
}.

Class EnvoyHttpFilter (E : Type) := {
  get_request_headers : E -> EnvoyHeaders;
  get_request_header_value : E -> string -> option bytes;
  get_attribute_string : E -> AttributeId -> option bytes;
  get_attribute_int : E -> AttributeId -> option Z;
  get_attribute_bool : E -> AttributeId -> option bool;
  get_metadata_keys : E -> MetadataSource -> string -> option (list bytes);
  get_metadata_string : E -> MetadataSource -> string -> string -> option bytes;
  get_metadata_number : E -> MetadataSource -> string -> string -> option f64;
  get_metadata_bool : E -> MetadataSource -> string -> string -> option bool;
  get_metadata_list_size : E -> MetadataSource -> string -> string -> option N;
  get_metadata_list_string : E -> MetadataSource -> string -> string -> N -> option bytes;
  get_metadata_list_number : E -> MetadataSource -> string -> string -> N -> option f64;
  get_metadata_list_bool : E -> MetadataSource -> string -> string -> N -> option bool;
  received_buffered_request_body : E -> bool;
  get_buffered_request_body : E -> option (list bytes);
  get_received_request_body : E -> option (list bytes);
  get_buffered_request_body_size : E -> N;
  get_received_request_body_size : E -> N;
  perform : EnvoyCall -> St E EnvoyReply;
}.

(** The frame Envoy holds, its buffers joined. *)
Definition received_body {E} `{EnvoyHttpFilter E} (e : E) : bytes :=
  concat (default [] (get_received_request_body e)).

(** ** The environment of a callback: Envoy, the calls made so far, the store *)

Record Env (E : Type) := { envoy : E; performed : list EnvoyCall; store : World }.
Arguments envoy {E}.
Arguments performed {E}.
Arguments store {E}.

Section env.
Context {E : Type} `{EnvoyHttpFilter E}.

Definition emit (call : EnvoyCall) : St (Env E) EnvoyReply := fun env =>
  let '(reply, e) := perform call (envoy env) in
  (reply, {| envoy := e; performed := performed env ++ [call]; store := store env |}).

Definition on_world {A} (m : St World A) : St (Env E) A := fun env =>
  let '(a, w) := m (store env) in
  (a, {| envoy := envoy env; performed := performed env; store := w |}).

Definition ask {A} (q : E -> A) : St (Env E) A := fun env => (q (envoy env), env).

Definition emit_ (call : EnvoyCall) : St (Env E) unit := do* emit call in st_ret tt.

End env.
