(* ===== verification/EnvoyExample.v ===== *)
(** * A concrete Envoy

    A small instance of [EnvoyHttpFilter], at which the theorems about any Envoy are
    applied: fixed request headers and attributes, two body buffers that draining
    shortens, and the answers to the calls that have one, given in advance. *)

From S2P Require Import Prelude RustStr Types Stream Upstream World Envoy.

Local Open Scope N_scope.

Record ExampleEnvoy := {
  ex_headers : list (string * bytes);
  ex_attributes : AttributeId -> option bytes;
  ex_port : option Z;
  ex_buffered : list bytes;
  ex_received : list bytes;
  ex_replies : list EnvoyReply;
}.

(** [drain n] on a list of buffers. *)
Fixpoint drain_buffers (n : N) (buffers : list bytes) : list bytes :=
  match buffers with
  | [] => []
  | b :: rest =>
      if n <? len b then ndrop n b :: rest else drain_buffers (n - len b) rest
  end.

Definition set_buffers (e : ExampleEnvoy) (buffered received : list bytes) : ExampleEnvoy :=
  {| ex_headers := ex_headers e; ex_attributes := ex_attributes e; ex_port := ex_port e;
     ex_buffered := buffered; ex_received := received; ex_replies := ex_replies e |}.

Definition no_reply : EnvoyReply := {| init_result := InitSuccess; reply_id := 0; reentrant := [] |}.

Definition ex_perform (call : EnvoyCall) : St ExampleEnvoy EnvoyReply := fun e =>
  match call with
  | DrainBuffered n => (no_reply, set_buffers e (drain_buffers n (ex_buffered e)) (ex_received e))
  | DrainReceived n => (no_reply, set_buffers e (ex_buffered e) (drain_buffers n (ex_received e)))
  | SendHttpCallout _ _ _ _ | StartHttpStream _ _ _ _ _ | SendHttpStreamData _ _ _
  | ResetHttpStream _ | SendResponseData _ _ =>
      match ex_replies e with
      | r :: rest =>
          (r, {| ex_headers := ex_headers e; ex_attributes := ex_attributes e; ex_port := ex_port e;
                 ex_buffered := ex_buffered e; ex_received := ex_received e; ex_replies := rest |})
      | [] => (no_reply, e)
      end
  | _ => (no_reply, e)
  end.

Definition ex_find (e : ExampleEnvoy) (name : string) : option bytes :=
  snd <$> List.find (fun '(n, _) => bool_decide (n = name)) (ex_headers e).

(** Envoy's buffers have no empty slices. *)
Definition non_empty (b : bytes) : bool := match b with [] => false | _ => true end.

Definition body_of (l : list bytes) : option (list bytes) :=
  match List.filter non_empty l with
  | [] => None
  | l => Some l
  end.

#[export] Instance example_envoy : EnvoyHttpFilter ExampleEnvoy := {|
  get_request_headers e := map (fun '(n, v) => (into_bytes n, v)) (ex_headers e);
  get_request_header_value := ex_find;
  get_attribute_string := ex_attributes;
  get_attribute_int e a := match a with DestinationPort => ex_port e | _ => None end;
  get_attribute_bool _ _ := None;
  get_metadata_keys _ _ _ := None;
  get_metadata_string _ _ _ _ := None;
  get_metadata_number _ _ _ _ := None;
  get_metadata_bool _ _ _ _ := None;
  get_metadata_list_size _ _ _ _ := None;
  get_metadata_list_string _ _ _ _ _ := None;
  get_metadata_list_number _ _ _ _ _ := None;
  get_metadata_list_bool _ _ _ _ _ := None;
  received_buffered_request_body _ := false;
  get_buffered_request_body e := body_of (ex_buffered e);
  get_received_request_body e := body_of (ex_received e);
  get_buffered_request_body_size e := len (concat (ex_buffered e));
  get_received_request_body_size e := len (concat (ex_received e));
  perform := ex_perform;
|}.

Definition ex_attribute (a : AttributeId) : option bytes :=
  match a with
  | RequestScheme => Some (into_bytes "http")
  | RequestHost => Some (into_bytes "example.com:8080")
  | RequestProtocol => Some (into_bytes "HTTP/1.1")
  | _ => None
  end.

(** A [GET] with these body buffers and replies. *)
Definition example (buffered received : list bytes) (replies : list EnvoyReply) : ExampleEnvoy :=
  {| ex_headers := [(":method", into_bytes "GET"); (":path", into_bytes "/a?b")]%string;
     ex_attributes := ex_attribute; ex_port := None;
     ex_buffered := buffered; ex_received := received; ex_replies := replies |}.
