(* ===== verification/Metrics.v ===== *)
(** * Statistics ([src/crates/ruvoy-envoy-fiber/src/metrics.rs]) *)

From S2P Require Import Prelude Types World Envoy.

Local Open Scope string_scope.

Definition REJECTED_ADMISSION : string := "admission".
Definition REJECTED_INVALID_REQUEST : string := "invalid_request".
Definition REJECTED_INTERNAL : string := "internal".

Definition OUTCOME_COMPLETED : string := "completed".
Definition OUTCOME_FAILED : string := "failed".
Definition OUTCOME_CANCELLED : string := "cancelled".

Inductive CallOutcome :=
| Completed | Refused | TimedOut | OutcomeOverflow | TooLarge | OutcomeReset | Abandoned.

#[export] Instance CallOutcome_eq_dec : EqDecision CallOutcome.
Proof. solve_decision. Defined.

Definition label (o : CallOutcome) : string :=
  match o with
  | Completed => "completed"
  | Refused => "refused"
  | TimedOut => "timed_out"
  | OutcomeOverflow => "overflow"
  | TooLarge => "too_large"
  | OutcomeReset => "reset"
  | Abandoned => "abandoned"
  end.

(** [Metrics] holds the ids Envoy gave the definitions; the model names them by
    [Metric], so what is left of it is whether there are metrics at all: an
    [option unit] in the filter.  [define_results] says which of the six
    definitions Envoy accepts. *)
Definition define (define_results : Metric -> bool) : option unit :=
  if define_results Requests && define_results Rejected && define_results Responses
     && define_results DurationMs && define_results UpstreamCalls
     && define_results UpstreamDurationMs
  then Some tt else None.

Section metrics.
Context {E : Type} `{EnvoyHttpFilter E}.

(** [duration.as_millis() as u64] *)
Definition millis_u64 (d : Duration) : N := (as_millis d mod width64)%N.

Definition submitted : St (Env E) unit := emit_ (Increment Requests [] 1).

Definition rejected (reason : string) : St (Env E) unit := emit_ (Increment Rejected [reason] 1).

Definition responded (outcome : string) (duration : Duration) : St (Env E) unit :=
  do* emit_ (Increment Responses [outcome] 1) in
  emit_ (RecordValue DurationMs [] (millis_u64 duration)).

Definition upstream_call (cluster : string) (outcome : CallOutcome) : St (Env E) unit :=
  emit_ (Increment UpstreamCalls [cluster; label outcome] 1).

Definition upstream_answered (cluster : string) (waited : Duration) : St (Env E) unit :=
  emit_ (RecordValue UpstreamDurationMs [cluster] (millis_u64 waited)).

End metrics.
