(* ===== verification/Calls.v ===== *)
(** * Upstream calls and streams, as the worker carries them
    ([src/crates/ruvoy-envoy-fiber/src/upstream.rs])

    A call is sent, waits under the id Envoy gave it, and is delivered whole.  A
    stream is an [OpenStream] beside the channel it shares with the fiber; each of
    Envoy's reports is one operation on that pair. *)

From S2P Require Import Prelude RustStr Types Stream Upstream World Envoy Metrics.
From Stdlib Require Import Strings.Ascii.

Local Open Scope N_scope.

(** ** Headers *)

Definition TRACE_HEADERS : list string :=
  ["traceparent"; "tracestate"; "x-request-id"; "b3"; "x-b3-traceid"; "x-b3-spanid";
   "x-b3-parentspanid"; "x-b3-sampled"; "x-b3-flags"]%string.

Definition with_trace (headers trace : list (string * bytes)) : list (string * bytes) :=
  foldl (fun fields '(name, value) =>
           if existsb (fun '(own, _) => bool_decide (own = name)) headers then fields
           else fields ++ [(name, value)])%list
    headers trace.

Definition refusal (r : CalloutInitResult) (cluster : string) : option string :=
  (match r with
   | InitSuccess => None
   | ClusterNotFound => Some ("cluster " ++ cluster ++ " does not exist")
   | CannotCreateRequest =>
       Some ("cluster " ++ cluster ++ " turned the call away at once, for example because it has no "
             ++ "healthy host or a circuit breaker is open")
   | MissingRequiredHeaders => Some "the call is missing :method, :path or host"
   | DuplicateCalloutId => Some "Envoy handed out a call id that was already in use"
   end)%string.

(** [head_of]: later [:status] fields win, an unparsable one counts as absent. *)
Definition head_field (acc : option N * list (string * string)) (field : bytes * bytes)
    : option N * list (string * string) :=
  let name := from_utf8_lossy field.1 in
  let value := from_utf8_lossy field.2 in
  if bool_decide (name = ":status"%string) then (parse_u16 value, acc.2)
  else if negb (starts_with_char ":"%char name) then (acc.1, acc.2 ++ [(name, value)])%list
  else acc.

Definition head_of (headers : EnvoyHeaders) : option ResponseHead :=
  let '(status, fields) := foldl head_field (None, []) headers in
  match status with
  | Some status => Some {| status := status; headers := fields; ruby_thread_object_id := 0 |}
  | None => None
  end.

Definition concatenate (chunks : list bytes) : bytes := concat chunks.

(** ** Calls *)

Record PendingCall := { call_response : QRef; call_cluster : string; sent_at : Instant }.

Definition InFlight := gmap N PendingCall.

(** A deadline in milliseconds: never zero, which Envoy reads as none. *)
Definition call_timeout_ms (timeout : Duration) : N := N.max (u64_clamp (as_millis timeout)) 1.

Section send.
Context {E : Type} `{EnvoyHttpFilter E}.

(** The stream and cluster of a refused call, and the calls in flight after. *)
Definition send (request : UpstreamRequest) (trace : list (string * bytes)) (in_flight : InFlight)
    : St (Env E) (option (QRef * string) * InFlight) :=
  let headers := with_trace (req_headers request) trace in
  let body := if bool_decide (req_body request = []) then None else Some (req_body request) in
  let timeout_ms := call_timeout_ms (req_timeout request) in
  let* sent_at := on_world now in
  let* reply := emit (SendHttpCallout (req_cluster request) headers body timeout_ms) in
  match refusal (init_result reply) (req_cluster request) with
  | None =>
      st_ret (None, <[reply_id reply := {| call_response := req_response request;
                       call_cluster := req_cluster request; sent_at := sent_at |}]> in_flight)
  | Some reason =>
      do* on_world (on_queue (req_response request) (push_failure (Types.Upstream reason))) in
      st_ret (Some (req_response request, req_cluster request), in_flight)
  end.

End send.

Definition answer (headers : EnvoyHeaders) (body : list bytes) (max_response_bytes : N)
    : result (ResponseHead * bytes) BridgeError :=
  let size := foldr (fun chunk n => len chunk + n) 0 body in
  if max_response_bytes <? size
  then Err (UpstreamTooLarge ("the " ++ show size ++ " byte response body is over the "
              ++ show max_response_bytes ++ " byte limit")%string)
  else
    let? head := ok_or (head_of headers)
      (Types.Upstream "the response carried no valid :status"%string) in
    Ok (head, concatenate body).

Definition failed (error : BridgeError) : CallOutcome :=
  match error with
  | UpstreamOverflow _ => OutcomeOverflow
  | UpstreamTooLarge _ => TooLarge
  | _ => OutcomeReset
  end.

(** The queue is locked for each push in turn, and no other push comes between: the
    worker is the only writer.  Here all are one transition; a fiber that reads between two
    of them only has less to take yet, and a cancellation between them leaves the queue
    as one after them does. *)
Definition deliver (result_ : CalloutResult) (headers : option EnvoyHeaders) (body : option (list bytes))
    (max_response_bytes : N) : St ResponseStream CallOutcome :=
  let outcome :=
    match result_ with
    | CalloutSuccess => answer (default [] headers) (default [] body) max_response_bytes
    | CalloutReset => Err (Types.Upstream "the upstream stream was reset"%string)
    | ExceedResponseBufferLimit =>
        Err (UpstreamTooLarge "the response exceeded Envoy's buffer limit"%string)
    end in
  match outcome with
  | Ok (head, body) =>
      do* push_head head in
      do* (if bool_decide (body = []) then st_ret true else push_chunk body) in
      do* push_end in
      st_ret Completed
  | Err error => do* push_failure error in st_ret (failed error)
  end.

(** ** Streams *)

Record OpenStream := {
  channel : N;
  stream_cluster : string;
  started_at : Instant;
  outcome_ : option CallOutcome;
  request_ended : bool;
  response_ended : bool;
  reset_sent : bool;
  upgraded : bool;
}.

Definition OpenStreams := gmap N OpenStream.

Inductive StreamAction :=
| Reset
| Send (data : bytes) (end_stream : bool).

Inductive Started :=
| Open (handle : N) (stream : OpenStream)
| StartRefused (channel : N) (cluster : string)
| Skipped (cluster : string).

Definition OpenStream_new (channel : N) (cluster : string) (request_ended : bool) (t : Instant)
    : OpenStream :=
  {| channel := channel; stream_cluster := cluster; started_at := t; outcome_ := None;
     request_ended := request_ended; response_ended := false; reset_sent := false;
     upgraded := false |}.

Definition set_outcome (o : OpenStream) (v : option CallOutcome) : OpenStream :=
  {| channel := channel o; stream_cluster := stream_cluster o; started_at := started_at o;
     outcome_ := v; request_ended := request_ended o; response_ended := response_ended o;
     reset_sent := reset_sent o; upgraded := upgraded o |}.

(** [self.outcome.get_or_insert(v)] *)
Definition outcome_or_insert (v : CallOutcome) (o : OpenStream) : OpenStream :=
  set_outcome o (Some (default v (outcome_ o))).

Definition set_response_ended (o : OpenStream) : OpenStream :=
  {| channel := channel o; stream_cluster := stream_cluster o; started_at := started_at o;
     outcome_ := outcome_ o; request_ended := request_ended o; response_ended := true;
     reset_sent := reset_sent o; upgraded := upgraded o |}.

Definition set_request_ended (o : OpenStream) : OpenStream :=
  {| channel := channel o; stream_cluster := stream_cluster o; started_at := started_at o;
     outcome_ := outcome_ o; request_ended := true; response_ended := response_ended o;
     reset_sent := reset_sent o; upgraded := upgraded o |}.

Definition set_reset_sent (o : OpenStream) : OpenStream :=
  {| channel := channel o; stream_cluster := stream_cluster o; started_at := started_at o;
     outcome_ := outcome_ o; request_ended := request_ended o; response_ended := response_ended o;
     reset_sent := true; upgraded := upgraded o |}.

Definition set_upgraded (o : OpenStream) (u : bool) : OpenStream :=
  {| channel := channel o; stream_cluster := stream_cluster o; started_at := started_at o;
     outcome_ := outcome_ o; request_ended := request_ended o; response_ended := response_ended o;
     reset_sent := reset_sent o; upgraded := u |}.

(** An operation of a stream runs on the stream and its channel. *)
Definition Pair : Type := OpenStream * StreamChannel.

Definition next_action : St Pair (option StreamAction) := fun '(o, c) =>
  if wants_reset c
  then if reset_sent o then (None, (o, c)) else (Some Reset, (set_reset_sent o, c))
  else if request_ended o then (None, (o, c))
  else
    let '(item, c) := on_request take_next c in
    match item with
    | Some (Chunk chunk) => (Some (Send chunk false), (o, c))
    | Some End => (Some (Send [] true), (set_request_ended o, c))
    | _ => (None, (o, c))
    end.

Definition outcome (o : OpenStream) : CallOutcome := default Abandoned (outcome_ o).

Definition stopped_by_fiber (o : OpenStream) (c : StreamChannel) : CallOutcome :=
  if timed_out c then TimedOut else if upgraded o then Completed else Abandoned.

Definition gone (c : StreamChannel) : StreamChannel := set_request c (cancel (request c)).

Definition end_ : St Pair unit := fun '(o, c) =>
  (tt, (outcome_or_insert Completed (set_response_ended o), (on_response push_end c).2)).

Definition fail_ (error : BridgeError) : St Pair unit := fun '(o, c) =>
  (tt, (outcome_or_insert (failed error) (set_response_ended o), fail error c)).

(** True when the head is usable; the caller then reads how long it took. *)
Definition headers_arrived (headers : EnvoyHeaders) (end_stream : bool) : St Pair bool := fun '(o, c) =>
  if response_ended o then (false, (o, c))
  else
    match head_of headers with
    | None =>
        (false, (fail_ (Types.Upstream "the response carried no valid :status"%string) (o, c)).2)
    | Some head =>
        let o := set_upgraded o (status head =? 101) in
        let c := (on_response (push_head head) c).2 in
        (true, if end_stream then (end_ (o, c)).2 else (o, c))
    end.

Definition overflow_error : BridgeError :=
  UpstreamOverflow ("the upstream sent faster than the application read, past the stream's "
    ++ "buffer")%string.

Definition data_arrived (data : list bytes) (end_stream : bool) : St Pair bool := fun '(o, c) =>
  if response_ended o then (false, (o, c))
  else
    let finish o c := (false, if end_stream then (end_ (o, c)).2 else (o, c)) in
    let b := concatenate data in
    if bool_decide (b = []) then finish o c
    else
      let '(pushed, c) := on_response (push_chunk_if_room b) c in
      match pushed with
      | Some true => finish o c
      | Some false => (true, (fail_ overflow_error (o, c)).2)
      | None =>
          (false, (outcome_or_insert (stopped_by_fiber o c) (set_response_ended o), c))
      end.

Definition trailers_arrived (t : EnvoyHeaders) : St Pair unit := fun '(o, c) =>
  if response_ended o then (tt, (o, c))
  else
    end_ (o, set_trailers
      (map (fun '(name, value) => (from_utf8_lossy name, from_utf8_lossy value)) t) c).

Definition completed : St Pair unit := fun '(o, c) =>
  let '(o, c) := if negb (response_ended o) then (end_ (o, c)).2 else (o, c) in
  (tt, (o, gone c)).

Definition reset_reason (r : StreamResetReason) : string :=
  (match r with
   | ConnectionFailure => "the upstream could not be reached"
   | ConnectionTermination => "the upstream connection closed"
   | LocalReset => "the stream was reset locally"
   | LocalRefusedStreamReset => "the stream was refused locally"
   | Overflow => "Envoy turned the stream away, for example because a circuit breaker is open"
   | RemoteReset => "the upstream reset the stream"
   | RemoteRefusedStreamReset => "the upstream refused the stream"
   | ProtocolError => "the upstream broke the HTTP protocol"
   end)%string.

Definition reset_by_envoy (reason : StreamResetReason) : St Pair unit := fun '(o, c) =>
  if upgraded o && negb (reset_sent o) then completed (o, c)
  else
    let o := if reset_sent o && bool_decide (outcome_ o = None)
             then set_outcome o (Some (stopped_by_fiber o c)) else o in
    let o := if bool_decide (reason = Overflow) then outcome_or_insert Refused o else o in
    let '(o, c) := if negb (response_ended o)
                   then (fail_ (Types.Upstream (reset_reason reason)) (o, c)).2 else (o, c) in
    (tt, (o, gone c)).

Definition abandon : St Pair unit := fun '(o, c) =>
  let o := outcome_or_insert (if upgraded o then Completed else Abandoned) o in
  let '(o, c) := if negb (response_ended o)
                 then (fail_ (Types.Upstream "the request finished before the stream did"%string) (o, c)).2
                 else (o, c) in
  (tt, (o, gone c)).

(** The deadline of a stream: zero stays zero, and nothing else becomes zero. *)
Definition stream_timeout_ms (timeout : Duration) : N :=
  if timeout =? 0 then 0 else N.max (u64_clamp (as_millis timeout)) 1.

Section start.
Context {E : Type} `{EnvoyHttpFilter E}.

(** The events Envoy reports from inside the call come back with the outcome:
    the stream is in no table yet when they arrive. *)
Definition start (request : UpstreamStreamRequest) (trace : list (string * bytes))
    : St (Env E) (Started * list StreamEvent) :=
  let c := sreq_channel request in
  let* wanted := on_world (read (fun w => wants_reset (get_channel w c))) in
  if wanted then st_ret (Skipped (sreq_cluster request), [])
  else
    let* first := on_world (on_queue (RequestOf c) take_next) in
    let '(body, request_ended) :=
      match first with
      | Some End => (None, true)
      | Some (Chunk chunk) => (Some chunk, false)
      | _ => (None, false)
      end in
    let headers := with_trace (sreq_headers request) trace in
    let* reply := emit (StartHttpStream (sreq_cluster request) headers body request_ended
                          (stream_timeout_ms (sreq_timeout request))) in
    match refusal (init_result reply) (sreq_cluster request) with
    | Some reason =>
        do* on_world (on_channel c (modify (fail (Types.Upstream reason)))) in
        st_ret (StartRefused c (sreq_cluster request), reentrant reply)
    | None =>
        let* t := on_world now in
        st_ret (Open (reply_id reply) (OpenStream_new c (sreq_cluster request) request_ended t),
                reentrant reply)
    end.

End start.

(** ** Lemmas *)

Lemma with_trace_eq headers trace :
  with_trace headers trace
  = (headers ++ List.filter (fun '(name, _) => negb (existsb (fun '(own, _) => bool_decide (own = name)) headers))
       trace)%list.
Proof.
  unfold with_trace.
  assert (H : forall acc, foldl (fun fields '(name, value) =>
            if existsb (fun '(own, _) => bool_decide (own = name)) headers then fields
            else fields ++ [(name, value)])%list acc trace
    = (acc ++ List.filter (fun '(name, _) =>
         negb (existsb (fun '(own, _) => bool_decide (own = name)) headers)) trace)%list).
  { induction trace as [|[n v] trace IH]; intros acc; cbn [foldl List.filter]; [by rewrite app_nil_r|].
    rewrite IH. destruct (existsb _ headers); cbn [negb]; [done|]. by rewrite <- app_assoc. }
  apply H.
Qed.

Lemma size_concat (body : list bytes) :
  foldr (fun chunk n => len chunk + n) 0 body = len (concatenate body).
Proof. induction body as [|b body IH]; cbn; [done|]. by rewrite IH, len_app. Qed.

(** A field of the head is the status, another pseudo-header, or a header. *)
Definition is_status (f : bytes * bytes) : bool := bool_decide (from_utf8_lossy f.1 = ":status"%string).
Definition is_pseudo (f : bytes * bytes) : bool := starts_with_char ":"%char (from_utf8_lossy f.1).
Definition lossy_field (f : bytes * bytes) : string * string :=
  (from_utf8_lossy f.1, from_utf8_lossy f.2).

Lemma head_fields headers acc :
  foldl head_field acc headers
  = (match list.last (List.filter is_status headers) with
     | Some f => parse_u16 (from_utf8_lossy f.2)
     | None => acc.1
     end,
     acc.2 ++ map lossy_field (List.filter (fun f => negb (is_pseudo f)) headers))%list.
Proof.
  revert acc. induction headers as [|f headers IH]; intros [st fs]; cbn [foldl List.filter].
  { cbn. by rewrite app_nil_r. }
  rewrite IH. unfold head_field, is_status, is_pseudo. destruct (bool_decide _) eqn:Es.
  - apply bool_decide_eq_true_1 in Es. rewrite Es. cbn [starts_with_char negb fst snd].
    cbn. rewrite list.last_cons. by destruct (list.last _).
  - destruct (starts_with_char _ _) eqn:Ep; cbn [negb fst snd map]; f_equal.
    by rewrite <- app_assoc.
Qed.

Lemma parse_u16_bound s n : parse_u16 s = Some n -> n <= u16_MAX.
Proof. apply parse_uint_bound. Qed.

(** ** Properties *)

(** What a response head is.  It exists exactly when the last [:status] field
    parses as a 16-bit number, which is then the status; its fields are the
    received ones in order, names and values read as lossy UTF-8, with every
    pseudo-header left out. *)
Theorem head_of_spec (fields : EnvoyHeaders) (head : ResponseHead) :
  head_of fields = Some head <->
  (exists f, list.last (List.filter is_status fields) = Some f
     /\ parse_u16 (from_utf8_lossy f.2) = Some (status head) /\ status head <= u16_MAX)
  /\ headers head = map lossy_field (List.filter (fun f => negb (is_pseudo f)) fields)
  /\ ruby_thread_object_id head = 0.
Proof.
  unfold head_of. rewrite head_fields. cbn [fst snd app]. split.
  - destruct (list.last _) as [f|] eqn:El; [|done].
    destruct (parse_u16 _) as [n|] eqn:Ep; [|done]. intros [= <-]. cbn. split_and!; try done.
    exists f. split_and!; [done|done|by eapply parse_u16_bound].
  - intros ((f & -> & Hp & _) & Hh & Hr). rewrite Hp. destruct head; cbn in *. by subst.
Qed.

Section delivery.

(** A finished call reads as it is counted.  Delivered to the stream its fiber
    waits on, it queues either the head, the body if there is one, and the end,
    counted completed, or exactly one failure, counted as that failure's outcome;
    a body over the limit, an unusable head and each failed result are failures,
    and nothing else is. *)
Theorem deliver_reports (r : CalloutResult) (fields : option EnvoyHeaders) (body : option (list bytes))
    (limit n : N) :
  let whole := concatenate (default [] body) in
  let '(counted, s) := deliver r fields body limit (stream_new n) in
  (exists head, counted = Completed /\ r = CalloutSuccess
     /\ head_of (default [] fields) = Some head /\ len whole <= limit
     /\ items s = ([Head head] ++ (if bool_decide (whole = []) then [] else [Chunk whole]) ++ [End])%list)
  \/ (exists error, counted = failed error /\ counted <> Completed /\ items s = [Failed error]
     /\ (r <> CalloutSuccess \/ limit < len whole \/ head_of (default [] fields) = None)).
Proof.
  cbn zeta. unfold deliver. destruct r.
  - unfold answer. rewrite size_concat. destruct (N.ltb_spec limit (len (concatenate (default [] body)))).
    { right. eexists. split_and!; [done|done|done|]. tauto. }
    destruct (head_of _) as [head|]; cbn.
    + destruct (bool_decide _) eqn:Eb; cbn; left; exists head; split_and!; try done.
    + right. exists (Types.Upstream "the response carried no valid :status"%string).
      split_and!; [done|done|done|]. tauto.
  - right. eexists. split_and!; [done|done|done|]. by left.
  - right. eexists. split_and!; [done|done|done|]. by left.
Qed.

End delivery.

(** What goes out with a call.  Envoy is asked once, for the call's cluster and
    body (an empty body is sent as none), with the application's own headers
    followed by those of the request's trace context it did not set, and a deadline
    that is the timeout in milliseconds, clamped to what the ABI can carry and
    never zero, which Envoy would read as none.  Taken, the call waits under
    Envoy's id and its stream is untouched; refused, it waits nowhere and its
    stream has failed with the refusal. *)
Theorem send_asks_once {E} `{EnvoyHttpFilter E} (request : UpstreamRequest)
    (trace : list (string * bytes)) (in_flight : InFlight) (env : Env E) :
  let '((refused, in_flight'), env') := send request trace in_flight env in
  exists ms reply_ at_,
    performed env' = (performed env ++ [SendHttpCallout (req_cluster request)
      (req_headers request ++ List.filter (fun '(name, _) =>
         negb (existsb (fun '(own, _) => bool_decide (own = name)) (req_headers request))) trace)
      (if bool_decide (req_body request = []) then None else Some (req_body request)) ms])%list
    /\ 1 <= ms <= u64_MAX
    /\ (1 <= as_millis (req_timeout request) <= u64_MAX -> ms = as_millis (req_timeout request))
    /\ match refusal (init_result reply_) (req_cluster request) with
       | None => refused = None
           /\ in_flight' = <[reply_id reply_ := {| call_response := req_response request;
                call_cluster := req_cluster request; sent_at := at_ |}]> in_flight
           /\ get_queue (store env') (req_response request) = get_queue (store env) (req_response request)
       | Some reason => refused = Some (req_response request, req_cluster request)
           /\ in_flight' = in_flight
           /\ get_queue (store env') (req_response request)
              = (push_failure (Types.Upstream reason) (get_queue (store env) (req_response request))).2
       end.
Proof.
  unfold send. rewrite with_trace_eq. unfold st_bind, on_world, emit, st_ret. destruct env as [e p w].
  cbn [store performed envoy]. destruct (now w) as [t w1] eqn:En.
  set (ms := call_timeout_ms (req_timeout request)).
  cbn. set (call := SendHttpCallout _ _ _ _). destruct (perform call e) as [reply e'] eqn:Ep.
  assert (Hq : forall r, get_queue w1 r = get_queue w r).
  { intros r. unfold now in En. destruct (instants w); injection En as <- <-; by destruct r. }
  assert (Hms : 1 <= ms <= u64_MAX /\ (1 <= as_millis (req_timeout request) <= u64_MAX ->
            ms = as_millis (req_timeout request))).
  { unfold ms, call_timeout_ms, u64_clamp.
    destruct (N.leb_spec (as_millis (req_timeout request)) u64_MAX); unfold u64_MAX, width64 in *; lia. }
  destruct (refusal (init_result reply) (req_cluster request)) as [reason|] eqn:Er.
  - destruct (on_queue (req_response request) (push_failure (Types.Upstream reason)) w1) as [b w2] eqn:Eq.
    cbn. rewrite ?Er, ?Eq. exists ms, reply, t. rewrite ?Er. split_and!; try done; try apply Hms.
    rewrite <- Hq. assert (Hw : w2 = (on_queue (req_response request) (push_failure (Types.Upstream reason)) w1).2)
      by (by rewrite Eq). rewrite Hw. apply get_on_queue.
  - cbn. rewrite ?Er. exists ms, reply, t. rewrite ?Er. split_and!; try done; try apply Hms.
Qed.
