(* ===== verification/StreamCalls.v ===== *)
(** * The life of an upstream stream

    [OpenStream] and its channel under any interleaving of what Envoy reports, what
    the worker asks next, and what the fiber does on its side of the channel. *)

From S2P Require Import Prelude RustStr Types Stream StreamTrace Upstream World Envoy Metrics Calls.

Local Open Scope N_scope.

(** ** Schedules *)

Inductive Event :=
(* what Envoy reports, and the end of the downstream request *)
| EHeaders (headers : EnvoyHeaders) (end_stream : bool)
| EData (data : list bytes) (end_stream : bool)
| ETrailers (trailers : EnvoyHeaders)
| EComplete
| EReset (reason : StreamResetReason)
| EAbandon
(* the worker asks what to do next *)
| ENext
(* the fiber's side: reading, writing, ending its body, giving up *)
| FRead
| FWrite (b : bytes)
| FFinish
| FClose
| FTimeOut.

Record Life := {
  pair : Pair;
  actions : list StreamAction;      (* what [next_action] asked for, in order *)
  written : bytes;                  (* what the fiber's writes were taken of *)
  finished : bool;                  (* the fiber ended its body *)
  read_items : list StreamItem;     (* what the fiber read *)
}.

Definition life_new (o : OpenStream) (c : StreamChannel) : Life :=
  {| pair := (o, c); actions := []; written := []; finished := false; read_items := [] |}.

Definition with_pair (l : Life) (p : Pair) : Life :=
  {| pair := p; actions := actions l; written := written l; finished := finished l;
     read_items := read_items l |}.

Definition life_step (e : Event) (l : Life) : Life :=
  let '(o, c) := pair l in
  match e with
  | EHeaders h b => with_pair l (headers_arrived h b (o, c)).2
  | EData d b => with_pair l (data_arrived d b (o, c)).2
  | ETrailers t => with_pair l (trailers_arrived t (o, c)).2
  | EComplete => with_pair l (completed (o, c)).2
  | EReset r => with_pair l (reset_by_envoy r (o, c)).2
  | EAbandon => with_pair l (abandon (o, c)).2
  | ENext =>
      let '(a, p) := next_action (o, c) in
      {| pair := p; actions := actions l ++ option_list a; written := written l;
         finished := finished l; read_items := read_items l |}
  | FRead =>
      let '(i, c) := on_response take_next c in
      {| pair := (o, c); actions := actions l; written := written l; finished := finished l;
         read_items := read_items l ++ option_list i |}
  | FWrite b =>
      let '(taken, c) := on_request (push_chunk_within_budget b) c in
      {| pair := (o, c); actions := actions l; written := written l ++ ntake (default 0 taken) b;
         finished := finished l; read_items := read_items l |}
  | FFinish =>
      let '(done_, c) := on_request push_end c in
      {| pair := (o, c); actions := actions l; written := written l;
         finished := finished l || done_; read_items := read_items l |}
  | FClose => with_pair l (o, close c)
  | FTimeOut => with_pair l (o, time_out c)
  end.

Definition life_run (es : list Event) (l : Life) : Life := foldl (fun l e => life_step e l) l es.

Definition is_over (e : Event) : bool :=
  match e with
  | EComplete | EReset _ | EAbandon => true
  | _ => false
  end.

(** What the actions sent. *)
Definition sent_bytes (a : StreamAction) : bytes :=
  match a with
  | Send d _ => d
  | Reset => []
  end.

Definition is_send (a : StreamAction) : bool :=
  match a with
  | Send _ _ => true
  | Reset => false
  end.

Definition ends_body (a : StreamAction) : bool :=
  match a with
  | Send _ true => true
  | _ => false
  end.

(** ** Lemmas on one direction *)

Lemma on_response_eta {A} (m : St ResponseStream A) c :
  on_response m c = ((m (response c)).1, set_response c (m (response c)).2).
Proof. unfold on_response. by destruct (m (response c)). Qed.
Lemma on_request_eta {A} (m : St ResponseStream A) c :
  on_request m c = ((m (request c)).1, set_request c (m (request c)).2).
Proof. unfold on_request. by destruct (m (request c)). Qed.

(** The response can no longer grow: the fiber reads to an end, or has closed it. *)
Definition over (s : ResponseStream) : Prop := ended s = true \/ cancelled s = true.

Lemma push_closes item s : terminal item = true -> over (push item s).2.
Proof.
  intros Ht. unfold push, over. destruct (cancelled s || ended s) eqn:E; cbn.
  - apply orb_true_iff in E. tauto.
  - left. by destruct item.
Qed.

Lemma push_over item s : over s -> over (push item s).2.
Proof.
  unfold over. intros H. unfold push. destruct (cancelled s || ended s) eqn:E; [exact H|].
  apply orb_false_elim in E. destruct H, E; congruence.
Qed.

Lemma take_next_over s : over s -> over (take_next s).2.
Proof. unfold over, take_next. intros H. by repeat case_match. Qed.

Lemma cancel_over s : over (cancel s).
Proof. by right. Qed.

Lemma if_room_refused_over b s :
  (push_chunk_if_room b s).1 = None -> over (push_chunk_if_room b s).2.
Proof.
  unfold push_chunk_if_room, over. destruct (cancelled s || ended s) eqn:E.
  - apply orb_true_iff in E. tauto.
  - by destruct (_ && _).
Qed.
#[export] Hint Resolve push_closes push_over take_next_over cancel_over if_room_refused_over : ruvoy.

(** ** Outcomes *)

(** Case on the tests of an operation; the queues' methods stay applied. *)
Ltac step_cases :=
  repeat (cbn in *; rewrite ?on_response_eta, ?on_request_eta in *;
    match goal with
    | |- context [if ?b then _ else _] => destruct b eqn:?
    | |- context [match head_of ?h with _ => _ end] => destruct (head_of h) eqn:?
    | |- context [match (push_chunk_if_room ?b ?s).1 with _ => _ end] =>
        destruct (push_chunk_if_room b s).1 as [[]|] eqn:?
    | |- context [match (take_next ?s).1 with _ => _ end] =>
        destruct (take_next s).1 as [[]|] eqn:?
    end); cbn in *; rewrite ?on_response_eta, ?on_request_eta in *; cbn in *.

Ltac open_stream :=
  unfold reset_by_envoy, headers_arrived, data_arrived, trailers_arrived, completed, abandon,
    next_action, end_, fail_, fail, close, time_out, push_head, push_chunk, push_end, push_failure,
    outcome_or_insert, set_outcome, set_response_ended, set_request_ended,
    set_reset_sent, set_upgraded, gone, wants_reset.

Lemma outcome_kept e l x :
  outcome_ (pair l).1 = Some x -> outcome_ (pair (life_step e l)).1 = Some x.
Proof.
  destruct l as [[[ch cl st oc rqe rse rs up] c] a w f r]. cbn [pair fst outcome_]. intros ->.
  destruct e; unfold life_step; cbn [pair]; open_stream; step_cases; try done.
  all: match goal with H : _ && false = true |- _ => by rewrite andb_false_r in H end.
Qed.

(** ** The response side: a stream Envoy is done with always tells its reader *)

Definition response_inv (l : Life) : Prop :=
  let '(o, c) := pair l in
  response_ended o = true -> over (response c) /\ outcome_ o <> None.

Lemma response_ended_step e l :
  response_inv l -> response_inv (life_step e l).
Proof.
  destruct l as [[[ch cl st oc rqe rse rs up] [rsp rq rw to tr]] a w f r].
  unfold response_inv. cbn [pair response_ended outcome_ response]. intros Hinv.
  destruct e; unfold life_step; cbn [pair]; open_stream; step_cases; intros Hr;
    simplify_eq; try destruct (Hinv eq_refl); (split; [|done]); auto with ruvoy.
Qed.

(** ** The request side: what is asked of Envoy *)

(** Every event but these three leaves the body alone, or cancels it. *)
Definition moves_body (e : Event) : bool :=
  match e with
  | ENext | FWrite _ | FFinish => true
  | _ => false
  end.

Lemma quiet_request e l :
  moves_body e = false ->
  let '(o, c) := pair l in let '(o', c') := pair (life_step e l) in
  request_ended o' = request_ended o /\ reset_sent o' = reset_sent o
  /\ (reset_wanted c = true -> reset_wanted c' = true)
  /\ (request c' = request c \/ request c' = cancel (request c))
  /\ actions (life_step e l) = actions l /\ written (life_step e l) = written l
  /\ finished (life_step e l) = finished l.
Proof.
  destruct l as [[[ch cl st oc rqe rse rs up] [rsp rq rw to tr]] a w f r].
  destruct e; intros Hm; try discriminate; unfold life_step; cbn [pair]; open_stream; step_cases;
    split_and!; auto.
Qed.

(** The sends so far, then the reset if it was sent; only the last send ends the
    body, and it does when the stream says so; what was sent and what is still
    queued are what was written. *)
Record request_inv (l : Life) (sends : list StreamAction) (rest : bytes) : Prop := {
  ri_actions : actions l = (sends ++ if reset_sent (pair l).1 then [Reset] else [])%list;
  ri_sends : Forall (fun a => is_send a = true) sends;
  ri_last : forall p a k, sends = (p ++ a :: k)%list -> ends_body a = true -> k = [];
  ri_ended : request_ended (pair l).1 = existsb ends_body sends;
  ri_reset : reset_sent (pair l).1 = true -> reset_wanted (pair l).2 = true;
  ri_wf : stream_wf (request (pair l).2);
  ri_body : written l = ((sends ≫= sent_bytes) ++ rest)%list;
  ri_rest : cancelled (request (pair l).2) = false -> rest = queued_bytes (items (request (pair l).2));
  ri_done : request_ended (pair l).1 = true -> rest = [] /\ over (request (pair l).2)
              /\ items (request (pair l).2) = [] /\ finished l = true;
  ri_finished : In End (items (request (pair l).2)) -> finished l = true;
  ri_items : Forall (fun i => match i with Chunk _ | End => True | _ => False end)
               (items (request (pair l).2));
}.

Lemma request_inv_quiet e l sends rest :
  moves_body e = false -> request_inv l sends rest -> request_inv (life_step e l) sends rest.
Proof.
  intros Hm [H1 H2 H3 H4 H5 H6 H7 H8 H9 H10 H11]. pose proof (quiet_request e l Hm) as H.
  destruct (pair l) as [o c], (pair (life_step e l)) as [o' c'] eqn:E. cbn [fst snd] in *.
  destruct H as (Hre & Hrs & Hrw & Hrq & Ha & Hw & Hf).
  constructor; rewrite ?E, ?Ha, ?Hw, ?Hf; cbn [fst snd]; rewrite ?Hre, ?Hrs; auto.
  - destruct Hrq as [-> | ->]; auto with ruvoy.
  - destruct Hrq as [-> | ->]; auto. by intros [=].
  - intros Hd. destruct (H9 Hd) as (-> & Ho & Hi & ?). destruct Hrq as [-> | ->]; auto with ruvoy.
  - destruct Hrq as [-> | ->]; cbn; auto; done.
  - destruct Hrq as [-> | ->]; cbn; auto.
Qed.

Lemma sends_last_snoc sends a :
  existsb ends_body sends = false ->
  forall p b k, (sends ++ [a] = p ++ b :: k)%list -> ends_body b = true -> k = [].
Proof.
  intros Hno p b k Heq Hb. destruct k as [|j k _] using rev_ind; [done|].
  exfalso. rewrite app_comm_cons, app_assoc in Heq. apply app_inj_tail in Heq as [-> _].
  rewrite existsb_app in Hno. cbn in Hno. rewrite Hb in Hno. by destruct (existsb ends_body p).
Qed.

Lemma take_next_queue s :
  paused s = false \/ (take_next s).1 <> None ->
  match (take_next s).1 with
  | Some i => exists rest, items s = i :: rest /\ items (take_next s).2 = rest
      /\ cancelled (take_next s).2 = cancelled s /\ ended (take_next s).2 = ended s
  | None => True
  end.
Proof.
  unfold take_next. destruct (paused s); cbn; [by intros [?|?]|]. intros _.
  destruct (items s) as [|i rest]; cbn; [done|]. by exists rest.
Qed.

Lemma take_next_none s : (take_next s).1 = None -> (take_next s).2 = s.
Proof. unfold take_next. destruct (paused s); [done|]. by destruct (items s). Qed.

(** The next action. *)
Lemma request_inv_next l sends rest :
  request_inv l sends rest -> exists sends' rest', request_inv (life_step ENext l) sends' rest'.
Proof.
  destruct l as [[o c] a w f r]. intros [H1 H2 H3 H4 H5 H6 H7 H8 H9 H10 H11]. cbn in *.
  unfold life_step, next_action, wants_reset. cbn [pair].
  destruct (reset_wanted c) eqn:Ew.
  { exists sends, rest. destruct (reset_sent o) eqn:Es; constructor; cbn; rewrite ?Es, ?app_nil_r; auto.
    by rewrite H1, app_nil_r. }
  assert (Hrs : reset_sent o = false) by (destruct (reset_sent o); [by specialize (H5 eq_refl)|done]).
  rewrite Hrs, app_nil_r in H1. subst a.
  destruct (request_ended o) eqn:Ee.
  { exists sends, rest. constructor; cbn; rewrite ?Hrs, ?app_nil_r, ?Ee; auto. congruence. }
  rewrite on_request_eta. cbn. pose proof (take_next_wf _ H6) as Hwf.
  pose proof (take_next_queue (request c)) as Hq. pose proof (take_next_none (request c)) as Hn.
  destruct (take_next (request c)) as [[i|] s'] eqn:Et; cbn in *.
  2: { rewrite (Hn eq_refl). exists sends, rest.
       constructor; cbn; rewrite ?Hrs, ?app_nil_r, ?Ee; auto. congruence. }
  destruct Hq as (rest' & Hi & Hi' & Hc & He); [by right|]. rewrite Hi in *.
  assert (Hcan : cancelled (request c) = false).
  { destruct (cancelled (request c)) eqn:E; [|done]. by rewrite (wf_cancelled _ H6 E) in Hi. }
  specialize (H8 Hcan). apply Forall_cons_1 in H11 as [Hchunk H11].
  destruct i as [|chunk| |]; try done; cbn.
  - exists (sends ++ [Send chunk false])%list, (queued_bytes rest').
    constructor; cbn; rewrite ?Hrs, ?app_nil_r, ?Hi'; auto.
    + apply Forall_app; split; [done|by repeat constructor].
    + apply sends_last_snoc. congruence.
    + rewrite existsb_app; cbn. by rewrite orb_false_r, <- H4.
    + congruence.
    + rewrite bind_app. cbn. rewrite app_nil_r, <- app_assoc, H7, H8. done.
    + by rewrite Ee.
    + intros Hin. apply H10. by right.
  - assert (Hlast : rest' = []) by (by apply (wf_last _ H6 [] End rest')). subst rest'.
    exists (sends ++ [Send [] true])%list, ([] : bytes).
    constructor; cbn; rewrite ?Hrs, ?app_nil_r, ?Hi', ?Hlast; auto.
    + apply Forall_app; split; [done|by repeat constructor].
    + apply sends_last_snoc. congruence.
    + rewrite existsb_app; cbn. by rewrite orb_true_r.
    + congruence.
    + rewrite bind_app. cbn. rewrite !app_nil_r, H7, H8. cbn. by rewrite Hlast, app_nil_r.
    + intros _. split_and!; auto; [|by apply H10; left].
      left. rewrite He. destruct (ended (request c)) eqn:E; [done|].
      pose proof (wf_open _ H6 E) as Ho. rewrite Hi in Ho. by apply Forall_cons_1 in Ho as [? _].
Qed.

(** A write is taken whole or in part, and then queued; a finish queues the end. *)
Lemma request_inv_write b l sends rest :
  request_inv l sends rest -> exists rest', request_inv (life_step (FWrite b) l) sends rest'.
Proof.
  destruct l as [[o c] a w f r]. intros [H1 H2 H3 H4 H5 H6 H7 H8 H9 H10 H11]. cbn in *.
  unfold life_step. cbn [pair]. rewrite on_request_eta. cbn.
  pose proof (push_chunk_within_budget_wf b _ H6) as Hwf. revert Hwf.
  unfold push_chunk_within_budget. destruct (cancelled (request c) || ended (request c)) eqn:E; cbn.
  { intros _. exists rest. constructor; cbn; auto. by rewrite app_nil_r. }
  apply orb_false_elim in E as [Ec Ee]. specialize (H8 Ec).
  set (n := N.min _ _). destruct (0 <? n) eqn:En; intros Hwf.
  2: { exists rest. constructor; cbn; auto. replace n with 0 by lia. by rewrite app_nil_r. }
  exists (rest ++ ntake n b)%list. constructor; cbn; auto.
  - by rewrite H7, app_assoc.
  - intros _. rewrite H8, queued_bytes_app. cbn. by rewrite app_nil_r.
  - intros Hd. destruct (H9 Hd) as (_ & [?|?] & _ & _); congruence.
  - intros Hin. apply in_app_iff in Hin as [Hin|[Hin|[]]]; [auto|done].
  - apply Forall_app; split; [done|by repeat constructor].
Qed.

Lemma request_inv_finish l sends rest :
  request_inv l sends rest -> request_inv (life_step FFinish l) sends rest.
Proof.
  destruct l as [[o c] a w f r]. intros [H1 H2 H3 H4 H5 H6 H7 H8 H9 H10 H11]. cbn in *.
  unfold life_step. cbn [pair]. rewrite on_request_eta. cbn.
  assert (Hwf : stream_wf (push_end (request c)).2).
  { apply push_wf; [done|]. cbn. rewrite len_nil. pose proof (wf_width _ H6). lia. }
  revert Hwf. unfold push_end, push. destruct (cancelled (request c) || ended (request c)) eqn:E; cbn.
  { intros _. constructor; cbn; rewrite ?orb_false_r; auto. }
  apply orb_false_elim in E as [Ec Ee]. intros Hwf. constructor; cbn; rewrite ?orb_true_r; auto.
  - intros _. rewrite queued_bytes_app. cbn. rewrite app_nil_r. auto.
  - intros Hd. destruct (H9 Hd) as (_ & [?|?] & _ & _); congruence.
  - apply Forall_app; split; [done|by repeat constructor].
Qed.

Lemma request_inv_run es l sends rest :
  request_inv l sends rest -> exists sends' rest', request_inv (life_run es l) sends' rest'.
Proof.
  revert l sends rest. induction es as [|e es IH]; intros l sends rest H; [by exists sends, rest|].
  cbn [life_run foldl].
  assert (Hs : exists sends' rest', request_inv (life_step e l) sends' rest').
  { destruct (moves_body e) eqn:Em; [|exists sends, rest; by apply request_inv_quiet].
    destruct e; try discriminate Em.
    - by eapply request_inv_next.
    - exists sends. by eapply request_inv_write.
    - exists sends, rest. by apply request_inv_finish. }
  destruct Hs as (s' & r' & Hs). by apply (IH _ s' r').
Qed.

(** ** The end of a stream *)

Definition done_ (l : Life) : Prop :=
  response_ended (pair l).1 = true /\ cancelled (request (pair l).2) = true.

Lemma push_cancelled i s : cancelled (push i s).2 = cancelled s.
Proof. unfold push. by destruct (cancelled s || ended s). Qed.
Lemma within_budget_cancelled b s : cancelled (push_chunk_within_budget b s).2 = cancelled s.
Proof. unfold push_chunk_within_budget. destruct (_ || _); [done|]. cbn. by destruct (0 <? _). Qed.
Lemma take_next_cancelled s : cancelled (take_next s).2 = cancelled s.
Proof. unfold take_next. destruct (paused s); [done|]. by destruct (items s). Qed.

Lemma done_over e l : is_over e = true -> done_ (life_step e l).
Proof.
  destruct l as [[[ch cl st oc rqe rse rs up] [rsp rq rw to tr]] a w f r].
  destruct e; intros Hm; try discriminate; unfold life_step, done_; cbn [pair]; open_stream;
    step_cases; split; try done; by destruct rse.
Qed.

Lemma done_kept e l : done_ l -> done_ (life_step e l).
Proof.
  destruct l as [[[ch cl st oc rqe rse rs up] [rsp rq rw to tr]] a w f r].
  unfold done_. cbn [pair fst snd request response_ended]. intros [-> Hc].
  destruct e; unfold life_step; cbn [pair]; open_stream;
    step_cases; split; rewrite ?push_cancelled, ?within_budget_cancelled, ?take_next_cancelled; done.
Qed.

Lemma done_run es l : done_ l -> done_ (life_run es l).
Proof. revert l. induction es as [|e es IH]; intros l H; [done|]. by apply IH, done_kept. Qed.

Lemma done_over_run es l : existsb is_over es = true -> done_ (life_run es l).
Proof.
  revert l. induction es as [|e es IH]; intros l H; [done|]. cbn in H. cbn [life_run foldl].
  destruct (is_over e) eqn:E; [by apply done_run, done_over | by apply IH].
Qed.

Lemma response_inv_run es l : response_inv l -> response_inv (life_run es l).
Proof. revert l. induction es as [|e es IH]; intros l H; [done|]. by apply IH, response_ended_step. Qed.

Lemma outcome_kept_run es l x :
  outcome_ (pair l).1 = Some x -> outcome_ (pair (life_run es l)).1 = Some x.
Proof. revert l. induction es as [|e es IH]; intros l H; [done|]. by apply IH, outcome_kept. Qed.

Lemma life_run_app es es' l : life_run (es ++ es') l = life_run es' (life_run es l).
Proof. apply foldl_app. Qed.

(** ** Properties *)

(** A stream that has just started without a body, on a fresh channel. *)
Definition life_start (ch : N) (cl : string) (t : Instant) (budget : N) : Life :=
  life_new (OpenStream_new ch cl false t) (channel_new budget).

(** What [start] asks Envoy to send with the headers, as the action it stands for. *)
Definition first_action (body : option bytes) (request_ended : bool) : option StreamAction :=
  match body with
  | Some chunk => Some (Send chunk false)
  | None => if request_ended then Some (Send [] true) else None
  end.

(** How the worker starts a stream is the first [ENext] of its life: whatever the fiber
    had written by then, [start] takes the same item as [next_action] would, sends it
    with the headers, and leaves the same stream and channel.  So the life of a stream
    that was started is [life_run (before ++ ENext :: es)], from the channel as it was
    made. *)
Lemma start_is_next {E} `{EnvoyHttpFilter E} request trace (env : Env E) :
  let ch := sreq_channel request in
  let c := get_channel (store env) ch in
  wants_reset c = false ->
  let '((started, _), env') := start request trace env in
  exists t body request_ended,
    let next := next_action (OpenStream_new ch (sreq_cluster request) false t, c) in
    performed env' = (performed env ++ [StartHttpStream (sreq_cluster request)
      (with_trace (sreq_headers request) trace) body request_ended (stream_timeout_ms (sreq_timeout request))])%list
    /\ next.1 = first_action body request_ended
    /\ match started with
       | Open _ stream_ => next.2 = (stream_, get_channel (store env') ch)
       | StartRefused _ _ => True
       | Skipped _ => False
       end.
Proof.
  intros ch c Hw. unfold start. fold ch. unfold st_bind at 1, on_world at 1, read. fold c. rewrite Hw.
  unfold st_bind at 1, on_world at 1. cbn [on_queue store].
  pose proof (get_on_channel ch (on_request take_next) (store env)) as Hch. fold c in Hch.
  assert (Hfst : (on_channel ch (on_request take_next) (store env)).1 = (on_request take_next c).1).
  { unfold on_channel. fold c. by destruct (on_request take_next c). }
  destruct (on_channel ch (on_request take_next) (store env)) as [first w]. cbn [fst snd] in Hch, Hfst.
  unfold next_action, wants_reset in *. rewrite Hw. cbn [request_ended OpenStream_new].
  destruct (on_request take_next c) as [first' c']. cbn [fst snd] in Hch, Hfst. subst first' c'.
  unfold st_bind, emit, on_world, now.
  destruct first as [[head|chunk| |error]|]; cbn [envoy performed store];
    destruct (perform _ _) as [reply e]; destruct (refusal _ _) as [reason|]; cbn [envoy performed store];
    try destruct (on_channel ch _ w); try destruct (instants w) as [|t rest];
    unfold st_ret; try exists t; try exists 0; eexists _, _; by split_and!.
Qed.

(** C14: The body goes up whole, in order and once, and is reset at most once.  The
    first [ENext] is the worker's start of the stream, which sends what it takes with
    the headers ([start_is_next]).
    Whatever Envoy reports, whatever the fiber writes, reads or gives up, and
    however often the worker asks, its actions are sends followed by at most one
    reset; the bytes sent are a prefix of the bytes the fiber's writes were taken
    of; only the last send ends the body, and when one does the fiber had finished
    and every byte it wrote went out before. *)
Theorem stream_body_in_order (ch : N) (cl : string) (t : Instant) (budget : N) (es : list Event) :
  budget < width64 ->
  let l := life_run es (life_start ch cl t budget) in
  exists sends rest,
    actions l = (sends ++ if reset_sent (pair l).1 then [Reset] else [])%list
    /\ Forall (fun a => is_send a = true) sends
    /\ written l = ((sends ≫= sent_bytes) ++ rest)%list
    /\ (forall p a k, sends = (p ++ a :: k)%list -> ends_body a = true -> k = [])
    /\ (existsb ends_body sends = true -> rest = [] /\ finished l = true).
Proof.
  intros Hb l. destruct (request_inv_run es (life_start ch cl t budget) [] []) as (sends & rest & H).
  { constructor; cbn; try done. by intros [|? ?] ? ? [=]. by apply stream_new_wf. }
  exists sends, rest. destruct H. split_and!; auto.
  intros He. destruct ri_done0 as (? & _ & _ & ?); [congruence|]. done.
Qed.

Definition life_example : list Event :=
  [FWrite [x61; x62]; ENext; EHeaders [([x3a; x73; x74; x61; x74; x75; x73], [x32; x30; x30])] false;
   FWrite [x63]; FFinish; ENext; ENext; EData [[x64]] true; FRead; FClose; ENext; ENext; EComplete].

Lemma stream_body_in_order_witness :
  actions (life_run life_example (life_start 1 "users" 0 8))
  = [Send [x61; x62] false; Send [x63] false; Send [] true; Reset]
  /\ exists rest, written (life_run life_example (life_start 1 "users" 0 8))
       = ([x61; x62; x63] ++ rest)%list.
Proof.
  split; [reflexivity|].
  destruct (stream_body_in_order 1 "users" 0 8 life_example) as (sends & rest & Ha & _ & Hw & _);
    [reflexivity|].
  assert (Hs : sends = [Send [x61; x62] false; Send [x63] false; Send [] true]).
  { change (actions _) with ([Send [x61; x62] false; Send [x63] false; Send [] true] ++ [Reset])%list in Ha.
    change (reset_sent _) with true in Ha. symmetry. exact (app_inv_tail _ _ _ Ha). }
  subst sends. exists rest. exact Hw.
Defined.

(** C15: The end of a stream is always heard, and counted once.  As soon as Envoy
    has reported the stream finished or reset, or the request has been abandoned,
    and whatever else happens before or after: the fiber reading the response has
    an end, a failure or its own cancellation to read; the fiber writing the body
    finds it cancelled; and the stream has an outcome that no later event changes. *)
Theorem stream_end_is_heard (ch : N) (cl : string) (t : Instant) (budget : N) (es : list Event) :
  existsb is_over es = true ->
  let l := life_run es (life_start ch cl t budget) in
  over (response (pair l).2)
  /\ cancelled (request (pair l).2) = true
  /\ exists x, outcome_ (pair l).1 = Some x
       /\ forall es', outcome (pair (life_run (es ++ es') (life_start ch cl t budget))).1 = x.
Proof.
  intros Ho l. destruct (done_over_run es (life_start ch cl t budget) Ho) as [Hr Hc].
  pose proof (response_inv_run es (life_start ch cl t budget)) as Hi. fold l in Hr, Hc, Hi.
  unfold response_inv in Hi. destruct (pair l) as [o c] eqn:El. cbn [fst snd] in *.
  destruct Hi as [Hov Hx]; [done | done|]. destruct (outcome_ o) as [x|] eqn:Ex; [|done].
  split_and!; [done|done|]. exists x. split; [done|]. intros es'.
  rewrite life_run_app. fold l. unfold outcome. by rewrite (outcome_kept_run es' l x); [|rewrite El].
Qed.

Lemma stream_end_is_heard_witness :
  outcome (pair (life_run life_example (life_start 1 "users" 0 8))).1 = Completed.
Proof.
  destruct (stream_end_is_heard 1 "users" 0 8 life_example) as (_ & _ & x & Hx & Hall);
    [reflexivity|].
  specialize (Hall []). rewrite app_nil_r in Hall. rewrite Hall.
  change (outcome_ _) with (Some Completed) in Hx. injection Hx as <-. reflexivity.
Defined.

(** How a reset is counted and reported.  When Envoy reports a reset of a
    stream whose response is still open: an upgraded session the worker did not
    reset itself has simply ended; a reset the fiber asked for counts as the
    fiber's stop, timed out when it gave up waiting; a local overflow counts as
    refused; anything else as a reset, unless an outcome was recorded before.  The
    reader gets an end for the session and the reason's text otherwise, unless the
    response was already over. *)
Theorem reset_is_classified (o : OpenStream) (c : StreamChannel) (reason : StreamResetReason) :
  response_ended o = false ->
  let '(o', c') := (reset_by_envoy reason (o, c)).2 in
  let session := upgraded o && negb (reset_sent o) in
  outcome o' =
    match outcome_ o with
    | Some x => x
    | None =>
        if session then Completed
        else if reset_sent o
             then if timed_out c then TimedOut else if upgraded o then Completed else Abandoned
        else if bool_decide (reason = Overflow) then Refused else OutcomeReset
    end
  /\ (cancelled (response c) || ended (response c) = false ->
      items (response c') = items (response c)
        ++ [if session then End else Failed (Types.Upstream (reset_reason reason))])%list
  /\ cancelled (request c') = true.
Proof.
  destruct o as [ch cl st oc rqe rse rs up], c as [rsp rq rw to tr]. cbn [response_ended]. intros ->.
  assert (Hpush : forall i, cancelled rsp || ended rsp = false ->
            items (push i rsp).2 = (items rsp ++ [i])%list) by (intros i Hi; unfold push; by rewrite Hi).
  unfold outcome, stopped_by_fiber. open_stream. unfold stopped_by_fiber.
  destruct up, rs, oc as [x|], to, (bool_decide (reason = Overflow)) eqn:Er; cbn;
    rewrite ?on_response_eta; cbn; split_and!; auto.
Qed.

Lemma reset_is_classified_witness :
  outcome (reset_by_envoy RemoteReset (set_reset_sent (OpenStream_new 1 "users" true 0), time_out (channel_new 4))).2.1
  = TimedOut.
Proof.
  pose proof (reset_is_classified (set_reset_sent (OpenStream_new 1 "users" true 0)) (time_out (channel_new 4))
    RemoteReset eq_refl) as H.
  destruct (reset_by_envoy _ _).2 as [o' c']. destruct H as (H & _). exact H.
Defined.
