(* ===== verification/Authority.v ===== *)
(** * Reading a request off Envoy
    ([src/crates/ruvoy-envoy-fiber/src/worker.rs], [context.rs])

    The connection facts the Rack environment needs, and the copy of Envoy's view
    an application may be given. *)

From S2P Require Import Prelude RustStr Types Stream Request World Envoy.
From Stdlib Require Import Strings.Ascii.

Local Open Scope string_scope.

(** ** Authorities *)

(** [rest.find(']')] after a leading bracket. *)
Definition authority_host (authority : string) : option string :=
  match strip_prefix_char "["%char authority with
  | Some rest =>
      match find_char "]"%char rest with
      | Some closing => Some (str_take (closing + 2) authority)
      | None => None
      end
  | None =>
      match rsplit_once ":"%char authority with
      | Some (host, port) =>
          if negb (contains_char ":"%char host) && bool_decide (is_Some (parse_u16 port))
          then if is_empty host then None else Some host
          else if is_empty authority then None else Some authority
      | None => if is_empty authority then None else Some authority
      end
  end.

Definition authority_port (authority : string) : option N :=
  match strip_prefix_char "["%char authority with
  | Some rest =>
      match find_char "]"%char rest with
      | Some closing => strip_prefix_char ":"%char (str_drop (closing + 1) rest) ≫= parse_u16
      | None => None
      end
  | None =>
      match rsplit_once ":"%char authority with
      | Some (host, port) => if contains_char ":"%char host then None else parse_u16 port
      | None => None
      end
  end.

Definition default_port (scheme : string) : option N :=
  if bool_decide (scheme = "http") || bool_decide (scheme = "ws") then Some 80%N
  else if bool_decide (scheme = "https") || bool_decide (scheme = "wss") then Some 443%N
  else None.

(** ** Attributes and metadata *)

Record InvalidRequest := { reason : string }.

Definition or_else {A} (a : option A) (b : option A) : option A :=
  match a with
  | Some _ => a
  | None => b
  end.

Section envoy.
Context {E : Type} `{EnvoyHttpFilter E}.

Definition attribute_string (e : E) (attribute : AttributeId) : option string :=
  match get_attribute_string e attribute with
  | Some value =>
      let text := from_utf8_lossy value in if is_empty text then None else Some text
  | None => None
  end.

Definition attribute_port (e : E) (attribute : AttributeId) : option N :=
  get_attribute_int e attribute ≫= u16_try_from.

Definition request_metadata (e : E) : result RequestMetadata InvalidRequest :=
  let? scheme := ok_or (attribute_string e RequestScheme) {| reason := "missing request scheme" |} in
  let? authority := ok_or
    (or_else (attribute_string e RequestHost)
       (from_utf8_lossy <$> get_request_header_value e ":authority"))
    {| reason := "missing request authority" |} in
  let? protocol := ok_or (attribute_string e RequestProtocol)
    {| reason := "missing request protocol" |} in
  let destination_address := attribute_string e DestinationAddress in
  let? server_name := ok_or
    (or_else (authority_host authority) (destination_address ≫= authority_host))
    {| reason := "invalid request authority" |} in
  let? server_port := ok_or
    (or_else (attribute_port e DestinationPort)
       (or_else (authority_port authority) (default_port scheme)))
    {| reason := "missing destination port" |} in
  let remote_addr := attribute_string e SourceAddress ≫= authority_host in
  Ok {| authority := authority; scheme := scheme; server_name := server_name;
        server_port := server_port; protocol := protocol; remote_addr := remote_addr |}.

(** ** [ruvoy.context]: what Envoy knows about the request *)

Definition connection_ (e : E) : Connection :=
  let address a := attribute_string e a ≫= authority_host in
  {| conn_id := get_attribute_int e ConnectionId ≫= u64_try_from;
     source_address := address SourceAddress;
     source_port := attribute_port e SourcePort;
     destination_address := address DestinationAddress;
     destination_port := attribute_port e DestinationPort |}.

Definition tls_ (e : E) : option Tls :=
  let text a := attribute_string e a in
  match text ConnectionTlsVersion with
  | None => None
  | Some version =>
      let presented := default false (get_attribute_bool e ConnectionMtls) in
      Some {|
        tls_version := version;
        tls_server_name := text ConnectionRequestedServerName;
        peer_certificate :=
          if presented
          then Some {| subject := text ConnectionSubjectPeerCertificate;
                       uri_san := text ConnectionUriSanPeerCertificate;
                       dns_san := text ConnectionDnsSanPeerCertificate;
                       sha256 := text ConnectionSha256PeerCertificateDigest |}
          else None |}
  end.

Definition element (e : E) (source : MetadataSource) (namespace key : string) (index : N)
    : option MetadataValue :=
  or_else (MString ∘ from_utf8_lossy <$> get_metadata_list_string e source namespace key index)
    (or_else (MNumber <$> get_metadata_list_number e source namespace key index)
       (MBool <$> get_metadata_list_bool e source namespace key index)).

(** [(0..size)] *)
Definition indices (size : N) : list N := N.of_nat <$> seq 0 (N.to_nat size).

Definition value (e : E) (source : MetadataSource) (namespace key : string) : option MetadataValue :=
  match get_metadata_string e source namespace key with
  | Some text => Some (MString (from_utf8_lossy text))
  | None =>
  match get_metadata_number e source namespace key with
  | Some number => Some (MNumber number)
  | None =>
  match get_metadata_bool e source namespace key with
  | Some flag => Some (MBool flag)
  | None =>
  match get_metadata_list_size e source namespace key with
  | None => None
  | Some size => Some (MList (omap (element e source namespace key) (indices size)))
  end end end end.

Definition metadata_ (e : E) (source : MetadataSource) (namespaces : list string) : list Namespace :=
  omap (fun name =>
    match get_metadata_keys e source name with
    | None => None
    | Some keys =>
        Some {| ns_name := name;
                ns_fields := omap (fun key =>
                  let key := from_utf8_lossy key in
                  (fun v => (key, v)) <$> value e source name key) keys |}
    end) namespaces.

(** [ContextConfig], as [runtime.rs] declares it. *)
Record ContextConfig := { metadata_namespaces : list string }.

Definition copy (e : E) (config : ContextConfig) : Context :=
  {| route_name := attribute_string e XdsRouteName;
     connection := connection_ e;
     tls := tls_ e;
     dynamic_metadata := metadata_ e Dynamic (metadata_namespaces config);
     route_metadata := metadata_ e RouteSource (metadata_namespaces config) |}.

End envoy.

(** ** Lemmas *)

Lemma strip_prefix_same c s : strip_prefix_char c (String c s) = Some s.
Proof. unfold strip_prefix_char. by rewrite Ascii.eqb_refl. Qed.

Lemma strip_prefix_none c s : starts_with_char c s = false -> strip_prefix_char c s = None.
Proof. destruct s as [|d s]; [done|]. cbn. by intros ->. Qed.

Lemma starts_with_char_app c a b :
  is_empty a = false -> starts_with_char c (a ++ b) = starts_with_char c a.
Proof. by destruct a. Qed.

Lemma colon_not_in_port p : contains_char ":"%char (show p) = false.
Proof. by apply show_no_char. Qed.

Lemma parse_u16_show p : (p <= u16_MAX)%N -> parse_u16 (show p) = Some p.
Proof. apply parse_uint_show. Qed.

(** The length of a bracketed address, from its closing bracket. *)
Lemma str_take_bracketed a rest :
  contains_char "]"%char a = false ->
  find_char "]"%char (a ++ String "]"%char rest) = Some (String.length a)
  /\ str_take (String.length a + 2) (String "["%char (a ++ String "]"%char rest))
     = String "["%char (a ++ "]")
  /\ str_drop (String.length a + 1) (a ++ String "]"%char rest) = rest.
Proof.
  intros Ha. split_and!; [by apply find_char_app| |].
  - replace (String.length a + 2)%nat with (S (String.length a + 1)) by lia. cbn [str_take]. f_equal.
    clear Ha. induction a as [|d a IH]; cbn; [by destruct rest|]. by rewrite IH.
  - clear Ha. induction a as [|d a IH]; cbn; [done|]. exact IH.
Qed.

Lemma attribute_string_nonempty {E} `{EnvoyHttpFilter E} (e : E) a s :
  attribute_string e a = Some s -> is_empty s = false.
Proof.
  unfold attribute_string. destruct (get_attribute_string e a); [|done].
  destruct (is_empty _) eqn:Ee; [done|]. by intros [= <-].
Qed.

Lemma u16_try_from_bound z n : u16_try_from z = Some n -> (n <= u16_MAX)%N.
Proof. unfold u16_try_from, u16_MAX. case_match; [|done]. intros [= <-]. lia. Qed.

Lemma authority_port_bound a n : authority_port a = Some n -> (n <= u16_MAX)%N.
Proof.
  unfold authority_port. repeat case_match; try done; try apply parse_uint_bound.
  intros H1. apply bind_Some in H1 as (? & _ & ?). by eapply parse_uint_bound.
Qed.

Lemma default_port_bound s n : default_port s = Some n -> (n <= u16_MAX)%N.
Proof. unfold default_port, u16_MAX. repeat case_match; intros [= <-]; lia. Qed.

Lemma or_else_bound (a b : option N) m :
  (forall n, a = Some n -> (n <= m)%N) -> (forall n, b = Some n -> (n <= m)%N) ->
  forall n, or_else a b = Some n -> (n <= m)%N.
Proof. intros Ha Hb n. destruct a; cbn; [apply Ha | apply Hb]. Qed.

Lemma authority_host_nonempty a h : authority_host a = Some h -> is_empty h = false.
Proof.
  unfold authority_host. destruct (strip_prefix_char _ a) as [rest|] eqn:Es.
  - destruct (find_char _ rest); [|done]. intros [= <-]. destruct a; [done|].
    by rewrite Nat.add_comm.
  - destruct (rsplit_once _ a) as [[host port]|]; [destruct (_ && _)|];
      (destruct (is_empty _) eqn:Ee; [done|]); by intros [= <-].
Qed.

(** ** Properties *)

(** C39: Authorities split without corrupting any form of host.  A registered name
    or IPv4 address (no colon, not empty, no leading bracket) and a bracketed IPv6
    address are read back from the authority they make, with any 16-bit port or
    with none, and so is the port; the brackets stay with the host. *)
Theorem authority_roundtrip (host addr : string) (port : N) :
  is_empty host = false -> contains_char ":"%char host = false ->
  starts_with_char "["%char host = false -> contains_char "]"%char addr = false ->
  (port <= u16_MAX)%N ->
  let v6 := "[" ++ addr ++ "]" in
  authority_host (host ++ ":" ++ show port) = Some host
  /\ authority_port (host ++ ":" ++ show port) = Some port
  /\ authority_host host = Some host /\ authority_port host = None
  /\ authority_host (v6 ++ ":" ++ show port) = Some v6
  /\ authority_port (v6 ++ ":" ++ show port) = Some port
  /\ authority_host v6 = Some v6 /\ authority_port v6 = None.
Proof.
  intros He Hc Hb Ha Hp v6.
  assert (Hv : forall tail, v6 ++ tail = String "["%char (addr ++ String "]"%char tail)).
  { intros tail. unfold v6. cbn. by rewrite str_app_assoc. }
  assert (Hs : forall t, strip_prefix_char "["%char (host ++ t) = None).
  { intros t. apply strip_prefix_none. by rewrite starts_with_char_app. }
  pose proof (rsplit_once_app ":"%char host (show port) (colon_not_in_port port)) as Hr.
  pose proof (rsplit_once_none ":"%char host Hc) as Hn.
  assert (Hs0 : strip_prefix_char "["%char host = None) by (rewrite <- (str_app_nil_r host); apply Hs).
  destruct (str_take_bracketed addr (":" ++ show port) Ha) as (Hf1 & Ht1 & Hd1).
  destruct (str_take_bracketed addr "" Ha) as (Hf2 & Ht2 & Hd2).
  pose proof (parse_u16_show port Hp) as Hpp.
  rewrite <- (str_app_nil_r v6) at 3 4 5 6.
  rewrite !Hv. unfold authority_host, authority_port.
  rewrite !Hs, Hs0, !strip_prefix_same. change (":" ++ show port) with (String ":"%char (show port)) in *.
  rewrite Hr, Hn, Hf1, Hf2, Ht1, Ht2, Hd1, Hd2, Hc, He.
  rewrite strip_prefix_same. rewrite (bool_decide_eq_true_2 (is_Some _)) by (by rewrite Hpp).
  by split_and!.
Qed.

Lemma authority_roundtrip_witness :
  authority_host "[::1]:18083" = Some "[::1]" /\ authority_port "example.com:8443" = Some 8443%N.
Proof.
  destruct (authority_roundtrip "example.com" "::1" 18083) as (_ & _ & _ & _ & H & _);
    [reflexivity | reflexivity | reflexivity | reflexivity | discriminate |].
  destruct (authority_roundtrip "example.com" "::1" 8443) as (_ & H' & _);
    [reflexivity | reflexivity | reflexivity | reflexivity | discriminate |].
  split; [exact H | exact H'].
Defined.

(** Request metadata is complete or refused.  An accepted request has a
    non-empty scheme, authority, protocol and server name and a 16-bit port, which
    is the connection's when Envoy reports one that fits, else the authority's,
    else the scheme's; a refused one lacks what the message names. *)
Theorem request_metadata_complete {E} `{EnvoyHttpFilter E} (e : E) :
  match request_metadata e with
  | Ok m =>
      is_empty (scheme m) = false /\ is_empty (server_name m) = false
      /\ is_empty (protocol m) = false /\ (server_port m <= u16_MAX)%N
      /\ attribute_string e RequestScheme = Some (scheme m)
      /\ (or_else (attribute_port e DestinationPort)
            (or_else (authority_port (authority m)) (default_port (scheme m)))
          = Some (server_port m))
  | Err refused =>
      attribute_string e RequestScheme = None
      \/ (attribute_string e RequestHost = None /\ get_request_header_value e ":authority" = None)
      \/ attribute_string e RequestProtocol = None
      \/ (reason refused = "invalid request authority"
          /\ attribute_string e DestinationAddress ≫= authority_host = None)
      \/ (reason refused = "missing destination port" /\ attribute_port e DestinationPort = None)
  end.
Proof.
  unfold request_metadata.
  destruct (attribute_string e RequestScheme) as [sch|] eqn:Es; cbn; [|by left].
  destruct (or_else (attribute_string e RequestHost) _) as [auth|] eqn:Ea; cbn.
  2: { right; left. destruct (attribute_string e RequestHost); [done|].
       cbn in Ea. by destruct (get_request_header_value e ":authority"). }
  destruct (attribute_string e RequestProtocol) as [prot|] eqn:Ep; cbn; [|by do 2 right; left].
  destruct (or_else (authority_host auth) _) as [sn|] eqn:En; cbn.
  2: { do 3 right; left. split; [done|]. by destruct (authority_host auth). }
  destruct (or_else (attribute_port e DestinationPort) _) as [port|] eqn:Eport; cbn.
  2: { do 4 right. split; [done|]. by destruct (attribute_port e DestinationPort). }
  split_and!; try done; try (by eapply attribute_string_nonempty).
  - destruct (authority_host auth) as [h|] eqn:Eh; cbn in En.
    + injection En as <-. by eapply authority_host_nonempty.
    + apply bind_Some in En as (? & _ & ?). by eapply authority_host_nonempty.
  - revert Eport. apply or_else_bound.
    + intros n Hn. apply bind_Some in Hn as (? & _ & ?). by eapply u16_try_from_bound.
    + apply or_else_bound; [apply authority_port_bound | apply default_port_bound].
Qed.
