(* ===== verification/Worker.v ===== *)
(** * The Envoy worker's filter ([src/crates/ruvoy-envoy-fiber/src/worker.rs])

    One [FiberRackFilter] per downstream request, driven by Envoy's callbacks on
    one worker thread.  Every callback is an operation on the filter and its
    environment: Envoy, the log of calls made to it, and the store shared with the
    Ruby thread. *)

From S2P Require Import Prelude RustStr Types Budget Stream Upstream Wake Request World Client Envoy Metrics Calls Authority.

Local Open Scope N_scope.

(** ** Constants *)

Definition RESPONSE_EVENT_ID : N := 1.
Definition REQUEST_EVENT_ID : N := 2.
Definition UPSTREAM_EVENT_ID : N := 3.
Definition MAX_BUFFERED_BODY_BYTES : N := 1024 * 1024.

Inductive BodySource := Received | Retained.

(** ** The filter *)

Inductive FilterState := Collecting | Waiting | Streaming | Responded.

#[export] Instance FilterState_eq_dec : EqDecision FilterState.
Proof. solve_decision. Defined.

(** What the configuration gives every filter, and the name its wakers post to. *)
Record FilterConfig := {
  filter_id : N;
  diagnostics_enabled : bool;
  runtime_thread_id : string;
  worker_thread_id : string;
  metrics : option unit;
  context_config : option ContextConfig;
  upstream_settings : option UpstreamSettings;
}.

Record FiberRackFilter := {
  config : FilterConfig;
  f_request : option Request;
  f_request_body : option StreamHandle;
  request_end_pending : bool;
  f_diagnostics : option RequestDiagnostics;
  f_stream : option QRef;
  state : FilterState;
  submitted_at : option Instant;
  f_upstreams : option N;
  upstream_calls : InFlight;
  upstream_streams : OpenStreams;
  f_trace : option (list (string * bytes));
}.

Definition new_http_filter (c : FilterConfig) : FiberRackFilter :=
  {| config := c; f_request := None; f_request_body := None; request_end_pending := false;
     f_diagnostics := None; f_stream := None; state := Collecting; submitted_at := None;
     f_upstreams := None; upstream_calls := ∅; upstream_streams := ∅; f_trace := None |}.

Definition set_f_request (f : FiberRackFilter) r : FiberRackFilter :=
  {| config := config f; f_request := r; f_request_body := f_request_body f;
     request_end_pending := request_end_pending f; f_diagnostics := f_diagnostics f;
     f_stream := f_stream f; state := state f; submitted_at := submitted_at f;
     f_upstreams := f_upstreams f; upstream_calls := upstream_calls f;
     upstream_streams := upstream_streams f; f_trace := f_trace f |}.
Definition set_f_request_body (f : FiberRackFilter) r : FiberRackFilter :=
  {| config := config f; f_request := f_request f; f_request_body := r;
     request_end_pending := request_end_pending f; f_diagnostics := f_diagnostics f;
     f_stream := f_stream f; state := state f; submitted_at := submitted_at f;
     f_upstreams := f_upstreams f; upstream_calls := upstream_calls f;
     upstream_streams := upstream_streams f; f_trace := f_trace f |}.
Definition set_end_pending (f : FiberRackFilter) b : FiberRackFilter :=
  {| config := config f; f_request := f_request f; f_request_body := f_request_body f;
     request_end_pending := b; f_diagnostics := f_diagnostics f;
     f_stream := f_stream f; state := state f; submitted_at := submitted_at f;
     f_upstreams := f_upstreams f; upstream_calls := upstream_calls f;
     upstream_streams := upstream_streams f; f_trace := f_trace f |}.
Definition set_f_diagnostics (f : FiberRackFilter) d : FiberRackFilter :=
  {| config := config f; f_request := f_request f; f_request_body := f_request_body f;
     request_end_pending := request_end_pending f; f_diagnostics := d;
     f_stream := f_stream f; state := state f; submitted_at := submitted_at f;
     f_upstreams := f_upstreams f; upstream_calls := upstream_calls f;
     upstream_streams := upstream_streams f; f_trace := f_trace f |}.
Definition set_f_stream (f : FiberRackFilter) s : FiberRackFilter :=
  {| config := config f; f_request := f_request f; f_request_body := f_request_body f;
     request_end_pending := request_end_pending f; f_diagnostics := f_diagnostics f;
     f_stream := s; state := state f; submitted_at := submitted_at f;
     f_upstreams := f_upstreams f; upstream_calls := upstream_calls f;
     upstream_streams := upstream_streams f; f_trace := f_trace f |}.
Definition set_state (f : FiberRackFilter) s : FiberRackFilter :=
  {| config := config f; f_request := f_request f; f_request_body := f_request_body f;
     request_end_pending := request_end_pending f; f_diagnostics := f_diagnostics f;
     f_stream := f_stream f; state := s; submitted_at := submitted_at f;
     f_upstreams := f_upstreams f; upstream_calls := upstream_calls f;
     upstream_streams := upstream_streams f; f_trace := f_trace f |}.
Definition set_submitted_at (f : FiberRackFilter) t : FiberRackFilter :=
  {| config := config f; f_request := f_request f; f_request_body := f_request_body f;
     request_end_pending := request_end_pending f; f_diagnostics := f_diagnostics f;
     f_stream := f_stream f; state := state f; submitted_at := t;
     f_upstreams := f_upstreams f; upstream_calls := upstream_calls f;
     upstream_streams := upstream_streams f; f_trace := f_trace f |}.
Definition set_f_upstreams (f : FiberRackFilter) u : FiberRackFilter :=
  {| config := config f; f_request := f_request f; f_request_body := f_request_body f;
     request_end_pending := request_end_pending f; f_diagnostics := f_diagnostics f;
     f_stream := f_stream f; state := state f; submitted_at := submitted_at f;
     f_upstreams := u; upstream_calls := upstream_calls f;
     upstream_streams := upstream_streams f; f_trace := f_trace f |}.
Definition set_calls (f : FiberRackFilter) c : FiberRackFilter :=
  {| config := config f; f_request := f_request f; f_request_body := f_request_body f;
     request_end_pending := request_end_pending f; f_diagnostics := f_diagnostics f;
     f_stream := f_stream f; state := state f; submitted_at := submitted_at f;
     f_upstreams := f_upstreams f; upstream_calls := c;
     upstream_streams := upstream_streams f; f_trace := f_trace f |}.
Definition set_open_streams (f : FiberRackFilter) s : FiberRackFilter :=
  {| config := config f; f_request := f_request f; f_request_body := f_request_body f;
     request_end_pending := request_end_pending f; f_diagnostics := f_diagnostics f;
     f_stream := f_stream f; state := state f; submitted_at := submitted_at f;
     f_upstreams := f_upstreams f; upstream_calls := upstream_calls f;
     upstream_streams := s; f_trace := f_trace f |}.
Definition set_f_trace (f : FiberRackFilter) t : FiberRackFilter :=
  {| config := config f; f_request := f_request f; f_request_body := f_request_body f;
     request_end_pending := request_end_pending f; f_diagnostics := f_diagnostics f;
     f_stream := f_stream f; state := state f; submitted_at := submitted_at f;
     f_upstreams := f_upstreams f; upstream_calls := upstream_calls f;
     upstream_streams := upstream_streams f; f_trace := t |}.

(** ** The worker's state *)

Record Worker (E : Type) := { filter : FiberRackFilter; env : Env E }.
Arguments filter {E}.
Arguments env {E}.

Section worker.
Context {E : Type} `{EnvoyHttpFilter E}.

Definition get {A} (q : FiberRackFilter -> A) : St (Worker E) A := fun w => (q (filter w), w).
Definition update (g : FiberRackFilter -> FiberRackFilter) : St (Worker E) unit := fun w =>
  (tt, {| filter := g (filter w); env := env w |}).
Definition in_env {A} (m : St (Env E) A) : St (Worker E) A := fun w =>
  let '(a, e) := m (env w) in (a, {| filter := filter w; env := e |}).
Definition in_world {A} (m : St World A) : St (Worker E) A := in_env (on_world m).

(** [envoy_filter.new_scheduler().commit(event)], now or when a waker is called. *)
Definition scheduler_waker (f : FiberRackFilter) (event : N) : Waker :=
  {| waker_filter := filter_id (config f); waker_event := event |}.
Definition commit (event : N) : St (Worker E) unit :=
  let* w := get (fun f => scheduler_waker f event) in
  in_world (modify (fun s => set_posted s (call_waker w (posted s)))).

(** [if let Some(metrics) = self.metrics { ... }] *)
Definition with_metrics (m : St (Env E) unit) : St (Worker E) unit :=
  let* on := get (fun f => metrics (config f)) in
  match on with
  | Some _ => in_env m
  | None => st_ret tt
  end.

Definition count_call (cluster : string) (outcome : CallOutcome) : St (Worker E) unit :=
  with_metrics (upstream_call cluster outcome).

(** ** Waking fibers *)

Definition wake_if_owed (r : QRef) : St (Worker E) unit :=
  let* owed := in_world (read (fun w => writer_owed_wakeup (get_queue w r))) in
  if owed then in_world (wake_body r) else st_ret tt.

Definition wake_stream (channel : N) : St (Worker E) unit :=
  do* in_world (wake_body (ResponseOf channel)) in
  wake_if_owed (RequestOf channel).

(** ** Outcomes and replies *)

Definition report_admission (rejected_ : option string) : St (Worker E) unit :=
  match rejected_ with
  | Some reason => with_metrics (rejected reason)
  | None => with_metrics submitted
  end.

(** [self.submitted_at.take()] happens whether or not there are metrics. *)
Definition report_outcome (outcome : string) : St (Worker E) unit :=
  let* submitted := get submitted_at in
  do* update (fun f => set_submitted_at f None) in
  let* on := get (fun f => metrics (config f)) in
  match on, submitted with
  | Some _, Some at_ =>
      let* t := in_world now in
      in_env (responded outcome (duration_since t at_))
  | _, _ => st_ret tt
  end.

Definition error_headers : list (string * bytes) :=
  [("content-type", into_bytes "text/plain"); ("x-ruvoy-error", into_bytes "true")]%string.

(** The filter has responded by the time Envoy is asked to, so that what Envoy might report
    from inside the call finds nothing left to do for the response; such events are not
    looked at. *)
Definition send_bridge_error (status : N) (body : string) (details : string) : St (Worker E) unit :=
  do* update (fun f => set_f_request f None) in
  do* update (fun f => set_f_request_body f None) in
  do* update (fun f => set_end_pending f false) in
  do* update (fun f => set_state f Responded) in
  in_env (emit_ (SendResponse status error_headers (Some (into_bytes body)) details)).

Definition send_invalid_request (r : InvalidRequest) : St (Worker E) unit :=
  do* with_metrics (rejected REJECTED_INVALID_REQUEST) in
  send_bridge_error 400 (reason r) "ruvoy_fiber_invalid_request".

Definition response_headers (f : FiberRackFilter) (head : ResponseHead) : list (string * bytes) :=
  ((":status", into_bytes (show (status head)))
   :: map (fun '(name, value) => (name, into_bytes value))
        (List.filter (fun '(name, _) =>
             negb (starts_with ":" name) && negb (starts_with "rack." name)) (headers head))
   ++ if diagnostics_enabled (config f)
      then [("x-ruvoy-runtime-rust-thread-id", into_bytes (runtime_thread_id (config f)));
            ("x-ruvoy-worker-rust-thread-id", into_bytes (worker_thread_id (config f)))]
      else [])%string%list.

(** ** Events Envoy reports of upstream streams *)

(** An operation on an open stream still in the table, and its channel. *)
Definition on_stream {A} (handle : N) (o : OpenStream) (m : St Pair A) : St (Worker E) A :=
  let* r := in_world (on_channel (channel o) (fun c =>
    let '(a, (o', c')) := m (o, c) in ((a, o'), c'))) in
  do* update (fun f => set_open_streams f (<[handle := r.2]> (upstream_streams f))) in
  st_ret r.1.

(** The same on a stream taken out of the table. *)
Definition on_removed {A} (o : OpenStream) (m : St Pair A) : St (Worker E) (A * OpenStream) :=
  in_world (on_channel (channel o) (fun c =>
    let '(a, (o', c')) := m (o, c) in ((a, o'), c'))).

Definition on_http_stream_headers (handle : N) (fields : EnvoyHeaders) (end_stream : bool)
    : St (Worker E) unit :=
  let* o := get (fun f => upstream_streams f !! handle) in
  match o with
  | None => st_ret tt
  | Some o =>
      let* usable := on_stream handle o (headers_arrived fields end_stream) in
      do* (if usable
           then let* t := in_world now in
                with_metrics (upstream_answered (stream_cluster o) (duration_since t (started_at o)))
           else st_ret tt) in
      wake_stream (channel o)
  end.

Definition on_http_stream_data (handle : N) (data : list bytes) (end_stream : bool)
    : St (Worker E) unit :=
  let* o := get (fun f => upstream_streams f !! handle) in
  match o with
  | None => st_ret tt
  | Some o =>
      let* overflowed := on_stream handle o (data_arrived data end_stream) in
      do* wake_stream (channel o) in
      let* route := get f_upstreams in
      match overflowed, route with
      | true, Some u => in_world (wake_route u)
      | _, _ => st_ret tt
      end
  end.

Definition on_http_stream_trailers (handle : N) (fields : EnvoyHeaders) : St (Worker E) unit :=
  let* o := get (fun f => upstream_streams f !! handle) in
  match o with
  | None => st_ret tt
  | Some o =>
      do* on_stream handle o (trailers_arrived fields) in
      wake_stream (channel o)
  end.

Definition remove_stream (handle : N) : St (Worker E) (option OpenStream) :=
  let* o := get (fun f => upstream_streams f !! handle) in
  do* update (fun f => set_open_streams f (delete handle (upstream_streams f))) in
  st_ret o.

Definition end_of_stream (o : option OpenStream) (m : St Pair unit) : St (Worker E) unit :=
  match o with
  | None => st_ret tt
  | Some o =>
      let* r := on_removed o m in
      do* wake_stream (channel o) in
      count_call (stream_cluster o) (outcome r.2)
  end.

Definition on_http_stream_complete (handle : N) : St (Worker E) unit :=
  let* o := remove_stream handle in end_of_stream o completed.

Definition on_http_stream_reset (handle : N) (r : StreamResetReason) : St (Worker E) unit :=
  let* o := remove_stream handle in end_of_stream o (reset_by_envoy r).

Definition on_downstream_above_write_buffer_high_watermark : St (Worker E) unit :=
  let* s := get f_stream in
  match s with
  | Some r => in_world (on_queue r (modify (set_paused true)))
  | None => st_ret tt
  end.

Definition on_downstream_below_write_buffer_low_watermark : St (Worker E) unit :=
  let* s := get f_stream in
  match s with
  | Some r =>
      do* in_world (on_queue r (modify (set_paused false))) in
      commit RESPONSE_EVENT_ID
  | None => st_ret tt
  end.

Definition dispatch (e : StreamEvent) : St (Worker E) unit :=
  match e with
  | StreamHeaders h fields b => on_http_stream_headers h fields b
  | StreamData h data b => on_http_stream_data h data b
  | StreamTrailers h fields => on_http_stream_trailers h fields
  | StreamComplete h => on_http_stream_complete h
  | StreamReset h r => on_http_stream_reset h r
  | AboveHighWatermark => on_downstream_above_write_buffer_high_watermark
  | BelowLowWatermark => on_downstream_below_write_buffer_low_watermark
  end.

(** A call from inside which Envoy may report events. *)
Definition call_envoy (call : EnvoyCall) : St (Worker E) unit :=
  let* reply := in_env (emit call) in
  st_iter dispatch (reentrant reply).

(** ** The request body *)

(** The loop of [copy_body]: one chunk per buffer until the limit. *)
Fixpoint copy_buffers (buffers : list bytes) (limit copied : N) : St ResponseStream N :=
  match buffers with
  | [] => st_ret copied
  | slice :: rest =>
      let take := N.min (len slice) (limit - copied) in
      if take =? 0 then st_ret copied
      else do* push_chunk (ntake take slice) in copy_buffers rest limit (copied + take)
  end.

Definition body_buffers (source : BodySource) (e : E) : list bytes :=
  default [] (match source with
              | Received => get_received_request_body e
              | Retained => get_buffered_request_body e
              end).

Definition drain_call (source : BodySource) (n : N) : EnvoyCall :=
  match source with
  | Received => DrainReceived n
  | Retained => DrainBuffered n
  end.

Definition copy_body (source : BodySource) (limit : N) (r : QRef) : St (Env E) N :=
  if limit =? 0 then st_ret 0
  else
    let* buffers := ask (body_buffers source) in
    let* copied := on_world (on_queue r (copy_buffers buffers limit 0)) in
    do* (if 0 <? copied then emit_ (drain_call source copied) else st_ret tt) in
    st_ret copied.

(** The retained bytes first, then the frame in hand with the room left. *)
Definition copy_both (received_is_retained : bool) (room : N) (r : QRef) : St (Env E) N :=
  let* copied := copy_body Retained room r in
  if (copied <? room) && negb received_is_retained
  then let* more := copy_body Received (room - copied) r in st_ret (copied + more)
  else st_ret copied.

Definition forward_request_body : St (Worker E) unit :=
  let* handle := get f_request_body in
  match handle with
  | None => st_ret tt
  | Some handle =>
      let r := stream handle in
      let* copy_started_at := in_world now in
      let* received_is_retained := in_env (ask received_buffered_request_body) in
      let* retained := in_env (ask get_buffered_request_body_size) in
      let* received := if received_is_retained then st_ret 0
                       else in_env (ask get_received_request_body_size) in
      let* spare := in_world (read (fun w => spare_capacity (get_queue w r))) in
      let room := N.min (retained + received) spare in
      let* copied := in_env (copy_both received_is_retained room r) in
      let* pending := get request_end_pending in
      let* buffered_left := in_env (ask get_buffered_request_body_size) in
      let* received_left := in_env (ask get_received_request_body_size) in
      let ended := pending && (buffered_left =? 0) && (received_left =? 0) in
      do* (if ended
           then do* in_world (on_queue r push_end) in
                update (fun f => set_end_pending f false)
           else st_ret tt) in
      do* (if (0 <? copied) || ended then in_world (wake_body r) else st_ret tt) in
      let* d := get f_diagnostics in
      match d with
      | None => st_ret tt
      | Some d =>
          let* t := in_world now in
          update (fun f => set_f_diagnostics f (Some
            {| received_at := received_at d;
               body_copy_time := body_copy_time d + duration_since t copy_started_at;
               body_callbacks := body_callbacks d + 1;
               diag_submitted_at := diag_submitted_at d |}))
      end
  end.

(** ** Accepting a request *)

Definition copy_headers (f : FiberRackFilter) (e : E) (t : Instant) : result Request InvalidRequest :=
  let headers := map (fun '(name, value) => (from_utf8_lossy name, value)) (get_request_headers e) in
  let? m := ok_or (from_utf8_lossy <$> get_request_header_value e ":method")
    {| reason := "missing :method" |} in
  let? p := ok_or (from_utf8_lossy <$> get_request_header_value e ":path")
    {| reason := "missing :path" |} in
  let? md := request_metadata e in
  let stage_timing_requested :=
    diagnostics_enabled (config f)
    && match get_request_header_value e "x-ruvoy-stage-timing" with
       | Some v => bool_decide (v = into_bytes "1")
       | None => false
       end in
  Ok {| method := m; path := p; body := []; body_stream := None; request_headers := headers;
        metadata := md; context := copy e <$> context_config (config f); upstreams := None;
        force_gc := false;
        diagnostics := if stage_timing_requested then Some (RequestDiagnostics_new t) else None |}.

Definition with_submitted_at (t : Instant) (d : RequestDiagnostics) : RequestDiagnostics :=
  {| received_at := received_at d; body_copy_time := body_copy_time d;
     body_callbacks := body_callbacks d; diag_submitted_at := Some t |}.

Definition submit_ : St (Worker E) unit :=
  let* request := get f_request in
  do* update (fun f => set_f_request f None) in
  match request with
  | None =>
      do* with_metrics (rejected REJECTED_INTERNAL) in
      send_bridge_error 500 "missing owned request" "ruvoy_fiber_missing_request"
  | Some request =>
      let* d := match diagnostics request with
                | Some d => let* t := in_world now in st_ret (Some (with_submitted_at t d))
                | None => st_ret None
                end in
      do* update (fun f => set_f_diagnostics f d) in
      let* request_waker := get (fun f => scheduler_waker f REQUEST_EVENT_ID) in
      let* request_stream := in_world (new_queue MAX_BUFFERED_BODY_BYTES) in
      let request_handle := {| stream := request_stream; waker := request_waker |} in
      do* update (fun f => set_f_request_body f (Some request_handle)) in
      let* settings := get (fun f => upstream_settings (config f)) in
      let* route := match settings with
                    | None => st_ret None
                    | Some s =>
                        let* wk := get (fun f => scheduler_waker f UPSTREAM_EVENT_ID) in
                        let* u := in_world (new_route s wk) in
                        do* update (fun f => set_f_upstreams f (Some u)) in
                        st_ret (Some u)
                    end in
      let* s := in_world (new_queue MAX_BUFFERED_BODY_BYTES) in
      let* wk := get (fun f => scheduler_waker f RESPONSE_EVENT_ID) in
      do* update (fun f => set_f_stream f (Some s)) in
      let* submitted := in_world (submit (with_streams request request_handle route d)
                                         {| stream := s; waker := wk |}) in
      match submitted with
      | Ok _ =>
          do* update (fun f => set_state f Waiting) in
          let* t := in_world now in
          do* update (fun f => set_submitted_at f (Some t)) in
          report_admission None
      | Err error =>
          do* update (fun f => set_f_stream f None) in
          do* report_admission (Some REJECTED_ADMISSION) in
          send_bridge_error 503 (error_to_string error) "ruvoy_fiber_submit_failed"
      end
  end.

(** ** The response *)

Definition send_response_head (head : ResponseHead) : St (Worker E) unit :=
  let* headers := get (fun f => response_headers f head) in
  do* update (fun f => set_state f Streaming) in
  call_envoy (SendResponseHeaders headers false).

(** One pass of [drain_stream]'s loop over an item taken; [true] to go on. *)
Definition drain_item (item : StreamItem) : St (Worker E) bool :=
  let* st := get state in
  match item with
  | Head head =>
      do* (if bool_decide (st = Waiting) then send_response_head head else st_ret tt) in
      st_ret true
  | Chunk chunk =>
      do* (if bool_decide (st = Streaming) then call_envoy (SendResponseData chunk false)
           else st_ret tt) in
      st_ret true
  | End =>
      do* update (fun f => set_state f Responded) in
      do* update (fun f => set_f_stream f None) in
      do* report_outcome OUTCOME_COMPLETED in
      do* (if bool_decide (st = Streaming) then call_envoy (SendResponseData [] true)
           else st_ret tt) in
      st_ret false
  | Failed error =>
      do* update (fun f => set_f_stream f None) in
      do* report_outcome OUTCOME_FAILED in
      do* (if bool_decide (st = Waiting)
           then send_bridge_error 500 (error_to_string error) "ruvoy_fiber_ruby_error"
           else do* update (fun f => set_state f Responded) in
                call_envoy (ResetStream "ruvoy_fiber_ruby_error")) in
      st_ret false
  end.

(** The loop, with fuel for the items queued; [true] when it ran dry. *)
Fixpoint drain_loop (fuel : nat) (r : QRef) : St (Worker E) bool :=
  match fuel with
  | O => st_ret true
  | S fuel =>
      let* item := in_world (on_queue r take_next) in
      match item with
      | None => st_ret true
      | Some item =>
          let* more := drain_item item in
          if more then drain_loop fuel r else st_ret false
      end
  end.

Definition drain_stream : St (Worker E) unit :=
  let* s := get f_stream in
  match s with
  | None => st_ret tt
  | Some r =>
      let* fuel := in_world (read (fun w => S (length (items (get_queue w r))))) in
      let* dry := drain_loop fuel r in
      if dry then wake_if_owed r else st_ret tt
  end.

(** ** Upstream calls *)

(** What [pump_streams] asks of Envoy for one action. *)
Definition action_call (handle : N) (a : StreamAction) : EnvoyCall :=
  match a with
  | Reset => ResetHttpStream handle
  | Send data end_stream => SendHttpStreamData handle data end_stream
  end.

(** The inner loop for one stream; the table is looked up again for every action. *)
Fixpoint pump_loop (fuel : nat) (handle : N) : St (Worker E) unit :=
  match fuel with
  | O => st_ret tt
  | S fuel =>
      let* o := get (fun f => upstream_streams f !! handle) in
      match o with
      | None => st_ret tt
      | Some o =>
          let* action := on_stream handle o next_action in
          match action with
          | None => st_ret tt
          | Some action =>
              do* call_envoy (action_call handle action) in
              pump_loop fuel handle
          end
      end
  end.

(** Each action takes an item of the body or sends the one reset. *)
Definition pump_fuel (handle : N) (w : Worker E) : nat :=
  match upstream_streams (filter w) !! handle with
  | Some o => length (items (request (get_channel (store (env w)) (channel o)))) + 2
  | None => 1
  end.

Definition pump_stream (handle : N) : St (Worker E) unit :=
  let* fuel := (fun w => (pump_fuel handle w, w)) in
  do* pump_loop fuel handle in
  let* o := get (fun f => upstream_streams f !! handle) in
  match o with
  | Some o => wake_if_owed (RequestOf (channel o))
  | None => st_ret tt
  end.

Definition pump_streams : St (Worker E) unit :=
  let* handles := get (fun f => (map_to_list (upstream_streams f)).*1) in
  st_iter pump_stream handles.

(** The trace headers the request carries. *)
Definition read_trace (e : E) : list (string * bytes) :=
  omap (fun name => (fun v => (name, v)) <$> get_request_header_value e name) TRACE_HEADERS.

Definition trace_of_request : St (Worker E) (list (string * bytes)) :=
  let* t := get f_trace in
  match t with
  | Some t => st_ret t
  | None =>
      let* t := in_env (ask read_trace) in
      do* update (fun f => set_f_trace f (Some t)) in
      st_ret t
  end.

Definition send_call (trace : list (string * bytes)) (request : UpstreamRequest) : St (Worker E) unit :=
  let* in_flight := get upstream_calls in
  let* r := in_env (send request trace in_flight) in
  do* update (fun f => set_calls f r.2) in
  match r.1 with
  | Some (refused, cluster) =>
      do* in_world (wake_body refused) in count_call cluster Refused
  | None => st_ret tt
  end.

Definition start_stream (trace : list (string * bytes)) (request : UpstreamStreamRequest)
    : St (Worker E) unit :=
  let* r := in_env (start request trace) in
  do* st_iter dispatch r.2 in
  match r.1 with
  | Open handle o =>
      update (fun f => set_open_streams f (<[handle := o]> (upstream_streams f)))
  | StartRefused channel cluster => do* wake_stream channel in count_call cluster Refused
  | Skipped cluster => count_call cluster Abandoned
  end.

Definition send_upstream_calls : St (Worker E) unit :=
  let* route := get f_upstreams in
  match route with
  | None => st_ret tt
  | Some u =>
      let* calls := in_world (on_route [] u (on_calls take_queued)) in
      let* streams := in_world (on_route [] u (on_calls take_queued_streams)) in
      match calls, streams with
      | [], [] => pump_streams
      | _, _ =>
          let* trace := trace_of_request in
          do* st_iter (send_call trace) calls in
          do* st_iter (start_stream trace) streams in
          pump_streams
      end
  end.

(** ** The end of the request *)

Definition fail_call (waiting : QRef * string) : St (Worker E) (string * CallOutcome) :=
  do* in_world (on_queue waiting.1
        (push_failure (Types.Upstream "the request finished before the call did"))) in
  do* in_world (wake_body waiting.1) in
  st_ret (waiting.2, Abandoned).

Definition fail_unsent (request : UpstreamStreamRequest) : St (Worker E) (string * CallOutcome) :=
  do* in_world (on_channel (sreq_channel request)
        (modify (fail (Types.Upstream "the request finished before the stream did")))) in
  do* wake_stream (sreq_channel request) in
  st_ret (sreq_cluster request, Abandoned).

Definition abandon_stream (o : OpenStream) : St (Worker E) (string * CallOutcome) :=
  let* r := on_removed o abandon in
  do* wake_stream (channel o) in
  st_ret (stream_cluster o, outcome r.2).

Definition abandon_upstreams : St (Worker E) (list (string * CallOutcome)) :=
  let* route := get f_upstreams in
  do* update (fun f => set_f_upstreams f None) in
  let* unsent := match route with
                 | Some u => in_world (on_route no_unsent u (on_calls close_calls))
                 | None => st_ret no_unsent
                 end in
  let* in_flight := get upstream_calls in
  do* update (fun f => set_calls f ∅) in
  let waiting :=
    (map (fun q => (req_response q, req_cluster q)) (unsent_calls unsent)
     ++ map (fun '(_, c) => (call_response c, call_cluster c)) (map_to_list in_flight))%list in
  let* calls := st_map fail_call waiting in
  let* streams := st_map fail_unsent (unsent_streams unsent) in
  let* open := get upstream_streams in
  do* update (fun f => set_open_streams f ∅) in
  let* opened := st_map abandon_stream (map_to_list open).*2 in
  st_ret (calls ++ streams ++ opened)%list.

(** ** Envoy's other callbacks *)

Definition on_request_headers (end_of_stream : bool) : St (Worker E) unit :=
  let* t := in_world now in
  let* f := get (fun f => f) in
  let* r := in_env (ask (fun e => copy_headers f e t)) in
  match r with
  | Err error => send_invalid_request error
  | Ok request =>
      do* update (fun f => set_f_request f (Some request)) in
      do* submit_ in
      do* update (fun f => set_end_pending f end_of_stream) in
      if end_of_stream then forward_request_body else st_ret tt
  end.

Definition on_request_body (end_of_stream : bool) : St (Worker E) unit :=
  do* update (fun f => set_end_pending f (request_end_pending f || end_of_stream)) in
  forward_request_body.

Definition on_request_trailers : St (Worker E) unit :=
  do* update (fun f => set_end_pending f true) in
  forward_request_body.

Definition on_scheduled (event_id : N) : St (Worker E) unit :=
  if event_id =? REQUEST_EVENT_ID then forward_request_body
  else if event_id =? UPSTREAM_EVENT_ID then send_upstream_calls
  else if event_id =? RESPONSE_EVENT_ID
  then let* st := get state in
       if bool_decide (st = Waiting) || bool_decide (st = Streaming) then drain_stream else st_ret tt
  else st_ret tt.

Definition on_http_callout_done (callout_id : N) (r : CalloutResult) (fields : option EnvoyHeaders)
    (b : option (list bytes)) : St (Worker E) unit :=
  let* call := get (fun f => upstream_calls f !! callout_id) in
  do* update (fun f => set_calls f (delete callout_id (upstream_calls f))) in
  match call with
  | None => st_ret tt
  | Some call =>
      let* limit := get (fun f => match upstream_settings (config f) with
                                  | Some s => max_response_bytes s
                                  | None => 0
                                  end) in
      let* o := in_world (on_queue (call_response call) (deliver r fields b limit)) in
      do* count_call (call_cluster call) o in
      do* (if bool_decide (o = Completed)
           then with_metrics (let* t := on_world now in
                  upstream_answered (call_cluster call) (duration_since t (sent_at call)))
           else st_ret tt) in
      in_world (wake_body (call_response call))
  end.

Definition on_stream_complete : St (Worker E) unit :=
  do* report_outcome OUTCOME_CANCELLED in
  let* ended := abandon_upstreams in
  st_iter (fun '(cluster, o) => count_call cluster o) ended.

(** [impl Drop for FiberRackFilter] *)
Definition drop_filter : St (Worker E) unit :=
  let* s := get f_stream in
  do* update (fun f => set_f_stream f None) in
  do* match s with
      | Some r =>
          do* in_world (on_queue r (modify cancel)) in wake_if_owed r
      | None => st_ret tt
      end in
  let* b := get f_request_body in
  do* update (fun f => set_f_request_body f None) in
  do* match b with
      | Some h =>
          do* in_world (on_queue (stream h) (modify cancel)) in in_world (wake_body (stream h))
      | None => st_ret tt
      end in
  do* abandon_upstreams in st_ret tt.

End worker.

(** ** Envoy's callbacks as data *)

Inductive Callback :=
| OnRequestHeaders (end_of_stream : bool)
| OnRequestBody (end_of_stream : bool)
| OnRequestTrailers
| OnScheduled (event_id : N)
| OnHttpCalloutDone (id : N) (r : CalloutResult) (fields : option EnvoyHeaders)
    (b : option (list bytes))
| OnStreamEvent (e : StreamEvent)
| OnStreamComplete.

Definition callback {E} `{EnvoyHttpFilter E} (c : Callback) : St (Worker E) unit :=
  match c with
  | OnRequestHeaders b => on_request_headers b
  | OnRequestBody b => on_request_body b
  | OnRequestTrailers => on_request_trailers
  | OnScheduled id => on_scheduled id
  | OnHttpCalloutDone id r fields b => on_http_callout_done id r fields b
  | OnStreamEvent e => dispatch e
  | OnStreamComplete => on_stream_complete
  end.

(** Reading the filter's own state. *)
Lemma bind_get {E A B} (q : FiberRackFilter -> A) (k : A -> St (Worker E) B) w :
  st_bind (get q) k w = k (q (filter w)) w.
Proof. done. Qed.
