(* ===== verification/WorkerView.v ===== *)
(** * What the client and the statistics see of a filter

    Most of a filter's operations neither write to the downstream nor count the
    request; [keeps] says so of an operation, and is proved compositionally.  What
    is left are the few operations that do, and two invariants over any sequence of
    Envoy's callbacks. *)

From S2P Require Import Prelude RustStr Types Stream Upstream Wake Request World Client Envoy EnvoyExample Metrics Calls Authority Worker.

Local Open Scope N_scope.

(** ** The view *)

(** Calls that write to the downstream or count the request. *)
Definition relevant (c : EnvoyCall) : bool :=
  match c with
  | SendResponse _ _ _ _ | SendResponseHeaders _ _ | SendResponseData _ _ | ResetStream _ => true
  | Increment (Requests | Rejected | Responses) _ _ => true
  | _ => false
  end.

Definition downstream (c : EnvoyCall) : bool :=
  match c with
  | SendResponse _ _ _ _ | SendResponseHeaders _ _ | SendResponseData _ _ | ResetStream _ => true
  | _ => false
  end.

Definition counts (m : Metric) (c : EnvoyCall) : bool :=
  match m, c with
  | Requests, Increment Requests _ _ => true
  | Rejected, Increment Rejected _ _ => true
  | Responses, Increment Responses _ _ => true
  | _, _ => false
  end.

Definition count (m : Metric) (log : list EnvoyCall) : nat := length (List.filter (counts m) log).

Record View := {
  v_state : FilterState;
  v_submitted : option Instant;
  v_config : FilterConfig;
  v_log : list EnvoyCall;
}.

Definition view {E} (w : Worker E) : View :=
  {| v_state := state (filter w); v_submitted := submitted_at (filter w);
     v_config := config (filter w); v_log := List.filter relevant (performed (env w)) |}.

(** ** Operations the view does not see *)

Definition keeps {E A} (m : St (Worker E) A) : Prop := forall w, view (m w).2 = view w.

Create HintDb keeps discriminated.

Section keeps.
Context {E : Type} `{EnvoyHttpFilter E}.

Lemma keeps_ret {A} (a : A) : keeps (E:=E) (st_ret a).
Proof. done. Qed.

Lemma keeps_bind {A B} (m : St (Worker E) A) (k : A -> St (Worker E) B) :
  keeps m -> (forall a, keeps (k a)) -> keeps (st_bind m k).
Proof.
  intros Hm Hk w. unfold st_bind. specialize (Hm w). destruct (m w) as [a w1].
  by rewrite (Hk a w1).
Qed.

Lemma keeps_iter {A} (m : A -> St (Worker E) unit) l : (forall a, keeps (m a)) -> keeps (st_iter m l).
Proof.
  intros Hm. induction l as [|x l IH]; cbn; [apply keeps_ret|]. by apply keeps_bind.
Qed.

Lemma keeps_map {A B} (m : A -> St (Worker E) B) l : (forall a, keeps (m a)) -> keeps (st_map m l).
Proof.
  intros Hm. induction l as [|x l IH]; cbn; [apply keeps_ret|].
  apply keeps_bind; [done|]. intros b. apply keeps_bind; [done|]. intros. apply keeps_ret.
Qed.

Lemma keeps_get {A} (q : FiberRackFilter -> A) : keeps (E:=E) (get q).
Proof. done. Qed.

Lemma keeps_world {A} (m : St World A) : keeps (E:=E) (in_world m).
Proof. intros w. unfold in_world, in_env, on_world. by destruct (m _). Qed.

Lemma in_world_run {A} (m : St World A) (w : Worker E) :
  in_world m w = ((m (store (env w))).1,
    {| filter := filter w; env := {| envoy := envoy (env w); performed := performed (env w);
                                     store := (m (store (env w))).2 |} |}).
Proof. unfold in_world, in_env, on_world. by destruct (m _). Qed.

Lemma keeps_ask {A} (q : E -> A) : keeps (in_env (ask q)).
Proof. done. Qed.

Lemma keeps_update (g : FiberRackFilter -> FiberRackFilter) :
  (forall f, state (g f) = state f /\ submitted_at (g f) = submitted_at f /\ config (g f) = config f) ->
  keeps (E:=E) (update g).
Proof.
  intros Hg [f e]. unfold view, update; cbn. by destruct (Hg f) as (-> & -> & ->).
Qed.

Lemma keeps_emit (c : EnvoyCall) : relevant c = false -> keeps (in_env (emit c)).
Proof.
  intros Hc [f [e p s]]. unfold in_env, emit; cbn. destruct (perform c e) as [r e'].
  unfold view; cbn. rewrite List.filter_app; cbn. by rewrite Hc, app_nil_r.
Qed.

(** Operations of the environment, as operations of the worker. *)
Lemma in_env_bind {A B} (m : St (Env E) A) (k : A -> St (Env E) B) w :
  in_env (st_bind m k) w = st_bind (in_env m) (fun a => in_env (k a)) w.
Proof. unfold in_env, st_bind. destruct (m (env w)) as [a e]. cbn. by destruct (k a e). Qed.

Lemma keeps_env_bind {A B} (m : St (Env E) A) (k : A -> St (Env E) B) :
  keeps (in_env m) -> (forall a, keeps (in_env (k a))) -> keeps (in_env (st_bind m k)).
Proof. intros Hm Hk w. rewrite in_env_bind. by apply keeps_bind. Qed.

Lemma keeps_env_ret {A} (a : A) : keeps (in_env (E:=E) (st_ret a)).
Proof. done. Qed.

Lemma keeps_env_world {A} (m : St World A) : keeps (in_env (E:=E) (on_world m)).
Proof. apply keeps_world. Qed.

Lemma keeps_emit_ (c : EnvoyCall) : relevant c = false -> keeps (in_env (emit_ c)).
Proof. intros Hc. apply keeps_env_bind; [by apply keeps_emit | intros; apply keeps_env_ret]. Qed.

End keeps.

#[export] Hint Resolve keeps_ret keeps_bind keeps_iter keeps_map keeps_get keeps_world keeps_ask
  keeps_env_bind keeps_env_ret keeps_env_world : keeps.

(** One structural step; [case] on what the code branches on. *)
Ltac keeps_step :=
  match goal with
  | |- keeps (st_bind _ _) => apply keeps_bind
  | |- keeps (in_env (st_bind _ _)) => apply keeps_env_bind
  | |- forall _, _ => intros
  | |- keeps (update _) => apply keeps_update; done
  | |- keeps (in_env (emit _)) => apply keeps_emit; done
  | |- keeps (in_env (emit_ _)) => apply keeps_emit_; done
  | |- keeps (in_env (if ?b then _ else _)) => destruct b
  | |- keeps (if ?b then _ else _) => destruct b
  | |- keeps (match ?x with _ => _ end) => destruct x
  | |- keeps (in_env (match ?x with _ => _ end)) => destruct x
  | |- _ => solve [eauto with keeps]
  end.
Ltac keeps_auto := repeat keeps_step.

Section quiet.
Context {E : Type} `{EnvoyHttpFilter E}.

Lemma keeps_with_metrics m : keeps (in_env m) -> keeps (E:=E) (with_metrics m).
Proof. intros. unfold with_metrics. keeps_auto. Qed.
Hint Resolve keeps_with_metrics : keeps.

Lemma keeps_count_call c o : keeps (E:=E) (count_call c o).
Proof. apply keeps_with_metrics. unfold upstream_call. keeps_auto. Qed.
Hint Resolve keeps_count_call : keeps.

Lemma keeps_answered c d : keeps (in_env (E:=E) (upstream_answered c d)).
Proof. unfold upstream_answered. keeps_auto. Qed.
Hint Resolve keeps_answered : keeps.

Lemma keeps_wake_if_owed r : keeps (E:=E) (wake_if_owed r).
Proof. unfold wake_if_owed. keeps_auto. Qed.
Hint Resolve keeps_wake_if_owed : keeps.

Lemma keeps_wake_stream c : keeps (E:=E) (wake_stream c).
Proof. unfold wake_stream. keeps_auto. Qed.
Hint Resolve keeps_wake_stream : keeps.

Lemma keeps_commit e : keeps (E:=E) (commit e).
Proof. unfold commit. keeps_auto. Qed.
Hint Resolve keeps_commit : keeps.

Lemma keeps_on_stream {A} h o (m : St Pair A) : keeps (E:=E) (on_stream h o m).
Proof. unfold on_stream. keeps_auto. Qed.
Hint Resolve keeps_on_stream : keeps.

Lemma keeps_on_removed {A} o (m : St Pair A) : keeps (E:=E) (on_removed o m).
Proof. unfold on_removed. keeps_auto. Qed.
Hint Resolve keeps_on_removed : keeps.

Lemma keeps_dispatch e : keeps (E:=E) (dispatch e).
Proof.
  destruct e; cbn [dispatch]; unfold on_http_stream_headers, on_http_stream_data, on_http_stream_trailers,
    on_http_stream_complete, on_http_stream_reset, remove_stream, end_of_stream,
    on_downstream_above_write_buffer_high_watermark, on_downstream_below_write_buffer_low_watermark;
    keeps_auto.
Qed.
Hint Resolve keeps_dispatch : keeps.

Lemma keeps_call_envoy c : relevant c = false -> keeps (call_envoy c).
Proof. intros. unfold call_envoy. apply keeps_bind; [by apply keeps_emit|]. keeps_auto. Qed.

Lemma keeps_action h a : keeps (E:=E) (call_envoy (action_call h a)).
Proof. apply keeps_call_envoy. by destruct a. Qed.
Hint Resolve keeps_action : keeps.

Lemma keeps_copy_body s n r : keeps (in_env (E:=E) (copy_body s n r)).
Proof. unfold copy_body. keeps_auto. destruct s; keeps_auto. Qed.
Hint Resolve keeps_copy_body : keeps.

Lemma keeps_copy_both b n r : keeps (in_env (E:=E) (copy_both b n r)).
Proof. unfold copy_both. keeps_auto. Qed.
Hint Resolve keeps_copy_both : keeps.

Lemma keeps_forward : keeps (E:=E) forward_request_body.
Proof. unfold forward_request_body. keeps_auto. Qed.
Hint Resolve keeps_forward : keeps.

Lemma keeps_pump_loop fuel h : keeps (E:=E) (pump_loop fuel h).
Proof.
  induction fuel as [|fuel IH]; cbn [pump_loop]; keeps_auto.
Qed.
Hint Resolve keeps_pump_loop : keeps.

Lemma keeps_pump_streams : keeps (E:=E) pump_streams.
Proof.
  unfold pump_streams. keeps_auto. apply keeps_iter. intros h. unfold pump_stream. keeps_auto.
  by intros w.
Qed.
Hint Resolve keeps_pump_streams : keeps.

Lemma keeps_send_call t r : keeps (E:=E) (send_call t r).
Proof. unfold send_call, send. keeps_auto. Qed.
Hint Resolve keeps_send_call : keeps.

Lemma keeps_start_stream t r : keeps (E:=E) (start_stream t r).
Proof. unfold start_stream, start. keeps_auto. Qed.
Hint Resolve keeps_start_stream : keeps.

Lemma keeps_send_upstream_calls : keeps (E:=E) send_upstream_calls.
Proof. unfold send_upstream_calls, trace_of_request. keeps_auto. Qed.
Hint Resolve keeps_send_upstream_calls : keeps.

Lemma keeps_abandon_upstreams : keeps (E:=E) abandon_upstreams.
Proof.
  unfold abandon_upstreams, fail_call, fail_unsent, abandon_stream. keeps_auto;
    apply keeps_map; intros; keeps_auto.
Qed.
Hint Resolve keeps_abandon_upstreams : keeps.

Lemma keeps_callout_done id r f b : keeps (E:=E) (on_http_callout_done id r f b).
Proof. unfold on_http_callout_done. keeps_auto. Qed.
Hint Resolve keeps_callout_done : keeps.

End quiet.

#[export] Hint Resolve keeps_with_metrics keeps_count_call keeps_answered keeps_wake_if_owed
  keeps_wake_stream keeps_commit keeps_on_stream keeps_on_removed keeps_dispatch keeps_action
  keeps_copy_body keeps_forward keeps_pump_loop keeps_pump_streams keeps_send_call
  keeps_start_stream keeps_send_upstream_calls keeps_abandon_upstreams keeps_callout_done : keeps.

(** ** What the other operations do to the view *)

Definition add_log (v : View) (c : EnvoyCall) : View :=
  {| v_state := v_state v; v_submitted := v_submitted v; v_config := v_config v;
     v_log := v_log v ++ [c] |}.
Definition to_state (v : View) (s : FilterState) : View :=
  {| v_state := s; v_submitted := v_submitted v; v_config := v_config v; v_log := v_log v |}.
Definition to_submitted (v : View) (t : option Instant) : View :=
  {| v_state := v_state v; v_submitted := t; v_config := v_config v; v_log := v_log v |}.
(** A count, when there are metrics. *)
Definition add_count (v : View) (c : EnvoyCall) : View :=
  match metrics (v_config v) with
  | Some _ => add_log v c
  | None => v
  end.
Definition settle (v : View) (outcome : string) : View :=
  let v' := to_submitted v None in
  match metrics (v_config v), v_submitted v with
  | Some _, Some _ => add_log v' (Increment Responses [outcome] 1)
  | _, _ => v'
  end.

Section effects.
Context {E : Type} `{EnvoyHttpFilter E}.

Lemma view_bind {A B} (m : St (Worker E) A) (k : A -> St (Worker E) B) w :
  view (st_bind m k w).2 = view (k (m w).1 (m w).2).2.
Proof. unfold st_bind. by destruct (m w). Qed.

Lemma view_emit_ c (w : Worker E) :
  relevant c = true -> view (in_env (emit_ c) w).2 = add_log (view w) c.
Proof.
  intros Hc. destruct w as [f [e p s]]. unfold emit_. rewrite in_env_bind. unfold st_bind, in_env, emit; cbn.
  destruct (perform c e) as [r e']. unfold view, add_log; cbn. by rewrite List.filter_app; cbn; rewrite Hc.
Qed.

Lemma view_call c (w : Worker E) :
  relevant c = true -> view (call_envoy c w).2 = add_log (view w) c.
Proof.
  intros Hc. unfold call_envoy. rewrite view_bind. rewrite (keeps_iter dispatch) by apply keeps_dispatch.
  destruct w as [f [e p s]]. unfold in_env, emit; cbn. destruct (perform c e) as [r e'].
  unfold view, add_log; cbn. by rewrite List.filter_app; cbn; rewrite Hc.
Qed.

Lemma view_metrics c (w : Worker E) :
  relevant c = true -> view (with_metrics (emit_ c) w).2 = add_count (view w) c.
Proof.
  intros Hc. unfold with_metrics. rewrite view_bind. cbn [get fst snd]. unfold add_count. cbn.
  destruct (metrics (config (filter w))); [by apply view_emit_ | done].
Qed.

Lemma view_update g (w : Worker E) :
  view (update g w).2 = {| v_state := state (g (filter w)); v_submitted := submitted_at (g (filter w));
    v_config := config (g (filter w)); v_log := v_log (view w) |}.
Proof. done. Qed.

Lemma view_report o (w : Worker E) : view (report_outcome o w).2 = settle (view w) o.
Proof.
  unfold report_outcome. rewrite !view_bind. cbn [get update fst snd].
  unfold settle, to_submitted. cbn [view v_state v_config v_submitted v_log].
  destruct w as [f ev]. cbn [filter env set_submitted_at config].
  destruct (metrics (config f)); [|done]. destruct (submitted_at f) as [at_|]; [|done].
  rewrite view_bind. unfold responded. set (w1 := {| filter := _; env := ev |}).
  assert (Hw : view (in_world now w1).2 = view w1) by apply keeps_world.
  rewrite in_env_bind, view_bind, keeps_emit_ by done. rewrite view_emit_ by done. by rewrite Hw.
Qed.

Lemma view_bridge_error st b d (w : Worker E) :
  view (send_bridge_error st b d w).2
  = add_log (to_state (view w) Responded) (SendResponse st error_headers (Some (into_bytes b)) d).
Proof. unfold send_bridge_error. rewrite !view_bind, view_emit_ by done. by destruct w. Qed.

Lemma view_head head (w : Worker E) :
  view (send_response_head head w).2
  = add_log (to_state (view w) Streaming) (SendResponseHeaders (response_headers (filter w) head) false).
Proof. unfold send_response_head. rewrite !view_bind, view_call by done. by destruct w. Qed.

End effects.

(** ** The invariant *)

Definition data_calls (body : list bytes) : list EnvoyCall :=
  map (fun d => SendResponseData d false) body.

Definition wire (s : FilterState) (log : list EnvoyCall) : Prop :=
  match s with
  | Collecting | Waiting => log = []
  | Streaming => exists h body, log = SendResponseHeaders h false :: data_calls body
  | Responded =>
      log = [] \/ (exists st h b d, log = [SendResponse st h b d])
      \/ (exists h body fin, log = (SendResponseHeaders h false :: data_calls body ++ [fin])%list
            /\ (fin = SendResponseData [] true \/ exists d, fin = ResetStream d))
  end.

Definition in_flight (v : View) : nat :=
  match v_submitted v with
  | Some _ => 1
  | None => 0
  end.

Record view_inv (v : View) : Prop := {
  vi_wire : wire (v_state v) (List.filter downstream (v_log v));
  vi_fresh : v_state v = Collecting -> v_submitted v = None /\ v_log v = [];
  vi_counts : metrics (v_config v) <> None ->
    match v_state v with
    | Collecting => True
    | _ => (count Requests (v_log v) + count Rejected (v_log v) = 1
            /\ count Requests (v_log v) = count Responses (v_log v) + in_flight v)%nat
    end;
}.

Lemma count_app m a b : count m (a ++ b) = (count m a + count m b)%nat.
Proof. unfold count. by rewrite List.filter_app, length_app. Qed.

Lemma downstream_app a b :
  List.filter downstream (a ++ b) = (List.filter downstream a ++ List.filter downstream b)%list.
Proof. apply List.filter_app. Qed.

(** States in which the response may still move. *)
Definition moving (s : FilterState) : Prop := s = Waiting \/ s = Streaming.

Lemma settle_inv v o :
  view_inv v -> v_state v <> Collecting -> view_inv (settle v o).
Proof.
  intros [Hw Hf Hc] Hs. unfold settle, to_submitted, add_log, in_flight in *. destruct v as [st su c log].
  cbn [v_state v_submitted v_config v_log] in *.
  destruct (metrics c) as [u|] eqn:Em; [destruct su as [t|]|];
    constructor; cbn [v_state v_submitted v_config v_log]; unfold in_flight; try done;
    rewrite ?Em; try done.
  - by rewrite downstream_app, app_nil_r.
  - intros _. specialize (Hc ltac:(done)). rewrite !count_app. cbn [v_submitted].
    change (count Requests [_]) with 0%nat. change (count Rejected [_]) with 0%nat.
    change (count Responses [_]) with 1%nat. destruct st; try done; lia.
Qed.

Lemma settle_state v o : v_state (settle v o) = v_state v /\ v_config (settle v o) = v_config v.
Proof. unfold settle. by repeat case_match. Qed.

Lemma settle_downstream v o :
  List.filter downstream (v_log (settle v o)) = List.filter downstream (v_log v).
Proof.
  unfold settle. repeat case_match; cbn; try done. by rewrite downstream_app, app_nil_r.
Qed.

(** A write that leads to [s']. *)
Lemma write_inv v s' c :
  view_inv v -> v_state v <> Collecting -> s' <> Collecting -> downstream c = true ->
  wire s' (List.filter downstream (v_log v) ++ [c]) ->
  view_inv (add_log (to_state v s') c).
Proof.
  intros [Hw Hf Hc] Hs Hs' Hd Hwire. constructor; cbn [add_log to_state v_state v_log v_config v_submitted].
  - rewrite downstream_app. cbn [List.filter]. by rewrite Hd.
  - done.
  - intros Hm. specialize (Hc Hm). rewrite !count_app.
    assert (Hz : forall m, count m [c] = 0%nat) by (intros []; by destruct c).
    rewrite !Hz, !Nat.add_0_r. unfold in_flight in *. cbn. by destruct s', (v_state v).
Qed.

Lemma state_inv v s' :
  view_inv v -> v_state v <> Collecting -> s' <> Collecting ->
  wire s' (List.filter downstream (v_log v)) -> view_inv (to_state v s').
Proof.
  intros [Hw Hf Hc] Hs Hs' Hwire. constructor; cbn; try done.
  intros Hm. specialize (Hc Hm). by destruct s', (v_state v).
Qed.

(** The end of the body: the outcome is settled before the last write. *)
Lemma finish_inv v s' c o :
  view_inv v -> v_state v <> Collecting -> s' <> Collecting -> downstream c = true ->
  wire s' (List.filter downstream (v_log v) ++ [c]) ->
  view_inv (add_log (settle (to_state v s') o) c).
Proof.
  intros Hi Hs Hs' Hd Hwire.
  replace (add_log (settle (to_state v s') o) c) with (add_log (to_state (settle v o) s') c).
  - apply write_inv; [by apply settle_inv | | done | done |].
    + by rewrite (proj1 (settle_state v o)).
    + by rewrite settle_downstream.
  - unfold settle. cbn. by destruct (metrics (v_config v)); [destruct (v_submitted v)|].
Qed.

Section invariant.
Context {E : Type} `{EnvoyHttpFilter E}.

Lemma bind_ret_fst {A B} (m : St (Worker E) A) (b : B) w : (st_bind m (fun _ => st_ret b) w).1 = b.
Proof. unfold st_bind. by destruct (m w). Qed.

Lemma bind_ret_view {A B} (m : St (Worker E) A) (b : B) w :
  view (st_bind m (fun _ => st_ret b) w).2 = view (m w).2.
Proof. unfold st_bind. by destruct (m w). Qed.

Lemma data_snoc body d : (data_calls body ++ [SendResponseData d false])%list = data_calls (body ++ [d]).
Proof. unfold data_calls. by rewrite map_app. Qed.

Lemma to_state_same v s : v_state v = s -> to_state v s = v.
Proof. destruct v; cbn. by intros <-. Qed.

Lemma bind_fst_const {A B} (m : St (Worker E) A) (k : A -> St (Worker E) B) (b : B) w :
  (forall a w', (k a w').1 = b) -> (st_bind m k w).1 = b.
Proof. intros Hk. unfold st_bind. by destruct (m w). Qed.

Lemma drain_end_fst item (w : Worker E) :
  terminal item = true -> (drain_item item w).1 = false.
Proof.
  destruct item; intros Ht; try discriminate; unfold drain_item;
    repeat (apply bind_fst_const; intros); done.
Qed.

Lemma drain_go_fst item (w : Worker E) :
  terminal item = false -> (drain_item item w).1 = true.
Proof.
  destruct item; intros Ht; try discriminate; unfold drain_item;
    repeat (apply bind_fst_const; intros); done.
Qed.

(** What one item does to the view, in each state the response may be in. *)
Lemma drain_item_view item (w : Worker E) :
  exists h,
  view (drain_item item w).2 =
    match item, state (filter w) with
    | Head _, Waiting => add_log (to_state (view w) Streaming) (SendResponseHeaders h false)
    | Chunk chunk, Streaming => add_log (view w) (SendResponseData chunk false)
    | End, Streaming =>
        add_log (settle (to_state (view w) Responded) OUTCOME_COMPLETED) (SendResponseData [] true)
    | End, _ => settle (to_state (view w) Responded) OUTCOME_COMPLETED
    | Failed error, Waiting =>
        add_log (to_state (settle (view w) OUTCOME_FAILED) Responded)
          (SendResponse 500 error_headers (Some (into_bytes (error_to_string error)))
             "ruvoy_fiber_ruby_error")
    | Failed error, _ =>
        add_log (to_state (settle (view w) OUTCOME_FAILED) Responded)
          (ResetStream "ruvoy_fiber_ruby_error")
    | _, _ => view w
    end.
Proof.
  destruct w as [f ev]. destruct item as [head|chunk| |error]; unfold drain_item; rewrite bind_get; cbn [filter].
  - exists (response_headers f head). rewrite bind_ret_view.
    destruct (state f) eqn:Es; cbn [bool_decide decide_rel];
      [rewrite bool_decide_eq_false_2 by done; done | | rewrite bool_decide_eq_false_2 by done; done ..].
    rewrite bool_decide_eq_true_2 by done. by rewrite view_head.
  - exists []. rewrite bind_ret_view.
    destruct (state f) eqn:Es; [rewrite bool_decide_eq_false_2 by done; done .. | |
      rewrite bool_decide_eq_false_2 by done; done].
    rewrite bool_decide_eq_true_2 by done. by rewrite view_call.
  - exists []. rewrite !view_bind. cbn [st_ret snd].
    destruct (state f) eqn:Es; [rewrite bool_decide_eq_false_2 by done .. | |
      rewrite bool_decide_eq_false_2 by done].
    1,2,4: cbn [st_ret snd]; by rewrite view_report.
    rewrite bool_decide_eq_true_2 by done. rewrite view_call by done. by rewrite view_report.
  - exists []. rewrite !view_bind. cbn [st_ret snd].
    destruct (state f) eqn:Es; [rewrite bool_decide_eq_false_2 by done | |
      rewrite bool_decide_eq_false_2 by done ..].
    2: { rewrite bool_decide_eq_true_2 by done. rewrite view_bridge_error, view_report. done. }
    all: rewrite view_bind, view_call by done; f_equal.
    all: rewrite view_update; unfold to_state; f_equal; try (by rewrite view_report).
    all: match goal with |- context [report_outcome ?o ?w1] => pose proof (view_report o w1) as Hv end.
    all: destruct (report_outcome _ _) as [? w2]; cbn in Hv |- *; destruct (settle _ _) eqn:Ese;
      unfold view in Hv; injection Hv; intros; subst; unfold settle in *; cbn in *;
      repeat case_match; simplify_eq; done.
Qed.

Lemma drain_item_inv item (w : Worker E) :
  view_inv (view w) -> moving (state (filter w)) ->
  view_inv (view (drain_item item w).2)
  /\ (terminal item = false -> moving (v_state (view (drain_item item w).2))).
Proof.
  intros Hi Hm. destruct (drain_item_view item w) as [h ->].
  assert (Hnc : v_state (view w) <> Collecting) by (cbn; by destruct Hm as [-> | ->]).
  pose proof (vi_wire _ Hi) as Hw. change (v_state (view w)) with (state (filter w)) in Hw.
  assert (Hsettled : v_state (settle (view w) OUTCOME_FAILED) <> Collecting)
    by (by rewrite (proj1 (settle_state (view w) OUTCOME_FAILED))).
  destruct Hm as [Hs|Hs]; rewrite Hs in *; cbn [wire] in Hw; destruct item as [head|chunk| |error].
  - split; [|by right]. apply write_inv; try done. rewrite Hw. by eexists _, [].
  - split; [done|by left].
  - split; [|done]. apply settle_inv; [|done]. apply state_inv; try done. by left.
  - split; [|done]. apply write_inv; try done; [by apply settle_inv|].
    rewrite settle_downstream, Hw. right; left. by eexists _, _, _, _.
  - split; [done|by right].
  - split; [|by right]. rewrite <- (to_state_same (view w) Streaming Hs) at 1.
    apply write_inv; try done. destruct Hw as (h' & body & ->).
    exists h', (body ++ [chunk])%list. by rewrite <- data_snoc.
  - split; [|done]. apply finish_inv; try done. destruct Hw as (h' & body & ->).
    do 2 right. exists h', body, (SendResponseData [] true). split; [done|by left].
  - split; [|done]. apply write_inv; try done; [by apply settle_inv|].
    rewrite settle_downstream. destruct Hw as (h' & body & ->).
    do 2 right. eexists h', body, _. split; [done|]. right. by eexists.
Qed.

Lemma drain_loop_inv fuel r (w : Worker E) :
  view_inv (view w) -> moving (state (filter w)) -> view_inv (view (drain_loop fuel r w).2).
Proof.
  revert w. induction fuel as [|fuel IH]; intros w Hi Hm; [done|]. cbn [drain_loop].
  rewrite view_bind. pose proof (keeps_world (on_queue r take_next) w) as Hk.
  destruct (in_world (on_queue r take_next) w) as [item w1]. cbn [fst snd] in *.
  destruct item as [item|]; [|cbn [st_ret snd]; by rewrite Hk].
  rewrite <- Hk in Hi. assert (Hm1 : moving (state (filter w1))).
  { change (state (filter w1)) with (v_state (view w1)). by rewrite Hk. }
  destruct (drain_item_inv item w1 Hi Hm1) as [Hi2 Hm2]. rewrite view_bind.
  destruct (terminal item) eqn:Et.
  - by rewrite (drain_end_fst item w1 Et).
  - rewrite (drain_go_fst item w1 Et). by apply IH, Hm2.
Qed.

Lemma keeps_inv {A} (m : St (Worker E) A) w : keeps m -> view_inv (view w) -> view_inv (view (m w).2).
Proof. intros Hk Hi. by rewrite Hk. Qed.

Lemma drain_stream_inv (w : Worker E) :
  view_inv (view w) -> moving (state (filter w)) -> view_inv (view (drain_stream w).2).
Proof.
  intros Hi Hm. unfold drain_stream. rewrite bind_get.
  destruct (f_stream (filter w)) as [r|]; [|done]. rewrite view_bind.
  pose proof (keeps_world (read (fun w => S (length (items (get_queue w r))))) w) as Hk.
  destruct (in_world _ w) as [fuel w1]. cbn [fst snd] in *.
  assert (Hm1 : moving (state (filter w1))).
  { change (state (filter w1)) with (v_state (view w1)). by rewrite Hk. }
  rewrite view_bind. pose proof (drain_loop_inv fuel r w1) as Hl.
  destruct (drain_loop fuel r w1) as [dry w2]. cbn [fst snd] in *.
  destruct dry; [apply keeps_inv; [apply keeps_wake_if_owed|]|]; apply Hl; by rewrite ?Hk.
Qed.

Lemma on_scheduled_inv id (w : Worker E) : view_inv (view w) -> view_inv (view (on_scheduled id w).2).
Proof.
  intros Hi. unfold on_scheduled.
  destruct (id =? REQUEST_EVENT_ID); [apply keeps_inv; [apply keeps_forward|done]|].
  destruct (id =? UPSTREAM_EVENT_ID); [apply keeps_inv; [apply keeps_send_upstream_calls|done]|].
  destruct (id =? RESPONSE_EVENT_ID); [|done]. rewrite bind_get.
  destruct (bool_decide (state (filter w) = Waiting)) eqn:Ew; cbn [orb].
  - apply bool_decide_eq_true_1 in Ew. apply drain_stream_inv; [done|by left].
  - destruct (bool_decide (state (filter w) = Streaming)) eqn:Es; [|done].
    apply bool_decide_eq_true_1 in Es. apply drain_stream_inv; [done|by right].
Qed.

Lemma on_stream_complete_inv (w : Worker E) :
  view_inv (view w) -> state (filter w) <> Collecting ->
  view_inv (view (on_stream_complete w).2)
  /\ (metrics (config (filter w)) <> None -> v_submitted (view (on_stream_complete w).2) = None).
Proof.
  intros Hi Hs. unfold on_stream_complete. rewrite !view_bind.
  rewrite keeps_iter by (intros []; apply keeps_count_call). rewrite keeps_abandon_upstreams, view_report.
  split; [by apply settle_inv|]. intros Hm. unfold settle. by repeat case_match.
Qed.

(** Peel an operation the view does not see off the front of a sequence. *)
Lemma peel_bind {A B} (m : St (Worker E) A) (k : A -> St (Worker E) B) w v (P : View -> Prop) :
  keeps m -> view w = v -> (forall a w', view w' = v -> P (view (k a w').2)) ->
  P (view (st_bind m k w).2).
Proof. intros Hm Hv Hk. rewrite view_bind. apply Hk. by rewrite Hm. Qed.

(** What submitting does to the view of a filter that has not started. *)
Definition submitted_view (v v' : View) : Prop :=
  (exists t, v' = add_count (to_submitted (to_state v Waiting) (Some t)) (Increment Requests [] 1))
  \/ (exists reason st b d, v' = add_log (to_state (add_count v (Increment Rejected [reason] 1)) Responded)
       (SendResponse st error_headers (Some (into_bytes b)) d)).

Lemma with_metrics_bridge reason st b d (w : Worker E) :
  view (st_bind (with_metrics (rejected reason)) (fun _ => send_bridge_error st b d) w).2
  = add_log (to_state (add_count (view w) (Increment Rejected [reason] 1)) Responded)
      (SendResponse st error_headers (Some (into_bytes b)) d).
Proof. rewrite view_bind, view_bridge_error. unfold rejected. by rewrite view_metrics. Qed.

Lemma submit_view (w : Worker E) : submitted_view (view w) (view (submit_ w).2).
Proof.
  unfold submit_. apply (peel_bind _ _ w (view w)); [keeps_auto|done|]. intros request w1 H1.
  apply (peel_bind _ _ w1 (view w)); [keeps_auto|done|]. intros _ w2 H2.
  destruct request as [request|].
  2: { right. rewrite with_metrics_bridge, H2. by eexists _, _, _, _. }
  apply (peel_bind _ _ w2 (view w)); [keeps_auto|done|]. intros d w3 H3.
  apply (peel_bind _ _ w3 (view w)); [keeps_auto|done|]. intros _ w4 H4.
  apply (peel_bind _ _ w4 (view w)); [keeps_auto|done|]. intros rw w5 H5.
  apply (peel_bind _ _ w5 (view w)); [keeps_auto|done|]. intros rs w6 H6.
  apply (peel_bind _ _ w6 (view w)); [keeps_auto|done|]. intros _ w7 H7.
  apply (peel_bind _ _ w7 (view w)); [keeps_auto|done|]. intros settings w8 H8.
  apply (peel_bind _ _ w8 (view w)); [keeps_auto|done|]. intros route w9 H9.
  apply (peel_bind _ _ w9 (view w)); [keeps_auto|done|]. intros s w10 H10.
  apply (peel_bind _ _ w10 (view w)); [keeps_auto|done|]. intros wk w11 H11.
  apply (peel_bind _ _ w11 (view w)); [keeps_auto|done|]. intros _ w12 H12.
  apply (peel_bind _ _ w12 (view w)); [keeps_auto|done|]. intros submitted w13 H13.
  destruct submitted as [[]|error].
  - left. rewrite view_bind. set (w14 := (update _ w13).2).
    assert (H14 : view w14 = to_state (view w) Waiting) by (rewrite <- H13; by destruct w13).
    apply (peel_bind _ _ w14 (to_state (view w) Waiting)); [keeps_auto|done|]. intros t w15 H15.
    exists t. rewrite view_bind. cbn [report_admission]. unfold Metrics.submitted.
    rewrite view_metrics by done. f_equal. rewrite <- H15. by destruct w15.
  - right. apply (peel_bind _ _ w13 (view w)); [keeps_auto|done|]. intros _ w14 H14.
    cbn [report_admission]. rewrite with_metrics_bridge, H14. by eexists _, _, _, _.
Qed.

Lemma submitted_view_inv v v' :
  v_state v = Collecting -> v_submitted v = None -> v_log v = [] -> submitted_view v v' ->
  view_inv v' /\ v_state v' <> Collecting.
Proof.
  destruct v as [s su c log]. cbn [v_state v_submitted v_log].
  intros -> -> -> [(t & ->)|(reason & st & b & d & ->)];
    unfold add_count, to_submitted, to_state, add_log; cbn [v_config v_state v_log v_submitted];
    destruct (metrics c) as [[]|] eqn:Em; cbn [v_config v_state v_log v_submitted];
    (split; [constructor; cbn [v_config v_state v_log v_submitted]; rewrite ?Em|]; try done).
  all: right; left; by eexists _, _, _, _.
Qed.

Lemma on_request_headers_inv b (w : Worker E) :
  state (filter w) = Collecting -> submitted_at (filter w) = None ->
  v_log (view w) = [] ->
  view_inv (view (on_request_headers b w).2) /\ v_state (view (on_request_headers b w).2) <> Collecting.
Proof.
  intros Hs Ht Hl. unfold on_request_headers.
  set (P v := view_inv v /\ v_state v <> Collecting).
  assert (HP : forall v', submitted_view (view w) v' -> P v')
    by (intros v' Hv; by apply (submitted_view_inv (view w))).
  apply (peel_bind _ _ w (view w) P); [keeps_auto|done|]. intros t w1 H1.
  apply (peel_bind _ _ w1 (view w) P); [keeps_auto|done|]. intros f w2 H2.
  apply (peel_bind _ _ w2 (view w) P); [keeps_auto|done|]. intros r w3 H3.
  destruct r as [request|error].
  - apply (peel_bind _ _ w3 (view w) P); [keeps_auto|done|]. intros _ w4 H4.
    rewrite view_bind. set (w5 := (submit_ w4).2).
    assert (H5 : P (view w5)) by (apply HP; rewrite <- H4; apply submit_view).
    apply (peel_bind _ _ w5 (view w5) P); [keeps_auto|done|]. intros _ w6 H6.
    destruct b; [rewrite keeps_forward|cbn [st_ret snd]]; by rewrite H6.
  - apply HP. right. unfold send_invalid_request. rewrite with_metrics_bridge, H3. by eexists _, _, _, _.
Qed.

Definition is_headers (c : Callback) : bool :=
  match c with
  | OnRequestHeaders _ => true
  | _ => false
  end.

(** The first callback leaves the configuration alone. *)
Lemma config_headers b c e w :
  config (filter (on_request_headers b {| filter := new_http_filter c;
    env := {| envoy := e; performed := []; store := w |} |}).2) = c.
Proof.
  set (w0 := {| filter := _; env := _ |}). set (P v := v_config v = c).
  change (P (view (on_request_headers b w0).2)).
  assert (HP : forall v', submitted_view (view w0) v' -> P v').
  { intros v' [(t & ->)|(r & st & bd & d & ->)]; unfold P, add_count; cbn; by destruct (metrics c). }
  unfold on_request_headers.
  apply (peel_bind _ _ w0 (view w0) P); [keeps_auto|done|]. intros t w1 H1.
  apply (peel_bind _ _ w1 (view w0) P); [keeps_auto|done|]. intros f w2 H2.
  apply (peel_bind _ _ w2 (view w0) P); [keeps_auto|done|]. intros r w3 H3.
  destruct r as [request|error].
  - apply (peel_bind _ _ w3 (view w0) P); [keeps_auto|done|]. intros _ w4 H4.
    rewrite view_bind. set (w5 := (submit_ w4).2).
    assert (H5 : P (view w5)) by (apply HP; rewrite <- H4; apply submit_view).
    apply (peel_bind _ _ w5 (view w5) P); [keeps_auto|done|]. intros _ w6 H6.
    destruct b; [rewrite keeps_forward|cbn [st_ret snd]]; by rewrite H6.
  - apply HP. right. unfold send_invalid_request. rewrite with_metrics_bridge, H3. by eexists _, _, _, _.
Qed.

(** What stays true as callbacks go on: the filter has started, a settled outcome
    stays settled, and the configuration is the same. *)
Definition later (v v' : View) : Prop :=
  (v_state v <> Collecting -> v_state v' <> Collecting)
  /\ (v_submitted v = None -> v_submitted v' = None) /\ v_config v' = v_config v.

Lemma later_refl v : later v v.
Proof. done. Qed.

Lemma later_trans a b c : later a b -> later b c -> later a c.
Proof. intros (H1 & H2 & H3) (H4 & H5 & H6). split_and!; [auto|auto|congruence]. Qed.

Lemma later_settle v o : later v (settle v o).
Proof.
  split_and!; [by rewrite (proj1 (settle_state v o)) | | apply settle_state].
  unfold settle. by repeat case_match.
Qed.

Lemma later_keeps {A} (m : St (Worker E) A) w : keeps m -> later (view w) (view (m w).2).
Proof. intros ->. apply later_refl. Qed.

Lemma later_drain_item item (w : Worker E) : later (view w) (view (drain_item item w).2).
Proof.
  destruct (drain_item_view item w) as [h ->].
  assert (Hto : forall v s c, s <> Collecting -> later v (add_log (to_state v s) c)) by done.
  assert (Hto' : forall v s, s <> Collecting -> later v (to_state v s)) by done.
  assert (Hset : forall v o, later v (settle (to_state v Responded) o))
    by (intros v o; apply (later_trans _ (to_state v Responded)); [by apply Hto' | apply later_settle]).
  assert (Hfail : forall v o c, later v (add_log (to_state (settle v o) Responded) c))
    by (intros; eapply later_trans; [apply later_settle | by apply Hto]).
  assert (Hlog : forall v c, later v (add_log v c)) by done.
  destruct item, (state (filter w)); auto using later_refl.
  eapply later_trans; [apply Hset | apply Hlog].
Qed.

Lemma later_drain_loop fuel r (w : Worker E) : later (view w) (view (drain_loop fuel r w).2).
Proof.
  revert w. induction fuel as [|fuel IH]; intros w; [apply later_refl|]. cbn [drain_loop].
  rewrite view_bind. pose proof (later_keeps (in_world (on_queue r take_next)) w (keeps_world _)) as Hk.
  destruct (in_world (on_queue r take_next) w) as [item w1]. cbn [fst snd] in *.
  destruct item as [item|]; [|done]. rewrite view_bind.
  eapply later_trans; [exact Hk|]. eapply later_trans; [apply later_drain_item|].
  by destruct (drain_item item w1).1.
Qed.

Lemma later_drain_stream (w : Worker E) : later (view w) (view (drain_stream w).2).
Proof.
  unfold drain_stream. rewrite bind_get. destruct (f_stream (filter w)) as [r|]; [|apply later_refl].
  rewrite !view_bind. eapply later_trans; [eapply later_keeps, keeps_world|].
  eapply later_trans; [apply later_drain_loop|].
  destruct (drain_loop _ _ _).1; [apply later_keeps, keeps_wake_if_owed | apply later_refl].
Qed.

Lemma later_callback c (w : Worker E) :
  is_headers c = false -> later (view w) (view (callback c w).2).
Proof.
  intros Hc. destruct c; try discriminate Hc; cbn [callback].
  - apply later_keeps. unfold on_request_body. keeps_auto.
  - apply later_keeps. unfold on_request_trailers. keeps_auto.
  - unfold on_scheduled. repeat case_match; try apply later_refl;
      [apply later_keeps, keeps_forward | apply later_keeps, keeps_send_upstream_calls |].
    rewrite bind_get. case_match; [apply later_drain_stream | apply later_refl].
  - apply later_keeps, keeps_callout_done.
  - apply later_keeps, keeps_dispatch.
  - unfold on_stream_complete. rewrite !view_bind.
    rewrite keeps_iter by (intros []; apply keeps_count_call). rewrite keeps_abandon_upstreams, view_report.
    apply later_settle.
Qed.

(** Callbacks after the first keep the invariant. *)
Lemma callback_inv c (w : Worker E) :
  is_headers c = false -> view_inv (view w) -> state (filter w) <> Collecting ->
  view_inv (view (callback c w).2).
Proof.
  intros Hc Hi Hs. destruct c; try discriminate Hc; cbn [callback].
  - apply keeps_inv; [|done]. unfold on_request_body. keeps_auto.
  - apply keeps_inv; [|done]. unfold on_request_trailers. keeps_auto.
  - by apply on_scheduled_inv.
  - apply keeps_inv; [|done]. apply keeps_callout_done.
  - apply keeps_inv; [|done]. apply keeps_dispatch.
  - by apply on_stream_complete_inv.
Qed.

(** Any sequence of callbacks. *)
Definition run_callbacks (cs : list Callback) : St (Worker E) unit := st_iter callback cs.

Lemma run_inv cs (w : Worker E) :
  Forall (fun c => is_headers c = false) cs -> view_inv (view w) -> state (filter w) <> Collecting ->
  view_inv (view (run_callbacks cs w).2) /\ later (view w) (view (run_callbacks cs w).2)
  /\ (In OnStreamComplete cs -> metrics (config (filter w)) <> None ->
      v_submitted (view (run_callbacks cs w).2) = None).
Proof.
  unfold run_callbacks. revert w.
  induction cs as [|c cs IH]; intros w Hcs Hi Hs; [by split_and!|].
  apply Forall_cons_1 in Hcs as [Hc Hcs]. cbn [st_iter]. rewrite view_bind.
  pose proof (callback_inv c w Hc Hi Hs) as Hi1. pose proof (later_callback c w Hc) as Hl1.
  destruct (IH (callback c w).2 Hcs Hi1) as (Hi2 & Hl2 & Hz); [by apply Hl1|].
  split_and!; [done | by eapply later_trans |].
  intros [->|Hin] Hm.
  - apply Hl2. by apply on_stream_complete_inv.
  - apply Hz; [done|]. destruct Hl1 as (_ & _ & Hcf).
    change (config (filter (callback c w).2)) with (v_config (view (callback c w).2)). by rewrite Hcf.
Qed.

(** A filter as Envoy makes it for a request. *)
Definition worker_new (c : FilterConfig) (e : E) (w : World) : Worker E :=
  {| filter := new_http_filter c; env := {| envoy := e; performed := []; store := w |} |}.

(** The calls made to Envoy over a request's life. *)
Definition calls_of (b : bool) (cs : list Callback) (c : FilterConfig) (e : E) (w : World) : list EnvoyCall :=
  performed (env (run_callbacks (OnRequestHeaders b :: cs) (worker_new c e w)).2).

Lemma run_from_headers b cs c e w :
  Forall (fun c => is_headers c = false) cs ->
  let w' := (run_callbacks (OnRequestHeaders b :: cs) (worker_new c e w)).2 in
  view_inv (view w') /\ v_state (view w') <> Collecting /\ config (filter w') = c
  /\ (In OnStreamComplete cs -> metrics c <> None -> v_submitted (view w') = None).
Proof.
  intros Hcs. cbn zeta. unfold run_callbacks. cbn [st_iter callback]. unfold st_bind.
  destruct (on_request_headers_inv b (worker_new c e w)) as [Hi Hs]; [done|done|done|].
  assert (Hcf : config (filter (on_request_headers b (worker_new c e w)).2) = c) by apply config_headers.
  destruct (on_request_headers b (worker_new c e w)) as [[] w1]. cbn [snd] in *.
  destruct (run_inv cs w1 Hcs Hi Hs) as (Hi2 & (Hl & _ & Hc2) & Hz).
  split_and!; [done | by apply Hl | by rewrite <- Hcf | by rewrite Hcf in Hz].
Qed.

End invariant.

(** ** Properties *)

Lemma filter_relevant (p : EnvoyCall -> bool) log :
  (forall c, p c = true -> relevant c = true) ->
  List.filter p (List.filter relevant log) = List.filter p log.
Proof.
  intros Hp. induction log as [|c log IH]; cbn; [done|]. destruct (relevant c) eqn:Er; cbn.
  - by rewrite IH.
  - destruct (p c) eqn:Ep; [|done]. specialize (Hp c Ep). congruence.
Qed.

Lemma downstream_relevant c : downstream c = true -> relevant c = true.
Proof. by destruct c. Qed.

Lemma counts_relevant m c : counts m c = true -> relevant c = true.
Proof. destruct m, c; cbn; try done; by destruct metric. Qed.

Lemma count_relevant m log : count m (List.filter relevant log) = count m log.
Proof. unfold count. by rewrite (filter_relevant _ _ (counts_relevant m)). Qed.

(** The response as the client sees it: nothing yet, a local reply, or a head
    followed by body pieces and at most one end or reset, which is last. *)
Inductive response_shape : list EnvoyCall -> Prop :=
| shape_none : response_shape []
| shape_local st h b d : response_shape [SendResponse st h b d]
| shape_open h body : response_shape (SendResponseHeaders h false :: data_calls body)
| shape_ended h body :
    response_shape (SendResponseHeaders h false :: data_calls body ++ [SendResponseData [] true])
| shape_reset h body d :
    response_shape (SendResponseHeaders h false :: data_calls body ++ [ResetStream d]).

Section properties.
Context {E : Type} `{EnvoyHttpFilter E}.



End properties.

(** A filter with metrics, and a life of its request. *)
Definition example_config : FilterConfig :=
  {| filter_id := 1; diagnostics_enabled := false; runtime_thread_id := "r"; worker_thread_id := "w";
     metrics := Some tt; context_config := None; upstream_settings := None |}.

Definition example_life : list Callback :=
  [OnRequestBody true; OnScheduled RESPONSE_EVENT_ID; OnStreamEvent AboveHighWatermark;
   OnStreamEvent BelowLowWatermark; OnStreamComplete].


