(* ===== verification/WorkerBody.v ===== *)
(** * Forwarding the request body

    [forward_request_body] moves bytes from Envoy's two buffers to the queue the
    application reads.  [EnvoyBody] states what the code relies on of those
    buffers; the theorem is proved against it, for any Envoy that satisfies it. *)

From S2P Require Import Prelude RustStr Types Stream Upstream Wake Request World Client Envoy EnvoyExample Metrics Calls Authority Worker.

Local Open Scope N_scope.

(** ** What Envoy promises of its body buffers *)

Definition held {E} `{EnvoyHttpFilter E} (source : BodySource) (e : E) : bytes :=
  concat (body_buffers source e).

Class EnvoyBody (E : Type) `{EnvoyHttpFilter E} := {
  buffered_size : forall e, get_buffered_request_body_size e = len (held Retained e);
  received_size : forall e, get_received_request_body_size e = len (held Received e);
  no_empty_slice : forall source (e : E), Forall (fun b => b <> []) (body_buffers source e);
  drains : forall source n (e : E), n <= len (held source e) ->
    let e' := (perform (drain_call source n) e).2 in
    held source e' = ndrop n (held source e)
    /\ received_buffered_request_body e' = received_buffered_request_body e
    /\ (received_buffered_request_body e = false ->
        match source with
        | Retained => held Received e' = held Received e
        | Received => held Retained e' = held Retained e
        end);
  same_bytes : forall e : E, received_buffered_request_body e = true -> held Received e = held Retained e;
}.

(** What the client has sent and the application has not been given, in order:
    retained bytes arrived before the frame in hand. *)
Definition unforwarded {E} `{EnvoyHttpFilter E} (e : E) : bytes :=
  if received_buffered_request_body e then held Retained e else held Retained e ++ held Received e.

(** A queue that accepts body bytes. *)
Record accepting (s : ResponseStream) : Prop := {
  acc_wf : stream_wf s;
  acc_cancelled : cancelled s = false;
  acc_ended : ended s = false;
}.

(** [s'] is [s] with these bytes behind what it had. *)
Record extended (s s' : ResponseStream) (b : bytes) : Prop := {
  ext_accepting : accepting s';
  ext_bytes : queued_bytes (items s') = (queued_bytes (items s) ++ b)%list;
  ext_max : max_buffered_bytes s' = max_buffered_bytes s;
}.

Lemma extended_refl s : accepting s -> extended s s [].
Proof. intros H. constructor; [done | by rewrite app_nil_r | done]. Qed.

Lemma extended_trans a b c x y : extended a b x -> extended b c y -> extended a c (x ++ y).
Proof.
  intros [H1 H2 H3] [H4 H5 H6]. constructor; [done | by rewrite H5, H2, app_assoc | congruence].
Qed.

Lemma extended_buffered s s' b :
  accepting s -> extended s s' b -> buffered_bytes s' = buffered_bytes s + len b.
Proof.
  intros [Hw _ _] [[Hw' _ _] Hb _]. rewrite (wf_buffered _ Hw'), (wf_buffered _ Hw), Hb. apply len_app.
Qed.

Lemma push_chunk_extends c s :
  accepting s -> buffered_bytes s + len c < width64 -> extended s (push_chunk c s).2 c.
Proof.
  intros [Hw Hc He] Hroom. pose proof (push_wf (Chunk c) s Hw Hroom) as Hw'.
  unfold push_chunk, push in *. rewrite Hc, He in *. cbn in *. constructor; [by constructor| |done].
  cbn. rewrite queued_bytes_app. cbn. by rewrite app_nil_r.
Qed.

Lemma copy_buffers_spec buffers limit copied s :
  accepting s -> Forall (fun b => b <> []) buffers -> copied <= limit ->
  buffered_bytes s + (limit - copied) < width64 ->
  let n := N.min (limit - copied) (len (concat buffers)) in
  (copy_buffers buffers limit copied s).1 = copied + n
  /\ extended s (copy_buffers buffers limit copied s).2 (ntake n (concat buffers)).
Proof.
  revert copied s. induction buffers as [|b buffers IH]; intros copied s Hs Hne Hle Hroom n.
  { unfold n. cbn [concat]. rewrite len_nil, N.min_0_r. split; [cbn; lia | by apply extended_refl]. }
  apply Forall_cons_1 in Hne as [Hb Hne]. cbn [copy_buffers concat]. unfold n. cbn [concat]. rewrite len_app.
  assert (Hlen : 0 < len b) by (destruct b; [done|]; rewrite len_cons; lia).
  destruct (N.eqb_spec (N.min (len b) (limit - copied)) 0) as [Hz|Hnz].
  { cbn. assert (limit - copied = 0) as -> by lia. rewrite N.min_l by lia.
    split; [lia|]. by apply extended_refl. }
  unfold st_bind. set (k := N.min (len b) (limit - copied)) in *.
  assert (Hk : len (ntake k b) = k) by (rewrite len_ntake; lia).
  pose proof (push_chunk_extends (ntake k b) s Hs ltac:(lia)) as He.
  destruct (push_chunk (ntake k b) s) as [r s1]. cbn [snd] in He.
  assert (Hb1 : buffered_bytes s1 = buffered_bytes s + k) by (rewrite (extended_buffered s s1 _ Hs He); lia).
  destruct (IH (copied + k) s1 (ext_accepting _ _ _ He) Hne ltac:(lia) ltac:(lia)) as [H1 H2].
  rewrite H1. split; [lia|].
  replace (ntake (N.min (limit - copied) (len b + len (concat buffers))) (b ++ concat buffers))
    with (ntake k b ++ ntake (N.min (limit - (copied + k)) (len (concat buffers))) (concat buffers))%list.
  - by eapply extended_trans.
  - destruct (N.le_gt_cases (len b) (limit - copied)) as [Hc|Hc].
    + assert (k = len b) as Hkb by lia. rewrite Hkb. rewrite (ntake_ge (len b) b) by lia.
      unfold ntake. rewrite take_app_ge by (unfold len in *; lia). do 2 f_equal. unfold len in *. lia.
    + assert (k = limit - copied) as Hkb by lia. rewrite Hkb.
      replace (limit - (copied + (limit - copied))) with 0 by lia. rewrite N.min_0_l, N.min_l by lia.
      change (ntake 0 (concat buffers)) with (@nil byte). rewrite app_nil_r. unfold ntake.
      rewrite take_app_le; [done|]. unfold len in *. lia.
Qed.

Section forward.
Context {E : Type} `{EnvoyHttpFilter E} `{!EnvoyBody E}.

Lemma copy_body_eq source limit r (v : Env E) :
  limit <> 0 ->
  copy_body source limit r v =
    (let out := on_queue r (copy_buffers (body_buffers source (envoy v)) limit 0) (store v) in
     let v1 := {| envoy := envoy v; performed := performed v; store := out.2 |} in
     (out.1,
      if 0 <? out.1
      then {| envoy := (perform (drain_call source out.1) (envoy v)).2;
              performed := performed v ++ [drain_call source out.1]; store := out.2 |}
      else v1)).
Proof.
  intros Hl. unfold copy_body. rewrite (proj2 (N.eqb_neq limit 0) Hl).
  unfold st_bind, ask, on_world, st_ret, emit_, emit, st_bind. cbn [fst snd].
  destruct (on_queue r _ (store v)) as [copied w1]. cbn [fst snd envoy performed store].
  destruct (0 <? copied); [|done]. cbn. by destruct (perform (drain_call source copied) (envoy v)).
Qed.

(** One copy: the bytes leave Envoy's buffer and join the queue, none else moves. *)
Lemma copy_body_spec source limit r (v : Env E) :
  accepting (get_queue (store v) r) ->
  buffered_bytes (get_queue (store v) r) + limit < width64 ->
  let n := N.min limit (len (held source (envoy v))) in
  let v' := (copy_body source limit r v).2 in
  (copy_body source limit r v).1 = n
  /\ extended (get_queue (store v) r) (get_queue (store v') r) (ntake n (held source (envoy v)))
  /\ held source (envoy v') = ndrop n (held source (envoy v))
  /\ received_buffered_request_body (envoy v') = received_buffered_request_body (envoy v)
  /\ (received_buffered_request_body (envoy v) = false ->
      match source with
      | Retained => held Received (envoy v') = held Received (envoy v)
      | Received => held Retained (envoy v') = held Retained (envoy v)
      end).
Proof.
  intros Hs Hroom n. destruct (N.eq_dec limit 0) as [Hz|Hnz].
  { assert (n = 0) as -> by (unfold n; lia). subst limit. cbn. split_and!; try done; [by apply extended_refl|].
    by destruct source. }
  rewrite copy_body_eq by done. destruct v as [e p w]. cbn [store envoy performed] in *.
  pose proof (copy_buffers_spec (body_buffers source e) limit 0 (get_queue w r) Hs (no_empty_slice source e)
    ltac:(lia) ltac:(lia)) as [H1 H2]. rewrite N.sub_0_r in H1, H2. rewrite N.add_0_l in H1.
  fold (held source e) in H1, H2. fold n in H1, H2.
  pose proof (get_on_queue r (copy_buffers (body_buffers source e) limit 0) w) as Hg.
  pose proof (on_queue_fst r (copy_buffers (body_buffers source e) limit 0) w) as Hf.
  destruct (on_queue r _ w) as [copied w1]. cbn [fst snd] in *. rewrite H1 in Hf. subst copied.
  rewrite <- Hg in H2. destruct (N.ltb_spec 0 n) as [Hn|Hn]; cbn [envoy store].
  - destruct (drains source n e ltac:(unfold n; lia)) as (Hd1 & Hd2 & Hd3). by split_and!.
  - assert (n = 0) as Hn0 by lia. rewrite Hn0 in *. split_and!; try done. by destruct source.
Qed.

Lemma take_within {A} n (a b : list A) :
  n <= len a -> ntake n (a ++ b) = ntake n a /\ ndrop n (a ++ b) = (ndrop n a ++ b)%list.
Proof.
  unfold ntake, ndrop, len. intros Hn. split; [rewrite take_app_le | rewrite drop_app_le]; done || lia.
Qed.

Lemma take_beyond {A} n (a b : list A) :
  len a <= n -> ntake n (a ++ b) = (a ++ ntake (n - len a) b)%list
  /\ ndrop n (a ++ b) = ndrop (n - len a) b.
Proof.
  unfold ntake, ndrop, len. intros Hn. rewrite N2Nat.inj_sub, Nat2N.id.
  split; [rewrite take_app_ge | rewrite drop_app_ge]; done || lia.
Qed.

(** Both copies: the first [room] bytes not yet forwarded, in arrival order. *)
Lemma copy_both_spec room r (v : Env E) :
  accepting (get_queue (store v) r) ->
  buffered_bytes (get_queue (store v) r) + room < width64 ->
  room <= len (unforwarded (envoy v)) ->
  let out := copy_both (received_buffered_request_body (envoy v)) room r v in
  out.1 = room
  /\ extended (get_queue (store v) r) (get_queue (store out.2) r) (ntake room (unforwarded (envoy v)))
  /\ unforwarded (envoy out.2) = ndrop room (unforwarded (envoy v))
  /\ received_buffered_request_body (envoy out.2) = received_buffered_request_body (envoy v).
Proof.
  intros Hs Hroom Hle. unfold unforwarded in *. unfold copy_both, st_bind.
  destruct (copy_body_spec Retained room r v Hs Hroom) as (H1 & H2 & H3 & H4 & H5).
  destruct (copy_body Retained room r v) as [n v1]. cbn [fst snd] in *.
  destruct (received_buffered_request_body (envoy v)) eqn:Eflag; cbn [negb andb] in *.
  - rewrite andb_false_r. assert (n = room) as -> by lia. cbn [st_ret fst snd].
    rewrite N.min_l in H2, H3 by lia. rewrite H4. by split_and!.
  - specialize (H5 eq_refl). rewrite andb_true_r. rewrite len_app in Hle.
    destruct (N.ltb_spec n room) as [Hlt|Hge].
    + assert (Hn : n = len (held Retained (envoy v))) by lia.
      rewrite N.min_r in H2, H3 by lia. rewrite <- Hn in H2, H3.
      assert (Hb1 : buffered_bytes (get_queue (store v1) r) = buffered_bytes (get_queue (store v) r) + n).
      { rewrite (extended_buffered _ _ _ Hs H2), len_ntake. lia. }
      destruct (copy_body_spec Received (room - n) r v1 (ext_accepting _ _ _ H2) ltac:(lia))
        as (G1 & G2 & G3 & G4 & G5).
      destruct (copy_body Received (room - n) r v1) as [m v2]. cbn [fst snd st_ret] in *.
      rewrite H4 in G5. specialize (G5 eq_refl). rewrite H5 in *. rewrite G4, H4, G5, G3, H3.
      destruct (take_beyond room (held Retained (envoy v)) (held Received (envoy v)) ltac:(lia)) as [-> ->].
      rewrite N.min_l in G1, G2, G3 |- * by lia. rewrite <- Hn. rewrite ntake_ge in H2 by lia.
      assert (Hnil : ndrop n (held Retained (envoy v)) = []) by (apply len_0_nil; rewrite len_ndrop; lia).
      rewrite Hnil. split_and!; [lia | by eapply extended_trans | done | done].
    + assert (n = room) as -> by lia. cbn [st_ret fst snd].
      destruct (take_within room (held Retained (envoy v)) (held Received (envoy v)) ltac:(lia)) as [-> ->].
      rewrite N.min_l in H2, H3 by lia. rewrite H4, H3, H5. by split_and!.
Qed.

(** The clock and the wakeups leave every queue alone. *)
Lemma queue_now r w : get_queue (now w).2 r = get_queue w r.
Proof. unfold now. by destruct (instants w), r. Qed.

Lemma queue_wake_body r s w : get_queue (wake_body s w).2 r = get_queue w r.
Proof. rewrite wake_body_eq. by destruct r. Qed.

Lemma left_over (e : E) :
  (get_buffered_request_body_size e =? 0) && (get_received_request_body_size e =? 0)
  = (len (unforwarded e) =? 0).
Proof.
  rewrite buffered_size, received_size. unfold unforwarded.
  destruct (received_buffered_request_body e) eqn:Ef.
  - rewrite same_bytes by done. lia.
  - rewrite len_app. lia.
Qed.

(** What the application reads of the queue: these bytes, and perhaps the end. *)
Record forwarded (q q' : ResponseStream) (b : bytes) (over : bool) : Prop := {
  fwd_bytes : queued_bytes (items q') = (queued_bytes (items q) ++ b)%list;
  fwd_end : ended q' = over;
  fwd_bound : buffered_bytes q' <= max_buffered_bytes q';
  fwd_wf : stream_wf q';
}.

Lemma extended_forwarded q q' b :
  accepting q -> extended q q' b -> buffered_bytes q + len b <= max_buffered_bytes q ->
  forwarded q q' b false.
Proof.
  intros Hq Hx Hb. pose proof (extended_buffered _ _ _ Hq Hx). destruct Hx as [[Hw _ He] Hx Hm].
  constructor; [done..|lia|done].
Qed.

Lemma forwarded_push_end q q' b :
  extended q q' b -> forwarded q q' b false -> forwarded q (push_end q').2 b true.
Proof.
  intros [[Hw Hc He] Hx _] [_ _ Hb _]. pose proof (push_wf End q' Hw) as Hw'.
  cbn [item_bytes] in Hw'. rewrite len_nil, N.add_0_r in Hw'. specialize (Hw' (wf_width _ Hw)).
  unfold push_end. unfold push in *. rewrite Hc, He in *. cbn [orb fst snd set_items] in *.
  constructor; try done. cbn [items set_items]. rewrite queued_bytes_app, Hx. apply app_nil_r.
Qed.

(** What the theorem follows through [forward_request_body]: Envoy, one queue, and
    whether the end of the body is to come. *)
Definition sight (r : QRef) (w : Worker E) : E * ResponseStream * bool :=
  (envoy (env w), get_queue (store (env w)) r, request_end_pending (filter w)).

Lemma bind_ask {A B} (g : E -> A) (k : A -> St (Worker E) B) w :
  st_bind (in_env (ask g)) k w = k (g (envoy (env w))) w.
Proof. by destruct w. Qed.

Lemma bind_read {A B} (g : World -> A) (k : A -> St (Worker E) B) w :
  st_bind (in_world (read g)) k w = k (g (store (env w))) w.
Proof. by destruct w as [f []]. Qed.

Lemma bind_ask_unless {A B} (b : bool) (a : A) (g : E -> A) (k : A -> St (Worker E) B) w :
  st_bind (if b then st_ret a else in_env (ask g)) k w = k (if b then a else g (envoy (env w))) w.
Proof. destruct b; [done | by destruct w]. Qed.

Lemma bind_env {A B} (m : St (Env E) A) (k : A -> St (Worker E) B) w :
  st_bind (in_env m) k w = k (m (env w)).1 {| filter := filter w; env := (m (env w)).2 |}.
Proof. unfold st_bind, in_env. by destruct (m (env w)). Qed.

(** To show [P] of what [k] leaves behind, after an operation out of sight. *)
Lemma bind_quiet {A B} (m : St (Worker E) A) (k : A -> St (Worker E) B) r w (P : Worker E -> Prop) :
  sight r (m w).2 = sight r w ->
  (forall a w1, (a, w1) = m w -> sight r w1 = sight r w -> P (k a w1).2) -> P (st_bind m k w).2.
Proof. intros Hm Hk. unfold st_bind. destruct (m w) as [a w1]. by apply Hk. Qed.

Lemma sight_now r w : sight r (in_world now w).2 = sight r w.
Proof.
  unfold in_world, in_env, on_world, sight. pose proof (queue_now r (store (env w))) as Hq.
  destruct (now (store (env w))) as [t s]. cbn in *. by rewrite Hq.
Qed.

Lemma sight_wake (b : bool) r w :
  sight r ((if b then in_world (wake_body r) else st_ret tt) w).2 = sight r w.
Proof.
  destruct b; [|done]. unfold in_world, in_env, on_world, sight.
  pose proof (queue_wake_body r r (store (env w))) as Hq.
  destruct (wake_body r (store (env w))) as [[] w']. cbn in *. by rewrite Hq.
Qed.

Lemma sent_size (e : E) :
  get_buffered_request_body_size e
  + (if received_buffered_request_body e then 0 else get_received_request_body_size e)
  = len (unforwarded e).
Proof.
  rewrite buffered_size, received_size. unfold unforwarded.
  destruct (received_buffered_request_body e); rewrite ?len_app; lia.
Qed.

(** The end of the body, when it is due. *)
Lemma forward_end (over : bool) r b q (w : Worker E) :
  accepting q -> extended q (get_queue (store (env w)) r) b ->
  buffered_bytes q + len b <= max_buffered_bytes q ->
  let w' := ((if over
              then do* in_world (on_queue r push_end) in update (fun f => set_end_pending f false)
              else st_ret tt) w).2 in
  envoy (env w') = envoy (env w)
  /\ forwarded q (get_queue (store (env w')) r) b over
  /\ request_end_pending (filter w') = request_end_pending (filter w) && negb over.
Proof.
  intros Hq Hx Hfit. pose proof (extended_forwarded q _ _ Hq Hx Hfit) as Hf.
  destruct over; cbn [negb]; [|by rewrite andb_true_r].
  rewrite andb_false_r. unfold st_bind, in_world, in_env, on_world, update.
  pose proof (get_on_queue r push_end (store (env w))) as Hg.
  destruct (on_queue r push_end (store (env w))) as [? s]. cbn in *. rewrite Hg.
  split_and!; try done. by apply forwarded_push_end.
Qed.

Lemma sight_diagnostics (d : option RequestDiagnostics) g r w :
  let m := match d with
           | None => st_ret tt
           | Some d => let* t := in_world now in
                       update (fun f => set_f_diagnostics f (Some (g d t)))
           end in
  sight r (m w).2 = sight r w /\ owed (store (env (m w).2)) = owed (store (env w)).
Proof.
  destruct d as [d|]; [|done]. cbn zeta. unfold st_bind, in_world, in_env, on_world, update, sight.
  pose proof (queue_now r (store (env w))) as Hq.
  assert (Ho : owed (now (store (env w))).2 = owed (store (env w))) by (unfold now; by case_match).
  destruct (now (store (env w))) as [t s]. cbn in *. by rewrite Hq, Ho.
Qed.

Lemma owed_wake (b : bool) r (w : Worker E) :
  b = true -> In r (owed (store (env ((if b then in_world (wake_body r) else st_ret tt) w).2))).
Proof.
  intros ->. unfold in_world, in_env, on_world. rewrite wake_body_eq. cbn. apply in_app_iff. by right; left.
Qed.

(** C6: forwarding moves to the application's queue exactly the first bytes it has
    room for of those the client sent and it was not given, in order, and leaves the
    others with Envoy; the queue keeps its bound; the end of the body follows, once,
    only when Envoy has said the body ended and nothing is left behind; and whenever
    bytes or the end were queued, the application's fiber is owed a wakeup. *)
Theorem forward_conserves (w : Worker E) h :
  f_request_body (filter w) = Some h ->
  let q := get_queue (store (env w)) (stream h) in
  accepting q -> buffered_bytes q <= max_buffered_bytes q ->
  let sent := unforwarded (envoy (env w)) in
  let room := N.min (len sent) (spare_capacity q) in
  let w' := (forward_request_body w).2 in
  let over := request_end_pending (filter w) && (len sent <=? room) in
  unforwarded (envoy (env w')) = ndrop room sent
  /\ forwarded q (get_queue (store (env w')) (stream h)) (ntake room sent) over
  /\ request_end_pending (filter w') = request_end_pending (filter w) && negb over
  /\ ((0 <? room) || over = true -> In (stream h) (owed (store (env w')))).
Proof.
  intros Hh q Hq Hb sent room w' over.
  set (P := fun w' : Worker E =>
    unforwarded (envoy (env w')) = ndrop room sent
    /\ forwarded q (get_queue (store (env w')) (stream h)) (ntake room sent) over
    /\ request_end_pending (filter w') = request_end_pending (filter w) && negb over
    /\ ((0 <? room) || over = true -> In (stream h) (owed (store (env w'))))).
  change (P w'). unfold w', forward_request_body. rewrite bind_get, Hh.
  apply (bind_quiet _ _ (stream h)); [apply sight_now|]. intros t w1 _ Hw1.
  rewrite !bind_ask, bind_ask_unless, bind_read, bind_env. injection Hw1 as He1 Hq1 Hp1.
  rewrite sent_size, He1, Hq1. fold q sent room.
  assert (Hfit : buffered_bytes q + len (ntake room sent) <= max_buffered_bytes q)
    by (rewrite len_ntake; unfold room, spare_capacity, saturating_sub; lia).
  assert (Hroom : buffered_bytes q + room < width64)
    by (rewrite len_ntake in Hfit; pose proof (wf_max _ (acc_wf _ Hq)); lia).
  destruct (copy_both_spec room (stream h) (env w1)) as (Hc1 & Hc2 & Hc3 & _);
    rewrite ?Hq1, ?He1; [done | exact Hroom | unfold room; fold sent; lia |].
  rewrite He1 in Hc1, Hc2, Hc3. rewrite Hq1 in Hc2. fold q sent in Hc2, Hc3.
  destruct (copy_both _ room (stream h) (env w1)) as [n v2]. cbn [fst snd] in *.
  rewrite bind_get, !bind_ask. cbn [filter env]. rewrite <- andb_assoc, left_over, Hc3, Hp1, Hc1.
  replace (request_end_pending (filter w) && (len (ndrop room sent) =? 0)) with over
    by (unfold over; rewrite len_ndrop; lia).
  set (w2 := {| filter := filter w1; env := v2 |}).
  destruct (forward_end over (stream h) _ q w2 Hq Hc2 Hfit) as (G1 & G2 & G3).
  rewrite bind_run. match type of G1 with envoy (env ?x) = _ => set (w3 := x) in * end.
  apply (bind_quiet _ _ (stream h)); [apply sight_wake|]. intros [] w4 Hw4 Hs4.
  injection Hs4 as K1 K2 K3. rewrite bind_get.
  match goal with |- P (?m w4).2 =>
    destruct (sight_diagnostics (f_diagnostics (filter w4)) (fun d t0 => {|
      received_at := received_at d; body_copy_time := body_copy_time d + duration_since t0 t;
      body_callbacks := body_callbacks d + 1; diag_submitted_at := diag_submitted_at d |}) (stream h) w4)
      as [Hs5 Ho5] end.
  injection Hs5 as L1 L2 L3. unfold P. rewrite L1, L2, L3, Ho5, K1, K2, K3, G1, G3. cbn [w2 filter env].
  split_and!; [done..| by rewrite Hp1 | ].
  intros Hb'. change w4 with (tt, w4).2. rewrite Hw4. by apply owed_wake.
Qed.

End forward.

(** ** An Envoy that keeps the promise *)

Lemma body_of_spec l :
  concat (default [] (body_of l)) = concat l /\ Forall (fun b => b <> []) (default [] (body_of l)).
Proof.
  assert (H : concat (List.filter non_empty l) = concat l
              /\ Forall (fun b => b <> []) (List.filter non_empty l)).
  { induction l as [|[|x b] l [IH1 IH2]]; cbn; [done | done |]. split; [by rewrite IH1 | by constructor]. }
  unfold body_of. by destruct (List.filter non_empty l).
Qed.

Lemma drain_buffers_spec n l : concat (drain_buffers n l) = ndrop n (concat l).
Proof.
  revert n. induction l as [|b l IH]; intros n; cbn [drain_buffers concat]; [unfold ndrop; by rewrite drop_nil|].
  destruct (N.ltb_spec n (len b)) as [Hn|Hn].
  - by destruct (take_within n b (concat l) ltac:(lia)) as [_ ->].
  - destruct (take_beyond n b (concat l) ltac:(lia)) as [_ ->]. apply IH.
Qed.

#[export] Instance example_body : EnvoyBody ExampleEnvoy.
Proof.
  constructor.
  - intros e. cbn. by rewrite (proj1 (body_of_spec _)).
  - intros e. cbn. by rewrite (proj1 (body_of_spec _)).
  - intros [] e; apply body_of_spec.
  - intros [] n e Hn; unfold held; cbn; rewrite !(proj1 (body_of_spec _)), drain_buffers_spec; by split_and!.
  - done.
Defined.

(** A queue with room for two of the three bytes sent. *)
Definition forwarding : Worker ExampleEnvoy :=
  let '(r, s) := new_queue 2 (world_new 1) in
  {| filter := set_end_pending (set_f_request_body (new_http_filter
       {| filter_id := 0; diagnostics_enabled := false; runtime_thread_id := ""; worker_thread_id := "";
          metrics := None; context_config := None; upstream_settings := None |})
       (Some {| stream := r; waker := {| waker_filter := 0; waker_event := REQUEST_EVENT_ID |} |})) true;
     env := {| envoy := example [into_bytes "a"; into_bytes "b"] [into_bytes "c"] []; performed := [];
               store := s |} |}%string.

Lemma forward_conserves_witness :
  queued_bytes (items (get_queue (store (env (forward_request_body forwarding).2)) (Direct 1)))
    = into_bytes "ab"%string.
Proof.
  destruct (forward_conserves forwarding
    {| stream := Direct 1; waker := {| waker_filter := 0; waker_event := REQUEST_EVENT_ID |} |})
    as (_ & H & _); [reflexivity | | vm_compute; discriminate | exact (fwd_bytes _ _ _ _ H)].
  constructor; [|reflexivity..]. apply stream_new_wf. unfold width64. lia.
Defined.
