(* ===== verification/WorkerEnd.v ===== *)
(** * The end of a request: nobody is left waiting

    [on_stream_complete] gives up every upstream call and stream of the request.  The
    theorem says that each fiber that waits on one is told, that nothing more can be
    asked, and that each is counted once. *)

From S2P Require Import Prelude RustStr Types Stream Upstream Wake Request World Client Envoy EnvoyExample Metrics Calls Authority Worker.

Local Open Scope N_scope.

(** ** What only goes one way in the store *)

Record onward (w w' : World) : Prop := {
  ow_settled r : settled (get_queue w r) = true -> settled (get_queue w' r) = true;
  ow_cancelled r : cancelled (get_queue w r) = true -> cancelled (get_queue w' r) = true;
  ow_owed r : In r (owed w) -> In r (owed w');
  ow_routes : routes w' = routes w;
}.

#[export] Instance onward_preorder : PreOrder onward.
Proof.
  split; [by constructor|]. intros w1 w2 w3 [A1 A2 A3 A4] [B1 B2 B3 B4]. constructor; eauto. congruence.
Qed.

(** A queue takes nothing more and its fiber is owed a wakeup. *)
Definition told (r : QRef) (w : World) : Prop := settled (get_queue w r) = true /\ In r (owed w).

(** The fiber of a channel's response is owed a wakeup, and its request is off. *)
Definition hung_up (c : N) (w : World) : Prop :=
  In (ResponseOf c) (owed w) /\ cancelled (get_queue w (RequestOf c)) = true.

Lemma told_onward r w w' : onward w w' -> told r w -> told r w'.
Proof. intros [H1 H2 H3 H4] [H5 H6]. split; auto. Qed.

Lemma hung_up_onward c w w' : onward w w' -> hung_up c w -> hung_up c w'.
Proof. intros [H1 H2 H3 H4] [H5 H6]. split; auto. Qed.

Lemma wake_body_onward r w : onward w (wake_body r w).2 /\ In r (owed (wake_body r w).2).
Proof.
  rewrite wake_body_eq. cbn. split.
  - constructor; cbn; try done. intros r' Hr. unfold owe. apply in_or_app. by left.
  - unfold owe. apply in_or_app. right. by left.
Qed.

Lemma failure_settles error s :
  settled (push_failure error s).2 = true
  /\ (cancelled s = true -> cancelled (push_failure error s).2 = true).
Proof.
  unfold push_failure, push, settled. destruct (cancelled s) eqn:Ec, (ended s) eqn:Ee; cbn; by rewrite ?Ec, ?Ee, ?orb_true_r.
Qed.

Lemma on_queue_routes {A} r (m : St ResponseStream A) w :
  routes (on_queue r m w).2 = routes w /\ owed (on_queue r m w).2 = owed w.
Proof.
  destruct r as [n|c|c]; cbn [on_queue]; unfold on_channel, on_response, on_request; by destruct (m _).
Qed.

Lemma fail_queue_onward error r w :
  onward w (on_queue r (push_failure error) w).2
  /\ settled (get_queue (on_queue r (push_failure error) w).2 r) = true.
Proof.
  destruct (on_queue_routes r (push_failure error) w) as [H1 H2].
  destruct (failure_settles error (get_queue w r)) as [H3 H4].
  split; [|by rewrite get_on_queue]. constructor.
  - intros r' Hr'. destruct (decide (r' = r)) as [->|Hne]; [by rewrite get_on_queue|by rewrite get_on_queue_ne].
  - intros r' Hr'. destruct (decide (r' = r)) as [->|Hne]; [rewrite get_on_queue; auto|by rewrite get_on_queue_ne].
  - by rewrite H2.
  - done.
Qed.

(** An operation on a channel moves onward if both its queues do. *)
Lemma on_channel_onward {A} c (m : St StreamChannel A) w :
  let ch := get_channel w c in let ch' := (m ch).2 in
  (settled (response ch) = true -> settled (response ch') = true) ->
  (cancelled (response ch) = true -> cancelled (response ch') = true) ->
  cancelled (request ch') = true ->
  onward w (on_channel c m w).2.
Proof.
  cbv zeta. intros H1 H2 H3. constructor.
  - intros [n|c'|c'] Hr; [by unfold on_channel; destruct (m _)| |].
    + destruct (decide (c' = c)) as [->|Hne]; [cbn; rewrite get_on_channel; auto|].
      by rewrite (proj1 (get_queue_channel_ne m c' c w Hne)).
    + destruct (decide (c' = c)) as [->|Hne]; [cbn; rewrite get_on_channel; unfold settled; by rewrite H3|].
      by rewrite (proj2 (get_queue_channel_ne m c' c w Hne)).
  - intros [n|c'|c'] Hr; [by unfold on_channel; destruct (m _)| |].
    + destruct (decide (c' = c)) as [->|Hne]; [cbn; rewrite get_on_channel; auto|].
      by rewrite (proj1 (get_queue_channel_ne m c' c w Hne)).
    + destruct (decide (c' = c)) as [->|Hne]; [cbn; by rewrite get_on_channel|].
      by rewrite (proj2 (get_queue_channel_ne m c' c w Hne)).
  - unfold on_channel. by destruct (m _).
  - unfold on_channel. by destruct (m _).
Qed.

(** ** Worker operations that tell fibers and leave the filter alone *)

Section worker.
Context {E : Type} `{EnvoyHttpFilter E}.

Record stays (w w' : Worker E) : Prop := {
  sy_filter : filter w' = filter w;
  sy_calls : performed (env w') = performed (env w);
  sy_store : onward (store (env w)) (store (env w'));
}.

#[local] Instance stays_preorder : PreOrder stays.
Proof.
  split; [by constructor|]. intros w1 w2 w3 [A1 A2 A3] [B1 B2 B3].
  constructor; [congruence|congruence|by etransitivity].
Qed.

Lemma stays_world {A} (m : St World A) w :
  onward (store (env w)) (m (store (env w))).2 ->
  stays w (in_world m w).2 /\ store (env (in_world m w).2) = (m (store (env w))).2
  /\ (in_world m w).1 = (m (store (env w))).1.
Proof.
  intros Hm. unfold in_world, in_env, on_world. destruct (m (store (env w))) as [a s].
  split_and!; [by constructor|done|done].
Qed.

Lemma wake_if_owed_stays r w : stays w (wake_if_owed r w).2.
Proof.
  unfold wake_if_owed. rewrite bind_run.
  destruct (stays_world (read (fun s => writer_owed_wakeup (get_queue s r))) w) as (H1 & _ & _); [reflexivity|].
  etransitivity; [exact H1|]. destruct (in_world _ w) as [owed_ w1]. cbn [fst snd].
  destruct owed_; [|reflexivity]. by apply stays_world, wake_body_onward.
Qed.

Lemma wake_stream_spec c w :
  stays w (wake_stream c w).2 /\ In (ResponseOf c) (owed (store (env (wake_stream c w).2))).
Proof.
  unfold wake_stream. rewrite bind_run.
  destruct (wake_body_onward (ResponseOf c) (store (env w))) as [H1 H2].
  destruct (stays_world (wake_body (ResponseOf c)) w H1) as (H3 & H4 & _).
  rewrite <- H4 in H2. pose proof (wake_if_owed_stays (RequestOf c) (in_world (wake_body (ResponseOf c)) w).2) as H5.
  split; [exact (transitivity H3 H5)|]. by apply (ow_owed _ _ (sy_store _ _ H5)).
Qed.

Lemma fail_call_spec waiting w :
  (fail_call waiting w).1 = (waiting.2, Abandoned) /\ stays w (fail_call waiting w).2
  /\ told waiting.1 (store (env (fail_call waiting w).2)).
Proof.
  unfold fail_call. rewrite !bind_run.
  edestruct fail_queue_onward as [H1 H2]. destruct (stays_world _ w H1) as (H3 & H4 & _).
  set (w1 := (in_world _ w).2) in *. rewrite <- H4 in H2.
  destruct (wake_body_onward waiting.1 (store (env w1))) as [H5 H6].
  destruct (stays_world _ w1 H5) as (H7 & H8 & _). set (w2 := (in_world _ w1).2) in *. rewrite <- H8 in H6.
  split_and!; [done|exact (transitivity H3 H7)|]. split; [|done]. by apply (ow_settled _ _ (sy_store _ _ H7)).
Qed.

Lemma fail_channel error ch :
  settled (response (fail error ch)) = true
  /\ (cancelled (response ch) = true -> cancelled (response (fail error ch)) = true)
  /\ cancelled (request (fail error ch)) = true.
Proof.
  destruct (failure_settles error (response ch)) as [H1 H2]. unfold fail, on_response.
  destruct (push_failure error (response ch)) as [b s]. by split_and!.
Qed.

Lemma fail_unsent_spec request w :
  let c := sreq_channel request in
  let w' := (fail_unsent request w).2 in
  (fail_unsent request w).1 = (sreq_cluster request, Abandoned) /\ stays w w'
  /\ told (ResponseOf c) (store (env w')) /\ hung_up c (store (env w')).
Proof.
  cbv zeta. unfold fail_unsent. rewrite !bind_run.
  set (e := Types.Upstream _). set (c := sreq_channel request).
  destruct (fail_channel e (get_channel (store (env w)) c)) as (F1 & F2 & F3).
  assert (H1 : onward (store (env w)) (on_channel c (modify (fail e)) (store (env w))).2)
    by (apply on_channel_onward; cbn; auto).
  destruct (stays_world _ w H1) as (H3 & H4 & _). set (w1 := (in_world _ w).2) in *.
  destruct (wake_stream_spec c w1) as [H5 H6].
  assert (F4 : settled (get_queue (store (env w1)) (ResponseOf c)) = true
               /\ cancelled (get_queue (store (env w1)) (RequestOf c)) = true)
    by (rewrite H4; cbn [get_queue]; by rewrite get_on_channel).
  destruct F4 as [F4 F5], (sy_store _ _ H5) as [O1 O2 _ _].
  split_and!; [done|exact (transitivity H3 H5)| |]; split; auto.
Qed.

(** What an open stream that is given up is counted as. *)
Definition given_up (o : OpenStream) : CallOutcome :=
  default (if upgraded o then Completed else Abandoned) (outcome_ o).

Lemma abandon_spec o ch :
  let '(_, (o', ch')) := abandon (o, ch) in
  outcome o' = given_up o
  /\ (response_ended o = false \/ settled (response ch) = true -> settled (response ch') = true)
  /\ (cancelled (response ch) = true -> cancelled (response ch') = true)
  /\ cancelled (request ch') = true.
Proof.
  unfold abandon, given_up. destruct (fail_channel (Types.Upstream "the request finished before the stream did") ch)
    as (F1 & F2 & F3).
  destruct (response_ended o) eqn:Er; cbn; rewrite Er; cbn; split_and!; try done.
  - intros [Hd|Hs]; done.
Qed.

Lemma abandon_stream_spec o w :
  let w' := (abandon_stream o w).2 in
  (abandon_stream o w).1 = (stream_cluster o, given_up o) /\ stays w w' /\ hung_up (channel o) (store (env w'))
  /\ (response_ended o = false -> settled (get_queue (store (env w')) (ResponseOf (channel o))) = true).
Proof.
  cbv zeta. unfold abandon_stream, on_removed. rewrite !bind_run.
  set (m := fun c => let '(a, (o', c')) := abandon (o, c) in ((a, o'), c')). set (c := channel o).
  pose proof (abandon_spec o (get_channel (store (env w)) c)) as Ha.
  assert (Hm : (m (get_channel (store (env w)) c)).1.2 = (abandon (o, get_channel (store (env w)) c)).2.1
    /\ (m (get_channel (store (env w)) c)).2 = (abandon (o, get_channel (store (env w)) c)).2.2)
    by (unfold m; by destruct (abandon _) as [[] []]).
  destruct Hm as [M1 M2]. destruct (abandon (o, get_channel (store (env w)) c)) as [u [o' ch']].
  cbn [fst snd] in M1, M2. destruct Ha as (A1 & A2 & A3 & A4).
  assert (H1 : onward (store (env w)) (on_channel c m (store (env w))).2)
    by (apply on_channel_onward; rewrite ?M2; auto).
  destruct (stays_world _ w H1) as (H3 & H4 & H5).
  assert (H6 : (in_world (on_channel c m) w).1.2 = o')
    by (rewrite H5; unfold on_channel; by destruct (m _) as [[? ?] ?]).
  rewrite H6. set (w1 := (in_world (on_channel c m) w).2) in *.
  assert (H7 : get_channel (store (env w1)) c = ch') by (by rewrite H4, get_on_channel).
  destruct (wake_stream_spec c w1) as [H8 H9]. destruct (sy_store _ _ H8) as [O1 O2 _ _].
  split_and!; [by rewrite <- A1|exact (transitivity H3 H8)| |].
  - split; [done|]. apply O2. cbn. by rewrite H7.
  - intros He. apply O1. cbn. rewrite H7. auto.
Qed.

(** The same for each of a list, whatever comes after leaving what was told as it is. *)
Lemma each_told {A B} (m : A -> St (Worker E) B) (counted_as : A -> B) (P : A -> World -> Prop) l w :
  (forall a w, (m a w).1 = counted_as a /\ stays w (m a w).2 /\ P a (store (env (m a w).2))) ->
  (forall a s s', onward s s' -> P a s -> P a s') ->
  (st_map m l w).1 = map counted_as l /\ stays w (st_map m l w).2
  /\ Forall (fun a => P a (store (env (st_map m l w).2))) l.
Proof.
  intros Hm HP. revert w. induction l as [|a l IH]; intros w; [by split_and!|].
  cbn [st_map]. rewrite !bind_run. destruct (Hm a w) as (H1 & H2 & H3).
  destruct (IH (m a w).2) as (H4 & H5 & H6). rewrite H1, H4. cbn [st_ret fst snd map].
  split_and!; [done|exact (transitivity H2 H5)|]. constructor; [|done].
  exact (HP _ _ _ (sy_store _ _ H5) H3).
Qed.

Lemma filter_all {A} (f : A -> bool) l : (forall a, In a l -> f a = true) -> List.filter f l = l.
Proof.
  induction l as [|a l IH]; intros Hl; [done|]. cbn. rewrite (Hl a) by by left. rewrite IH; [done|].
  intros b Hb. apply Hl. by right.
Qed.

Definition is_upstream_count (c : EnvoyCall) : bool :=
  match c with
  | Increment UpstreamCalls _ _ => true
  | _ => false
  end.

(** ** Everything a request may still wait for *)

Definition unsent_of (w : Worker E) : Unsent :=
  match f_upstreams (filter w) with
  | Some n => match routes (store (env w)) !! n with
              | Some u => {| unsent_calls := queued (calls u); unsent_streams := streams (calls u) |}
              | None => no_unsent
              end
  | None => no_unsent
  end.

Definition waiting_calls (w : Worker E) : list (QRef * string) :=
  map (fun q => (req_response q, req_cluster q)) (unsent_calls (unsent_of w))
  ++ map (fun '(_, c) => (call_response c, call_cluster c)) (map_to_list (upstream_calls (filter w))).

Definition open_list (w : Worker E) : list OpenStream := (map_to_list (upstream_streams (filter w))).*2.

(** The cluster and outcome each is counted with. *)
Definition ended_calls (w : Worker E) : list (string * CallOutcome) :=
  map (fun c => (c.2, Abandoned)) (waiting_calls w)
  ++ map (fun q => (sreq_cluster q, Abandoned)) (unsent_streams (unsent_of w))
  ++ map (fun o => (stream_cluster o, given_up o)) (open_list w).

(** A route nothing can be added to. *)
Definition shut (u : Upstreams) : Upstreams :=
  {| settings := settings u; calls := {| queued := []; streams := []; closed := true |};
     route_waker := route_waker u |}.

(** [abandon_upstreams] in two halves: taking the route and closing it, and telling
    everyone. *)
Definition take_route : St (Worker E) Unsent :=
  let* route := get f_upstreams in
  do* update (fun f => set_f_upstreams f None) in
  match route with
  | Some u => in_world (on_route no_unsent u (on_calls close_calls))
  | None => st_ret no_unsent
  end.

Definition tell_all (unsent : Unsent) : St (Worker E) (list (string * CallOutcome)) :=
  let* in_flight := get upstream_calls in
  do* update (fun f => set_calls f ∅) in
  let waiting :=
    (map (fun q => (req_response q, req_cluster q)) (unsent_calls unsent)
     ++ map (fun '(_, c) => (call_response c, call_cluster c)) (map_to_list in_flight))%list in
  let* calls := st_map fail_call waiting in
  let* streams := st_map fail_unsent (unsent_streams unsent) in
  let* open := get upstream_streams in
  do* update (fun f => set_open_streams f ∅) in
  let* opened := st_map abandon_stream (map_to_list open).*2 in
  st_ret (calls ++ streams ++ opened)%list.

Lemma abandon_halves w : abandon_upstreams w = tell_all (take_route w).1 (take_route w).2.
Proof.
  transitivity (st_bind match f_upstreams (filter w) with
                        | Some u => in_world (on_route no_unsent u (on_calls close_calls))
                        | None => st_ret no_unsent
                        end tell_all (update (fun f => set_f_upstreams f None) w).2); [reflexivity|].
  by rewrite bind_run.
Qed.

Lemma take_route_spec w :
  let m := take_route in
  (m w).1 = unsent_of w /\ filter (m w).2 = set_f_upstreams (filter w) None
  /\ performed (env (m w).2) = performed (env w)
  /\ (forall n u, f_upstreams (filter w) = Some n -> routes (store (env w)) !! n = Some u ->
        routes (store (env (m w).2)) !! n = Some (shut u)).
Proof.
  cbv zeta. unfold take_route. rewrite bind_get, bind_run. cbn [update fst snd]. unfold unsent_of.
  destruct (f_upstreams (filter w)) as [n|]; [|by split_and!].
  unfold in_world, in_env, on_world, on_route. cbn [filter env store].
  destruct (routes (store (env w)) !! n) as [u|] eqn:Eu; cbn.
  - split_and!; [done..|]. intros n' u' [= <-]. rewrite Eu. intros [= <-]. by rewrite lookup_insert_eq.
  - split_and!; [done..|]. intros n' u' [= <-] Hu'. congruence.
Qed.

(** [abandon_upstreams], as one operation. *)
Lemma abandon_upstreams_spec w :
  let w' := (abandon_upstreams w).2 in
  (abandon_upstreams w).1 = ended_calls w
  /\ filter w' = set_open_streams (set_calls (set_f_upstreams (filter w) None) ∅) ∅
  /\ performed (env w') = performed (env w)
  /\ (forall n u, f_upstreams (filter w) = Some n -> routes (store (env w)) !! n = Some u ->
        routes (store (env w')) !! n = Some (shut u))
  /\ Forall (fun c => told c.1 (store (env w'))) (waiting_calls w)
  /\ Forall (fun q => told (ResponseOf (sreq_channel q)) (store (env w'))
                      /\ hung_up (sreq_channel q) (store (env w'))) (unsent_streams (unsent_of w))
  /\ Forall (fun o => hung_up (channel o) (store (env w'))
                      /\ (response_ended o = false -> settled (get_queue (store (env w')) (ResponseOf (channel o))) = true))
       (open_list w).
Proof.
  cbv zeta. rewrite abandon_halves. destruct (take_route_spec w) as (T1 & T2 & T3 & T4). cbv zeta in *.
  rewrite T1. set (w1 := (take_route w).2) in *. unfold tell_all. rewrite bind_get, T2. cbn [upstream_calls set_f_upstreams].
  fold (waiting_calls w). rewrite bind_run. cbn [update fst snd]. rewrite T2.
  set (w2 := {| filter := _; env := env w1 |}). rewrite bind_run.
  destruct (each_told fail_call (fun c => (c.2, Abandoned)) (fun c => told c.1) (waiting_calls w) w2) as (C1 & C2 & C3);
    [intros; apply fail_call_spec|intros c s s'; apply told_onward|].
  rewrite C1. set (w3 := (st_map fail_call _ w2).2) in *. rewrite bind_run.
  destruct (each_told fail_unsent (fun q => (sreq_cluster q, Abandoned))
    (fun q s => told (ResponseOf (sreq_channel q)) s /\ hung_up (sreq_channel q) s)
    (unsent_streams (unsent_of w)) w3) as (S1 & S2 & S3);
    [intros; apply fail_unsent_spec
    |intros q s s' Hs [? ?]; split; [by eapply told_onward|by eapply hung_up_onward]|].
  rewrite S1. set (w4 := (st_map fail_unsent _ w3).2) in *.
  assert (F4 : filter w4 = set_calls (set_f_upstreams (filter w) None) ∅)
    by (by rewrite (sy_filter _ _ S2), (sy_filter _ _ C2)).
  rewrite bind_get, bind_run. cbn [update fst snd]. rewrite F4. cbn [upstream_streams set_calls set_f_upstreams].
  fold (open_list w). set (w5 := {| filter := _; env := env w4 |}). rewrite bind_run.
  destruct (each_told abandon_stream (fun o => (stream_cluster o, given_up o))
    (fun o s => hung_up (channel o) s
       /\ (response_ended o = false -> settled (get_queue s (ResponseOf (channel o))) = true)) (open_list w) w5)
    as (O1 & O2 & O3);
    [intros; apply abandon_stream_spec
    |intros o s s' Hs [? ?]; split; [by eapply hung_up_onward|intros; by apply (ow_settled _ _ Hs); auto]|].
  rewrite O1. set (w6 := (st_map abandon_stream _ w5).2) in *. cbn [st_ret fst snd].
  pose proof (sy_store _ _ O2) as HO. assert (HSO : onward (store (env w3)) (store (env w6)))
    by (exact (transitivity (sy_store _ _ S2) HO)).
  split_and!; [done|by rewrite (sy_filter _ _ O2)| | | | |done].
  - rewrite (sy_calls _ _ O2). change (env w5) with (env w4). rewrite (sy_calls _ _ S2), (sy_calls _ _ C2). done.
  - intros n u Hn Hu. rewrite (ow_routes _ _ HSO), (ow_routes _ _ (sy_store _ _ C2)). by apply T4.
  - eapply list.Forall_impl; [exact C3|]. intros c. by apply told_onward.
  - eapply list.Forall_impl; [exact S3|].
    intros q [Ht Hh]. exact (conj (told_onward _ _ _ HO Ht) (hung_up_onward _ _ _ HO Hh)).
Qed.

Lemma in_env_run {A} (m : St (Env E) A) (w : Worker E) :
  (in_env m w).2 = {| filter := filter w; env := (m (env w)).2 |}.
Proof. unfold in_env. by destruct (m (env w)). Qed.

Lemma emit_run call (v : Env E) :
  (emit_ call v).2 = {| envoy := (perform call (envoy v)).2; performed := performed v ++ [call]; store := store v |}.
Proof. unfold emit_, emit, st_bind. by destruct (perform _ _). Qed.

Lemma now_queues s :
  queues (now s).2 = queues s /\ channels (now s).2 = channels s /\ routes (now s).2 = routes s.
Proof. unfold now. by destruct (instants s). Qed.

Lemma report_outcome_rest o w :
  let w' := (report_outcome o w).2 in
  filter w' = set_submitted_at (filter w) None
  /\ queues (store (env w')) = queues (store (env w)) /\ channels (store (env w')) = channels (store (env w))
  /\ routes (store (env w')) = routes (store (env w))
  /\ List.filter is_upstream_count (performed (env w')) = List.filter is_upstream_count (performed (env w)).
Proof.
  cbv zeta. unfold report_outcome. rewrite bind_get, bind_run, bind_get. cbn [update fst snd filter config set_submitted_at].
  destruct (metrics (config (filter w))), (submitted_at (filter w)) as [at_|]; try done.
  rewrite bind_run, in_env_run. unfold responded. rewrite bind_run, !emit_run. unfold in_world. rewrite in_env_run.
  cbn [filter env performed store]. unfold on_world. destruct (now_queues (store (env w))) as (H1 & H2 & H3).
  destruct (now (store (env w))) as [t s]. cbn in H1, H2, H3 |- *.
  split_and!; [done..|]. by rewrite !List.filter_app, !app_nil_r.
Qed.

(** Counting each of a list, when metrics are kept. *)
Lemma count_all l w :
  metrics (config (filter w)) <> None ->
  let w' := (st_iter (fun '(cluster, o) => count_call cluster o) l w).2 in
  filter w' = filter w /\ store (env w') = store (env w)
  /\ performed (env w') = (performed (env w)
       ++ map (fun '(cluster, o) => Increment UpstreamCalls [cluster; label o] 1) l)%list.
Proof.
  intros Hm. cbv zeta. revert w Hm. induction l as [|[cluster o] l IH]; intros w Hm; [by rewrite app_nil_r|].
  cbn [st_iter]. rewrite bind_run. set (w1 := (count_call cluster o w).2).
  assert (Hw : filter w1 = filter w /\ store (env w1) = store (env w)
    /\ performed (env w1) = (performed (env w) ++ [Increment UpstreamCalls [cluster; label o] 1])%list).
  { unfold w1, count_call, with_metrics. rewrite bind_get. destruct (metrics (config (filter w))); [|done].
    unfold upstream_call. by rewrite in_env_run, emit_run. }
  destruct Hw as (W1 & W2 & W3). destruct (IH w1) as (H1 & H2 & H3); [by rewrite W1|].
  rewrite H1, H2, H3, W1, W2, W3, <- app_assoc. by split_and!.
Qed.

Lemma count_all_silent l w :
  metrics (config (filter w)) = None -> (st_iter (fun '(cluster, o) => count_call cluster o) l w).2 = w.
Proof.
  intros Hm. induction l as [|[cluster o] l IH]; [done|]. cbn [st_iter]. rewrite bind_run.
  replace ((count_call cluster o w).2) with w; [exact IH|].
  unfold count_call, with_metrics. by rewrite bind_get, Hm.
Qed.

(** C11: when Envoy is done with a request, however it ended, nothing of it is left in
    flight and its route takes no more calls; every fiber waiting for a call has its
    queue settled and is owed a wakeup, and so has every fiber of a stream, whose
    request is cancelled and whose response is settled unless it had ended already;
    and each call and stream is counted exactly once, with the outcome it had. *)
Theorem complete_leaves_no_one (w : Worker E) :
  let w' := (on_stream_complete w).2 in
  let s' := store (env w') in
  upstream_calls (filter w') = ∅ /\ upstream_streams (filter w') = ∅ /\ f_upstreams (filter w') = None
  /\ (forall n u, f_upstreams (filter w) = Some n -> routes (store (env w)) !! n = Some u ->
        routes s' !! n = Some (shut u))
  /\ Forall (fun c => told c.1 s') (waiting_calls w)
  /\ Forall (fun q => told (ResponseOf (sreq_channel q)) s' /\ hung_up (sreq_channel q) s')
       (unsent_streams (unsent_of w))
  /\ Forall (fun o => hung_up (channel o) s'
                      /\ (response_ended o = false -> settled (get_queue s' (ResponseOf (channel o))) = true))
       (open_list w)
  /\ (metrics (config (filter w)) <> None ->
      List.filter is_upstream_count (performed (env w'))
      = (List.filter is_upstream_count (performed (env w))
         ++ map (fun '(cluster, o) => Increment UpstreamCalls [cluster; label o] 1) (ended_calls w))%list).
Proof.
  cbv zeta. unfold on_stream_complete. rewrite bind_run.
  destruct (report_outcome_rest OUTCOME_CANCELLED w) as (R1 & R2 & R3 & R4 & R5). cbv zeta in *.
  set (w1 := (report_outcome OUTCOME_CANCELLED w).2) in *. rewrite bind_run.
  destruct (abandon_upstreams_spec w1) as (A1 & A2 & A3 & A4 & A5 & A6 & A7). cbv zeta in *.
  assert (Hsame : unsent_of w1 = unsent_of w /\ waiting_calls w1 = waiting_calls w
    /\ open_list w1 = open_list w /\ ended_calls w1 = ended_calls w).
  { unfold ended_calls, waiting_calls, open_list, unsent_of. by rewrite R1, R4. }
  destruct Hsame as (U1 & U2 & U3 & U4). rewrite U1, U2, U3, U4 in *. rewrite R1, R4 in A4.
  rewrite A1. set (w2 := (abandon_upstreams w1).2) in *.
  assert (Hc : config (filter w2) = config (filter w)) by (by rewrite A2, R1).
  destruct (metrics (config (filter w))) as [m|] eqn:Em.
  - destruct (count_all (ended_calls w) w2) as (K1 & K2 & K3); [by rewrite Hc, Em|].
    rewrite K1, K2, K3, A2. split_and!; try done. intros _.
    rewrite List.filter_app, A3, R5. f_equal. apply filter_all. intros c Hin.
    apply in_map_iff in Hin as ([cluster o] & <- & _). done.
  - rewrite count_all_silent by (by rewrite Hc). rewrite A2. by split_and!.
Qed.

End worker.
