(* ===== verification/WorkerApart.v ===== *)
(** * What the worker leaves of the response's queue

    A filter works on many queues and reads its response from one.  [spares] says of an
    operation that it leaves the contents of that one queue alone, and what the client
    was sent; it is proved compositionally, from what the filter's tables name. *)

From S2P Require Import Prelude RustStr Types Stream Upstream Wake Request World Client Envoy Metrics Calls Authority Worker WorkerView.

Local Open Scope N_scope.

Section apart.
Context (n : N).

(** What a queue holds; whether its reader is paused or waited for apart. *)
Definition contents (s : ResponseStream) : list StreamItem * bool * bool := (items s, cancelled s, ended s).

(** No call that waits in a route of the store answers into the queue. *)
Definition routes_apart (w : World) : Prop :=
  forall u r q, routes w !! u = Some r -> q ∈ queued (calls r) -> req_response q <> Direct n.

(** ** Operations on the store *)

Definition aside {A} (m : St World A) : Prop := forall w, routes_apart w ->
  routes_apart (m w).2 /\ contents (get_queue (m w).2 (Direct n)) = contents (get_queue w (Direct n)).

Lemma aside_same {A} (m : St World A) :
  (forall w, routes (m w).2 = routes w /\ queues (m w).2 = queues w) -> aside m.
Proof.
  intros Hm w Hw. destruct (Hm w) as [H1 H2]. unfold routes_apart. rewrite H1. split; [exact Hw|].
  unfold get_queue. by rewrite H2.
Qed.

Lemma aside_now : aside now.
Proof. apply aside_same. intros w. unfold now. by destruct (instants w). Qed.

Lemma aside_read {A} (f : World -> A) : aside (read f).
Proof. by apply aside_same. Qed.

Lemma aside_wake_body r : aside (wake_body r).
Proof. apply aside_same. intros w. by rewrite wake_body_eq. Qed.

Lemma aside_channel {A} c (m : St StreamChannel A) : aside (on_channel c m).
Proof. apply aside_same. intros w. unfold on_channel. by destruct (m _). Qed.

Lemma aside_posted (g : World -> list Waker) : aside (modify (fun s => set_posted s (g s))).
Proof. by apply aside_same. Qed.

Lemma aside_queue {A} r (m : St ResponseStream A) : r <> Direct n -> aside (on_queue r m).
Proof.
  intros Hr w Hw. rewrite get_on_queue_ne by done. split; [|done].
  destruct r as [k|c|c]; cbn [on_queue]; unfold on_channel, on_response, on_request; by destruct (m _).
Qed.

(** Pausing a reader is the one thing done to the queue itself. *)
Lemma aside_paused b r : aside (on_queue r (modify (set_paused b))).
Proof.
  destruct (decide (r = Direct n)) as [->|Hne]; [|by apply aside_queue].
  intros w Hw. rewrite get_on_queue. split; [|done]. exact Hw.
Qed.

(** A method of a route that queues no call. *)
Lemma aside_route {A} (a0 : A) u (m : St (Upstreams * list Waker) A) :
  (forall r p, queued (calls (m (r, p)).2.1) ⊆ queued (calls r)) -> aside (on_route a0 u m).
Proof.
  intros Hm w Hw. unfold on_route. destruct (routes w !! u) as [r|] eqn:E; [|by split].
  specialize (Hm r (posted w)). destruct (m (r, posted w)) as [a [r' p]]. cbn [snd fst] in *. split; [|done].
  intros u' r1 q Hr1 Hq. cbn in Hr1. destruct (decide (u = u')) as [<-|Hne].
  - rewrite lookup_insert_eq in Hr1. injection Hr1 as <-. by apply (Hw u r q E), Hm.
  - rewrite lookup_insert_ne in Hr1 by done. exact (Hw u' r1 q Hr1 Hq).
Qed.

Lemma aside_wake_route u : aside (wake_route u).
Proof. by apply aside_route. Qed.

(** Taking what a route queued empties it. *)
Lemma aside_calls {A} (a0 : A) u (m : St Calls A) :
  (forall c, queued (m c).2 ⊆ queued c) -> aside (on_route a0 u (on_calls m)).
Proof.
  intros Hm. apply aside_route. intros r p. unfold on_calls. specialize (Hm (calls r)).
  by destruct (m (calls r)).
Qed.

End apart.

Create HintDb aside discriminated.
#[export] Hint Resolve aside_now aside_read aside_wake_body aside_channel aside_posted aside_paused
  aside_wake_route : aside.

(** ** Operations of the worker *)

Section spares.
Context {E : Type} `{EnvoyHttpFilter E} (n : N).

Definition response_queue (w : Worker E) : ResponseStream := get_queue (store (env w)) (Direct n).

(** Nothing the filter writes to is its response's queue. *)
Record apart (w : Worker E) : Prop := {
  ap_routes : routes_apart n (store (env w));
  ap_calls : forall id c, upstream_calls (filter w) !! id = Some c -> call_response c <> Direct n;
  ap_body : forall h, f_request_body (filter w) = Some h -> stream h <> Direct n;
}.

Record quiet (w w' : Worker E) : Prop := {
  qt_contents : contents (response_queue w') = contents (response_queue w);
  qt_stream : f_stream (filter w') = f_stream (filter w);
  qt_state : state (filter w') = state (filter w);
  qt_config : config (filter w') = config (filter w);
  qt_log : List.filter downstream (performed (env w')) = List.filter downstream (performed (env w));
}.

#[export] Instance quiet_preorder : PreOrder quiet.
Proof.
  split; [by constructor|]. intros w1 w2 w3 [A1 A2 A3 A4 A5] [B1 B2 B3 B4 B5]. constructor; congruence.
Qed.

Definition spares {A} (m : St (Worker E) A) : Prop := forall w, apart w -> apart (m w).2 /\ quiet w (m w).2.

Lemma spares_ret {A} (a : A) : spares (st_ret a).
Proof. by intros w Hw. Qed.

Lemma spares_get {A} (q : FiberRackFilter -> A) : spares (get q).
Proof. by intros w Hw. Qed.

Lemma spares_ask {A} (q : E -> A) : spares (in_env (ask q)).
Proof. intros w [H1 H2 H3]. by repeat constructor. Qed.

(** What an operation returns may be what makes the rest safe. *)
Lemma spares_bind_if {A B} (m : St (Worker E) A) (k : A -> St (Worker E) B) (Q : A -> Prop) :
  spares m -> (forall w, apart w -> Q (m w).1) -> (forall a, Q a -> spares (k a)) -> spares (st_bind m k).
Proof.
  intros Hm HQ Hk w Hw. rewrite bind_run. destruct (Hm w Hw) as [H1 H2]. specialize (HQ w Hw).
  destruct (m w) as [a w1]. cbn [fst snd] in *. destruct (Hk a HQ w1 H1) as [H3 H4].
  split; [done|]. exact (transitivity H2 H4).
Qed.

Lemma spares_bind {A B} (m : St (Worker E) A) (k : A -> St (Worker E) B) :
  spares m -> (forall a, spares (k a)) -> spares (st_bind m k).
Proof. intros Hm Hk. by apply (spares_bind_if m k (fun _ => True)). Qed.

Lemma spares_iter_if {A} (m : A -> St (Worker E) unit) l : (forall a, a ∈ l -> spares (m a)) -> spares (st_iter m l).
Proof.
  induction l as [|x l IH]; intros Hm; [apply spares_ret|]. cbn [st_iter].
  apply spares_bind; [apply Hm, elem_of_cons; by left|]. intros _. apply IH. intros a Ha. apply Hm, elem_of_cons. by right.
Qed.

Lemma spares_map_if {A B} (m : A -> St (Worker E) B) l : (forall a, a ∈ l -> spares (m a)) -> spares (st_map m l).
Proof.
  induction l as [|x l IH]; intros Hm; [apply spares_ret|]. cbn [st_map].
  apply spares_bind; [apply Hm, elem_of_cons; by left|]. intros b. apply spares_bind; [|intros; apply spares_ret].
  apply IH. intros a Ha. apply Hm, elem_of_cons. by right.
Qed.

Lemma spares_world {A} (m : St World A) : aside n m -> spares (in_world m).
Proof.
  intros Hm [f [e p s]] [H1 H2 H3]. unfold in_world, in_env, on_world. cbn in *. destruct (Hm s H1) as [H4 H5].
  destruct (m s) as [a s']. by repeat constructor.
Qed.

Lemma spares_update (g : FiberRackFilter -> FiberRackFilter) :
  (forall f, f_stream (g f) = f_stream f /\ state (g f) = state f /\ config (g f) = config f
     /\ upstream_calls (g f) = upstream_calls f /\ f_request_body (g f) = f_request_body f) ->
  spares (update g).
Proof.
  intros Hg [f e] [H1 H2 H3]. destruct (Hg f) as (G1 & G2 & G3 & G4 & G5). unfold update; cbn in *.
  split; constructor; cbn; by rewrite ?G1, ?G2, ?G3, ?G4, ?G5.
Qed.

(** The table of calls may lose calls, or take ones that answer elsewhere. *)
Lemma spares_update_calls (g : InFlight -> InFlight) :
  (forall t, (forall id c, t !! id = Some c -> call_response c <> Direct n) ->
     forall id c, g t !! id = Some c -> call_response c <> Direct n) ->
  spares (update (fun f => set_calls f (g (upstream_calls f)))).
Proof. intros Hg [f e] [H1 H2 H3]. split; constructor; cbn in *; try done. by apply Hg. Qed.

Lemma spares_emit (c : EnvoyCall) : downstream c = false -> spares (in_env (emit c)).
Proof.
  intros Hc [f [e p s]] [H1 H2 H3]. unfold in_env, emit; cbn in *. destruct (perform c e) as [r e'].
  split; constructor; cbn; try done. by rewrite List.filter_app; cbn; rewrite Hc, app_nil_r.
Qed.

(** The same for operations of the environment. *)
Lemma spares_env_bind {A B} (m : St (Env E) A) (k : A -> St (Env E) B) :
  spares (in_env m) -> (forall a, spares (in_env (k a))) -> spares (in_env (st_bind m k)).
Proof. intros Hm Hk w Hw. rewrite in_env_bind. by apply spares_bind. Qed.

Lemma spares_env_ret {A} (a : A) : spares (in_env (st_ret a)).
Proof. intros w [H1 H2 H3]. by repeat constructor. Qed.

Lemma spares_emit_ (c : EnvoyCall) : downstream c = false -> spares (in_env (emit_ c)).
Proof. intros Hc. apply spares_env_bind; [by apply spares_emit|intros; apply spares_env_ret]. Qed.

End spares.

Create HintDb spares discriminated.
#[export] Hint Resolve spares_ret spares_get spares_ask spares_env_ret spares_iter_if : spares.

(** One structural step, as [keeps_step]. *)
Ltac spares_step :=
  match goal with
  | |- spares _ (st_bind _ _) => apply spares_bind
  | |- spares _ (in_env (st_bind _ _)) => apply spares_env_bind
  | |- forall _, _ => intros
  | |- spares _ (update _) => apply spares_update; done
  | |- spares _ (in_env (emit _)) => apply spares_emit; done
  | |- spares _ (in_env (emit_ _)) => apply spares_emit_; done
  | |- spares _ (in_world _) => apply spares_world; solve [auto with aside]
  | |- spares _ (in_env (on_world _)) => apply spares_world; solve [auto with aside]
  | |- spares _ (in_env (if ?b then _ else _)) => destruct b
  | |- spares _ (if ?b then _ else _) => destruct b
  | |- spares _ (match ?x with _ => _ end) => destruct x
  | |- spares _ (in_env (match ?x with _ => _ end)) => destruct x
  | |- _ => solve [eauto with spares]
  end.
Ltac spares_auto := repeat spares_step.

(** ** The worker's operations *)

Section operations.
Context {E : Type} `{EnvoyHttpFilter E} (n : N).

Lemma spares_with_metrics (m : St (Env E) unit) : spares n (in_env m) -> spares n (with_metrics m).
Proof. intros. unfold with_metrics. spares_auto. Qed.
Hint Resolve spares_with_metrics : spares.

Lemma spares_count_call c o : spares (E:=E) n (count_call c o).
Proof. apply spares_with_metrics. unfold upstream_call. spares_auto. Qed.
Hint Resolve spares_count_call : spares.

Lemma spares_answered c d : spares n (in_env (E:=E) (upstream_answered c d)).
Proof. unfold upstream_answered. spares_auto. Qed.
Hint Resolve spares_answered : spares.

Lemma spares_wake_if_owed r : spares (E:=E) n (wake_if_owed r).
Proof. unfold wake_if_owed. spares_auto. Qed.
Hint Resolve spares_wake_if_owed : spares.

Lemma spares_wake_stream c : spares (E:=E) n (wake_stream c).
Proof. unfold wake_stream. spares_auto. Qed.
Hint Resolve spares_wake_stream : spares.

Lemma spares_commit e : spares (E:=E) n (commit e).
Proof. unfold commit. spares_auto. Qed.
Hint Resolve spares_commit : spares.

Lemma spares_on_stream {A} h o (m : St Pair A) : spares (E:=E) n (on_stream h o m).
Proof. unfold on_stream. spares_auto. Qed.
Hint Resolve spares_on_stream : spares.

Lemma spares_on_removed {A} o (m : St Pair A) : spares (E:=E) n (on_removed o m).
Proof. unfold on_removed. spares_auto. Qed.
Hint Resolve spares_on_removed : spares.

Lemma spares_dispatch e : spares (E:=E) n (dispatch e).
Proof.
  destruct e; cbn [dispatch]; unfold on_http_stream_headers, on_http_stream_data, on_http_stream_trailers,
    on_http_stream_complete, on_http_stream_reset, remove_stream, end_of_stream,
    on_downstream_above_write_buffer_high_watermark, on_downstream_below_write_buffer_low_watermark;
    spares_auto.
Qed.
Hint Resolve spares_dispatch : spares.

Lemma spares_call_envoy c : downstream c = false -> spares (E:=E) n (call_envoy c).
Proof. intros. unfold call_envoy. apply spares_bind; [by apply spares_emit|]. spares_auto. Qed.

Lemma spares_action h a : spares (E:=E) n (call_envoy (action_call h a)).
Proof. apply spares_call_envoy. by destruct a. Qed.
Hint Resolve spares_action : spares.

Lemma spares_queue {A} r (m : St ResponseStream A) : r <> Direct n -> spares (E:=E) n (in_world (on_queue r m)).
Proof. intros. by apply spares_world, aside_queue. Qed.

Lemma spares_copy_body s limit r : r <> Direct n -> spares n (in_env (E:=E) (copy_body s limit r)).
Proof. intros. unfold copy_body. spares_auto; [by apply spares_queue|]. destruct s; spares_auto. Qed.

Lemma spares_copy_both b room r : r <> Direct n -> spares n (in_env (E:=E) (copy_both b room r)).
Proof.
  intros. unfold copy_both. apply spares_env_bind; [by apply spares_copy_body|]. intros copied.
  destruct (_ && _); [|spares_auto]. apply spares_env_bind; [by apply spares_copy_body|]. spares_auto.
Qed.

Lemma spares_forward : spares (E:=E) n forward_request_body.
Proof.
  unfold forward_request_body.
  apply (spares_bind_if n _ _ (fun b => forall h, b = Some h -> stream h <> Direct n)); [spares_auto|by intros w []|].
  intros [h|] Hh; [|spares_auto]. specialize (Hh h eq_refl).
  repeat (apply spares_bind; [first [apply spares_copy_both; done | spares_auto]|intros]); spares_auto.
  by apply spares_queue.
Qed.

Lemma spares_pump_loop fuel h : spares (E:=E) n (pump_loop fuel h).
Proof. induction fuel as [|fuel IH]; cbn [pump_loop]; spares_auto. Qed.
Hint Resolve spares_pump_loop : spares.

Lemma spares_pump_streams : spares (E:=E) n pump_streams.
Proof.
  unfold pump_streams. apply spares_bind; [spares_auto|]. intros hs. apply spares_iter_if. intros h _.
  unfold pump_stream. apply spares_bind; [by intros w|]. spares_auto.
Qed.
Hint Resolve spares_pump_streams : spares.

Definition calls_apart (t : InFlight) : Prop := forall id c, t !! id = Some c -> call_response c <> Direct n.

Lemma calls_read_apart (w : Worker E) : apart n w -> calls_apart (get upstream_calls w).1.
Proof. by intros []. Qed.

Lemma send_apart r t in_flight (w : Worker E) : req_response r <> Direct n -> calls_apart in_flight ->
  calls_apart (in_env (send r t in_flight) w).1.2.
Proof.
  intros Hr Ht. unfold send. rewrite in_env_bind. unfold st_bind, in_env, on_world, emit; cbn.
  destruct (now _) as [t0 s0]. cbn. destruct (perform _ _) as [reply e0]. cbn.
  destruct (refusal _ _); unfold st_ret; cbn.
  - by destruct (on_queue _ _ _).
  - intros id c Hc. destruct (decide (reply_id reply = id)) as [<-|Hne].
    + pose proof (transitivity (eq_sym (lookup_insert_eq (M:=gmap N) _ _ _)) Hc) as [= <-]. done.
    + exact (Ht id c (transitivity (eq_sym (lookup_insert_ne (M:=gmap N) _ _ _ _ Hne)) Hc)).
Qed.

(** A call that answers elsewhere, sent or refused. *)
Lemma spares_send_call t r : req_response r <> Direct n -> spares (E:=E) n (send_call t r).
Proof.
  intros Hr. unfold send_call. apply (spares_bind_if n _ _ calls_apart); [spares_auto|apply calls_read_apart|].
  intros in_flight Ht. apply (spares_bind_if n _ _ (fun x => calls_apart x.2)).
  - unfold send. spares_auto. by apply spares_queue.
  - intros w _. by apply send_apart.
  - intros [refused_ table] Hx. apply spares_bind; [|spares_auto].
    apply (spares_update_calls n (fun _ => table)). intros _ _. exact Hx.
Qed.

Lemma spares_start_stream t r : spares (E:=E) n (start_stream t r).
Proof.
  unfold start_stream. apply spares_bind; [|spares_auto]. unfold start. spares_auto.
  all: try (apply spares_queue; done).
Qed.
Hint Resolve spares_start_stream : spares.

(** Calls taken from a route answer elsewhere. *)
Lemma taken_apart u (w : Worker E) : apart n w ->
  Forall (fun q => req_response q <> Direct n) (in_world (on_route [] u (on_calls take_queued)) w).1.
Proof.
  intros [Hr _ _]. unfold in_world, in_env, on_world, on_route, on_calls, take_queued. cbn.
  destruct (routes (store (env w)) !! u) as [r|] eqn:Er; cbn; [|constructor].
  apply list.Forall_forall. intros q Hq. exact (Hr u r q Er Hq).
Qed.

Lemma spares_send_upstream_calls : spares (E:=E) n send_upstream_calls.
Proof.
  unfold send_upstream_calls. apply spares_bind; [spares_auto|]. intros [u|]; [|spares_auto].
  apply (spares_bind_if n _ _ (Forall (fun q => req_response q <> Direct n))).
  - apply spares_world, aside_calls. intros c q Hq. by apply elem_of_nil in Hq.
  - intros w Hw. by apply taken_apart.
  - intros cs Hcs. apply spares_bind; [apply spares_world, aside_calls; by intros|]. intros ss.
    assert (spares n (let* trace := trace_of_request in do* st_iter (send_call trace) cs in
                      do* st_iter (start_stream trace) ss in pump_streams)) as Hrest.
    { apply spares_bind; [unfold trace_of_request; spares_auto|]. intros trace.
      apply spares_bind; [|spares_auto]. apply spares_iter_if. intros q Hq. apply spares_send_call.
      by eapply (proj1 (list.Forall_forall _ _) Hcs). }
    destruct cs, ss; first [exact Hrest | apply spares_pump_streams].
Qed.

Lemma spares_fail_call waiting : waiting.1 <> Direct n -> spares (E:=E) n (fail_call waiting).
Proof. intros. unfold fail_call. spares_auto. by apply spares_queue. Qed.

Lemma unsent_apart u (w : Worker E) : apart n w ->
  Forall (fun q => req_response q <> Direct n)
    (unsent_calls (in_world (on_route no_unsent u (on_calls close_calls)) w).1).
Proof.
  intros [Hr _ _]. unfold in_world, in_env, on_world, on_route, on_calls, close_calls. cbn.
  destruct (routes (store (env w)) !! u) as [r|] eqn:Er; cbn; [|constructor].
  apply list.Forall_forall. intros q Hq. exact (Hr u r q Er Hq).
Qed.

Lemma spares_abandon_upstreams : spares (E:=E) n abandon_upstreams.
Proof.
  unfold abandon_upstreams. apply spares_bind; [spares_auto|]. intros route. apply spares_bind; [spares_auto|]. intros _.
  apply (spares_bind_if n _ _ (fun x => Forall (fun q => req_response q <> Direct n) (unsent_calls x))).
  - destruct route; [|spares_auto]. apply spares_world, aside_calls. intros c q Hq. by apply elem_of_nil in Hq.
  - intros w Hw. destruct route as [u|]; [by apply unsent_apart|constructor].
  - intros unsent Hu. apply (spares_bind_if n _ _ calls_apart); [spares_auto|apply calls_read_apart|].
    intros in_flight Ht. apply spares_bind.
    { apply (spares_update_calls n (fun _ => ∅)). intros t _ id c Hc.
      by pose proof (transitivity (eq_sym (lookup_empty (M:=gmap N) id)) Hc). }
    intros _. apply spares_bind.
    + apply spares_map_if. intros [r cl] Hin. apply spares_fail_call. cbn.
      apply elem_of_app in Hin as [Hin|Hin]; apply list_elem_of_fmap in Hin as (x & Hx & Hin).
      * injection Hx as -> _. by eapply (proj1 (list.Forall_forall _ _) Hu).
      * destruct x as [id c]. injection Hx as -> _. apply elem_of_map_to_list in Hin. exact (Ht id c Hin).
    + intros. apply spares_bind; [apply spares_map_if; intros; unfold fail_unsent; spares_auto|]. intros.
      apply spares_bind; [spares_auto|]. intros. apply spares_bind; [spares_auto|]. intros.
      apply spares_bind; [apply spares_map_if; intros; unfold abandon_stream; spares_auto|]. spares_auto.
Qed.

Lemma spares_callout_done id r f b : spares (E:=E) n (on_http_callout_done id r f b).
Proof.
  unfold on_http_callout_done.
  apply (spares_bind_if n _ _ (fun o => forall c, o = Some c -> call_response c <> Direct n)).
  - spares_auto.
  - intros w [_ Hc _] c Hl. exact (Hc id c Hl).
  - intros o Ho. apply spares_bind.
    { apply (spares_update_calls n (delete id)). intros t Ht k c Hc.
      apply lookup_delete_Some in Hc as [_ Hc]. exact (Ht k c Hc). }
    intros _. destruct o as [c|]; [|spares_auto]. specialize (Ho c eq_refl).
    apply spares_bind; [spares_auto|]. intros limit. apply spares_bind; [by apply spares_queue|].
    spares_auto; apply spares_with_metrics; spares_auto.
Qed.

Lemma spares_report_outcome o : spares (E:=E) n (report_outcome o).
Proof. unfold report_outcome, responded. spares_auto. Qed.

End operations.
