(* ===== verification/WorkerPump.v ===== *)
(** * Pumping an upstream stream ends

    [pump_stream] asks for actions until there are none.  Each takes an item of the
    stream's body or sends its one reset, and nothing Envoy reports from inside a call
    adds to either: the fuel the model gives the loop is enough for any state. *)

From S2P Require Import Prelude RustStr Types Stream Upstream Wake Request World Client Envoy EnvoyExample Metrics Calls Authority Worker WorkerView.

Local Open Scope N_scope.

(** ** What an operation on a stream and its channel may not add to *)

Definition unsent_items (c : StreamChannel) : nat := length (items (request c)).

Definition settling {A} (m : St Pair A) : Prop := forall o c,
  channel (m (o, c)).2.1 = channel o
  /\ (reset_sent o = true -> reset_sent (m (o, c)).2.1 = true)
  /\ (unsent_items (m (o, c)).2.2 <= unsent_items c)%nat.

Lemma take_next_shorter s : (length (items (take_next s).2) <= length (items s))%nat.
Proof. unfold take_next. destruct (paused s); [done|]. destruct (items s) eqn:E; cbn; rewrite ?E; cbn; lia. Qed.

(** The response's side leaves the request's alone. *)
Lemma on_response_request {A} (m : St ResponseStream A) c : request (on_response m c).2 = request c.
Proof. unfold on_response. by destruct (m _). Qed.

Lemma fail_unsent_items error c : (unsent_items (fail error c) <= unsent_items c)%nat.
Proof. unfold fail, on_response, unsent_items. destruct (push_failure _ _). cbn. lia. Qed.

Lemma gone_unsent_items c : (unsent_items (gone c) <= unsent_items c)%nat.
Proof. unfold gone, unsent_items. cbn. lia. Qed.

Lemma end_settles : settling end_.
Proof. intros o c. unfold unsent_items. cbn [end_ snd fst]. rewrite on_response_request. by split_and!. Qed.

Lemma fail_settles error : settling (fail_ error).
Proof. intros o c. cbn [fail_ snd fst]. pose proof (fail_unsent_items error c). by split_and!. Qed.

Lemma headers_settle fields b : settling (headers_arrived fields b).
Proof.
  intros o c. cbn [headers_arrived]. destruct (response_ended o); [by split_and!|].
  destruct (head_of fields) as [h|]; [|apply fail_settles]. cbn [snd]. destruct b.
  - destruct (end_settles (set_upgraded o (status h =? 101)) (on_response (push_head h) c).2) as (H1 & H2 & H3).
    split_and!; [exact H1|exact H2|]. unfold unsent_items in *. by rewrite on_response_request in H3.
  - cbn. unfold unsent_items. rewrite on_response_request. by split_and!.
Qed.

Lemma data_settles d b : settling (data_arrived d b).
Proof.
  intros o c. cbn [data_arrived]. destruct (response_ended o); [by split_and!|].
  destruct (bool_decide _); [destruct b; [apply end_settles|by split_and!]|].
  pose proof (on_response_request (push_chunk_if_room (concatenate d)) c) as Hr.
  destruct (on_response _ c) as [[[]|] c1]; cbn [snd] in Hr.
  - destruct b; cbn [snd].
    + destruct (end_settles o c1) as (H1 & H2 & H3). split_and!; [done|done|]. unfold unsent_items in *. by rewrite Hr in H3.
    + unfold unsent_items. cbn. rewrite Hr. by split_and!.
  - destruct (fail_settles overflow_error o c1) as (H1 & H2 & H3). split_and!; [done|done|].
    unfold unsent_items in *. by rewrite Hr in H3.
  - unfold unsent_items. cbn. rewrite Hr. by split_and!.
Qed.

Lemma trailers_settle t : settling (trailers_arrived t).
Proof.
  intros o c. cbn [trailers_arrived]. destruct (response_ended o); [by split_and!|].
  apply (end_settles o (set_trailers _ c)).
Qed.

Lemma action_settles : settling next_action.
Proof.
  intros o c. cbn [next_action]. destruct (wants_reset c); [destruct (reset_sent o) eqn:E; by split_and!|].
  destruct (request_ended o); [by split_and!|]. pose proof (take_next_shorter (request c)) as Ht.
  unfold on_request. destruct (take_next (request c)) as [item s]. cbn [snd] in Ht.
  by destruct item as [[| | |]|]; split_and!.
Qed.

(** An action uses up an item, or the reset. *)
Lemma action_uses o c a : (next_action (o, c)).1 = Some a ->
  let '(o', c') := (next_action (o, c)).2 in
  (unsent_items c' + Nat.b2n (negb (reset_sent o')) < unsent_items c + Nat.b2n (negb (reset_sent o)))%nat.
Proof.
  cbn [next_action]. destruct (wants_reset c).
  { destruct (reset_sent o); [done|]. intros _. cbn. lia. }
  destruct (request_ended o); [done|]. unfold on_request, take_next, unsent_items.
  destruct (paused (request c)); [done|]. destruct (items (request c)) as [|i rest] eqn:E; [done|].
  destruct i; cbn; try done; intros _; lia.
Qed.

(** ** The same of the worker *)

Section pump.
Context {E : Type} `{EnvoyHttpFilter E}.

Definition channel_of (w : Worker E) (c : N) : StreamChannel := get_channel (store (env w)) c.

Record shrinks (w w' : Worker E) : Prop := {
  sh_items c : (unsent_items (channel_of w' c) <= unsent_items (channel_of w c))%nat;
  sh_table h o' : upstream_streams (filter w') !! h = Some o' ->
    exists o, upstream_streams (filter w) !! h = Some o /\ channel o' = channel o
              /\ (reset_sent o = true -> reset_sent o' = true);
}.

#[local] Instance shrinks_preorder : PreOrder shrinks.
Proof.
  split; [constructor; [done|by eauto]|]. intros w1 w2 w3 [A1 A2] [B1 B2]. constructor.
  - intros c. specialize (A1 c). specialize (B1 c). lia.
  - intros h o3 H3. destruct (B2 h o3 H3) as (o2 & H2 & B3 & B4). destruct (A2 h o2 H2) as (o1 & H1 & A3 & A4).
    exists o1. split_and!; [done|congruence|auto].
Qed.

Definition calms {A} (m : St (Worker E) A) : Prop := forall w, shrinks w (m w).2.

Lemma calms_ret {A} (a : A) : calms (st_ret a).
Proof. intros w. reflexivity. Qed.

Lemma calms_get {A} (q : FiberRackFilter -> A) : calms (get q).
Proof. intros w. reflexivity. Qed.

Lemma calms_bind {A B} (m : St (Worker E) A) (k : A -> St (Worker E) B) :
  calms m -> (forall a, calms (k a)) -> calms (st_bind m k).
Proof. intros Hm Hk w. rewrite bind_run. exact (transitivity (Hm w) (Hk _ _)). Qed.

Lemma calms_iter {A} (m : A -> St (Worker E) unit) l : (forall a, calms (m a)) -> calms (st_iter m l).
Proof. intros Hm. induction l as [|x l IH]; cbn; [apply calms_ret|]. by apply calms_bind. Qed.

Lemma calms_env {A} (m : St (Env E) A) : (forall v, store (m v).2 = store v) -> calms (in_env m).
Proof.
  intros Hm w. unfold in_env. specialize (Hm (env w)). destruct (m (env w)) as [a v]. constructor; cbn in *.
  - intros c. unfold channel_of. cbn. by rewrite Hm.
  - eauto.
Qed.

Lemma calms_world {A} (m : St World A) :
  (forall s c, (unsent_items (get_channel (m s).2 c) <= unsent_items (get_channel s c))%nat) -> calms (in_world m).
Proof.
  intros Hm w. unfold in_world, in_env, on_world. specialize (Hm (store (env w))). destruct (m _) as [a s].
  constructor; [intros c; apply Hm|eauto].
Qed.

Lemma calms_channels {A} (m : St World A) : (forall s, channels (m s).2 = channels s) -> calms (in_world m).
Proof. intros Hm. apply calms_world. intros s c. unfold get_channel. by rewrite Hm. Qed.

Lemma on_channel_items {A} c (m : St StreamChannel A) s c' :
  (unsent_items (m (get_channel s c)).2 <= unsent_items (get_channel s c))%nat ->
  (unsent_items (get_channel (on_channel c m s).2 c') <= unsent_items (get_channel s c'))%nat.
Proof.
  intros Hm. destruct (decide (c' = c)) as [->|Hne]; [by rewrite get_on_channel|].
  unfold on_channel. destruct (m _) as [a ch]. cbn. by rewrite get_channel_ne.
Qed.

Lemma calms_wake_body r : calms (in_world (wake_body r)).
Proof. apply calms_channels. intros s. by rewrite wake_body_eq. Qed.

Lemma calms_now : calms (in_world now).
Proof. apply calms_channels. intros s. unfold now. by destruct (instants s). Qed.

Lemma calms_wake_if_owed r : calms (wake_if_owed r).
Proof.
  unfold wake_if_owed. apply calms_bind; [by apply calms_channels|]. intros []; [apply calms_wake_body|apply calms_ret].
Qed.

Lemma calms_wake_stream c : calms (wake_stream c).
Proof. unfold wake_stream. apply calms_bind; [apply calms_wake_body|intros; apply calms_wake_if_owed]. Qed.

Lemma calms_paused r b : calms (in_world (on_queue r (modify (set_paused b)))).
Proof.
  apply calms_world. intros s c. destruct r as [n|c'|c']; cbn [on_queue]; [by cbn| |];
    apply on_channel_items; unfold on_response, on_request, unsent_items; by cbn.
Qed.

Lemma calms_metrics (m : St (Env E) unit) : (forall v, store (m v).2 = store v) -> calms (with_metrics m).
Proof.
  intros Hm. unfold with_metrics. apply calms_bind; [apply calms_get|]. intros [u|]; [by apply calms_env|apply calms_ret].
Qed.

Lemma emit_store c (v : Env E) : store (emit_ c v).2 = store v.
Proof. unfold emit_, st_bind, emit. by destruct (perform c (envoy v)). Qed.

(** A stream of the table, after an operation on it. *)
Lemma on_stream_shrinks {A} h o (m : St Pair A) (w : Worker E) : settling m ->
  upstream_streams (filter w) !! h = Some o -> shrinks w (on_stream h o m w).2.
Proof.
  intros Hm Ho. unfold on_stream. rewrite bind_run.
  set (op := fun c => let '(a, (o', c')) := m (o, c) in ((a, o'), c')).
  assert (forall c, channel (op c).1.2 = channel o /\ (reset_sent o = true -> reset_sent (op c).1.2 = true)
                    /\ (unsent_items (op c).2 <= unsent_items c)%nat) as Hop.
  { intros c. unfold op. specialize (Hm o c). by destruct (m (o, c)) as [a [o' c']]. }
  rewrite in_world_run. cbn [fst snd]. rewrite bind_run. cbn [update st_ret fst snd]. constructor; cbn.
  - intros c. unfold channel_of. cbn. apply on_channel_items, Hop.
  - intros h' o'. destruct (decide (h = h')) as [<-|Hne].
    + intros Hl. pose proof (transitivity (eq_sym (lookup_insert_eq (M:=gmap N) _ _ _)) Hl) as [= <-].
      exists o. unfold on_channel. specialize (Hop (get_channel (store (env w)) (channel o))).
      destruct (op _) as [[a o1] c1]. by destruct Hop as (H1 & H2 & _).
    + intros Hl. pose proof (transitivity (eq_sym (lookup_insert_ne (M:=gmap N) _ _ _ _ Hne)) Hl). eauto.
Qed.

Lemma calms_stream {A B} h (m : St Pair A) (k : OpenStream -> A -> St (Worker E) B) (d : B) : settling m ->
  (forall o a, calms (k o a)) ->
  calms (let* o := get (fun f => upstream_streams f !! h) in
         match o with
         | None => st_ret d
         | Some o => let* a := on_stream h o m in k o a
         end).
Proof.
  intros Hm Hk w. rewrite bind_get. destruct (upstream_streams (filter w) !! h) as [o|] eqn:Eo; [|apply calms_ret].
  rewrite bind_run. exact (transitivity (on_stream_shrinks h o m w Hm Eo) (Hk _ _ _)).
Qed.

Lemma calms_delete h : calms (update (fun f => set_open_streams f (delete h (upstream_streams f)))).
Proof.
  intros w. constructor; [done|]. cbn. intros h' o' Hl. apply (lookup_delete_Some (M:=gmap N)) in Hl as [_ Hl]. by exists o'.
Qed.

(** A stream taken out of the table is only its channel. *)
Lemma calms_end_of_stream h (m : St Pair unit) :
  (forall o c, (unsent_items (m (o, c)).2.2 <= unsent_items c)%nat) ->
  calms (let* o := remove_stream h in end_of_stream o m).
Proof.
  intros Hm. apply calms_bind.
  { unfold remove_stream. apply calms_bind; [apply calms_get|]. intros o.
    apply calms_bind; [apply calms_delete|intros; apply calms_ret]. }
  intros [o|]; cbn [end_of_stream]; [|apply calms_ret]. apply calms_bind.
  - unfold on_removed. apply calms_world. intros s c. apply on_channel_items.
    specialize (Hm o (get_channel s (channel o))). by destruct (m _) as [a [o' c']].
  - intros r. apply calms_bind; [apply calms_wake_stream|]. intros _. apply calms_metrics. intros v. apply emit_store.
Qed.

Lemma completed_items o c : (unsent_items (completed (o, c)).2.2 <= unsent_items c)%nat.
Proof.
  cbn [completed]. destruct (response_ended o); cbn [negb snd].
  - apply gone_unsent_items.
  - destruct (end_settles o c) as (_ & _ & H3). destruct (end_ (o, c)) as [u [o' c']]. cbn in *.
    pose proof (gone_unsent_items c'). lia.
Qed.

Lemma reset_items r o c : (unsent_items (reset_by_envoy r (o, c)).2.2 <= unsent_items c)%nat.
Proof.
  cbn [reset_by_envoy]. destruct (upgraded o && negb (reset_sent o)); [apply completed_items|].
  set (o1 := if _ && _ then _ else o). set (o2 := if bool_decide _ then _ else o1).
  destruct (response_ended o2); cbn [negb snd]; [apply gone_unsent_items|].
  destruct (fail_settles (Types.Upstream (reset_reason r)) o2 c) as (_ & _ & H3).
  destruct (fail_ _ (o2, c)) as [u [o' c']]. cbn in *. pose proof (gone_unsent_items c'). lia.
Qed.

Lemma calms_dispatch e : calms (dispatch e).
Proof.
  destruct e; cbn [dispatch].
  - apply (calms_stream handle _ (fun o usable => _)); [apply headers_settle|]. intros o a.
    apply calms_bind; [|intros; apply calms_wake_stream]. destruct a; [|apply calms_ret].
    apply calms_bind; [apply calms_now|]. intros t. apply calms_metrics. intros v. apply emit_store.
  - apply (calms_stream handle _ (fun o overflowed => _)); [apply data_settles|]. intros o a.
    apply calms_bind; [apply calms_wake_stream|]. intros _. apply calms_bind; [apply calms_get|]. intros route.
    destruct a; [destruct route as [u|]|]; try apply calms_ret.
    apply calms_channels. intros s. unfold wake_route, on_route. by destruct (routes s !! u) as [[]|].
  - apply (calms_stream handle _ (fun o _ => _)); [apply trailers_settle|]. intros. apply calms_wake_stream.
  - apply calms_end_of_stream, completed_items.
  - apply calms_end_of_stream, reset_items.
  - unfold on_downstream_above_write_buffer_high_watermark. apply calms_bind; [apply calms_get|].
    intros [r|]; [apply calms_paused|apply calms_ret].
  - unfold on_downstream_below_write_buffer_low_watermark. apply calms_bind; [apply calms_get|].
    intros [r|]; [|apply calms_ret]. apply calms_bind; [apply calms_paused|]. intros _. unfold commit.
    apply calms_bind; [apply calms_get|]. intros wk. by apply calms_channels.
Qed.

Lemma calms_call c : calms (call_envoy c).
Proof.
  unfold call_envoy. apply calms_bind; [|intros; apply calms_iter, calms_dispatch].
  apply calms_env. intros v. unfold emit. by destruct (perform c (envoy v)).
Qed.

(** ** The loop *)

(** What is left to ask of the stream. *)
Definition to_ask (h : N) (w : Worker E) : nat :=
  match upstream_streams (filter w) !! h with
  | Some o => unsent_items (channel_of w (channel o)) + Nat.b2n (negb (reset_sent o))
  | None => 0
  end.

Lemma shrinks_to_ask h w w' : shrinks w w' -> (to_ask h w' <= to_ask h w)%nat.
Proof.
  intros [H1 H2]. unfold to_ask. destruct (upstream_streams (filter w') !! h) as [o'|] eqn:El; [|lia].
  destruct (H2 h o' El) as (o & -> & -> & H3). specialize (H1 (channel o)).
  destruct (reset_sent o); [rewrite H3 by done|destruct (reset_sent o')]; cbn; lia.
Qed.

Lemma ask_uses h o (w : Worker E) : upstream_streams (filter w) !! h = Some o ->
  forall a, (on_stream h o next_action w).1 = Some a -> (to_ask h (on_stream h o next_action w).2 < to_ask h w)%nat.
Proof.
  intros Ho a. unfold on_stream. rewrite bind_run, in_world_run. cbn [fst snd]. rewrite bind_run.
  cbn [update st_ret fst snd]. unfold to_ask at 2, channel_of. rewrite Ho.
  pose proof (action_uses o (get_channel (store (env w)) (channel o))) as Hu.
  pose proof (action_settles o (get_channel (store (env w)) (channel o))) as (Hc & _ & _).
  unfold on_channel. destruct (next_action (o, get_channel (store (env w)) (channel o))) as [a' [o' c']].
  cbn [fst snd] in *. intros ->. specialize (Hu a eq_refl). unfold to_ask, channel_of. cbn.
  rewrite (lookup_insert_eq (M:=gmap N) (upstream_streams (filter w)) h o' : _ = _), Hc. unfold get_channel. cbn. by rewrite (lookup_insert_eq (M:=gmap N)).
Qed.

(** C40: pumping a stream ends.  Whatever Envoy answers and reports from inside the
    calls, each action asked uses up an item of the stream's body or its one reset, so
    the loop stops by itself within the fuel the model gives it: more makes no
    difference, in any state of the filter. *)
Theorem pump_ends (handle : N) (more : nat) (w : Worker E) :
  pump_loop (pump_fuel handle w + more) handle w = pump_loop (pump_fuel handle w) handle w.
Proof.
  assert (to_ask handle w < pump_fuel handle w)%nat as Hf.
  { unfold to_ask, pump_fuel, channel_of, unsent_items. destruct (upstream_streams (filter w) !! handle) as [o|]; [|lia].
    destruct (reset_sent o); cbn; lia. }
  revert Hf. generalize (pump_fuel handle w) as fuel. intros fuel. revert w.
  induction fuel as [|fuel IH]; intros w Hf; [lia|]. cbn [Nat.add pump_loop]. rewrite !bind_get.
  destruct (upstream_streams (filter w) !! handle) as [o|] eqn:Eo; [|done]. rewrite !(bind_run (on_stream _ _ _)).
  pose proof (ask_uses handle o w Eo) as Hu. destruct (on_stream handle o next_action w) as [[a|] w1]; [|done].
  cbn [fst snd] in *. specialize (Hu a eq_refl). rewrite !bind_run.
  pose proof (shrinks_to_ask handle _ _ (calms_call (action_call handle a) w1)). apply IH. lia.
Qed.

End pump.
