(* ===== verification/Delivery.v ===== *)
(** * From the response's queue to the client

    The application's thread queues items, the worker takes them and writes to Envoy.
    [delivered] says what a sequence of items becomes for the client; the theorem says
    that the filter sends exactly that, of exactly the items queued, in order. *)

From S2P Require Import Prelude RustStr Types Stream StreamTrace Upstream Wake Request World Client Envoy EnvoyExample Metrics Calls Authority Worker WorkerView WorkerApart.

Local Open Scope N_scope.

(** ** What the client is sent for the items taken *)

Section delivered.
Context (headers_of : ResponseHead -> list (string * bytes)).

Fixpoint delivered (st : FilterState) (taken : list StreamItem) : list EnvoyCall :=
  match taken with
  | [] => []
  | Head head :: rest =>
      if bool_decide (st = Waiting) then SendResponseHeaders (headers_of head) false :: delivered Streaming rest
      else delivered st rest
  | Chunk chunk :: rest =>
      if bool_decide (st = Streaming) then SendResponseData chunk false :: delivered st rest
      else delivered st rest
  | End :: _ => if bool_decide (st = Streaming) then [SendResponseData [] true] else []
  | Failed error :: _ =>
      if bool_decide (st = Waiting)
      then [SendResponse 500 error_headers (Some (into_bytes (error_to_string error))) "ruvoy_fiber_ruby_error"]
      else [ResetStream "ruvoy_fiber_ruby_error"]
  end.

(** The state they leave the filter in. *)
Fixpoint after_items (st : FilterState) (taken : list StreamItem) : FilterState :=
  match taken with
  | [] => st
  | Head _ :: rest => after_items (if bool_decide (st = Waiting) then Streaming else st) rest
  | Chunk _ :: rest => after_items st rest
  | (End | Failed _) :: _ => Responded
  end.

Lemma delivered_app st a b : existsb terminal a = false ->
  delivered st (a ++ b) = (delivered st a ++ delivered (after_items st a) b)%list
  /\ after_items st (a ++ b) = after_items (after_items st a) b.
Proof.
  revert st. induction a as [|i a IH]; intros st Ha; [done|].
  cbn in Ha. apply orb_false_elim in Ha as [Hi Ha].
  destruct i as [h|c| |e]; try discriminate Hi; cbn [app delivered after_items];
    case_bool_decide as Hst; destruct (IH (if bool_decide (st = Waiting) then Streaming else st) Ha) as [H1 H2];
    destruct (IH st Ha) as [H3 H4]; destruct (IH Streaming Ha) as [H5 H6]; cbn [app]; by rewrite ?H3, ?H5.
Qed.

Lemma after_items_moving st taken : moving st ->
  if existsb terminal taken then after_items st taken = Responded else moving (after_items st taken).
Proof.
  revert st. induction taken as [|i taken IH]; intros st Hst; [done|].
  destruct i; cbn [existsb terminal orb after_items]; try done; apply IH; [|done].
  case_bool_decide; [by right|done].
Qed.

End delivered.

(** ** One item *)

Section worker.
Context {E : Type} `{EnvoyHttpFilter E} (n : N).

Definition sent (w : Worker E) : list EnvoyCall := List.filter downstream (performed (env w)).

Definition headers_for (c : FilterConfig) (head : ResponseHead) : list (string * bytes) :=
  response_headers (new_http_filter c) head.

(** From [w] to [w']: what was sent, the state and the queue it reads next. *)
Record moved (calls : list EnvoyCall) (st : FilterState) (s : option QRef) (w w' : Worker E) : Prop := {
  mv_contents : contents (response_queue n w') = contents (response_queue n w);
  mv_stream : f_stream (filter w') = s;
  mv_state : state (filter w') = st;
  mv_config : config (filter w') = config (filter w);
  mv_sent : sent w' = (sent w ++ calls)%list;
  mv_apart : apart n w';
}.

Lemma moved_trans l1 st1 s1 l2 st2 s2 w w1 w2 :
  moved l1 st1 s1 w w1 -> moved l2 st2 s2 w1 w2 -> moved (l1 ++ l2) st2 s2 w w2.
Proof.
  intros [A1 A2 A3 A4 A5 A6] [B1 B2 B3 B4 B5 B6].
  constructor; try done; try congruence. by rewrite B5, A5, app_assoc.
Qed.

Lemma moved_spares {A} (m : St (Worker E) A) w : spares n m -> apart n w ->
  moved [] (state (filter w)) (f_stream (filter w)) w (m w).2.
Proof.
  intros Hm Hw. destruct (Hm w Hw) as [H1 [H2 H3 H4 H5 H6]].
  constructor; try done. unfold sent. by rewrite H6, app_nil_r.
Qed.

Lemma moved_bind {A B} (m : St (Worker E) A) (k : A -> St (Worker E) B) w l1 st1 s1 l2 st2 s2 :
  moved l1 st1 s1 w (m w).2 ->
  (forall a, moved l2 st2 s2 (m w).2 (k a (m w).2).2) -> moved (l1 ++ l2) st2 s2 w (st_bind m k w).2.
Proof. intros H1 H2. rewrite bind_run. eapply moved_trans; [exact H1|apply H2]. Qed.

Lemma moved_state s w : apart n w -> moved [] s (f_stream (filter w)) w (update (fun f => set_state f s) w).2.
Proof. intros [H1 H2 H3]. constructor; try done. by rewrite app_nil_r. Qed.

Lemma moved_stream s w : apart n w -> moved [] (state (filter w)) s w (update (fun f => set_f_stream f s) w).2.
Proof. intros [H1 H2 H3]. constructor; try done. by rewrite app_nil_r. Qed.

Lemma moved_emit (c : EnvoyCall) w : downstream c = true -> apart n w ->
  moved [c] (state (filter w)) (f_stream (filter w)) w (in_env (emit c) w).2.
Proof.
  intros Hc [H1 H2 H3]. destruct w as [f [e p s]]. unfold in_env, emit; cbn in *.
  destruct (perform c e) as [r e']. constructor; try done. unfold sent; cbn.
  rewrite List.filter_app. cbn. by rewrite Hc.
Qed.

(** A write to the client, and what Envoy reports from inside it. *)
Lemma moved_call (c : EnvoyCall) w : downstream c = true -> apart n w ->
  moved [c] (state (filter w)) (f_stream (filter w)) w (call_envoy c w).2.
Proof.
  intros Hc Hw. unfold call_envoy. pose proof (moved_emit c w Hc Hw) as H1.
  change [c] with ([c] ++ [])%list. apply (moved_bind _ _ _ _ _ _ _ _ _ H1). intros r.
  rewrite <- (mv_state _ _ _ _ _ H1), <- (mv_stream _ _ _ _ _ H1).
  apply moved_spares; [|by apply H1]. apply spares_iter_if. intros e _. apply spares_dispatch.
Qed.

(** The same after other steps. *)
Lemma moved_then {A B} (m : St (Worker E) A) (k : A -> St (Worker E) B) w l1 l2 st1 s1 st2 s2 :
  moved l1 st1 s1 w (m w).2 ->
  (forall a w1, apart n w1 -> state (filter w1) = st1 -> f_stream (filter w1) = s1 ->
     config (filter w1) = config (filter w) -> moved l2 st2 s2 w1 (k a w1).2) ->
  moved (l1 ++ l2) st2 s2 w (st_bind m k w).2.
Proof. intros H1 H2. apply (moved_bind _ _ _ _ _ _ _ _ _ H1). intros a. by apply H2; apply H1. Qed.

Lemma moved_call_at (c : EnvoyCall) w st s : downstream c = true -> apart n w ->
  state (filter w) = st -> f_stream (filter w) = s -> moved [c] st s w (call_envoy c w).2.
Proof. intros Hc Hw <- <-. by apply moved_call. Qed.

Lemma moved_spares_at {A} (m : St (Worker E) A) w st s : spares n m -> apart n w ->
  state (filter w) = st -> f_stream (filter w) = s -> moved [] st s w (m w).2.
Proof. intros Hm Hw <- <-. by apply moved_spares. Qed.

Lemma moved_bridge_error status b d w : apart n w ->
  moved [SendResponse status error_headers (Some (into_bytes b)) d] Responded (f_stream (filter w)) w
    (send_bridge_error status b d w).2.
Proof.
  intros [H1 H2 H3]. destruct w as [f [e p s]]. unfold send_bridge_error, emit_, st_bind, in_env, emit, update; cbn in *.
  destruct (perform _ _) as [r e']. constructor; cbn; try done. unfold sent; cbn. by rewrite List.filter_app.
Qed.

(** One item taken does what [delivered] says. *)
Lemma drain_item_moved item w : apart n w ->
  moved (delivered (headers_for (config (filter w))) (state (filter w)) [item])
    (after_items (state (filter w)) [item])
    (if terminal item then None else f_stream (filter w)) w (drain_item item w).2.
Proof.
  intros Hw. unfold drain_item. rewrite bind_get. destruct item as [h|c| |e]; cbn [delivered after_items terminal].
  - rewrite bind_run. cbn [st_ret snd]. case_bool_decide as Hs; [|by apply moved_spares; [apply spares_ret|]].
    unfold send_response_head. rewrite bind_get. apply (moved_then _ _ _ [] _ _ _ _ _ (moved_state Streaming w Hw)).
    intros _ w1 Hw1 Hst Hf _. by apply moved_call_at.
  - rewrite bind_run. cbn [st_ret snd]. case_bool_decide as Hs; [by apply moved_call|].
    apply moved_spares; [apply spares_ret|done].
  - apply (moved_then _ _ _ [] _ _ _ _ _ (moved_state Responded w Hw)). intros _ w1 Hw1 Hst Hf Hc.
    apply (moved_then _ _ _ [] _ _ _ _ _ (moved_stream None w1 Hw1)). intros _ w2 Hw2 Hst2 Hf2 Hc2.
    apply (moved_then _ _ _ [] _ (state (filter w2)) None); [by apply moved_spares_at; [apply spares_report_outcome|..]|].
    intros _ w3 Hw3 Hst3 Hf3 Hc3. rewrite bind_run. cbn [st_ret snd].
    case_bool_decide as Hs; [apply moved_call_at|apply moved_spares_at; try apply spares_ret]; try done; congruence.
  - apply (moved_then _ _ _ [] _ _ _ _ _ (moved_stream None w Hw)). intros _ w2 Hw2 Hst2 Hf2 Hc2.
    apply (moved_then _ _ _ [] _ (state (filter w2)) None); [by apply moved_spares_at; [apply spares_report_outcome|..]|].
    intros _ w3 Hw3 Hst3 Hf3 Hc3. rewrite bind_run. cbn [st_ret snd].
    case_bool_decide as Hs; [rewrite <- Hf3; by apply moved_bridge_error|].
    apply (moved_then _ _ _ [] _ _ _ _ _ (moved_state Responded w3 Hw3)). intros _ w4 Hw4 Hst4 Hf4 Hc4.
    apply moved_call_at; try done. congruence.
Qed.

(** ** One pass over the queue *)

Lemma log_ok_cons i l : terminal i = false -> log_ok l -> log_ok (i :: l).
Proof. intros Hi Hl [|j a] t k Hk Ht; injection Hk as -> Hk; [congruence|by eapply Hl]. Qed.

Lemma take_next_spec (w : Worker E) : apart n w ->
  let '(item, w1) := in_world (on_queue (Direct n) take_next) w in
  apart n w1 /\ sent w1 = sent w /\ filter w1 = filter w
  /\ cancelled (response_queue n w1) = cancelled (response_queue n w)
  /\ ended (response_queue n w1) = ended (response_queue n w)
  /\ items (response_queue n w) = (match item with Some i => [i] | None => [] end ++ items (response_queue n w1))%list
  /\ (item = None -> paused (response_queue n w1) = true \/ items (response_queue n w1) = []).
Proof.
  intros [H1 H2 H3]. destruct w as [f [e p s]]. unfold in_world, in_env, on_world, response_queue, sent. cbn in *.
  set (q := default (stream_new 1) (queues s !! n)). unfold take_next.
  destruct (paused q) eqn:Ep; [|destruct (items q) as [|i rest] eqn:Ei].
  all: cbn; rewrite lookup_insert_eq; cbn; split_and!; try done; try (by constructor); auto.
Qed.

(** What a pass took, and where it left the filter. *)
Record passed (w w' : Worker E) (taken : list StreamItem) : Prop := {
  ps_items : items (response_queue n w) = (taken ++ items (response_queue n w'))%list;
  ps_flags : (cancelled (response_queue n w'), ended (response_queue n w'))
             = (cancelled (response_queue n w), ended (response_queue n w));
  ps_sent : sent w' = (sent w ++ delivered (headers_for (config (filter w))) (state (filter w)) taken)%list;
  ps_state : state (filter w') = after_items (state (filter w)) taken;
  ps_stream : f_stream (filter w') = if existsb terminal taken then None else f_stream (filter w);
  ps_config : config (filter w') = config (filter w);
  ps_apart : apart n w';
  ps_last : log_ok taken;
}.

Lemma passed_nil w w' : items (response_queue n w') = items (response_queue n w) ->
  (cancelled (response_queue n w'), ended (response_queue n w'))
  = (cancelled (response_queue n w), ended (response_queue n w)) ->
  sent w' = sent w -> filter w' = filter w -> apart n w' -> passed w w' [].
Proof.
  intros H1 H2 H3 H4 H5. constructor; rewrite ?H4; try done; [by rewrite app_nil_r|].
  by intros [|? ?] i k Hk.
Qed.

Lemma drain_loop_passes fuel w : apart n w -> (length (items (response_queue n w)) < fuel)%nat ->
  exists taken, passed w (drain_loop fuel (Direct n) w).2 taken
  /\ (existsb terminal taken = false ->
      (drain_loop fuel (Direct n) w).1 = true
      /\ (paused (response_queue n (drain_loop fuel (Direct n) w).2) = true
          \/ items (response_queue n (drain_loop fuel (Direct n) w).2) = [])).
Proof.
  revert w. induction fuel as [|fuel IH]; intros w Hw Hf; [lia|]. cbn [drain_loop]. rewrite bind_run.
  pose proof (take_next_spec w Hw) as Ht. destruct (in_world (on_queue (Direct n) take_next) w) as [item w1].
  destruct Ht as (T1 & T2 & T3 & T4 & T5 & T6 & T7). cbn [fst snd]. destruct item as [i|].
  2: { exists []. split; [|by split; [|apply T7]]. cbn [st_ret snd]. apply passed_nil; try done; congruence. }
  rewrite bind_run. pose proof (drain_item_moved i w1 T1) as M. rewrite T3 in M.
  destruct (terminal i) eqn:Ei.
  - rewrite (drain_end_fst i w1 Ei). cbn [st_ret snd]. exists [i]. split; [|cbn; by rewrite Ei].
    destruct M as [M1 M2 M3 M4 M5 M6]. injection M1 as M7 M8 M9. constructor; try done; cbn [existsb].
    + by rewrite M7.
    + congruence.
    + by rewrite M5, T2.
    + by rewrite Ei.
    + congruence.
    + intros a j k Hk _. by destruct a as [|? [|]], k.
  - rewrite (drain_go_fst i w1 Ei). destruct M as [M1 M2 M3 M4 M5 M6]. injection M1 as M7 M8 M9.
    destruct (IH (drain_item i w1).2 M6) as (taken & P & Q).
    { rewrite M7. rewrite T6, length_app in Hf. cbn [length] in Hf. lia. }
    exists (i :: taken). split; [|cbn [existsb]; rewrite Ei; exact Q].
    assert (existsb terminal [i] = false) as Hno by (cbn; by rewrite Ei).
    destruct (delivered_app (headers_for (config (filter w))) (state (filter w)) [i] taken Hno) as [D1 D2].
    cbn [app] in D1, D2. destruct P as [P1 P2 P3 P4 P5 P6 P7 P8]. constructor; try done.
    + by rewrite T6, <- M7, P1.
    + congruence.
    + by rewrite P3, M5, T2, M4, T3, M3, D1, app_assoc.
    + by rewrite P4, M3, D2.
    + cbn [existsb]. rewrite Ei. cbn [orb]. by rewrite P5, M2.
    + by rewrite P6, M4, T3.
    + by apply log_ok_cons.
Qed.

Lemma passed_quiet w w1 w2 taken : passed w w1 taken -> apart n w2 -> quiet n w1 w2 -> passed w w2 taken.
Proof.
  intros [P1 P2 P3 P4 P5 P6 P7 P8] Hw [Q1 Q2 Q3 Q4 Q5]. injection Q1 as Q6 Q7 Q8.
  constructor; try done; try congruence. unfold sent. by rewrite Q5.
Qed.

Lemma in_world_queue {A} (m : St World A) (w : Worker E) :
  response_queue n (in_world m w).2 = get_queue (m (store (env w))).2 (Direct n).
Proof. unfold in_world, in_env, on_world. by destruct (m _). Qed.

Lemma wake_if_owed_queue r (w : Worker E) : response_queue n (wake_if_owed r w).2 = response_queue n w.
Proof.
  unfold wake_if_owed. rewrite bind_run. unfold in_world at 1 3, in_env, on_world, read. cbn [fst snd].
  destruct (writer_owed_wakeup _); [|done]. rewrite in_world_queue, wake_body_eq. done.
Qed.

Lemma drain_stream_passes w : apart n w -> f_stream (filter w) = Some (Direct n) ->
  exists taken, passed w (drain_stream w).2 taken
  /\ (existsb terminal taken = false ->
      paused (response_queue n (drain_stream w).2) = true \/ items (response_queue n (drain_stream w).2) = []).
Proof.
  intros Hw Hf. unfold drain_stream. rewrite bind_get, Hf, bind_run.
  assert (in_world (read (fun s => S (length (items (get_queue s (Direct n)))))) w
          = (S (length (items (response_queue n w))), w)) as -> by (by destruct w as [f [e p s]]).
  cbn [fst snd]. rewrite bind_run.
  destruct (drain_loop_passes _ w Hw (Nat.lt_succ_diag_r _)) as (taken & P & Q).
  exists taken. destruct (drain_loop _ _ w) as [dry w1]. cbn [fst snd] in *.
  destruct dry; [|split; [done|]; intros Hno; by destruct (Q Hno)].
  rewrite wake_if_owed_queue. split; [|intros Hno; by apply Q].
  destruct (spares_wake_if_owed n (Direct n) w1 (ps_apart _ _ _ P)). by apply (passed_quiet w w1).
Qed.

(** ** A request's life, as both threads see it

    Callbacks, methods of the application's thread on the queue, and whatever else
    happens to the store, one after the other, in any order. *)

Inductive Move :=
| Produce (op : StreamOp)
| Callback_ (c : Callback)
| Elsewhere (g : World -> World).

(** The writer's side of the queue. *)
Definition produces (op : StreamOp) : bool :=
  match op with
  | OpTake | OpCancel | OpPause _ => false
  | _ => true
  end.

Definition allowed (m : Move) : Prop :=
  match m with
  | Produce op => produces op = true
  | Callback_ c => is_headers c = false
  | Elsewhere g => aside n (modify g)
  end.

(** One move, and the items the queue accepted from it. *)
Definition move (m : Move) : St (Worker E) (list StreamItem) :=
  match m with
  | Produce op =>
      let* r := in_world (on_queue (Direct n) (impl_step op)) in st_ret (accepted_by op r)
  | Callback_ c => do* callback c in st_ret []
  | Elsewhere g => do* in_world (modify g) in st_ret []
  end.

Fixpoint life (ms : list Move) : St (Worker E) (list StreamItem) :=
  match ms with
  | [] => st_ret []
  | m :: ms => let* a := move m in let* b := life ms in st_ret (a ++ b)%list
  end.

(** A request that was submitted and whose response has not begun. *)
Record waiting_for (w : Worker E) : Prop := {
  wf_apart : apart n w;
  wf_state : state (filter w) = Waiting;
  wf_stream : f_stream (filter w) = Some (Direct n);
  wf_fresh : contents (response_queue n w) = ([], false, false);
}.

(** What was accepted so far is what was taken and what is queued, and the client was
    sent what was taken. *)
Record delivering (w0 : Worker E) (acc : list StreamItem) (w : Worker E) : Prop := {
  dl_apart : apart n w;
  dl_taken : exists taken,
    acc = (taken ++ items (response_queue n w))%list
    /\ sent w = (sent w0 ++ delivered (headers_for (config (filter w0))) Waiting taken)%list
    /\ state (filter w) = after_items Waiting taken
    /\ f_stream (filter w) = if existsb terminal taken then None else Some (Direct n);
  dl_config : config (filter w) = config (filter w0);
  dl_open : cancelled (response_queue n w) = false;
  dl_ended : ended (response_queue n w) = existsb terminal acc;
  dl_log : log_ok acc;
}.

Lemma delivering_start w : waiting_for w -> delivering w [] w.
Proof.
  intros [H1 H2 H3 H4]. injection H4 as H4 H5 H6. constructor; try done.
  - exists []. rewrite H4. cbn [delivered app]. rewrite app_nil_r. by split_and!.
  - by intros [|? ?] i k Hk.
Qed.

Lemma delivering_quiet w0 acc w w' : delivering w0 acc w -> apart n w' -> quiet n w w' -> delivering w0 acc w'.
Proof.
  intros [D1 (taken & T1 & T2 & T3 & T4) D3 D4 D5 D6] Hw [Q1 Q2 Q3 Q4 Q5]. injection Q1 as Q6 Q7 Q8.
  constructor; try done; try congruence. exists taken. unfold sent in *. split_and!; congruence.
Qed.

(** What the writer's side does to the queue's contents. *)
Lemma produce_contents op s : produces op = true -> cancelled s = false ->
  contents (impl_step op s).2
  = (items s ++ accepted_by op (impl_step op s).1, false,
     ended s || existsb terminal (accepted_by op (impl_step op s).1))%list
  /\ (ended s = true -> accepted_by op (impl_step op s).1 = [])
  /\ (accepted_by op (impl_step op s).1 = [] \/ exists i, accepted_by op (impl_step op s).1 = [i]).
Proof.
  intros Ho Hc. destruct (ended s) eqn:Ee, op; try discriminate Ho; cbn [impl_step]; unfold reply, contents, push,
    push_chunk_within_budget, push_chunk_if_room, park, park_writer, unpark; rewrite ?Hc, ?Ee, ?zero_lt_eqb; cbn [orb].
  all: repeat match goal with
    | |- context [if ?b then _ else _] => destruct b eqn:?; cbn
    | |- context [match ?i with Head _ => _ | _ => _ end] => destruct i; cbn
    end; cbn; rewrite ?Hc, ?Ee, ?app_nil_r; split_and!; try done; eauto.
Qed.

Lemma produce_keeps w0 acc w op : delivering w0 acc w -> produces op = true ->
  delivering w0 (acc ++ (move (Produce op) w).1) (move (Produce op) w).2.
Proof.
  intros [[A1 A2 A3] (taken & T1 & T2 & T3 & T4) D3 D4 D5 D6] Ho.
  destruct (produce_contents op (response_queue n w) Ho D4) as (P1 & P2 & P3).
  cbn [move]. rewrite bind_run, in_world_run, on_queue_fst. cbn [fst snd st_ret].
  change (get_queue (store (env w)) (Direct n)) with (response_queue n w) in *.
  set (got := accepted_by op (impl_step op (response_queue n w)).1) in *.
  set (w1 := {| filter := _; env := _ |}).
  assert (response_queue n w1 = (impl_step op (response_queue n w)).2) as Hq
    by (unfold response_queue, w1; cbn [env store]; by rewrite get_on_queue).
  unfold contents in P1. rewrite <- Hq in P1. injection P1 as P4 P5 P6.
  constructor; try done.
  - constructor; [|exact A2|exact A3]. cbn [w1 env store on_queue]. by destruct (impl_step _ _).
  - exists taken. rewrite P4, T1, app_assoc. by split_and!.
  - by rewrite P6, D5, existsb_app.
  - destruct P3 as [-> | [i Hi]]; [by rewrite app_nil_r|]. rewrite Hi. apply log_ok_snoc.
    destruct (existsb terminal acc) eqn:Et; [|done]. rewrite (P2 D5) in Hi. discriminate.
Qed.

Lemma delivering_passed w0 acc w w' more : delivering w0 acc w -> f_stream (filter w) = Some (Direct n) ->
  passed w w' more -> delivering w0 acc w'.
Proof.
  intros [D1 (taken & T1 & T2 & T3 & T4) D3 D4 D5 D6] Hs [P1 P2 P3 P4 P5 P6 P7 P8]. injection P2 as P9 P10.
  assert (existsb terminal taken = false) as Hno by (destruct (existsb terminal taken); [congruence|done]).
  destruct (delivered_app (headers_for (config (filter w0))) Waiting taken more Hno) as [E1 E2].
  constructor; try done; try congruence. exists (taken ++ more)%list. split_and!.
  - by rewrite T1, P1, app_assoc.
  - by rewrite P3, T2, E1, T3, D3, app_assoc.
  - by rewrite P4, T3, E2.
  - rewrite existsb_app, Hno, P5, Hs. done.
Qed.

Lemma response_event (w : Worker E) :
  on_scheduled RESPONSE_EVENT_ID w
  = (if bool_decide (state (filter w) = Waiting) || bool_decide (state (filter w) = Streaming)
     then drain_stream else st_ret tt) w.
Proof. reflexivity. Qed.

(** The response's event, in any state of the response. *)
Lemma scheduled_keeps w0 acc w : delivering w0 acc w ->
  let w' := (on_scheduled RESPONSE_EVENT_ID w).2 in
  delivering w0 acc w' /\ (paused (response_queue n w') = true \/ items (response_queue n w') = []).
Proof.
  intros D. pose proof D as [D1 (taken & T1 & T2 & T3 & T4) D3 D4 D5 D6]. cbv zeta.
  rewrite response_event.
  pose proof (after_items_moving Waiting taken (or_introl eq_refl)) as Hm. rewrite <- T3 in Hm.
  destruct (existsb terminal taken) eqn:Et.
  - assert (bool_decide (state (filter w) = Waiting) || bool_decide (state (filter w) = Streaming) = false) as ->
      by (by rewrite Hm). cbn [st_ret snd]. split; [done|]. right. apply existsb_exists in Et as (i & Hin & Hi).
    apply in_split in Hin as (a & b & ->). rewrite <- app_assoc in T1. cbn [app] in T1.
    pose proof (D6 _ _ _ T1 Hi) as Hnil. by apply app_eq_nil in Hnil as [_ ->].
  - assert (bool_decide (state (filter w) = Waiting) || bool_decide (state (filter w) = Streaming) = true) as ->
      by (destruct Hm as [-> | ->]; reflexivity).
    destruct (drain_stream_passes w D1 T4) as (more & P & Q). split; [by apply (delivering_passed w0 acc w _ more)|].
    destruct (existsb terminal more) eqn:Em; [|by apply Q].
    right. destruct (delivering_passed w0 acc w _ more D T4 P) as [_ _ _ _ _ _].
    apply existsb_exists in Em as (i & Hin & Hi). apply in_split in Hin as (a & b & Hab).
    rewrite (ps_items _ _ _ P), Hab, <- !app_assoc, app_assoc in T1. cbn [app] in T1.
    pose proof (D6 _ _ _ T1 Hi) as Hnil. by apply app_eq_nil in Hnil as [_ ->].
Qed.

Lemma callback_spares c : is_headers c = false -> (forall id, c = OnScheduled id -> id <> RESPONSE_EVENT_ID) ->
  spares (E:=E) n (callback c).
Proof.
  intros Hc Hn. destruct c as [| | |id|id r f b|e|]; try discriminate Hc; cbn [callback].
  - unfold on_request_body. apply spares_bind; [apply spares_update; done|intros; apply spares_forward].
  - unfold on_request_trailers. apply spares_bind; [apply spares_update; done|intros; apply spares_forward].
  - specialize (Hn id eq_refl). unfold on_scheduled.
    destruct (id =? REQUEST_EVENT_ID); [apply spares_forward|].
    destruct (id =? UPSTREAM_EVENT_ID); [apply spares_send_upstream_calls|].
    destruct (id =? RESPONSE_EVENT_ID) eqn:Ee; [|apply spares_ret]. by apply N.eqb_eq in Ee.
  - apply spares_callout_done.
  - apply spares_dispatch.
  - unfold on_stream_complete. apply spares_bind; [apply spares_report_outcome|]. intros _.
    apply spares_bind; [apply spares_abandon_upstreams|]. intros l. apply spares_iter_if. intros [] _.
    apply spares_count_call.
Qed.

Lemma response_or_not c :
  c = OnScheduled RESPONSE_EVENT_ID \/ (forall id, c = OnScheduled id -> id <> RESPONSE_EVENT_ID).
Proof.
  destruct c as [| | |id| | |]; try (by right). destruct (decide (id = RESPONSE_EVENT_ID)) as [->|Hne]; [by left|].
  right. by intros ? [= <-].
Qed.

Lemma move_keeps w0 acc w m : delivering w0 acc w -> allowed m -> delivering w0 (acc ++ (move m w).1) (move m w).2.
Proof.
  intros D Hm. destruct m as [op|c|g]; [by apply produce_keeps|..]; cbn [move allowed] in *; rewrite bind_run;
    cbn [st_ret fst snd]; rewrite app_nil_r.
  - destruct (response_or_not c) as [->|Hne]; [by apply scheduled_keeps|].
    destruct (callback_spares c Hm Hne w (dl_apart _ _ _ D)) as [H1 H2]. by apply (delivering_quiet w0 acc w).
  - destruct (spares_world n (modify g) Hm w (dl_apart _ _ _ D)) as [H1 H2]. by apply (delivering_quiet w0 acc w).
Qed.

Lemma life_keeps ms w0 acc w : delivering w0 acc w -> Forall allowed ms ->
  delivering w0 (acc ++ (life ms w).1) (life ms w).2.
Proof.
  revert acc w. induction ms as [|m ms IH]; intros acc w D Hms; [by rewrite app_nil_r|].
  apply Forall_cons_1 in Hms as [Hm Hms]. cbn [life]. rewrite !bind_run. cbn [st_ret fst snd].
  rewrite app_assoc. apply IH; [by apply move_keeps|done].
Qed.

(** ** The request is submitted *)

(** The calls queued in a route answer into queues that exist. *)
Definition refs_below (s : World) : Prop := forall u r q k,
  routes s !! u = Some r -> q ∈ queued (calls r) -> req_response q = Direct k -> k < next_ref s.

End worker.

Section accepted_request.
Context {E : Type} `{EnvoyHttpFilter E}.

Lemma submit_keeps r h s : routes (submit r h s).2 = routes s /\ queues (submit r h s).2 = queues s.
Proof. unfold submit, send_and_wake, signal_runtime, drop_command. repeat case_match; cbn; by repeat case_match. Qed.

Lemma now_keeps s : routes (now s).2 = routes s /\ queues (now s).2 = queues s.
Proof. unfold now. by destruct (instants s). Qed.

Lemma waiting_intro n s (w : Worker E) : f_stream (filter w) = Some (Direct n) -> refs_below s -> next_ref s <= n ->
  (forall u r, routes (store (env w)) !! u = Some r -> routes s !! u = Some r \/ queued (calls r) = []) ->
  upstream_calls (filter w) = ∅ -> (forall h, f_request_body (filter w) = Some h -> stream h <> Direct n) ->
  state (filter w) = Waiting ->
  (exists max, queues (store (env w)) !! n = Some (stream_new max)) -> waiting_for n w.
Proof.
  intros Hf Hs Hn Hr Hc Hb Hst (max & Hq). constructor; try done.
  - constructor; [|by rewrite Hc|done]. intros u r q Hu Hin Heq. destruct (Hr u r Hu) as [Ho|He].
    + specialize (Hs u r q n Ho Hin Heq). lia.
    + rewrite He in Hin. by apply elem_of_nil in Hin.
  - unfold response_queue, get_queue. by rewrite Hq.
Qed.

(** A submission that was accepted leaves the filter waiting on a queue of its own. *)
Lemma submit_waits f e p s : refs_below s -> upstream_calls f = ∅ ->
  let w' := (submit_ {| filter := f; env := {| envoy := e; performed := p; store := s |} |}).2 in
  state (filter w') = Waiting -> exists n, waiting_for n w'.
Proof.
  intros Hs Hc. cbv zeta. unfold submit_.
  unfold in_world, get, update. rewrite bind_run. cbn [fst snd filter env].
  rewrite bind_run. cbn [fst snd filter env]. destruct (f_request f) as [request|].
  2: { rewrite bind_run. unfold with_metrics, send_bridge_error, st_bind, get, update, in_env, emit_, emit. cbn.
       repeat case_match; cbn; discriminate. }
  rewrite bind_run.
  assert (exists d s1, (match diagnostics request with
            | Some d => let* t := in_env (on_world now) in st_ret (Some (with_submitted_at t d))
            | None => st_ret None
            end {| filter := set_f_request f None; env := {| envoy := e; performed := p; store := s |} |})
     = (d, {| filter := set_f_request f None; env := {| envoy := e; performed := p; store := s1 |} |})
     /\ routes s1 = routes s /\ next_ref s1 = next_ref s) as (d & s1 & -> & Hr & Hx).
  { destruct (diagnostics request) as [d|]; unfold st_bind, in_env, on_world, now; cbn; [|by eexists _, _].
    destruct (instants s); cbn; by eexists _, _. }
  cbn [fst snd filter env]. unfold st_bind, in_env, on_world, new_queue, new_route, fresh. cbn.
  destruct (upstream_settings (config f)) as [us|] eqn:Eus; cbn.
  all: match goal with |- context [submit ?r ?h ?w] =>
         pose proof (submit_keeps r h w) as [Ks Kq]; destruct (submit r h w) as [[u|er] s2] end.
  2,4: unfold report_admission, with_metrics, rejected, send_bridge_error, emit_, emit, st_bind, get, update, in_env;
    cbn; repeat case_match; simplify_eq; cbn in *; simplify_eq; discriminate.
  all: pose proof (now_keeps s2) as [Ns Nq];
    unfold report_admission, with_metrics, submitted, emit_, emit, st_bind, get, update, in_env; cbn;
    destruct (now s2) as [t s3]; cbn in *; rewrite Hx in *;
    destruct (metrics (config f)); cbn; [destruct (perform _ e) as [reply e1]; cbn|]; intros _;
    eexists; (eapply (waiting_intro _ s); cbn; [done|done|lia| |done| |done|]).
  all: try (eexists; rewrite Nq, Kq; apply lookup_insert_eq).
  all: try (intros h [= <-]; cbn; intros [= ?]; lia).
  all: intros u' r'; rewrite Ns, Ks, Hr; try (by left).
  all: destruct (decide (u' = next_ref s + 1)) as [->|Hne];
    [rewrite lookup_insert_eq; intros [= <-]; by right|rewrite lookup_insert_ne by done; by left].
Qed.

Lemma waiting_quiet n (w w' : Worker E) : waiting_for n w -> apart n w' -> quiet n w w' -> waiting_for n w'.
Proof. intros [H1 H2 H3 H4] Hw [Q1 Q2 Q3 Q4 Q5]. constructor; congruence. Qed.

(** What [on_request_headers] does after a submission leaves it waiting. *)
Lemma headers_wait b c e s : refs_below s ->
  let w := (on_request_headers b (worker_new c e s)).2 in
  state (filter w) = Waiting -> exists n, waiting_for n w.
Proof.
  intros Hs. cbv zeta. unfold on_request_headers, worker_new. rewrite bind_run, in_world_run. cbn [fst snd].
  rewrite bind_get. rewrite bind_run. cbn [in_env ask fst snd filter env envoy].
  set (s1 := (now s).2). assert (refs_below s1) as Hs1.
  { unfold refs_below, s1, now. destruct (instants s); exact Hs. }
  cbn [store performed envoy]. fold s1. destruct (copy_headers _ _ _) as [request|error].
  - rewrite bind_run. cbn [update snd filter env]. rewrite bind_run.
    match goal with |- context [submit_ ?w] => pose proof (submit_waits (filter w) e [] s1 Hs1 eq_refl) as Hsub end.
    cbn [filter] in Hsub. set (w4 := (submit_ _).2) in *. clearbody w4.
    pose (tail := (do* update (fun f => set_end_pending f b) in
                   if b then forward_request_body else st_ret tt) : St (Worker E) unit).
    change (state (filter (tail w4).2) = Waiting -> exists n, waiting_for n (tail w4).2). intros Hst.
    assert (keeps (tail)) as Hk by (unfold tail; destruct b; keeps_auto).
    assert (forall n, spares n (tail)) as Hsp.
    { intros n. unfold tail. apply spares_bind; [apply spares_update; done|]. intros _.
      destruct b; [apply spares_forward|apply spares_ret]. }
    destruct Hsub as [n Hn].
    { change (v_state (view w4) = Waiting). rewrite <- (Hk w4). exact Hst. }
    exists n. destruct (Hsp n w4 (wf_apart _ _ Hn)) as [H1 H2]. by apply (waiting_quiet n w4).
  - unfold send_invalid_request. intros Hst. exfalso.
    match type of Hst with state (filter (_ ?w).2) = _ =>
      pose proof (f_equal v_state (with_metrics_bridge REJECTED_INVALID_REQUEST 400 (reason error) "ruvoy_fiber_invalid_request" w)) as Hv end.
    cbn [add_log to_state v_state] in Hv. change (v_state (view ?w)) with (state (filter w)) in Hv. rewrite Hst in Hv. discriminate.
Qed.

(** C1: the application's response reaches the client whole, in order and once.  From
    a request the runtime accepted on, however the application's writes, Envoy's
    callbacks and whatever else happens to the store follow each other: what the queue
    accepted is what the worker took from it, then what is still queued; what the filter
    sent is what [delivered] makes of the items taken, and nothing else; and the next
    response event delivers everything accepted so far, unless Envoy's buffer is full. *)
Theorem response_delivered b c e s :
  let w := (on_request_headers b (worker_new c e s)).2 in
  refs_below s -> state (filter w) = Waiting ->
  exists n, f_stream (filter w) = Some (Direct n) /\ forall ms, Forall (allowed n) ms ->
  let '(acc, w') := life n ms w in
  let to_client := delivered (headers_for c) Waiting in
  log_ok acc
  /\ (exists taken, acc = (taken ++ items (response_queue n w'))%list /\ sent w' = to_client taken)
  /\ let w'' := (callback (OnScheduled RESPONSE_EVENT_ID) w').2 in
     paused (response_queue n w'') = true
     \/ items (response_queue n w'') = [] /\ sent w'' = to_client acc.
Proof.
  cbv zeta. intros Hs Hst. destruct (headers_wait b c e s Hs Hst) as [n Hw]. exists n.
  split; [apply Hw|]. intros ms Hms.
  assert (sent (on_request_headers b (worker_new c e s)).2 = []) as Hsent.
  { destruct (on_request_headers_inv b (worker_new c e s)) as [Hi _]; [done..|].
    pose proof (vi_wire _ Hi) as Hwire. cbn [view v_state v_log] in Hwire. rewrite Hst in Hwire.
    by rewrite (filter_relevant _ _ downstream_relevant) in Hwire. }
  pose proof (config_headers b c e s) as Hc. fold (worker_new c e s) in Hc.
  set (w := (on_request_headers b _).2) in *. clearbody w.
  pose proof (life_keeps n ms w [] w (delivering_start n w Hw) Hms) as D.
  destruct (life n ms w) as [acc w']. cbn [fst snd app] in D. split; [apply D|].
  split; [destruct (dl_taken _ _ _ _ D) as (taken & T1 & T2 & _); exists taken; by rewrite T2, Hsent, Hc|].
  destruct (scheduled_keeps n w acc w' D) as [D' [Hp|Hi]]; [by left|right]. split; [done|].
  destruct (dl_taken _ _ _ _ D') as (taken & T1 & T2 & _). rewrite Hi, app_nil_r in T1. subst taken.
  change (callback (OnScheduled _)) with (on_scheduled (E:=E) RESPONSE_EVENT_ID). by rewrite T2, Hsent, Hc.
Qed.

End accepted_request.

(** A response of a head, a chunk and the end, with Envoy's buffer filling in between. *)
Definition example_head : ResponseHead := {| status := 200; headers := [("x", "y")]%string; ruby_thread_object_id := 7 |}.

Definition example_moves : list Move :=
  [Produce (OpPush (Head example_head)); Produce (OpWithinBudget [x61; x62]);
   Callback_ (OnScheduled RESPONSE_EVENT_ID); Callback_ (OnStreamEvent AboveHighWatermark);
   Produce (OpPush End); Callback_ (OnScheduled RESPONSE_EVENT_ID); Elsewhere (fun w => set_posted w []);
   Callback_ (OnStreamEvent BelowLowWatermark)].

#[local] Abbreviation accepted_worker :=
  (on_request_headers true (worker_new example_config (example [] [] []) (world_new 4))).2.

Lemma response_delivered_witness : exists n,
  f_stream (filter accepted_worker) = Some (Direct n)
  /\ let w' := (life n example_moves accepted_worker).2 in
     sent (callback (OnScheduled RESPONSE_EVENT_ID) w').2
     = [SendResponseHeaders [(":status", into_bytes "200"); ("x", into_bytes "y")]%string false;
        SendResponseData [x61; x62] false; SendResponseData [] true].
Proof.
  destruct (response_delivered true example_config (example [] [] []) (world_new 4)) as (n & Hf & Hall).
  - intros u r q k Hu. pose proof (transitivity (eq_sym (lookup_empty (M:=gmap N) u)) Hu) as Hn. discriminate Hn.
  - vm_compute. reflexivity.
  - assert (f_stream (filter accepted_worker) = Some (Direct 2)) as H2 by (vm_compute; reflexivity).
    assert (n = 2) as -> by (pose proof (transitivity (eq_sym H2) Hf) as Hn; by injection Hn). clear Hf.
    exists 2. split; [exact H2|].
    assert (Forall (allowed 2) example_moves) as Hms.
    { repeat (apply Forall_cons_2; [first [reflexivity | apply aside_posted]|]). apply Forall_nil_2. }
    specialize (Hall example_moves Hms). cbv zeta in *.
    assert ((life 2 example_moves accepted_worker).1 = [Head example_head; Chunk [x61; x62]; End]) as Ha
      by (vm_compute; reflexivity).
    assert (paused (response_queue 2 (callback (OnScheduled RESPONSE_EVENT_ID) (life 2 example_moves accepted_worker).2).2)
            = false) as Hp by (vm_compute; reflexivity).
    destruct (life 2 example_moves _) as [acc w']. cbn [fst snd] in *. subst acc.
    destruct Hall as (_ & _ & [Hq|[_ Hd]]); [exfalso; rewrite Hp in Hq; discriminate Hq|].
    rewrite Hd. reflexivity.
Defined.
