(* ===== verification/Ruby.v ===== *)
(** * The Ruby VM, as the runtime's thread sees it

    magnus and the VM behind it are code of other repositories: [RubyVM] is their
    interface.  What Rust builds for Ruby is data, [RValue]; an object of the VM is
    named by a [Value].  Whatever runs Ruby code may run the application, so it is
    an operation on the whole store, and it may raise. *)

From S2P Require Import Prelude RustStr Types Stream World.

Local Open Scope N_scope.

(** ** Values Rust makes *)

Inductive RValue :=
| RNil
| RBool (b : bool)
| RInt (n : N)
| RFloat (x : f64)
| RString (b : bytes)
| RArray (values : list RValue)
| RHash (pairs : list (string * RValue))      (* in insertion order *)
| RContext (c : Context)                      (* Ruvoy::Context *)
| RUpstream (route : N)                       (* Ruvoy::Upstream *)
| RSource (h : StreamHandle)                  (* Ruvoy::ChunkSource *)
| RSink (h : StreamHandle)                    (* Ruvoy::ChunkSink *)
| RObject (v : Value).

(** [ruby.str_new], and the conversions of [String], [Option<T>] and [bool]. *)
Definition str_new (s : string) : RValue := RString (into_bytes s).

Definition opt_value {A} (f : A -> RValue) (o : option A) : RValue :=
  match o with
  | Some a => f a
  | None => RNil
  end.

(** ** The VM *)

Class RubyVM := {
  (* what [Hash#[]=] or [Array#push] raises instead of storing *)
  store_fails : RValue -> RValue -> option MagnusError;
  (* [receiver.funcall(name, args)]: runs Ruby *)
  funcall : Value -> string -> list RValue -> St World (result Value MagnusError);
  (* conversions; [try_convert] may call [to_str], [to_ary], [to_int] *)
  to_array : Value -> St World (result Value MagnusError);
  to_rstring : Value -> St World (result bytes MagnusError);
  to_string : Value -> St World (result string MagnusError);
  array_len : Value -> World -> N;
  entry_value : Value -> N -> St World (result Value MagnusError);
  entry_i64 : Value -> N -> St World (result Z MagnusError);
  entry_hash : Value -> N -> St World (result Value MagnusError);
  entry_array : Value -> N -> St World (result Value MagnusError);
  entry_string : Value -> N -> St World (result string MagnusError);
  hash_pairs : Value -> World -> list (Value * Value);
  is_array : Value -> World -> bool;
  to_strings : Value -> St World (result (list string) MagnusError);
  const_get : string -> St World (result Value MagnusError);
  wrap_error : string -> string -> MagnusError;    (* class, message *)
}.

(** ** Effects that may fail

    [let?* x := m in k] is [let x = m?; k] where [m] also changes the store. *)

Definition tries {S A B E} (m : St S (result A E)) (k : A -> St S (result B E)) : St S (result B E) :=
  fun s =>
  match m s with
  | (Ok a, s) => k a s
  | (Err e, s) => (Err e, s)
  end.

Notation "'let?*' x := m 'in' k" := (tries m (fun x => k))
  (at level 10, x pattern, m at level 100, k at level 200) : ruvoy_scope.

Definition pure {S A E} (r : result A E) : St S (result A E) := st_ret r.
Definition ok {S A E} (a : A) : St S (result A E) := st_ret (Ok a).
Definition fails {S A E} (e : E) : St S (result A E) := st_ret (Err e).
Definition lift {S A E} (m : St S A) : St S (result A E) := let* a := m in st_ret (Ok a).

(** [m.map_err(f)] *)
Definition mapping {S A E F} (f : E -> F) (m : St S (result A E)) : St S (result A F) :=
  let* r := m in st_ret (map_err f r).

(** [for x in l { m x ? }] *)
Fixpoint try_map {S A B E} (m : A -> St S (result B E)) (l : list A) : St S (result (list B) E) :=
  match l with
  | [] => ok []
  | x :: l => let?* b := m x in let?* bs := try_map m l in ok (b :: bs)
  end.

(** ** Hashes *)

Definition pairs_get {A} (pairs : list (string * A)) (key : string) : option A :=
  snd <$> List.find (fun '(k, _) => bool_decide (k = key)) pairs.

(** [Hash#[]=] keeps the place of a key it has. *)
Fixpoint pairs_set {A} (pairs : list (string * A)) (key : string) (v : A) : list (string * A) :=
  match pairs with
  | [] => [(key, v)]
  | (k, x) :: rest =>
      if bool_decide (k = key) then (k, v) :: rest else (k, x) :: pairs_set rest key v
  end.

Section hash.
Context `{RubyVM}.

Definition hash := list (string * RValue).

Definition aset (h : hash) (key : string) (v : RValue) : result hash MagnusError :=
  match store_fails (RHash h) v with
  | Some e => Err e
  | None => Ok (pairs_set h key v)
  end.

Definition ary_push (l : list RValue) (v : RValue) : result (list RValue) MagnusError :=
  match store_fails (RArray l) v with
  | Some e => Err e
  | None => Ok (l ++ [v])%list
  end.

(** What a sequence of [aset]s leaves, when none raises. *)
Lemma aset_ok h key v h' : aset h key v = Ok h' -> h' = pairs_set h key v.
Proof. unfold aset. destruct (store_fails _ _); [done|]. by intros [= <-]. Qed.

End hash.

(** ** Lemmas *)

Lemma pairs_get_nil {A} key : pairs_get (A:=A) [] key = None.
Proof. reflexivity. Qed.

Lemma pairs_get_set {A} (pairs : list (string * A)) key key' v :
  pairs_get (pairs_set pairs key v) key' = if bool_decide (key' = key) then Some v else pairs_get pairs key'.
Proof.
  unfold pairs_get. induction pairs as [|[k x] rest IH]; cbn [pairs_set List.find].
  - destruct (decide (key = key')) as [->|Hne].
    + by rewrite !bool_decide_true.
    + by rewrite !bool_decide_false.
  - destruct (decide (k = key)) as [->|Hne].
    + rewrite (bool_decide_true (key = key)) by done. cbn [List.find].
      destruct (decide (key = key')) as [->|Hne]; [by rewrite !bool_decide_true|].
      by rewrite !bool_decide_false.
    + rewrite (bool_decide_false (k = key)) by done. cbn [List.find].
      destruct (decide (k = key')) as [->|Hne']; [|by rewrite (bool_decide_false (k = key'))].
      rewrite (bool_decide_true (key' = key')) by done. by rewrite bool_decide_false.
Qed.

Lemma tries_ok {S A B E} (m : St S (result A E)) (k : A -> St S (result B E)) s b s' :
  tries m k s = (Ok b, s') <-> exists a s1, m s = (Ok a, s1) /\ k a s1 = (Ok b, s').
Proof.
  unfold tries. split.
  - destruct (m s) as [[a|e] s1]; [by exists a, s1 | done].
  - by intros (a & s1 & -> & ?).
Qed.
