(* ===== verification/Chunks.v ===== *)
(** * The Ruby-facing ends of a queue ([src/src/chunks.rs])

    [ChunkSource] reads a queue and [ChunkSink] writes one, whichever two parties
    the queue joins; each wraps a [StreamHandle], whose waker tells the other side. *)

From S2P Require Import Prelude RustStr Types Stream World Ruby.

Local Open Scope N_scope.

(** [upstream_error] ([src/src/extensions.rs]): a subclass of [Ruvoy::UpstreamError]
    tells asking for less from trying again later. *)
Definition upstream_error_class (error : BridgeError) : string :=
  match error with
  | UpstreamTooLarge _ => "UpstreamResponseTooLarge"
  | UpstreamOverflow _ => "UpstreamOverflow"
  | _ => "UpstreamError"
  end%string.

Section chunks.
Context `{RubyVM}.

Definition upstream_error (error : BridgeError) : St World MagnusError := fun w =>
  match const_get "Ruvoy" w with
  | (Err lookup, w) => (lookup, w)
  | (Ok _, w) =>
      match const_get (upstream_error_class error) w with
      | (Err lookup, w) => (lookup, w)
      | (Ok _, w) => (wrap_error (upstream_error_class error) (error_to_string error), w)
      end
  end.

(** ** The reading end *)

(** [woken] tells a sender held back by a full queue that there is room. *)
Definition next_chunk_of (r : QRef) (woken : St World unit) : St World (result (option bytes) MagnusError) :=
  let* item := on_queue r take_next in
  match item with
  | None => ok None
  | Some item =>
      do* woken in
      match item with
      | Chunk b => ok (Some b)
      | Failed error => let* e := upstream_error error in fails e
      | Head _ | End => ok None
      end
  end.

Definition next_chunk (source : StreamHandle) : St World (result (option bytes) MagnusError) :=
  next_chunk_of (stream source) (wake_handle source).

Definition finished (source : StreamHandle) : St World bool :=
  read (fun w => is_finished (get_queue w (stream source))).

Definition source_park (source : StreamHandle) (waiter_ : Value) : St World bool :=
  on_queue (stream source) (park waiter_).

Definition source_unpark (source : StreamHandle) : St World unit :=
  do* on_queue (stream source) unpark in st_ret tt.

(** ** The writing end *)

(** [bytes.get(offset..).unwrap_or_default()] *)
Definition bytes_from (offset : N) (chunk : bytes) : bytes := ndrop offset chunk.

Definition write (sink : StreamHandle) (chunk : bytes) (offset : N) : St World (option N) :=
  let* taken := on_queue (stream sink) (push_chunk_within_budget (bytes_from offset chunk)) in
  match taken with
  | None => st_ret None
  | Some taken =>
      do* (if 0 <? taken then wake_handle sink else st_ret tt) in
      st_ret (Some taken)
  end.

Definition writable (sink : StreamHandle) : St World bool :=
  read (fun w => negb (is_saturated (get_queue w (stream sink)))).

Definition sink_cancelled (sink : StreamHandle) : St World bool :=
  read (fun w => is_cancelled (get_queue w (stream sink))).

Definition sink_park (sink : StreamHandle) (waiter_ : Value) : St World bool :=
  on_queue (stream sink) (park_writer waiter_).

Definition sink_unpark (sink : StreamHandle) : St World unit :=
  do* on_queue (stream sink) unpark in st_ret tt.

Definition finish (sink : StreamHandle) : St World unit :=
  let* pushed := on_queue (stream sink) push_end in
  if pushed then wake_handle sink else st_ret tt.

End chunks.
