(* ===== verification/RubyExample.v ===== *)
(** * A concrete VM

    A small [RubyVM], at which the theorems about any VM are applied: an application
    that answers 200 with one header, and a body reader that writes one chunk to the
    sink it is given. *)

From S2P Require Import Prelude RustStr Types Stream World Ruby Chunks.

Local Open Scope N_scope.

Definition sink_of (args : list RValue) : option StreamHandle :=
  match List.find (fun a => match a with RSink _ => true | _ => false end) args with
  | Some (RSink h) => Some h
  | _ => None
  end.

#[export] Instance example_ruby : RubyVM := {|
  store_fails _ _ := None;
  funcall _ _ args :=
    match sink_of args with
    | Some h => let* _ := write h (into_bytes "hello") 0 in st_ret (Ok 9)
    | None => st_ret (Ok 9)
    end;
  to_array v := st_ret (Ok v);
  to_rstring _ := st_ret (Ok (into_bytes "hello"));
  to_string v := st_ret (Ok (if (v =? 1)%N then "x-name" else "value"));
  array_len _ _ := 3;
  entry_value _ n := st_ret (Ok n);
  entry_i64 _ _ := st_ret (Ok 200%Z);
  entry_hash _ n := st_ret (Ok n);
  entry_array _ n := st_ret (Ok n);
  entry_string _ n := st_ret (Ok (if (n =? 0)%N then "x-name" else "value"));
  hash_pairs _ _ := [(1, 2)];
  is_array _ _ := false;
  to_strings _ := st_ret (Ok []);
  const_get _ := st_ret (Ok 5);
  wrap_error c m := {| magnus_text := c ++ ": " ++ m |};
|}%string.
