(* ===== verification/Fibers.v ===== *)
(** * Fibers: Ruby code that parks instead of blocking

    The Ruby sources under [src/ruby] run on the one thread that owns the VM, a fiber per
    request.  Between any two of their calls into Rust other threads may call methods of
    the queues; where a fiber waits, other fibers run too, until the reactor resumes it.
    [Fib O A] is a piece of such code over objects [O]: a function of the store and of a
    schedule of what the others do, which ends with a value, with an exception, or still
    waiting when the schedule is over. *)

From S2P Require Import Prelude Types Stream StreamTrace World Ruby Chunks.

Local Open Scope nat_scope.

(** ** Exceptions and outcomes *)

(** [Async::Stop] ends a fiber and is no [StandardError]; Rust raises [MagnusError]s. *)
Inductive Exn :=
| Standard (class_ message : string)
| FromRust (e : MagnusError)
| Stop.

Definition is_standard (e : Exn) : bool :=
  match e with
  | Stop => false
  | _ => true
  end.

Definition argument_error (m : string) : Exn := Standard "ArgumentError" m.
Definition io_error (m : string) : Exn := Standard "IOError" m.
Definition type_error (m : string) : Exn := Standard "TypeError" m.
Definition eof_error : Exn := Standard "EOFError" "end of file reached".
Definition epipe : Exn := Standard "Errno::EPIPE" "the other side has gone".
Definition timeout_error : Exn := Standard "Async::TimeoutError" "execution expired".

(** [Spinning]: a loop did not end within the fuel of its definition. *)
Inductive Outcome (A : Type) :=
| Done (a : A)
| Raised (e : Exn)
| Waiting
| Spinning.
Arguments Done {A} a.
Arguments Raised {A} e.
Arguments Waiting {A}.
Arguments Spinning {A}.

(** ** The schedule *)

(** [Others]: methods of queues that other threads, or other fibers while this one
    waits, call before the fiber goes on.  [Interrupt]: what is raised where the fiber
    waits: a timeout, or [Stop]. *)
Inductive Event :=
| Others (calls : list (QRef * StreamOp))
| Interrupt (e : Exn).

(** [arrived] records what the others queued, with the queue, and [departed] what they
    took. *)
Record Fiber (O : Type) := {
  object : O;
  store : World;
  coming : list Event;
  arrived : list (QRef * StreamItem);
  departed : list (QRef * StreamItem);
}.
Arguments object {O} f.
Arguments store {O} f.
Arguments coming {O} f.
Arguments arrived {O} f.
Arguments departed {O} f.

Definition Fib (O A : Type) : Type := St (Fiber O) (Outcome A).

Section fibers.
Context {O : Type}.

Definition with_object (s : Fiber O) (o : O) : Fiber O :=
  {| object := o; store := store s; coming := coming s; arrived := arrived s;
     departed := departed s |}.
Definition with_store (s : Fiber O) (w : World) : Fiber O :=
  {| object := object s; store := w; coming := coming s; arrived := arrived s;
     departed := departed s |}.
Definition with_coming (s : Fiber O) (evs : list Event) : Fiber O :=
  {| object := object s; store := store s; coming := evs; arrived := arrived s;
     departed := departed s |}.

(** ** Control *)

Definition done {A} (a : A) : Fib O A := st_ret (Done a).
Definition raise {A} (e : Exn) : Fib O A := st_ret (Raised e).

Definition fbind {A B} (m : Fib O A) (k : A -> Fib O B) : Fib O B := fun s =>
  match m s with
  | (Done a, s) => k a s
  | (Raised e, s) => (Raised e, s)
  | (Waiting, s) => (Waiting, s)
  | (Spinning, s) => (Spinning, s)
  end.

(** [begin m ensure c end]; what [c] raises replaces what [m] ended with. *)
Definition ensure {A} (m : Fib O A) (c : Fib O unit) : Fib O A := fun s =>
  match m s with
  | (Done a, s) => fbind c (fun _ => done a) s
  | (Raised e, s) => fbind c (fun _ => raise e) s
  | r => r
  end.

(** [begin m rescue ... => e; h e end], for the exceptions [h] takes. *)
Definition rescue {A} (m : Fib O A) (h : Exn -> option (Fib O A)) : Fib O A := fun s =>
  match m s with
  | (Raised e, s) => default (raise e) (h e) s
  | r => r
  end.

(** ** The fiber's own objects *)

Definition obj : Fib O O := fun s => (Done (object s), s).
Definition set_obj (o : O) : Fib O unit := fun s => (Done tt, with_object s o).
Definition change (f : O -> O) : Fib O unit := fun s => (Done tt, with_object s (f (object s))).

(** ** Calls into Rust *)

(** One method call of another party. *)
Definition other_call (s : Fiber O) (c : QRef * StreamOp) : Fiber O :=
  let '(r, op) := c in
  let '(reply, w) := on_queue r (impl_step op) (store s) in
  {| object := object s; store := w; coming := coming s;
     arrived := arrived s ++ map (fun i => (r, i)) (accepted_by op reply);
     departed := departed s ++ map (fun i => (r, i)) (handed_by reply) |}.

Definition other_calls (s : Fiber O) (calls : list (QRef * StreamOp)) : Fiber O := foldl other_call s calls.

(** What others did before the fiber's next call; an interrupt waits for the fiber to
    wait. *)
Definition interfere (s : Fiber O) : Fiber O :=
  match coming s with
  | Others calls :: rest => other_calls (with_coming s rest) calls
  | _ => s
  end.

Definition access {A} (m : St World A) : Fib O A := fun s =>
  let s := interfere s in
  let '(a, w) := m (store s) in (Done a, with_store s w).

(** A call that may raise. *)
Definition access_raising {A} (m : St World (result A MagnusError)) : Fib O A :=
  fbind (access m) (fun r =>
    match r with
    | Ok a => done a
    | Err e => raise (FromRust e)
    end).

(** ** Waiting *)

(** [variable.wait], the variable parked in [r]: whoever takes it out resolves it. *)
Fixpoint wait_until (r : QRef) (v : Value) (evs : list Event) (s : Fiber O) : Outcome unit * Fiber O :=
  if bool_decide (waiter (get_queue (store s) r) = Some v) then
    match evs with
    | [] => (Waiting, with_coming s [])
    | Others calls :: rest => wait_until r v rest (other_calls (with_coming s rest) calls)
    | Interrupt e :: rest => (Raised e, with_coming s rest)
    end
  else (Done tt, with_coming s evs).

Definition wait (r : QRef) (v : Value) : Fib O unit := fun s => wait_until r v (coming s) s.

(** [Ruvoy::Park.on] ([src/ruby/stream.rb]).  A timeout is an [Interrupt]. *)
Definition park_on (r : QRef) (park_ : Value -> St World bool) (unpark_ : St World unit) : Fib O unit :=
  fbind (access fresh) (fun variable =>
  fbind (access (park_ variable)) (fun parked =>
    if parked then ensure (wait r variable) (access unpark_) else done tt)).

(** ** Loops *)

(** How many methods the others are still to call: a bound of what they may queue. *)
Definition calls_of (e : Event) : nat :=
  match e with
  | Others calls => length calls
  | Interrupt _ => 0
  end.

Definition calls_coming (s : Fiber O) : nat := sum_list_with calls_of (coming s).

(** The items a reader of [r] may still take. *)
Definition takeable (r : QRef) (s : Fiber O) : nat := length (items (get_queue (store s) r)) + calls_coming s.

End fibers.

Notation "'let!' x := m 'in' k" := (fbind m (fun x => k))
  (at level 10, x pattern, m at level 100, k at level 200) : ruvoy_scope.
Notation "'do!' m 'in' k" := (fbind m (fun _ => k))
  (at level 10, m at level 100, k at level 200) : ruvoy_scope.

(** Code of one object, run where that object is a part of others. *)
Definition zoom {O P A} (get_ : O -> P) (set_ : O -> P -> O) (m : Fib P A) : Fib O A := fun s =>
  let '(r, p) := m {| object := get_ (object s); store := store s; coming := coming s;
                      arrived := arrived s; departed := departed s |} in
  (r, {| object := set_ (object s) (object p); store := store p; coming := coming p;
         arrived := arrived p; departed := departed p |}).

(** A [ChunkSource] of Ruby: the queue it reads, and the waker that tells the sender
    there is room; the reader of an upstream channel has one that does nothing. *)
Record Source := { source_queue : QRef; source_waker : option Waker }.

Definition source_of (h : StreamHandle) : Source := {| source_queue := stream h; source_waker := Some (waker h) |}.

Definition source_woken (c : Source) : St World unit :=
  match source_waker c with
  | Some wk => wake_handle {| stream := source_queue c; waker := wk |}
  | None => st_ret tt
  end.

Section sources.
Context `{RubyVM} {O : Type}.

Definition source_next (c : Source) : Fib O (option bytes) :=
  access_raising (next_chunk_of (source_queue c) (source_woken c)).

Definition source_finished (c : Source) : Fib O bool :=
  access (read (fun w => is_finished (get_queue w (source_queue c)))).

Definition park_source (c : Source) : Fib O unit :=
  park_on (source_queue c) (fun v => on_queue (source_queue c) (park v))
    (do* on_queue (source_queue c) unpark in st_ret tt).

(** [Park.on(sink)], [sink.writable?] and [sink.write] of a [ChunkSink]. *)
Definition park_sink (h : StreamHandle) : Fib O unit :=
  park_on (stream h) (sink_park h) (sink_unpark h).

Definition sink_writable (h : StreamHandle) : Fib O bool := access (writable h).
Definition sink_write (h : StreamHandle) (chunk : bytes) (offset : N) : Fib O (option N) := access (write h chunk offset).
Definition sink_finish (h : StreamHandle) : Fib O unit := access (finish h).

(** [while (chunk = source.next_chunk) keep chunk end] *)
Fixpoint pull_loop (keep_ : bytes -> Fib O unit) (fuel : nat) (c : Source) : Fib O unit :=
  match fuel with
  | 0 => st_ret Spinning
  | S fuel =>
      let! chunk := source_next c in
      match chunk with
      | Some b => do! keep_ b in pull_loop keep_ fuel c
      | None => done tt
      end
  end.

Definition pull (keep_ : bytes -> Fib O unit) (c : Source) : Fib O unit :=
  fun s => pull_loop keep_ (S (takeable (source_queue c) s)) c s.

(** [loop do drain; break if yield; wait end], with the block's own variables.  A turn
    that does not wait uses up an item or what another party did. *)
Fixpoint fill_loop {L} (fuel : nat) (drain wait_ : Fib O unit) (block : L -> Fib O (L * bool)) (l : L) : Fib O L :=
  match fuel with
  | 0 => st_ret Spinning
  | S fuel =>
      do! drain in
      let! (l, stop) := block l in
      if stop then done l
      else do! wait_ in fill_loop fuel drain wait_ block l
  end.

Definition fill_from {L} (c : Source) (drain wait_ : Fib O unit) (block : L -> Fib O (L * bool)) (l : L) : Fib O L :=
  fun s => fill_loop (S (length (coming s) + takeable (source_queue c) s)) drain wait_ block l s.

End sources.
