(* ===== verification/FiberLogic.v ===== *)
(** * Reasoning about fibers

    What a fiber may rely on of one queue while others feed it: [onward] is everything
    that may happen to the queue between two of its own calls.  Nobody else takes from a
    queue it reads, and nobody pauses it. *)

From S2P Require Import Prelude Types Stream StreamTrace Upstream World Ruby Chunks Fibers.

Local Open Scope N_scope.

(** Looking a constant up touches no queue. *)
Class QuietLookup `{RubyVM} : Prop :=
  const_get_queue : forall c w r, get_queue (const_get c w).2 r = get_queue w r.

(** ** Sequencing *)

Lemma fbind_run {O A B} (m : Fib O A) (k : A -> Fib O B) s :
  fbind m k s = match m s with
                | (Done a, s) => k a s
                | (Raised e, s) => (Raised e, s)
                | (Waiting, s) => (Waiting, s)
                | (Spinning, s) => (Spinning, s)
                end.
Proof. reflexivity. Qed.

(** ** A queue and what the others do to it *)

Definition q_of {O} (r : QRef) (s : Fiber O) : ResponseStream := get_queue (store s) r.

Definition at_queue (r : QRef) (i : QRef * StreamItem) : list StreamItem :=
  if bool_decide (i.1 = r) then [i.2] else [].

Definition arrived_at {O} (r : QRef) (s : Fiber O) : list StreamItem := arrived s ≫= at_queue r.
Definition departed_at {O} (r : QRef) (s : Fiber O) : list StreamItem := departed s ≫= at_queue r.

(** What a party's calls did: what they queued and what they took, in order. *)
Record env_step (q q' : ResponseStream) (new out : list StreamItem) : Prop := {
  es_wf : stream_wf q';
  es_cancelled : cancelled q = true -> cancelled q' = true;
  es_ended : ended q = true -> ended q' = true;
  es_prefix : (out ++ items q')%list `prefix_of` (items q ++ new)%list;
  es_items : cancelled q' = false -> (out ++ items q' = items q ++ new)%list;
  es_settled : settled q = true -> new = [];
  es_max : max_buffered_bytes q' = max_buffered_bytes q;
}.

Lemma env_step_refl q : stream_wf q -> env_step q q [] [].
Proof. intros. constructor; rewrite ?app_nil_r; done. Qed.

Lemma env_step_trans q1 q2 q3 n1 n2 o1 o2 : env_step q1 q2 n1 o1 -> env_step q2 q3 n2 o2 ->
  env_step q1 q3 (n1 ++ n2) (o1 ++ o2).
Proof.
  intros [A1 A2 A3 A4 A5 A6 A7] [B1 B2 B3 B4 B5 B6 B7]. constructor; try done; auto; try congruence.
  - rewrite <- app_assoc. destruct (cancelled q2) eqn:E2.
    + rewrite (wf_cancelled _ A1 E2), app_nil_r in A4. rewrite B6 in * by (unfold settled; by rewrite E2).
      rewrite (wf_cancelled _ A1 E2) in B4. apply prefix_nil_inv in B4. by rewrite B4, !app_nil_r.
    + rewrite (app_assoc (items q1)), <- (A5 eq_refl), <- !app_assoc. by apply prefix_app.
  - intros H. rewrite <- app_assoc. destruct (cancelled q2) eqn:E2; [by rewrite B2 in H|].
    by rewrite B5, app_assoc, A5, <- !app_assoc.
  - intros H. rewrite A6, B6; try done. unfold settled in *. apply orb_true_iff in H as [H|H];
      [rewrite A2 by done|rewrite A3 by done]; by rewrite ?orb_true_r.
Qed.

Lemma env_step_length q q' new out : env_step q q' new out ->
  (length (items q') <= length (items q) + length new)%nat.
Proof. intros Hs. pose proof (prefix_length _ _ (es_prefix _ _ _ _ Hs)) as Hl. rewrite !length_app in Hl. lia. Qed.

(** A method that queues or takes nothing. *)
Lemma env_step_still q q' : stream_wf q' -> (cancelled q = true -> cancelled q' = true) -> ended q' = ended q ->
  items q' = (if cancelled q' then [] else items q) -> max_buffered_bytes q' = max_buffered_bytes q -> env_step q q' [] [].
Proof.
  intros H1 H2 H3 H4 H5. constructor; rewrite ?H3, ?app_nil_r; try done; cbn [app]; rewrite H4.
  - case_match; [apply prefix_nil|done].
  - by intros ->.
Qed.

(** An item appended to an open queue. *)
Lemma env_step_append q item b e : stream_wf (set_items q (items q ++ [item]) b e) -> settled q = false ->
  env_step q (set_items q (items q ++ [item]) b e) [item] [].
Proof.
  intros Hwf Hs. unfold settled in Hs. apply orb_false_elim in Hs as [Hc He].
  constructor; cbn; rewrite ?He; try done. unfold settled. by rewrite Hc, He.
Qed.

Lemma impl_step_env op q : stream_wf q -> buffered_bytes q + op_bytes op < width64 ->
  env_step q (impl_step op q).2 (accepted_by op (impl_step op q).1) (handed_by (impl_step op q).1).
Proof.
  intros Hwf Hroom. pose proof (impl_step_wf op q Hwf Hroom) as Hwf'.
  assert (forall q', q' = q -> env_step q q' [] []) as Hsame by (intros ? ->; by apply env_step_refl).
  assert (forall q', stream_wf q' -> cancelled q' = cancelled q -> ended q' = ended q -> items q' = items q ->
    max_buffered_bytes q' = max_buffered_bytes q -> env_step q q' [] []) as Hstill.
  { intros q' ? H1 H2 H3 H4. constructor; rewrite ?app_nil_r; try congruence; cbn [app]; by rewrite ?H3. }
  destruct op as [|p|item|b|chunk| |w|w| | | |]; cbn [impl_step reply] in *; cbn [fst snd accepted_by handed_by] in *.
  - apply env_step_still; done.
  - by apply Hstill.
  - unfold push, reply in *. destruct (cancelled q || ended q) eqn:E; cbn [fst snd accepted_by handed_by] in *; [by apply Hsame|].
    by apply env_step_append.
  - unfold push_chunk_within_budget, reply in *. destruct (cancelled q || ended q) eqn:E; cbn [fst snd accepted_by handed_by] in *; [by apply Hsame|].
    rewrite zero_lt_eqb in *. destruct (N.min _ _ =? 0) eqn:En; cbn [negb fst snd accepted_by handed_by] in *; [by apply Hsame|].
    by apply env_step_append.
  - unfold push_chunk_if_room, reply in *. destruct (cancelled q || ended q) eqn:E; cbn [fst snd accepted_by handed_by] in *; [by apply Hsame|].
    destruct (_ && _); cbn [fst snd accepted_by handed_by] in *; [by apply Hsame|]. by apply env_step_append.
  - unfold take_next, reply in *. destruct (paused q); cbn [fst snd handed_by] in *; [by apply Hsame|].
    destruct (items q) as [|i rest] eqn:Ei; cbn [fst snd handed_by] in *; [by apply Hsame|].
    constructor; try done; cbn [set_items items app]; by rewrite Ei, app_nil_r.
  - unfold park, reply in *. destruct (_ || cancelled q); cbn [fst snd accepted_by handed_by] in *; [by apply Hsame|by apply Hstill].
  - unfold park_writer, reply in *. destruct (_ || _); cbn [fst snd accepted_by handed_by] in *; [by apply Hsame|by apply Hstill].
  - unfold reply, unpark in *. by apply Hstill.
  - by apply Hsame.
  - by apply Hsame.
  - by apply Hsame.
Qed.

(** ** Roles

    A queue has one party at each end.  What a fiber at one end may rely on is its
    [Role]: the methods the others call, and what that keeps true of the queue and of the
    logs of what they queued and took. *)

Record Role := {
  may : StreamOp -> bool;
  role_ok : ResponseStream -> Prop;
  role_logs : list StreamItem -> list StreamItem -> Prop;
  role_nil : role_logs [] [];
  role_app : forall n1 o1 n2 o2, role_logs n1 o1 -> role_logs n2 o2 -> role_logs (n1 ++ n2) (o1 ++ o2);
  role_step : forall op q, may op = true -> role_ok q ->
    role_ok (impl_step op q).2 /\ role_logs (accepted_by op (impl_step op q).1) (handed_by (impl_step op q).1);
  role_waiter : forall q v, role_ok q -> role_ok (set_waiter q v);
}.

(** A reader: nobody else takes, and nobody pauses. *)
Definition feeding (op : StreamOp) : bool :=
  match op with
  | OpTake | OpPause true => false
  | _ => true
  end.

Program Definition reader : Role :=
  {| may := feeding; role_ok q := paused q = false; role_logs _ out := out = [] |}.
Next Obligation. done. Qed.
Next Obligation. by intros n1 o1 n2 o2 -> ->. Qed.
Next Obligation.
  intros op q Hop Hp. destruct op as [|[]|item|b|chunk| |w|w| | | |]; try discriminate Hop; cbn;
    unfold reply, push, push_chunk_within_budget, push_chunk_if_room, park, park_writer, unpark; repeat case_match; simplify_eq/=; done.
Qed.
Next Obligation. done. Qed.

(** A writer: nobody else queues or parks. *)
Definition draining (op : StreamOp) : bool :=
  match op with
  | OpPush _ | OpWithinBudget _ | OpIfRoom _ | OpPark _ | OpParkWriter _ => false
  | _ => true
  end.

Program Definition writer : Role :=
  {| may := draining; role_ok _ := True; role_logs new _ := new = [] |}.
Next Obligation. done. Qed.
Next Obligation. by intros n1 o1 n2 o2 -> ->. Qed.
Next Obligation. intros op q Hop _. split; [done|]. by destruct op. Qed.
Next Obligation. done. Qed.

Definition allows (role : Role) (r : QRef) (c : QRef * StreamOp) : Prop := c.1 = r -> may role c.2 = true.

Definition allowed (role : Role) (r : QRef) (e : Event) : Prop :=
  match e with
  | Others calls => Forall (allows role r) calls
  | Interrupt _ => True
  end.

Definition offered_in (r : QRef) (calls : list (QRef * StreamOp)) : N :=
  foldr (fun c n => (if bool_decide (c.1 = r) then op_bytes c.2 else 0) + n) 0 calls.

Definition offered_by (r : QRef) (e : Event) : N :=
  match e with
  | Others calls => offered_in r calls
  | Interrupt _ => 0
  end.

Definition offered_coming (r : QRef) (evs : list Event) : N := foldr (fun e n => offered_by r e + n) 0 evs.

(** The queue is well formed and stays so over the rest of the schedule. *)
Record ready_as (role : Role) {O} (r : QRef) (s : Fiber O) : Prop := {
  rd_wf : stream_wf (q_of r s);
  rd_fits : buffered_bytes (q_of r s) + offered_coming r (coming s) < width64;
  rd_allowed : Forall (allowed role r) (coming s);
  rd_role : role_ok role (q_of r s);
}.

(** Nothing is raised: the fiber is not interrupted and no failure comes down the queue. *)
Definition failure (i : StreamItem) : bool :=
  match i with
  | Failed _ => true
  | _ => false
  end.

Definition pushes_failure (op : StreamOp) : bool :=
  match op with
  | OpPush i => failure i
  | _ => false
  end.

Definition harmless (r : QRef) (e : Event) : Prop :=
  match e with
  | Others calls => Forall (fun c => c.1 = r -> pushes_failure c.2 = false) calls
  | Interrupt _ => False
  end.

Record undisturbed {O} (r : QRef) (s : Fiber O) : Prop := {
  ud_coming : Forall (harmless r) (coming s);
  ud_items : Forall (fun i => failure i = false) (items (q_of r s));
}.

(** ** What may happen between two calls of the fiber *)

(** Nothing of the fiber's own changes; the logs grow by what the others did. *)
Record onward_as (role : Role) {O} (r : QRef) (s s' : Fiber O) : Prop := {
  on_object : object s' = object s;
  on_logs : exists new out, arrived_at r s' = (arrived_at r s ++ new)%list
    /\ departed_at r s' = (departed_at r s ++ out)%list
    /\ env_step (q_of r s) (q_of r s') new out /\ role_logs role new out;
  on_ready : ready_as role r s';
  on_events : (length (coming s') <= length (coming s))%nat;
  on_takeable : (takeable r s' <= takeable r s)%nat;
  on_undisturbed : undisturbed r s -> undisturbed r s';
}.

Section onward.
Context {role : Role} {O : Type} (r : QRef).
Implicit Types s : Fiber O.
#[local] Abbreviation ready := (ready_as role).
#[local] Abbreviation onward := (onward_as role).

Lemma onward_refl s : ready r s -> onward r s s.
Proof.
  intros Hr. constructor; try done. exists [], []. rewrite !app_nil_r. split_and!; try done; [|apply role_nil].
  apply env_step_refl, Hr.
Qed.

Lemma onward_trans s1 s2 s3 : onward r s1 s2 -> onward r s2 s3 -> onward r s1 s3.
Proof.
  intros [A1 (n1 & o1 & A2 & A3 & A8 & A9) A4 A5 A6 A7] [B1 (n2 & o2 & B2 & B3 & B8 & B9) B4 B5 B6 B7].
  constructor; try done; try congruence; try lia; [|by auto].
  exists (n1 ++ n2)%list, (o1 ++ o2)%list. split_and!; [by rewrite B2, A2, app_assoc|by rewrite B3, A3, app_assoc| |].
  - by eapply env_step_trans.
  - by apply role_app.
Qed.

(** A state with the same queue and schedule. *)
Lemma onward_store s w : ready r s -> get_queue w r = q_of r s -> onward r s (with_store s w).
Proof.
  intros Hr Hq. assert (q_of r (with_store s w) = q_of r s) as Hq' by exact Hq.
  constructor; try done; [|destruct Hr; constructor; by rewrite ?Hq'|unfold takeable; cbn; by rewrite Hq|].
  2: { intros [U1 U2]. constructor; [done|by rewrite Hq']. }
  exists [], []. rewrite !app_nil_r, Hq'. split_and!; try done; [|apply role_nil]. apply env_step_refl, Hr.
Qed.

(** The same when only the parked waiter differs. *)
Lemma onward_waiter s w v : ready r s -> get_queue w r = set_waiter (q_of r s) v -> onward r s (with_store s w).
Proof.
  intros Hr Hq. assert (q_of r (with_store s w) = set_waiter (q_of r s) v) as Hq' by exact Hq.
  constructor; try done; [| |unfold takeable; cbn; by rewrite Hq|].
  3: { intros [U1 U2]. constructor; [done|by rewrite Hq']. }
  - exists [], []. rewrite !app_nil_r, Hq'. split_and!; try done; [|apply role_nil].
    constructor; rewrite ?app_nil_r; try done. apply set_waiter_wf, Hr.
  - destruct Hr. constructor; rewrite ?Hq'; try done; [by apply set_waiter_wf|by apply role_waiter].
Qed.

Definition other_state s (c : QRef * StreamOp) : World := (on_queue c.1 (impl_step c.2) (store s)).2.

Lemma other_call_eq s c :
  other_call s c = {| object := object s; store := other_state s c; coming := coming s;
    arrived := arrived s ++ map (fun i => (c.1, i)) (accepted_by c.2 (impl_step c.2 (get_queue (store s) c.1)).1);
    departed := departed s ++ map (fun i => (c.1, i)) (handed_by (impl_step c.2 (get_queue (store s) c.1)).1) |}.
Proof.
  destruct c as [r' op]. unfold other_call, other_state. cbn [fst snd]. rewrite <- on_queue_fst.
  by destruct (on_queue r' (impl_step op) (store s)).
Qed.

Lemma at_queue_map r' l : map (fun i => (r', i)) l ≫= at_queue r = if bool_decide (r' = r) then l else [].
Proof.
  induction l as [|i l IH]; [by case_bool_decide|]. cbn [map mbind list_bind].
  change (foldr (fun x => _) [] ?k) with (k ≫= at_queue r). rewrite IH. unfold at_queue. cbn [fst snd].
  by case_bool_decide.
Qed.

Lemma env_step_undisturbed q q' new out : env_step q q' new out ->
  Forall (fun i => failure i = false) (items q) -> Forall (fun i => failure i = false) new ->
  Forall (fun i => failure i = false) (items q').
Proof.
  intros Hs Hq Hn. destruct (es_prefix _ _ _ _ Hs) as [k Hk].
  assert (Forall (fun i => failure i = false) (items q ++ new)) as Hall by (by apply Forall_app).
  rewrite Hk in Hall. apply Forall_app in Hall as [Hall _]. by apply Forall_app in Hall as [_ Hall].
Qed.

Lemma accepted_failure op reply_ : pushes_failure op = false ->
  Forall (fun i => failure i = false) (accepted_by op reply_).
Proof. destruct op, reply_; cbn; intros; repeat case_match; repeat constructor; done. Qed.

Lemma accepted_one op reply_ : (length (accepted_by op reply_) <= 1)%nat.
Proof. destruct op; cbn [accepted_by]; repeat case_match; cbn; lia. Qed.

(** One call, on this queue or another. *)
Lemma other_call_onward s c : stream_wf (q_of r s) -> role_ok role (q_of r s) -> allows role r c ->
  buffered_bytes (q_of r s) + offered_in r [c] < width64 ->
  let s' := other_call s c in
  object s' = object s /\ coming s' = coming s /\ role_ok role (q_of r s')
  /\ exists new out, arrived_at r s' = (arrived_at r s ++ new)%list
     /\ departed_at r s' = (departed_at r s ++ out)%list
     /\ env_step (q_of r s) (q_of r s') new out /\ role_logs role new out
     /\ buffered_bytes (q_of r s') <= buffered_bytes (q_of r s) + offered_in r [c] /\ (length new <= 1)%nat
     /\ ((c.1 = r -> pushes_failure c.2 = false) -> Forall (fun i => failure i = false) new).
Proof.
  intros Hwf Hp Hf Hroom. rewrite other_call_eq. cbn [object coming]. do 2 (split; [done|]).
  destruct c as [r' op]. unfold allows, arrived_at, departed_at, q_of, other_state in *.
  cbn [arrived departed store fst snd offered_in foldr] in *.
  destruct (decide (r' = r)) as [->|Hne].
  - rewrite bool_decide_true, N.add_0_r in * by done. rewrite get_on_queue.
    destruct (role_step role op _ (Hf eq_refl) Hp) as [Hp' Hlogs]. split; [done|].
    eexists _, _. rewrite !bind_app, !at_queue_map, !bool_decide_true by done. split_and!; try done.
    + by apply impl_step_env.
    + by apply impl_step_grows.
    + apply accepted_one.
    + intros Hh. apply accepted_failure, Hh, eq_refl.
  - rewrite get_on_queue_ne by done. split; [done|]. exists [], [].
    rewrite !bind_app, !at_queue_map, !bool_decide_false by done.
    split_and!; try done; [by apply env_step_refl|apply role_nil|lia|cbn; lia].
Qed.

(** What is still to come keeps fitting. *)
Lemma other_calls_onward calls s : ready r s -> Forall (allows role r) calls ->
  buffered_bytes (q_of r s) + offered_in r calls + offered_coming r (coming s) < width64 ->
  let s' := other_calls s calls in
  object s' = object s /\ ready r s' /\ coming s' = coming s
  /\ (exists new out, arrived_at r s' = (arrived_at r s ++ new)%list
       /\ departed_at r s' = (departed_at r s ++ out)%list
       /\ env_step (q_of r s) (q_of r s') new out /\ role_logs role new out)
  /\ (takeable r s' <= takeable r s + length calls)%nat
  /\ (Forall (fun c => c.1 = r -> pushes_failure c.2 = false) calls -> Forall (fun i => failure i = false) (items (q_of r s)) ->
      Forall (fun i => failure i = false) (items (q_of r s'))).
Proof.
  revert s. induction calls as [|c calls IH]; intros s Hr Hf Hroom; cbn [other_calls foldl].
  { cbn zeta. split_and!; try done; [|lia]. exists [], []. rewrite !app_nil_r.
    split_and!; try done; [apply env_step_refl, Hr|apply role_nil]. }
  apply Forall_cons_1 in Hf as [Hc Hf].
  assert (offered_in r (c :: calls) = offered_in r [c] + offered_in r calls) as Ho by (unfold offered_in; cbn [foldr]; lia).
  rewrite Ho in Hroom.
  destruct (other_call_onward s c (rd_wf _ _ _ Hr) (rd_role _ _ _ Hr) Hc ltac:(lia))
    as (H1 & H2 & H0 & new & out & H3 & H3' & H4 & H4' & H5 & H6 & H7).
  assert (ready r (other_call s c)) as Hr'.
  { constructor; [apply H4| |rewrite H2; apply Hr|done]. rewrite H2. lia. }
  pose proof (env_step_length _ _ _ _ H4) as Hlen.
  destruct (IH (other_call s c) Hr' Hf ltac:(rewrite H2; lia)) as (I1 & I2 & I3 & (new' & out' & I4 & I4' & I5 & I5') & I6 & I7).
  cbn zeta. unfold other_calls in *. rewrite I1, I3, H1, H2. split_and!; try done.
  - exists (new ++ new')%list, (out ++ out')%list.
    split_and!; [by rewrite I4, H3, app_assoc|by rewrite I4', H3', app_assoc|by eapply env_step_trans|by apply role_app].
  - unfold takeable, calls_coming, q_of in *. rewrite H2 in *. cbn [length]. lia.
  - intros Hh Hi. apply Forall_cons_1 in Hh as [Hh1 Hh]. apply I7; [done|].
    apply (env_step_undisturbed (q_of r s) _ new out); auto.
Qed.

(** One event of others. *)
Lemma others_onward s calls rest : ready r s -> coming s = Others calls :: rest ->
  onward r s (other_calls (with_coming s rest) calls)
  /\ coming (other_calls (with_coming s rest) calls) = rest.
Proof.
  intros Hr Hc. pose proof (rd_allowed _ _ _ Hr) as Hfed. pose proof (rd_fits _ _ _ Hr) as Hfit.
  rewrite Hc in Hfed, Hfit. apply Forall_cons_1 in Hfed as [Hcalls Hrest].
  cbn [offered_coming foldr offered_by allowed] in *. change (foldr _ 0 rest) with (offered_coming r rest) in Hfit.
  assert (ready r (with_coming s rest)) as Hr'.
  { destruct Hr as [R1 R2 R3 R4]. constructor; try done. cbn [coming with_coming].
    change (q_of r (with_coming s rest)) with (q_of r s). lia. }
  destruct (other_calls_onward calls (with_coming s rest) Hr' Hcalls) as (H1 & H2 & H3 & H4 & H5 & H6).
  { change (q_of r (with_coming s rest)) with (q_of r s). cbn [coming with_coming]. lia. }
  split; [|done]. constructor; try done; rewrite ?H3; cbn [coming with_coming].
  - rewrite Hc. cbn. lia.
  - unfold takeable, calls_coming in *. rewrite H3 in *. cbn [coming with_coming store] in *. rewrite Hc. cbn. lia.
  - intros [U1 U2]. rewrite Hc in U1. apply Forall_cons_1 in U1 as [U1 U3]. constructor; [by rewrite H3|by apply H6].
Qed.

Lemma interfere_onward s : ready r s -> onward r s (interfere s).
Proof.
  intros Hr. unfold interfere. destruct (coming s) as [|[calls|e] rest] eqn:Hc; try by apply onward_refl.
  by apply others_onward.
Qed.

(** It uses up what was to come first, when that was done by others. *)
Lemma interfere_events s : ready r s ->
  (length (coming (interfere s)) < length (coming s))%nat
  \/ interfere s = s /\ (coming s = [] \/ exists e rest, coming s = Interrupt e :: rest).
Proof.
  intros Hr. unfold interfere. destruct (coming s) as [|[calls|e] rest] eqn:Hc.
  - right. by split; [|left].
  - left. destruct (others_onward s calls rest Hr Hc) as [_ ->]. cbn. lia.
  - right. split; [done|]. right. by eexists _, _.
Qed.

(** A call of the fiber's that takes nothing and queues nothing. *)
Definition calm {A} (m : St World A) : Prop := forall s, ready r s -> onward r s (with_store s (m (store s)).2).

Lemma access_run {A} (m : St World A) s :
  access m s = (Done (m (store (interfere s))).1, with_store (interfere s) (m (store (interfere s))).2).
Proof. unfold access. by destruct (m _). Qed.

Lemma access_onward {A} (m : St World A) s : ready r s -> calm m -> onward r s (access m s).2.
Proof.
  intros Hr Hm. rewrite access_run. pose proof (interfere_onward s Hr) as Hi.
  eapply onward_trans; [exact Hi|]. apply Hm, Hi.
Qed.

Lemma calm_same {A} (m : St World A) : (forall w, get_queue (m w).2 r = get_queue w r) -> calm m.
Proof. intros Hm s Hr. by apply onward_store. Qed.

Lemma calm_fresh : calm fresh.
Proof. apply calm_same. by destruct r. Qed.

Lemma calm_read {A} (f : World -> A) : calm (read f).
Proof. by apply calm_same. Qed.

(** A method of the queue that at most parks or lets go of a waiter. *)
Lemma calm_waiter {A} r' (m : St ResponseStream A) :
  (forall q, exists v, (m q).2 = set_waiter q v) -> calm (on_queue r' m).
Proof.
  intros Hm s Hr. destruct (decide (r' = r)) as [->|Hne].
  - destruct (Hm (q_of r s)) as (v & Hv). apply (onward_waiter s _ v Hr). by rewrite get_on_queue.
  - apply onward_store; [done|]. by rewrite get_on_queue_ne.
Qed.

Lemma set_waiter_same q : set_waiter q (waiter q) = q.
Proof. by destruct q. Qed.

Lemma calm_park r' v : calm (on_queue r' (park v)).
Proof.
  apply calm_waiter. intros q. unfold park. case_match; [exists (waiter q)|by eexists]. by rewrite set_waiter_same.
Qed.

Lemma calm_park_writer r' v : calm (on_queue r' (park_writer v)).
Proof.
  apply calm_waiter. intros q. unfold park_writer. case_match; [exists (waiter q)|by eexists]. by rewrite set_waiter_same.
Qed.

Lemma calm_unpark r' : calm (do* on_queue r' unpark in st_ret tt).
Proof. intros s Hr. rewrite bind_run. apply (calm_waiter r' unpark); [|done]. intros q. by eexists. Qed.

(** ** Waiting *)

Lemma wait_until_onward r' v evs s : ready r s -> coming s = evs ->
  let '(o, s') := wait_until r' v evs s in
  onward r s s' /\ o <> Spinning
  /\ (o = Waiting -> coming s' = [] /\ waiter (q_of r' s') = Some v)
  /\ (undisturbed r s -> forall e, o <> Raised e)
  /\ (waiter (q_of r' s) = Some v -> o = Done tt -> (length (coming s') < length (coming s))%nat).
Proof.
  revert s. induction evs as [|e evs IH]; intros s Hr Hc; cbn [wait_until].
  all: assert (with_coming s (coming s) = s) as Hs by (by destruct s).
  all: case_bool_decide as Hw; rewrite <- ?Hc, ?Hs.
  - split_and!; try done. by apply onward_refl.
  - split_and!; try done. by apply onward_refl.
  - destruct e as [calls|e].
    + destruct (others_onward s calls evs Hr Hc) as [Ho Hc'].
      pose proof (IH _ (on_ready _ _ _ _ Ho) Hc') as Hi. destruct (wait_until _ _ _ _) as [o s'].
      destruct Hi as (I1 & I2 & I3 & I5 & I4). split_and!; try done; [by eapply onward_trans| |].
      { intros Hu. apply I5, Ho, Hu. }
      intros _ Hd. pose proof (on_events _ _ _ _ I1) as Hl. rewrite Hc' in Hl. rewrite Hc. cbn. lia.
    + assert (undisturbed r s -> False) as Hno.
      { intros [U1 _]. rewrite Hc in U1. by apply Forall_cons_1 in U1 as [[] _]. }
      split_and!; try done. destruct Hr as [R1 R2 R3 R4].
      rewrite Hc in R2, R3. cbn in R2. apply Forall_cons_1 in R3 as [_ R3].
      constructor; try done; cbn [coming with_coming].
      * exists [], []. rewrite !app_nil_r. split_and!; try done; [by apply env_step_refl|apply role_nil].
      * rewrite Hc. cbn. lia.
      * unfold takeable, calls_coming. cbn [coming with_coming store]. rewrite Hc. cbn. lia.
  - split_and!; try done. by apply onward_refl.
Qed.

(** [Park.on]: it ends, waits with its place in the queue taken, or raises; a turn that
    used up nothing found something to read. *)
Lemma park_on_onward r' park_ unpark_ s : ready r s -> (forall v, calm (park_ v)) -> calm unpark_ ->
  (forall v w, (park_ v w).1 = true -> waiter (get_queue (park_ v w).2 r') = Some v) ->
  let '(o, s') := park_on r' park_ unpark_ s in
  onward r s s' /\ o <> Spinning
  /\ (o = Waiting -> coming s' = [] /\ exists v, waiter (q_of r' s') = Some v)
  /\ (undisturbed r s -> forall e, o <> Raised e)
  /\ (o = Done tt -> (length (coming s') < length (coming s))%nat
      \/ exists v w, (park_ v w).1 = false /\ get_queue w r = q_of r s).
Proof.
  intros Hr Hpark Hunpark Hplace. unfold park_on. rewrite fbind_run, access_run.
  pose proof (access_onward fresh s Hr calm_fresh) as H1. rewrite access_run in H1. cbn [fst snd] in *.
  set (v := (fresh _).1). set (s1 := with_store _ _) in *. rewrite fbind_run, access_run.
  pose proof (access_onward (park_ v) s1 (on_ready _ _ _ _ H1) (Hpark v)) as H2. rewrite access_run in H2. cbn [fst snd] in *.
  set (s2 := with_store (interfere s1) _) in *.
  assert (onward r s s2) as H12 by (by eapply onward_trans).
  assert (coming s2 = coming (interfere s1)) as Hc2 by done.
  destruct (park_ v (store (interfere s1))).1 eqn:Ep.
  - specialize (Hplace v _ Ep).
    pose proof (wait_until_onward r' v (coming s2) s2 (on_ready _ _ _ _ H2) eq_refl) as Hw.
    unfold ensure, wait. destruct (wait_until _ _ _ _) as [o s3]. destruct Hw as (W1 & W2 & W3 & W5 & W4).
    assert (undisturbed r s -> forall e, o <> Raised e) as Hu by (intros Hu; apply W5, H12, Hu).
    assert (onward r s s3) as H13 by (by eapply onward_trans).
    pose proof (access_onward unpark_ s3 (on_ready _ _ _ _ W1) Hunpark) as H4. rewrite access_run in H4. cbn [snd] in H4.
    destruct o as [[]|e| |]; try done; rewrite ?fbind_run, ?access_run; cbn [st_ret done raise].
    + split_and!; try done; [by eapply onward_trans|]. intros _. left.
      pose proof (on_events _ _ _ _ H4). pose proof (on_events _ _ _ _ H12).
      specialize (W4 Hplace eq_refl). lia.
    + split_and!; try done. by eapply onward_trans.
    + split_and!; try done. intros _. destruct W3 as [W3 W6]; [done|]. split; [done|by exists v].
  - cbn [done st_ret]. split_and!; try done. intros _.
    destruct (interfere_events s Hr) as [Hl|[Hl _]].
    { left. pose proof (on_events _ _ _ _ H2) as He. assert (coming s1 = coming (interfere s)) as E1 by done.
      rewrite E1 in He. lia. }
    destruct (interfere_events s1 (on_ready _ _ _ _ H1)) as [Hl1|[Hl1 _]].
    { left. rewrite Hc2. pose proof (on_events _ _ _ _ H1). lia. }
    right. exists v, (store (interfere s1)). split; [done|]. rewrite Hl1. unfold s1. rewrite Hl.
    unfold fresh. cbn [snd store with_store]. by destruct r.
Qed.

End onward.

#[export] Hint Resolve calm_fresh calm_read calm_park calm_park_writer calm_unpark : ruvoy.

#[export] Hint Resolve role_nil : ruvoy.

Abbreviation ready := (ready_as reader).
Abbreviation onward := (onward_as reader).

(** ** Reading a chunk *)

Section reading.
Context `{RubyVM} `{!QuietLookup} {O : Type} (c : Source).
Let r := source_queue c.
Implicit Types s : Fiber O.

Lemma upstream_error_queue e w r' : get_queue (upstream_error e w).2 r' = get_queue w r'.
Proof.
  unfold upstream_error. pose proof (const_get_queue "Ruvoy" w r') as H1.
  destruct (const_get "Ruvoy" w) as [[v|x] w1]; cbn in *; [|done].
  pose proof (const_get_queue (upstream_error_class e) w1 r') as H2.
  destruct (const_get _ w1) as [[v'|x] w2]; cbn in *; congruence.
Qed.

Lemma source_woken_queue w r' : get_queue (source_woken c w).2 r' = get_queue w r'.
Proof. unfold source_woken. destruct (source_waker c); [|done]. by destruct r'. Qed.

(** What a call of [next_chunk] took, after what the others did. *)
Definition took (s' : Fiber O) (i : option StreamItem) (s : Fiber O) : Prop :=
  object s = object s' /\ arrived s = arrived s' /\ coming s = coming s'
  /\ match i with
     | Some i => exists rest, items (q_of r s') = i :: rest /\ items (q_of r s) = rest
         /\ cancelled (q_of r s) = cancelled (q_of r s') /\ ended (q_of r s) = ended (q_of r s')
     | None => q_of r s = q_of r s' /\ items (q_of r s) = []
     end.

Definition chunk_outcome (i : option StreamItem) (o : Outcome (option bytes)) : Prop :=
  match i with
  | Some (Chunk b) => o = Done (Some b)
  | Some (Failed _) => exists e, o = Raised e
  | _ => o = Done None
  end.

Lemma source_next_spec s : ready r s ->
  let '(o, s') := source_next c s in
  exists s1 i, onward r s s1 /\ took s1 i s' /\ ready r s' /\ chunk_outcome i o
    /\ (undisturbed r s1 -> undisturbed r s' /\ forall e, o <> Raised e).
Proof.
  intros Hr. unfold source_next, access_raising. rewrite fbind_run, access_run.
  pose proof (interfere_onward r s Hr) as Ho. set (s1 := interfere s) in *. clearbody s1.
  destruct (on_ready _ _ _ _ Ho) as [R1 R2 R3 R4]. cbn [reader role_ok] in R4. unfold next_chunk_of. rewrite !bind_run. fold r.
  set (w2 := (on_queue r take_next (store s1)).2).
  assert (get_queue w2 r = (take_next (q_of r s1)).2) as Hq by (unfold w2; by rewrite get_on_queue).
  rewrite on_queue_fst. change (get_queue (store s1) r) with (q_of r s1).
  pose proof (take_next_wf _ R1) as Hwf. unfold take_next in *. rewrite R4 in *.
  destruct (items (q_of r s1)) as [|i rest] eqn:Ei; cbn [fst snd] in *.
  - cbn [ok st_ret fst snd done]. exists s1, None. split_and!; try done.
    + unfold took, q_of. cbn [object arrived coming store with_store]. rewrite Hq. by rewrite Ei.
    + constructor; unfold q_of; cbn [store coming with_store]; by rewrite ?Hq.
    + intros [U1 U2]. split; [|done]. constructor; [done|]. unfold q_of. cbn [store with_store]. by rewrite Hq.
  - rewrite bind_run.
    assert (forall w3 (o : Outcome (option bytes)), get_queue w3 r = get_queue w2 r -> chunk_outcome (Some i) o ->
      exists s2 j, onward r s s2 /\ took s2 j (with_store s1 w3) /\ ready r (with_store s1 w3) /\ chunk_outcome j o
        /\ (undisturbed r s2 -> undisturbed r (with_store s1 w3) /\ forall e, o <> Raised e)) as Hgo.
    { intros w3 o H3 Hc. exists s1, (Some i). split_and!; try done.
      3: { intros [U1 U2]. rewrite Ei in U2. apply Forall_cons_1 in U2 as [U2 U3]. split.
           - constructor; [done|]. unfold q_of. cbn [store with_store]. by rewrite H3, Hq.
           - destruct i; cbn in Hc, U2; try discriminate U2; intros e; by rewrite Hc. }
      - unfold took, q_of. cbn [object arrived coming store with_store]. rewrite H3, Hq. split_and!; try done.
        exists rest. split_and!; try done.
      - constructor; unfold q_of; cbn [store coming with_store]; rewrite ?H3, ?Hq; try done.
        cbn [set_items buffered_bytes]. assert (forall a b : N, saturating_sub a b <= a) as Hs by (unfold saturating_sub; lia).
        destruct i as [| b | |]; try done. specialize (Hs (buffered_bytes (q_of r s1)) (len b)). lia. }
    destruct i as [h|b| |e]; cbn [ok fails st_ret fst snd done].
    + apply Hgo; [apply source_woken_queue|done].
    + apply Hgo; [apply source_woken_queue|done].
    + apply Hgo; [apply source_woken_queue|done].
    + rewrite !bind_run. cbn [fails st_ret fst snd raise]. apply Hgo; [|by eexists].
      rewrite upstream_error_queue. apply source_woken_queue.
Qed.

End reading.

(** ** Readers

    [pulled] is what an object has taken from its source so far, in order. *)

Section readers.
Context {O : Type} (r : QRef) (pulled : O -> bytes).
Implicit Types s : Fiber O.

(** What is left that a loop may use up. *)
Definition left_to_do (s : Fiber O) : nat := length (coming s) + takeable r s.

(** Bytes move from the queue to the reader, none is lost unless the queue is cancelled,
    and once it is finished the reader has everything. *)
Record later (s s' : Fiber O) : Prop := {
  lt_pulled : pulled (object s) `prefix_of` pulled (object s');
  lt_finished : is_finished (q_of r s) = true ->
    is_finished (q_of r s') = true /\ pulled (object s') = pulled (object s);
  lt_arrived : exists new, arrived_at r s' = (arrived_at r s ++ new)%list
    /\ (cancelled (q_of r s) = true -> new = [])
    /\ (pulled (object s') ++ queued_bytes (items (q_of r s')))%list
       `prefix_of` (pulled (object s) ++ queued_bytes (items (q_of r s)) ++ queued_bytes new)%list
    /\ (cancelled (q_of r s') = false ->
        (pulled (object s') ++ queued_bytes (items (q_of r s'))
         = pulled (object s) ++ queued_bytes (items (q_of r s)) ++ queued_bytes new)%list);
  lt_cancelled : cancelled (q_of r s) = true -> cancelled (q_of r s') = true;
  lt_left : (left_to_do s' <= left_to_do s)%nat;
  lt_still : left_to_do s' = left_to_do s -> pulled (object s') = pulled (object s);
}.

#[export] Instance later_refl : Reflexive later.
Proof. intros s. constructor; try done. exists []. rewrite !app_nil_r. by split_and!. Qed.

#[export] Instance later_trans : Transitive later.
Proof.
  intros s1 s2 s3 [A1 A2 (n1 & A3 & A7 & A8 & A4) A5 A6 A9] [B1 B2 (n2 & B3 & B7 & B8 & B4) B5 B6 B9].
  constructor; try lia; auto; [| | |intros Hl; rewrite B9, A9 by lia; done].
  - by etransitivity.
  - intros Hf. destruct (A2 Hf) as [Hf2 E2]. destruct (B2 Hf2) as [Hf3 E3]. by rewrite E3.
  - exists (n1 ++ n2)%list. autorewrite with len. split_and!; [by rewrite B3, A3, app_assoc| | |].
    + intros Hc. by rewrite A7, B7 by auto.
    + destruct (cancelled (q_of r s2)) eqn:E2.
      * rewrite (B7 eq_refl) in *. change (queued_bytes []) with (@nil byte) in *. rewrite !app_nil_r in *.
        by etransitivity.
      * rewrite app_assoc, A4 in B8 by done. by rewrite <- !app_assoc in B8.
    + intros Hc. rewrite B4 by done. destruct (cancelled (q_of r s2)) eqn:E2; [by rewrite B5 in Hc|].
      rewrite app_assoc, A4 by done. by rewrite <- !app_assoc.
Qed.

Lemma finished_queue q : stream_wf q -> is_finished q = true -> queued_bytes (items q) = [] /\ settled q = true.
Proof.
  intros Hwf Hf. unfold is_finished, settled in *. apply orb_true_iff in Hf as [Hf|Hf].
  - by rewrite (wf_cancelled _ Hwf Hf), Hf.
  - apply andb_true_iff in Hf as [-> Hb]. rewrite orb_true_r. split; [|done]. apply len_0_nil.
    rewrite <- (wf_buffered _ Hwf). lia.
Qed.

Lemma finished_by q : stream_wf q -> queued_bytes (items q) = [] -> settled q = true -> is_finished q = true.
Proof.
  intros Hwf Hb Hs. unfold is_finished, settled in *. rewrite (wf_buffered _ Hwf), Hb.
  by destruct (cancelled q), (ended q).
Qed.

Lemma onward_later s s' : ready r s -> onward r s s' -> later s s'.
Proof.
  intros Hr [A1 (new & out & A2 & A2' & A3 & A3') A4 A5 A6]. pose proof (rd_wf _ _ _ Hr) as Hwf.
  cbn [role_logs reader] in A3'. subst out. pose proof (es_items _ _ _ _ A3) as Hitems. cbn [app] in Hitems.
  constructor; rewrite ?A1; try done; [| |by apply A3|unfold left_to_do; lia].
  - intros Hf. split; [|done]. destruct (finished_queue _ Hwf Hf) as [Hb Hs].
    apply finished_by; [apply A3| |].
    + destruct (cancelled (q_of r s')) eqn:Ec; [by rewrite (wf_cancelled _ (es_wf _ _ _ _ A3) Ec)|].
      by rewrite Hitems, (es_settled _ _ _ _ A3 Hs), app_nil_r.
    + unfold settled in *. apply orb_true_iff in Hs as [Hs|Hs];
        [by rewrite (es_cancelled _ _ _ _ A3 Hs)|by rewrite (es_ended _ _ _ _ A3 Hs), orb_true_r].
  - assert (cancelled (q_of r s') = false -> queued_bytes (items (q_of r s'))
      = (queued_bytes (items (q_of r s)) ++ queued_bytes new)%list) as Heq.
    { intros Hc. rewrite Hitems by done. by autorewrite with len. }
    exists new. split_and!; [done| | |by intros Hc; rewrite Heq].
    + intros Hc. apply (es_settled _ _ _ _ A3). unfold settled. by rewrite Hc.
    + destruct (cancelled (q_of r s')) eqn:Ec; [|by rewrite Heq].
      rewrite (wf_cancelled _ (es_wf _ _ _ _ A3) Ec). change (queued_bytes []) with (@nil byte). rewrite app_nil_r.
      by apply prefix_app_r.
Qed.

(** An item taken, and what the reader did with it. *)
Lemma took_later c s1 i s2 o : source_queue c = r -> ready r s1 -> took c s1 i s2 -> ready r s2 ->
  pulled o = (pulled (object s1) ++ default [] (item_bytes <$> i))%list ->
  later s1 (with_object s2 o) /\ (is_Some i -> (left_to_do (with_object s2 o) < left_to_do s1 /\ takeable r s2 < takeable r s1)%nat).
Proof.
  intros Hc Hr (T1 & T2 & T3 & T4) Hr2 Hp. pose proof (rd_wf _ _ _ Hr) as Hwf. pose proof (rd_wf _ _ _ Hr2) as Hwf2.
  rewrite Hc in T4. assert (q_of r (with_object s2 o) = q_of r s2) as Eq by done.
  assert (arrived_at r (with_object s2 o) = arrived_at r s1) as Ea by (unfold arrived_at; cbn; by rewrite T2).
  assert (forall k, length (items (q_of r s1)) = (k + length (items (q_of r s2)))%nat ->
    left_to_do s1 = (k + left_to_do (with_object s2 o))%nat /\ takeable r s1 = (k + takeable r s2)%nat) as Hleft.
  { intros k. unfold left_to_do, takeable, calls_coming, q_of. cbn [coming store with_object]. rewrite T3. lia. }
  destruct i as [i|]; cbn [default fmap option_fmap option_map] in Hp.
  - destruct T4 as (rest & I1 & I2 & I3 & I4). specialize (Hleft 1%nat ltac:(rewrite I1, I2; cbn; lia)).
    split; [|lia]. constructor; rewrite ?Eq; cbn [object with_object].
    + rewrite Hp. by apply prefix_app_r.
    + intros Hf. destruct (finished_queue _ Hwf Hf) as [Hb Hs]. rewrite I1, queued_bytes_cons in Hb.
      apply app_eq_nil in Hb as [Hb1 Hb2]. rewrite Hp. change (id ?x) with x. rewrite Hb1, app_nil_r. split; [|done].
      apply finished_by; [done|by rewrite I2|]. unfold settled in *. by rewrite I3, I4.
    + exists []. rewrite Ea, app_nil_r. rewrite Hp, I1, I2, queued_bytes_cons.
      change (queued_bytes []) with (@nil byte). rewrite app_nil_r, <- app_assoc. by split_and!.
    + by rewrite I3.
    + lia.
    + lia.
  - destruct T4 as [I1 I2]. rewrite app_nil_r in Hp. specialize (Hleft 0%nat ltac:(by rewrite I1)).
    split; [|by intros []]. constructor; rewrite ?Eq, ?I1; cbn [object with_object]; rewrite ?Hp; try done.
    + exists []. rewrite Ea, !app_nil_r. by split_and!.
    + lia.
Qed.

End readers.

(** ** Loops that read

    [fine] is what reading keeps of the object, beside what it has pulled. *)

Section filling.
Context `{RubyVM} `{!QuietLookup} {O : Type} (c : Source) (pulled : O -> bytes)
  (good : O -> Prop) (fine : O -> O -> Prop) `{!PreOrder fine}.
Context (fine_good : forall o o', good o -> fine o o' -> good o').
(** [over]: the object asks for no more. *)
Context (over : O -> Prop) (over_fine : forall o o', over o -> fine o o' -> over o').
Let r := source_queue c.
Implicit Types s : Fiber O.

Record reading s : Prop := {
  rg_ready : ready r s;
  rg_good : good (object s);
}.

(** The reader has gone on: it may have pulled more, and nothing else. *)
Record went s s' : Prop := {
  wt_later : later r pulled s s';
  wt_ready : ready r s';
  wt_fine : fine (object s) (object s');
  wt_undisturbed : undisturbed r s -> undisturbed r s';
}.

Lemma went_refl s : ready r s -> went s s.
Proof. by constructor. Qed.

Lemma went_trans s1 s2 s3 : went s1 s2 -> went s2 s3 -> went s1 s3.
Proof. intros [A1 A2 A3 A4] [B1 B2 B3 B4]. constructor; [by etransitivity|done|by etransitivity|auto]. Qed.

Lemma went_reading s s' : reading s -> went s s' -> reading s'.
Proof. intros [H1 H2] [W1 W2 W3 W4]. constructor; [done|by eapply fine_good]. Qed.

Lemma onward_went s s' : ready r s -> onward r s s' -> went s s'.
Proof. intros Hs Ho. constructor; try apply Ho; [by apply onward_later|by rewrite (on_object _ _ _ _ Ho)]. Qed.

(** How a piece of code that waits at most in the queue may end. *)
Definition quiet_waiting {A} (o : Outcome A) s : Prop :=
  o = Waiting -> coming s = [] /\ exists v, waiter (q_of r s) = Some v.

Definition no_raise {A} (o : Outcome A) s : Prop := undisturbed r s -> forall e, o <> Raised e.

(** What is raised while the object still asks for more. *)
Definition raised_asking {A} (o : Outcome A) s : Prop := forall e, o = Raised e -> ~ over (object s).

(** What a chunk is kept in. *)
Definition keeps_chunk (keep_ : bytes -> Fib O unit) : Prop := forall b s, good (object s) ->
  exists o, keep_ b s = (Done tt, with_object s o) /\ fine (object s) o /\ pulled o = (pulled (object s) ++ b)%list.

Lemma pull_loop_spec keep_ fuel s : keeps_chunk keep_ -> reading s -> (takeable r s < fuel)%nat ->
  let '(o, s') := pull_loop keep_ fuel c s in
  went s s' /\ o <> Spinning /\ o <> Waiting /\ no_raise o s
  /\ (o = Done tt -> (left_to_do r s' < left_to_do r s)%nat \/ items (q_of r s') = []).
Proof.
  intros Hkeep. revert s. induction fuel as [|fuel IH]; intros s Hs Hf; [lia|]. cbn [pull_loop]. rewrite fbind_run.
  pose proof (source_next_spec c s (rg_ready _ Hs)) as Hn. destruct (source_next c s) as [o s1].
  destruct Hn as (s0 & i & Ho & Ht & Hr1 & Hi & Hu). fold r in Ho, Hr1, Hu.
  assert (forall e, undisturbed r s -> o <> Raised e) as Hne by (intros e Hs0; by apply Hu, Ho).
  pose proof (onward_went _ _ (rg_ready _ Hs) Ho) as W0. pose proof Ht as (T1 & _ & _ & T4).
  pose proof (went_reading _ _ Hs W0) as [S1 S2].
  (* an item without bytes leaves the object as it was *)
  assert (default [] (item_bytes <$> i) = [] -> went s s1 /\ (is_Some i -> (left_to_do r s1 < left_to_do r s)%nat)) as Hsame.
  { intros Hd. assert (with_object s1 (object s0) = s1) as E1 by (rewrite <- T1; by destruct s1).
    destruct (took_later r pulled c s0 i s1 (object s0) eq_refl S1 Ht Hr1 ltac:(by rewrite Hd, app_nil_r)) as [L1 L2].
    rewrite E1 in *. split.
    - eapply went_trans; [exact W0|]. constructor; [done|done|by rewrite T1|by apply Hu].
    - intros Hi'. pose proof (lt_left _ _ _ _ (wt_later _ _ W0)). destruct (L2 Hi'). lia. }
  destruct i as [[h|b| |e]|]; cbn [chunk_outcome] in Hi; try (destruct Hsame as [W1 L1]; [done|]).
  - subst o. cbn [done st_ret]. split_and!; try done. intros _. left. apply L1. by eexists.
  - subst o. destruct (Hkeep b s1 ltac:(by rewrite T1)) as (o' & K1 & K2 & K3). rewrite T1 in K2, K3.
    destruct (took_later r pulled c s0 _ s1 o' eq_refl S1 Ht Hr1 K3) as [L1 L2].
    destruct (L2 ltac:(by eexists)) as [L3 L4].
    assert (went s0 (with_object s1 o')) as W1.
    { constructor; [done|by destruct Hr1|done|intros Hd; by destruct (proj1 (Hu Hd))]. }
    rewrite fbind_run, K1. pose proof (on_takeable _ _ _ _ Ho). pose proof (lt_left _ _ _ _ (wt_later _ _ W0)).
    assert (went s (with_object s1 o')) as W2 by (by eapply went_trans).
    specialize (IH (with_object s1 o') (went_reading _ _ Hs W2)).
    change (takeable r (with_object s1 o')) with (takeable r s1) in IH. specialize (IH ltac:(lia)).
    destruct (pull_loop keep_ fuel c (with_object s1 o')) as [o s2]. destruct IH as (I1 & I2 & I3 & I5 & I4).
    split_and!; try done.
    + by eapply went_trans.
    + intros Hs0. by apply I5, W2.
    + intros _. left. pose proof (lt_left _ _ _ _ (wt_later _ _ I1)). lia.
  - subst o. cbn [done st_ret]. split_and!; try done. intros _. left. apply L1. by eexists.
  - destruct Hi as (x & ->). split_and!; try done. intros Hud e0 [= <-]. by apply (Hne x Hud).
  - subst o. cbn [done st_ret]. split_and!; try done. intros _. right. by destruct T4.
Qed.

(** What [fill] needs of its parts: to drain, to look, to wait. *)
Definition drains (drain : Fib O unit) : Prop := forall s, reading s ->
  let '(o, s') := drain s in
  went s s' /\ o <> Spinning /\ o <> Waiting /\ no_raise o s /\ raised_asking o s'
  /\ (o = Done tt -> (left_to_do r s' < left_to_do r s)%nat \/ items (q_of r s') = [] \/ over (object s')).

Definition waits (wait_ : Fib O unit) : Prop := forall s, reading s ->
  let '(o, s') := wait_ s in
  onward r s s' /\ o <> Spinning /\ quiet_waiting o s' /\ no_raise o s
  /\ (o = Done tt -> (length (coming s') < length (coming s))%nat
      \/ exists v w, (on_queue r (park v) w).1 = false /\ get_queue w r = q_of r s).

(** The block looks at the object, and goes on only while the source is not finished. *)
Definition looks {L} (block : L -> Fib O (L * bool)) (P Q : L -> Fiber O -> Prop) : Prop := forall l s,
  reading s -> P l s ->
  let '(o, s') := block l s in
  went s s' /\ ((left_to_do r s' < left_to_do r s)%nat \/ q_of r s' = q_of r s)
  /\ match o with
     | Done (l', true) => Q l' s'
     | Done (l', false) => P l' s' /\ is_finished (q_of r s') = false /\ ~ over (object s')
     | _ => False
     end.

Lemma pull_drains keep_ : (forall o, ~ over o) -> keeps_chunk keep_ -> drains (pull keep_ c).
Proof.
  intros Hover Hk s Hs. pose proof (pull_loop_spec keep_ (S (takeable r s)) s Hk Hs (Nat.lt_succ_diag_r _)) as Hp.
  unfold pull. fold r. destruct (pull_loop keep_ _ c s) as [o s']. destruct Hp as (P1 & P2 & P3 & P4 & P5).
  split_and!; try done; [by intros e _|]. intros Hd. destruct (P5 Hd) as [|]; [by left|right; by left].
Qed.

Lemma park_waits : waits (park_source c).
Proof.
  intros s [Hs _]. pose proof (park_on_onward r r (fun v => on_queue r (park v)) (do* on_queue r unpark in st_ret tt) s
    Hs (calm_park r r) (calm_unpark r r)) as Hp.
  unfold park_source. fold r. destruct (park_on _ _ _ s) as [o s']. apply Hp.
  intros v w. rewrite on_queue_fst, get_on_queue. unfold park. by case_match.
Qed.

(** A source that was drained and is not finished makes the reader wait. *)
Lemma wait_progress s1 s2 s3 o : ready r s2 -> items (q_of r s2) = [] -> is_finished (q_of r s2) = false ->
  (length (coming s3) < length (coming s1))%nat \/ (exists v w, (on_queue r (park v) w).1 = o /\ get_queue w r = q_of r s2) ->
  o = false -> (length (coming s3) < length (coming s1))%nat.
Proof.
  intros Hr Hi Hf [?|(v & w & Hpf & Hpq)] ->; [done|]. exfalso. pose proof (rd_wf _ _ _ Hr) as Hwf.
  rewrite on_queue_fst, Hpq in Hpf. unfold park in Hpf. rewrite (wf_buffered _ Hwf), Hi in Hpf. cbn in Hpf.
  unfold is_finished in Hf. rewrite (wf_buffered _ Hwf), Hi in Hf. cbn in Hf.
  by destruct (ended _), (cancelled _).
Qed.

Lemma fill_loop_spec {L} drain wait_ (block : L -> Fib O (L * bool)) P Q fuel l s :
  drains drain -> waits wait_ -> looks block P Q -> (forall l s s', P l s -> went s s' -> P l s') ->
  reading s -> P l s -> (left_to_do r s < fuel)%nat ->
  let '(o, s') := fill_loop fuel drain wait_ block l s in
  went s s' /\ o <> Spinning /\ quiet_waiting o s' /\ no_raise o s /\ raised_asking o s' /\ (forall l', o = Done l' -> Q l' s').
Proof.
  intros Hdrain Hwait Hb Hstable. revert l s. induction fuel as [|fuel IH]; intros l s Hs HP Hf; [lia|]. cbn [fill_loop].
  rewrite fbind_run. pose proof (Hdrain s Hs) as Hp. destruct (drain s) as [o s1].
  destruct Hp as (W1 & Hns & Hnw & Hu1 & Ha1 & Hd). destruct o as [[]|e| |]; try done.
  2: { split_and!; try done; [intros Hu e' [= <-]; by apply (Hu1 Hu e)|intros e' _; by apply (Ha1 e)]. }
  pose proof (went_reading _ _ Hs W1) as Hs1.
  rewrite fbind_run. pose proof (Hb l s1 Hs1 (Hstable _ _ _ HP W1)) as Hl.
  destruct (block l s1) as [o s2]. destruct Hl as (W2 & Hq & Ho).
  pose proof (went_trans _ _ _ W1 W2) as W12.
  destruct o as [[l' [|]]|e| |]; try done.
  { cbn [done st_ret]. split_and!; try done. by intros ? [= <-]. }
  destruct Ho as (HP2 & Hnf & Hno). rewrite fbind_run.
  pose proof (Hwait s2 (went_reading _ _ Hs W12)) as Hpark. destruct (wait_ s2) as [o s3].
  destruct Hpark as (P1 & P2 & P3 & P5 & P4).
  pose proof (onward_went _ _ (wt_ready _ _ W2) P1) as W3. pose proof (went_trans _ _ _ W12 W3) as W13.
  destruct o as [[]|e| |]; try done.
  2: { split_and!; try done; [intros Hu e' [= <-]; by apply (P5 (wt_undisturbed _ _ W12 Hu) e)|].
       intros e' _. by rewrite (on_object _ _ _ _ P1). }
  2: { split_and!; try done. intros _. by apply P3. }
  assert (left_to_do r s3 < left_to_do r s)%nat as Hlt.
  { pose proof (lt_left _ _ _ _ (wt_later _ _ W1)). pose proof (lt_left _ _ _ _ (wt_later _ _ W2)).
    pose proof (on_takeable _ _ _ _ P1). pose proof (on_events _ _ _ _ P1). unfold left_to_do in *.
    destruct Hq as [Hq|Hq]; [lia|]. destruct (Hd eq_refl) as [Hd'|[Hd'|Hd']]; [lia| |].
    2: { destruct Hno. eapply over_fine; [exact Hd'|apply W2]. }
    pose proof (wait_progress s2 s2 s3 false (wt_ready _ _ W2) ltac:(by rewrite Hq) Hnf (P4 eq_refl) eq_refl). lia. }
  specialize (IH l' s3 (went_reading _ _ Hs W13) (Hstable _ _ _ HP2 W3) ltac:(lia)).
  destruct (fill_loop fuel drain wait_ block l' s3) as [o s4]. destruct IH as (I1 & I2 & I3 & I4 & I5 & I6).
  split_and!; try done; [by eapply went_trans|]. intros Hu. apply I4, W13, Hu.
Qed.

Lemma fill_from_spec {L} drain wait_ (block : L -> Fib O (L * bool)) P Q l s :
  drains drain -> waits wait_ -> looks block P Q -> (forall l s s', P l s -> went s s' -> P l s') ->
  reading s -> P l s ->
  let '(o, s') := fill_from c drain wait_ block l s in
  went s s' /\ o <> Spinning /\ quiet_waiting o s' /\ no_raise o s /\ raised_asking o s' /\ (forall l', o = Done l' -> Q l' s').
Proof. intros. apply (fill_loop_spec _ _ _ P Q); try done. apply Nat.lt_succ_diag_r. Qed.

(** [source.finished?] *)
Lemma source_finished_spec s : ready r s ->
  let '(o, s') := source_finished c s in
  onward r s s' /\ ((left_to_do r s' < left_to_do r s)%nat \/ q_of r s' = q_of r s)
  /\ o = Done (is_finished (q_of r s')).
Proof.
  intros Hs. unfold source_finished. rewrite access_run. cbn [read fst snd].
  pose proof (interfere_onward r s Hs) as Ho.
  assert (with_store (interfere s) (store (interfere s)) = interfere s) as -> by (by destruct (interfere s)).
  split_and!; try done. destruct (interfere_events r s Hs) as [Hl|[-> _]]; [left|by right].
  pose proof (on_takeable _ _ _ _ Ho). unfold left_to_do. lia.
Qed.

End filling.

(** ** Single calls *)

(** Asked while nothing happens, an empty queue has no chunk. *)
Lemma source_next_idle `{RubyVM} {O} (c : Source) (s : Fiber O) evs :
  coming s = Others [] :: evs -> items (q_of (source_queue c) s) = [] ->
  exists w, source_next c s = (Done None, with_store (with_coming s evs) w)
    /\ get_queue w (source_queue c) = q_of (source_queue c) s.
Proof.
  intros Hc Hi. unfold source_next, access_raising. rewrite fbind_run, access_run. unfold interfere. rewrite Hc.
  cbn [other_calls foldl store with_coming]. unfold next_chunk_of. rewrite bind_run, on_queue_fst.
  assert (take_next (q_of (source_queue c) s) = (None, q_of (source_queue c) s)) as Ht.
  { unfold take_next. rewrite Hi. by destruct (paused _). }
  unfold q_of in *. rewrite Ht. cbn [fst snd ok st_ret done]. eexists. split; [done|]. by rewrite get_on_queue, Ht.
Qed.

Lemma source_finished_run {O} (c : Source) (s : Fiber O) :
  source_finished c s = (Done (is_finished (q_of (source_queue c) (interfere s))), interfere s).
Proof. unfold source_finished. rewrite access_run. cbn [read fst snd]. by destruct (interfere s). Qed.

Lemma interfere_object {O} (s : Fiber O) : object (interfere s) = object s.
Proof.
  unfold interfere. destruct (coming s) as [|[calls|e] rest]; try done. unfold other_calls.
  transitivity (object (with_coming s rest)); [|done]. generalize (with_coming s rest).
  induction calls as [|x calls IH]; intros s1; [done|]. cbn [foldl]. rewrite IH. by rewrite other_call_eq.
Qed.

(** A failure that nobody has taken yet counts as nothing more to come. *)
Lemma failure_counts_as_end {O} (r : QRef) (s : Fiber O) e evs :
  coming s = Others [(r, OpPush (Failed e))] :: evs ->
  items (q_of r s) = [] -> settled (q_of r s) = false -> buffered_bytes (q_of r s) = 0%N ->
  items (q_of r (interfere s)) = [Failed e] /\ is_finished (q_of r (interfere s)) = true.
Proof.
  intros Hc Hi Hs Hb. unfold interfere. rewrite Hc. cbn [other_calls foldl]. unfold q_of in *. rewrite other_call_eq.
  unfold other_state. cbn [store with_coming fst snd]. rewrite get_on_queue. cbn [impl_step]. unfold push, reply.
  unfold settled in Hs. rewrite Hs. cbn [fst snd set_items items]. unfold is_finished.
  cbn [set_items ended buffered_bytes cancelled]. rewrite Hi, Hb. by rewrite orb_true_r.
Qed.

(** ** Giving a queue up *)

Section giving_up.
Context {role : Role} {O : Type} (r : QRef) (may_cancel : may role OpCancel = true).
Implicit Types s : Fiber O.

(** The fiber cancels the queue itself. *)
Lemma onward_cancel s w : ready_as role r s -> get_queue w r = cancel (q_of r s) -> onward_as role r s (with_store s w).
Proof.
  intros [R1 R2 R3 R4] Hq. assert (q_of r (with_store s w) = cancel (q_of r s)) as Hq' by exact Hq.
  pose proof (cancel_wf _ R1) as Hwf.
  constructor; rewrite ?Hq'; try done.
  - exists [], []. rewrite !app_nil_r. split_and!; try done; [|apply role_nil]. by apply env_step_still.
  - constructor; rewrite ?Hq'; try done; [cbn [cancel buffered_bytes coming with_store]; lia|].
    by apply (role_step role OpCancel (q_of r s)).
  - unfold takeable. cbn [store with_store]. rewrite Hq. cbn [cancel items length]. unfold calls_coming. cbn [coming with_store]. lia.
  - intros [U1 U2]. constructor; [done|]. rewrite Hq'. constructor.
Qed.

Lemma calm_cancel {A} (m : St World A) : (forall w, get_queue (m w).2 r = cancel (get_queue w r)) -> calm (O := O) (role := role) r m.
Proof. intros Hm s Hr. by apply onward_cancel. Qed.

End giving_up.

Lemma wake_route_queue n w r : get_queue (wake_route n w).2 r = get_queue w r.
Proof. unfold wake_route, on_route. destruct (routes w !! n) as [u|]; [|done]. cbn. by destruct r. Qed.

(** Both directions of a channel are given up at once. *)
Lemma channel_given_up ch (f : StreamChannel -> StreamChannel) n w r :
  (forall c, response (f c) = cancel (response c) /\ request (f c) = cancel (request c)) ->
  r = ResponseOf ch \/ r = RequestOf ch ->
  get_queue ((do* on_channel ch (modify f) in wake_route n) w).2 r = cancel (get_queue w r).
Proof.
  intros Hf Hr. rewrite bind_run, wake_route_queue. unfold on_channel, modify. cbn [snd].
  destruct (Hf (get_channel w ch)) as [H1 H2].
  destruct Hr as [-> | ->]; cbn [get_queue]; unfold get_channel at 1; cbn [set_channels channels];
    rewrite lookup_insert_eq; cbn [default from_option]; by rewrite ?H1, ?H2.
Qed.

(** The object of a reader that pulled nothing. *)
Lemma went_object {O} (c : Source) (pulled : O -> bytes) (fine : O -> O -> Prop) (s : Fiber O) o :
  ready (source_queue c) s -> pulled o = pulled (object s) -> fine (object s) o -> went c pulled fine s (with_object s o).
Proof.
  intros Hr Hp Hf. assert (q_of (source_queue c) (with_object s o) = q_of (source_queue c) s) as Hq by done.
  constructor; try done; [|by destruct Hr|intros [U1 U2]; by constructor].
  constructor; rewrite ?Hq; cbn [object with_object]; rewrite ?Hp; try done.
  exists []. rewrite !app_nil_r. by split_and!.
Qed.
