(* ===== verification/RackInput.v ===== *)
(** * [rack.input] ([src/ruby/request_body.rb])

    The request's body as the application reads it while it still arrives: every byte
    pulled from the client is kept, in memory up to a limit and in a temporary file
    beyond it, so that the input can be rewound.  The specification is a string and a
    position in it: whatever the schedule, every read answers as if the whole body had
    been there from the start. *)

From S2P Require Import Prelude RustStr Types Stream StreamTrace World Ruby Chunks Fibers.

Local Open Scope Z_scope.

Definition READ_SIZE : Z := 64 * 1024.
Definition KEPT_IN_MEMORY : Z := 128 * 1024.

#[global] Opaque READ_SIZE KEPT_IN_MEMORY.

(** ** Strings of bytes *)

Definition zlen (b : bytes) : Z := Z.of_nat (length b).

(** [String#byteslice(offset, length)] and [IO#pread], within the string. *)
Definition slice (offset length_ : Z) (b : bytes) : bytes := take (Z.to_nat length_) (drop (Z.to_nat offset) b).

Fixpoint is_prefix (p b : bytes) : bool :=
  match p, b with
  | [], _ => true
  | x :: p, y :: b => bool_decide (x = y) && is_prefix p b
  | _ :: _, [] => false
  end.

(** [String#index], of a string of bytes. *)
Fixpoint index_of (needle b : bytes) : option nat :=
  if is_prefix needle b then Some 0%nat
  else match b with
       | [] => None
       | _ :: b => S <$> index_of needle b
       end.

(** ** The input *)

(** [Tempfile.create(anonymous: true)]; writing and reading it past [close] raises. *)
Record Tempfile := { content : bytes; is_open : bool }.

Record RackInput := {
  chunks : option Source;
  kept : option bytes;
  file : option Tempfile;
  size : Z;
  position : Z;
}.

Definition input_new (source : Source) : RackInput :=
  {| chunks := Some source; kept := Some []; file := None; size := 0; position := 0 |}.

Definition set_position (i : RackInput) (p : Z) : RackInput :=
  {| chunks := chunks i; kept := kept i; file := file i; size := size i; position := p |}.
Definition set_chunks (i : RackInput) (c : option Source) : RackInput :=
  {| chunks := c; kept := kept i; file := file i; size := size i; position := position i |}.
Definition set_file (i : RackInput) (f : option Tempfile) : RackInput :=
  {| chunks := chunks i; kept := kept i; file := f; size := size i; position := position i |}.
Definition set_kept (i : RackInput) (k : option bytes) (f : option Tempfile) (n : Z) : RackInput :=
  {| chunks := chunks i; kept := k; file := f; size := n; position := position i |}.

Definition unread (i : RackInput) : Z := size i - position i.

Definition closed_stream {A} : result A Exn := Err (io_error "closed stream").

(** A result of code that only looks at the object. *)
Definition pure_ {O A} (f : O -> result A Exn) : Fib O A := fun s =>
  (match f (object s) with
   | Ok a => Done a
   | Err e => Raised e
   end, s).

Definition peek (i : RackInput) (offset length_ : Z) : result bytes Exn :=
  let length_ := Z.min length_ (size i - offset) in
  if length_ <=? 0 then Ok []
  else
    match file i with
    | Some f => if is_open f then Ok (slice offset length_ (content f)) else closed_stream
    | None =>
        match kept i with
        | Some b => Ok (slice offset length_ b)
        | None => Err (Standard "NoMethodError" "undefined method 'byteslice' for nil")
        end
    end.

(** [buffer.replace]: what a read returns, and what the buffer it was given holds. *)
Definition into_buffer (buffer : option bytes) (b : bytes) : option bytes * option bytes :=
  (Some b, (fun _ => b) <$> buffer).

Definition take_ (length_ : Z) (buffer : option bytes) : Fib RackInput (option bytes * option bytes) :=
  let! b := pure_ (fun i => peek i (position i) length_) in
  do! change (fun i => set_position i (position i + zlen b)) in
  done (into_buffer buffer b).

(** Where the separator first starts at or after [from], by windows of [READ_SIZE]
    starts; fuel for the bytes left. *)
Fixpoint search_loop (fuel : nat) (i : RackInput) (separator : bytes) (from : Z) : result (option Z) Exn :=
  match fuel with
  | O => Ok None
  | S fuel =>
      if from <? size i then
        let? window := peek i from (READ_SIZE + zlen separator - 1) in
        match index_of separator window with
        | Some index => Ok (Some (from + Z.of_nat index))
        | None => search_loop fuel i separator (from + READ_SIZE)
        end
      else Ok None
  end.

Definition search (i : RackInput) (separator : bytes) (from : Z) : result (option Z) Exn :=
  search_loop (S (Z.to_nat (size i - from))) i separator from.

Definition write_file (f : Tempfile) (b : bytes) : result Tempfile Exn :=
  if is_open f then Ok {| content := content f ++ b; is_open := true |} else closed_stream.

Definition keep (i : RackInput) (chunk : bytes) : result RackInput Exn :=
  let? i :=
    match file i with
    | None =>
        if KEPT_IN_MEMORY <? size i + zlen chunk
        then let? f := write_file {| content := []; is_open := true |} (default [] (kept i)) in
             Ok (set_kept i None (Some f) (size i))
        else Ok i
    | Some _ => Ok i
    end in
  match file i with
  | Some f => let? f := write_file f chunk in Ok (set_kept i (kept i) (Some f) (size i + zlen chunk))
  | None => Ok (set_kept i ((fun b => b ++ chunk) <$> kept i) None (size i + zlen chunk))
  end.

Definition keep_chunk (chunk : bytes) : Fib RackInput unit :=
  let! i := pure_ (fun i => keep i chunk) in set_obj i.

Section input.
Context `{RubyVM}.

(** [loop do while (chunk = @chunks.next_chunk) keep(chunk) end; break if yield;
    Park.on(@chunks) end] *)
Definition fill {L} (block : L -> Fib RackInput (L * bool)) (l : L) : Fib RackInput L :=
  let! i := obj in
  match chunks i with
  | None => raise (io_error "rack.input was handed to the response stream")
  | Some c => fill_from c (pull keep_chunk c) (park_source c) block l
  end.

(** [@chunks.finished?] *)
Definition chunks_finished : Fib RackInput bool :=
  let! i := obj in
  match chunks i with
  | None => raise (Standard "NoMethodError" "undefined method 'finished?' for nil")
  | Some c => source_finished c
  end.

(** [fill { cond || @chunks.finished? }] *)
Definition fill_until (cond : RackInput -> bool) : Fib RackInput unit :=
  fill (fun _ =>
    let! i := obj in
    if cond i then done (tt, true) else let! f := chunks_finished in done (tt, f)) tt.

Definition read_all (buffer : option bytes) : Fib RackInput (option bytes * option bytes) :=
  do! fill_until (fun _ => false) in
  let! i := obj in
  take_ (unread i) buffer.

(** [read(length = nil, buffer = nil)] *)
Definition input_read (length_ : option Z) (buffer : option bytes) : Fib RackInput (option bytes * option bytes) :=
  match length_ with
  | None => read_all buffer
  | Some n =>
      if n <? 0 then raise (argument_error ("negative length " ++ show_Z n))
      else if n =? 0 then done (into_buffer buffer [])
      else
        do! fill_until (fun i => n <=? unread i) in
        let! i := obj in
        if unread i =? 0 then done (None, buffer)
        else take_ (Z.min n (unread i)) buffer
  end.

(** A line with its separator, or what is left.  An empty separator is found wherever
    the search resumes, which depends on what had arrived; encodings of the string given
    to the application are not part of the model. *)
Definition input_gets (separator : option bytes) : Fib RackInput (option bytes) :=
  match separator with
  | None =>
      do! fill_until (fun _ => false) in
      let! i := obj in
      if unread i =? 0 then done None else let! r := take_ (unread i) None in done r.1
  | Some sep =>
      let! i := obj in
      let! (_, found) := fill (fun '(from, _) =>
          let! found := pure_ (fun i => search i sep from) in
          let! i := obj in
          let from := Z.max (size i - zlen sep + 1) (position i) in
          match found with
          | Some _ => done ((from, found), true)
          | None => let! f := chunks_finished in done ((from, found), f)
          end) (position i, None) in
      let! i := obj in
      if unread i =? 0 then done None
      else
        let! r := take_ (match found with
                         | Some at_ => at_ + zlen sep - position i
                         | None => unread i
                         end) None in
        done r.1
  end.

(** What [each] yields, to a block that leaves the input alone; fuel for the bytes there
    may be. *)
Definition bytes_coming (r : QRef) (s : Fiber RackInput) : nat :=
  Z.to_nat (unread (object s)) + length (queued_bytes (items (get_queue (store s) r)))
  + sum_list_with (fun e => match e with
      | Others calls => sum_list_with (fun '(_, op) => N.to_nat (op_bytes op)) calls
      | Interrupt _ => 0%nat
      end) (coming s).

Fixpoint each_loop (fuel : nat) : Fib RackInput (list bytes) :=
  match fuel with
  | O => st_ret Spinning
  | S fuel =>
      let! (chunk, _) := input_read (Some READ_SIZE) None in
      match chunk with
      | Some b => let! rest := each_loop fuel in done (b :: rest)
      | None => done []
      end
  end.

Definition input_each : Fib RackInput (list bytes) := fun s =>
  match chunks (object s) with
  | Some c => each_loop (S (bytes_coming (source_queue c) s)) s
  | None => each_loop 1 s
  end.

Definition input_rewind : Fib RackInput Z :=
  do! change (fun i => set_position i 0) in done 0.

Definition input_close : Fib RackInput unit :=
  change (fun i => set_file i ((fun f => {| content := content f; is_open := false |}) <$> file i)).

(** The bytes pulled and not yet read, and the chunks still to come. *)
Definition input_detach : Fib RackInput (bytes * option Source) :=
  let! i := obj in
  let! leftover := if unread i =? 0 then done [] else let! r := take_ (unread i) None in done (default [] r.1) in
  let! i := obj in
  do! change (fun i => set_chunks i None) in
  do! input_close in
  done (leftover, chunks i).

End input.
