(* ===== verification/RackInputSpec.v ===== *)
(** * [rack.input] against a string

    [matches]: what the reads of an application answer, however its body arrived, is what
    a string holding the whole body and a position in it would have answered. *)

From S2P Require Import Prelude RustStr Types Stream StreamTrace World Ruby Chunks RubyExample Fibers FiberLogic RackInput.

Local Open Scope Z_scope.

(** ** The object *)

(** Every byte pulled so far. *)
Definition body (i : RackInput) : bytes :=
  match file i with
  | Some f => content f
  | None => default [] (kept i)
  end.

Record input_ok (i : RackInput) : Prop := {
  io_size : size i = zlen (body i);
  io_position : 0 <= position i <= size i;
  io_open : forall f, file i = Some f -> is_open f = true;
  io_kept : file i = None -> is_Some (kept i);
}.

Lemma zlen_app a b : zlen (a ++ b) = zlen a + zlen b.
Proof. unfold zlen. rewrite length_app. lia. Qed.

Lemma zlen_nonneg b : 0 <= zlen b.
Proof. unfold zlen. lia. Qed.

Lemma slice_min off n b : 0 <= off ->
  slice off (Z.min n (zlen b - off)) b = slice off n b.
Proof.
  intros Ho. unfold slice, zlen. destruct (Z.le_gt_cases n (Z.of_nat (length b) - off)) as [Hle|Hgt].
  - by rewrite Z.min_l.
  - rewrite Z.min_r by lia. rewrite !take_ge; [done|rewrite length_drop; lia..].
Qed.

Lemma slice_nonpos off n b : n <= 0 -> slice off n b = [].
Proof. intros H. unfold slice. by replace (Z.to_nat n) with 0%nat by lia. Qed.

Lemma peek_ok i off n : input_ok i -> 0 <= off -> peek i off n = Ok (slice off n (body i)).
Proof.
  intros [Hs Hp Ho Hk] Hoff. unfold peek. rewrite Hs. rewrite <- (slice_min off n) by done. unfold body in *.
  destruct (Z.min n _ <=? 0) eqn:E; [rewrite slice_nonpos by lia; done|].
  destruct (file i) as [f|]; [by rewrite Ho|]. by destruct (Hk eq_refl) as (b & ->).
Qed.

Lemma keep_ok i chunk : input_ok i ->
  exists i', keep i chunk = Ok i' /\ input_ok i' /\ body i' = (body i ++ chunk)%list
  /\ chunks i' = chunks i /\ position i' = position i.
Proof.
  intros [Hs Hp Ho Hk]. unfold keep, body in *. pose proof (zlen_nonneg chunk) as Hc.
  destruct (file i) as [f|] eqn:Ef.
  - cbn [result_bind]. rewrite Ef. unfold write_file. rewrite (Ho f eq_refl). cbn [result_bind].
    eexists. split; [done|]. split_and!; try done. constructor; unfold body; cbn; rewrite ?zlen_app; try lia; try done.
    by intros ? [= <-].
  - destruct (Hk eq_refl) as (b & Eb). rewrite Eb in *. cbn [default] in *.
    destruct (KEPT_IN_MEMORY <? _); cbn [result_bind write_file is_open content set_kept file kept app].
    + eexists. split; [done|]. split_and!; try done.
      constructor; unfold body; cbn; rewrite ?zlen_app; unfold id in *; try lia; try done. by intros ? [= <-].
    + rewrite Ef, Eb. eexists. split; [done|]. cbn. split_and!; try done.
      constructor; unfold body; cbn; rewrite ?zlen_app; unfold id in *; try lia; try done.
Qed.

(** ** Filling *)

(** Reading keeps the input one of [c], and moves nothing. *)
Definition input_of (c : Source) (i : RackInput) : Prop := input_ok i /\ chunks i = Some c.

Record filled (c : Source) (i i' : RackInput) : Prop := {
  fl_input : input_of c i -> input_of c i';
  fl_position : position i' = position i;
}.

#[export] Instance filled_preorder c : PreOrder (filled c).
Proof. split; [by constructor|]. intros i1 i2 i3 [A1 A2] [B1 B2]. constructor; [auto|congruence]. Qed.

Section input.
Context `{RubyVM} `{!QuietLookup} (c : Source).
Let r := source_queue c.
Implicit Types s : Fiber RackInput.

Definition never (i : RackInput) : Prop := False.

Definition serving s : Prop := reading c (input_of c) s.
Definition went s s' : Prop := FiberLogic.went c body (filled c) s s'.

Lemma filled_good i i' : input_of c i -> filled c i i' -> input_of c i'.
Proof. intros Hi Hf. by apply Hf. Qed.

Lemma went_serving s s' : serving s -> went s s' -> serving s'.
Proof. apply went_reading, filled_good. Qed.

Lemma wt_position s s' : went s s' -> position (object s') = position (object s).
Proof. intros W. apply (wt_fine _ _ _ _ _ W). Qed.

Lemma sv_ok s : serving s -> input_ok (object s).
Proof. by intros [_ []]. Qed.

Lemma sv_ready s : serving s -> ready r s.
Proof. by intros []. Qed.

Lemma went_same s : serving s -> went s s.
Proof. intros Hs. apply FiberLogic.went_refl; [apply _|by apply sv_ready]. Qed.

Lemma keep_chunk_keeps : keeps_chunk body (input_of c) (filled c) keep_chunk.
Proof.
  intros b s [Hok Hc]. destruct (keep_ok (object s) b Hok) as (i & K1 & K2 & K3 & K4 & K5).
  exists i. unfold keep_chunk. rewrite fbind_run. unfold pure_. rewrite K1. split_and!; try done.
  constructor; [|done]. intros _. split; [done|congruence].
Qed.

(** The loop of [fill], with any block that looks. *)
Lemma fill_spec {L} (block : L -> Fib RackInput (L * bool)) P Q l s :
  looks c body (input_of c) (filled c) never block P Q -> (forall l s s', P l s -> went s s' -> P l s') ->
  serving s -> P l s ->
  let '(o, s') := fill block l s in
  went s s' /\ o <> Spinning /\ quiet_waiting c o s' /\ no_raise c o s /\ (forall l', o = Done l' -> Q l' s').
Proof.
  intros Hb Hst Hs HP. unfold fill. rewrite fbind_run. cbn [obj]. destruct (rg_good _ _ _ Hs) as [_ ->].
  pose proof (fill_from_spec c body (input_of c) (filled c) filled_good never ltac:(done) (pull keep_chunk c) (park_source c)
    block P Q l s (pull_drains c body (input_of c) (filled c) filled_good never _ ltac:(by intros ? []) keep_chunk_keeps)
    (park_waits c (input_of c)) Hb Hst Hs HP) as Hf.
  destruct (fill_from _ _ _ _ _ _) as [o s']. destruct Hf as (F1 & F2 & F3 & F4 & _ & F5). by split_and!.
Qed.

Lemma obj_run s : obj s = (Done (object s), s).
Proof. reflexivity. Qed.

Lemma chunks_finished_spec s : serving s ->
  let '(o, s') := chunks_finished s in
  went s s' /\ ((left_to_do r s' < left_to_do r s)%nat \/ q_of r s' = q_of r s)
  /\ o = Done (is_finished (q_of r s')) /\ object s' = object s.
Proof.
  intros Hs. unfold chunks_finished. rewrite fbind_run, obj_run. destruct (rg_good _ _ _ Hs) as [_ ->].
  pose proof (source_finished_spec c s (sv_ready _ Hs)) as Hf. destruct (source_finished c s) as [o s'].
  destruct Hf as (F1 & F2 & ->). split_and!; try done; [|apply F1]. apply onward_went; [apply _|by apply sv_ready|done].
Qed.

Lemma fill_until_spec cond s : serving s ->
  let '(o, s') := fill_until cond s in
  went s s' /\ o <> Spinning /\ quiet_waiting c o s' /\ no_raise c o s
  /\ (o = Done tt -> cond (object s') = true \/ is_finished (q_of r s') = true).
Proof.
  intros Hs. unfold fill_until.
  set (block := fun _ : unit => _).
  pose proof (fill_spec block (fun _ _ => True)
    (fun _ s' => cond (object s') = true \/ is_finished (q_of r s') = true) tt s) as Hf.
  destruct (fill block tt s) as [o s']. destruct Hf as (F1 & F2 & F3 & F4 & F5); try done.
  - intros [] s1 Hs1 _. unfold block. rewrite fbind_run, obj_run.
    destruct (cond (object s1)) eqn:Ec.
    + cbn [done st_ret]. split; [|split; [by right|cbn beta iota; by left]].
      by apply went_same.
    + rewrite fbind_run. pose proof (chunks_finished_spec s1 Hs1) as Hc.
      destruct (chunks_finished s1) as [o1 s2]. destruct Hc as (C1 & C2 & -> & _). cbn [done st_ret].
      destruct (is_finished (q_of r s2)) eqn:Ef; (split; [done|split; [done|]]); cbn beta iota; [by right|split_and!; [done..|by intros []]].
  - split_and!; try done. intros ->. by apply (F5 tt).
Qed.

End input.

(** ** The search *)

Lemma is_prefix_spec p b : is_prefix p b = true <-> p `prefix_of` b.
Proof.
  revert b. induction p as [|x p IH]; intros b; cbn.
  - split; [|done]. intros _. apply prefix_nil.
  - destruct b as [|y b].
    + split; [done|]. intros Hp. by apply prefix_nil_not in Hp.
    + rewrite andb_true_iff, bool_decide_eq_true, IH. split.
      * intros [-> Hp]. by apply prefix_cons.
      * intros Hp. split; [by eapply prefix_cons_inv_1|by eapply prefix_cons_inv_2].
Qed.

(** Where [needle] occurs in [b]. *)
Definition occurs (needle b : bytes) (i : nat) : Prop := needle `prefix_of` drop i b.

Lemma index_of_some needle b i : index_of needle b = Some i ->
  occurs needle b i /\ forall j, (j < i)%nat -> ~ occurs needle b j.
Proof.
  revert i. induction b as [|x b IH]; intros i; cbn [index_of]; destruct (is_prefix needle _) eqn:E.
  - intros [= <-]. split; [|lia]. by apply is_prefix_spec.
  - done.
  - intros [= <-]. split; [|lia]. by apply is_prefix_spec.
  - destruct (index_of needle b) as [k|] eqn:Ek; [|done]. intros [= <-].
    destruct (IH k eq_refl) as [H1 H2]. split; [done|]. intros [|j] Hj Ho.
    + apply is_prefix_spec in Ho. cbn in Ho. congruence.
    + apply (H2 j); [lia|done].
Qed.

Lemma index_of_none needle b : index_of needle b = None -> forall j, ~ occurs needle b j.
Proof.
  induction b as [|x b IH]; cbn [index_of]; destruct (is_prefix needle _) eqn:E; try done.
  - intros _ j Ho. unfold occurs in Ho. rewrite drop_nil in Ho. apply is_prefix_spec in Ho. congruence.
  - destruct (index_of needle b) eqn:Ek; [done|]. intros _ [|j] Ho.
    + apply is_prefix_spec in Ho. cbn in Ho. congruence.
    + by apply (IH eq_refl j).
Qed.

Lemma index_of_first needle b i : occurs needle b i -> (forall j, (j < i)%nat -> ~ occurs needle b j) ->
  index_of needle b = Some i.
Proof.
  intros Ho Hn. destruct (index_of needle b) as [k|] eqn:E; [|by destruct (index_of_none _ _ E i)].
  destruct (index_of_some _ _ _ E) as [H1 H2]. destruct (Nat.lt_trichotomy k i) as [Hlt|[-> | Hlt]]; [|done|].
  - by destruct (Hn k Hlt).
  - by destruct (H2 i Hlt).
Qed.

Lemma occurs_fits needle b i : occurs needle b i -> needle <> [] -> (i + length needle <= length b)%nat.
Proof.
  intros Ho Hn. apply prefix_length in Ho. rewrite length_drop in Ho. destruct needle; [done|]. cbn in *. lia.
Qed.

(** An occurrence stays one as more arrives, and one within [b] was one before. *)
Lemma occurs_grows needle b b' i : b `prefix_of` b' -> occurs needle b i -> occurs needle b' i.
Proof.
  intros [k ->] Ho. unfold occurs in *. destruct (Nat.le_gt_cases i (length b)) as [Hle|Hgt].
  - rewrite drop_app_le by done. by apply prefix_app_r.
  - rewrite drop_ge in Ho by lia. apply prefix_nil_inv in Ho as ->. apply prefix_nil.
Qed.

Lemma occurs_within needle b b' i : b `prefix_of` b' -> (i + length needle <= length b)%nat ->
  occurs needle b' i -> occurs needle b i.
Proof.
  intros [k ->] Hi. unfold occurs. rewrite drop_app_le by lia. intros [k' Hk].
  apply (f_equal (take (length needle))) in Hk. rewrite take_app_length, take_app_le in Hk by (rewrite length_drop; lia).
  rewrite <- Hk. apply prefix_take.
Qed.

Lemma READ_SIZE_pos : 0 < READ_SIZE.
Proof. reflexivity. Qed.

(** The bytes of a window. *)
Lemma slice_prefix off n b : slice off n b `prefix_of` drop (Z.to_nat off) b.
Proof. apply prefix_take. Qed.

Lemma slice_length off n b : 0 <= off -> zlen (slice off n b) = Z.max 0 (Z.min n (zlen b - off)).
Proof. intros Ho. unfold zlen, slice. rewrite length_take, length_drop. lia. Qed.

Lemma occurs_drop needle b off j : occurs needle (drop off b) j <-> occurs needle b (off + j).
Proof. unfold occurs. by rewrite drop_drop. Qed.

(** The first occurrence at or after [from]. *)
Definition first_from (needle b : bytes) (from : Z) (o : option Z) : Prop :=
  match o with
  | Some k => from <= k /\ occurs needle b (Z.to_nat k)
      /\ forall j, from <= j < k -> ~ occurs needle b (Z.to_nat j)
  | None => forall j, from <= j -> ~ occurs needle b (Z.to_nat j)
  end.

Lemma window_found i needle from index : needle <> [] -> 0 <= from ->
  index_of needle (slice from (READ_SIZE + zlen needle - 1) (body i)) = Some index ->
  first_from needle (body i) from (Some (from + Z.of_nat index)).
Proof.
  intros Hn Hf Hi. set (n := READ_SIZE + zlen needle - 1) in *.
  destruct (index_of_some _ _ _ Hi) as [H1 H2]. pose proof (occurs_fits _ _ _ H1 Hn) as Hfit.
  split_and!; [lia| |].
  - replace (Z.to_nat (from + Z.of_nat index)) with (Z.to_nat from + index)%nat by lia.
    apply occurs_drop, (occurs_grows _ (slice from n (body i))); [apply slice_prefix|done].
  - intros j Hj Ho. apply (H2 (Z.to_nat (j - from)) ltac:(lia)).
    apply (occurs_within _ _ (drop (Z.to_nat from) (body i))); [apply slice_prefix|lia|].
    apply occurs_drop. by replace (Z.to_nat from + Z.to_nat (j - from))%nat with (Z.to_nat j) by lia.
Qed.

Lemma window_missed i needle from : needle <> [] -> 0 <= from ->
  index_of needle (slice from (READ_SIZE + zlen needle - 1) (body i)) = None ->
  forall j, from <= j < from + READ_SIZE -> ~ occurs needle (body i) (Z.to_nat j).
Proof.
  intros Hn Hf Hi j Hj Ho. apply (index_of_none _ _ Hi (Z.to_nat (j - from))).
  pose proof (occurs_fits _ _ _ Ho Hn) as Hfit.
  apply (occurs_within _ _ (drop (Z.to_nat from) (body i))); [apply slice_prefix| |].
  - pose proof (slice_length from (READ_SIZE + zlen needle - 1) (body i) Hf) as Hl. unfold zlen in *. lia.
  - apply occurs_drop. by replace (Z.to_nat from + Z.to_nat (j - from))%nat with (Z.to_nat j) by lia.
Qed.

Lemma search_loop_spec fuel i needle from : input_ok i -> needle <> [] -> 0 <= from ->
  size i - from < Z.of_nat fuel ->
  exists o, search_loop fuel i needle from = Ok o /\ first_from needle (body i) from o.
Proof.
  intros Hok Hn. revert from. induction fuel as [|fuel IH]; intros from Hf Hfuel; cbn [search_loop].
  all: pose proof (io_size _ Hok) as Hs.
  all: assert (size i <= from -> first_from needle (body i) from None) as Hend;
    [intros Hle j Hj Ho; apply occurs_fits in Ho; [|done]; destruct needle; [done|]; unfold zlen in *; cbn in *; lia|].
  { exists None. split; [done|]. apply Hend. lia. }
  destruct (from <? size i) eqn:E; [|exists None; split; [done|apply Hend; lia]].
  rewrite (peek_ok i from _ Hok Hf). cbn [result_bind].
  destruct (index_of needle _) as [index|] eqn:Ei.
  - eexists. split; [done|]. by apply window_found.
  - pose proof READ_SIZE_pos. pose proof (window_missed _ _ _ Hn Hf Ei) as Hm.
    destruct (IH (from + READ_SIZE) ltac:(lia) ltac:(lia)) as (o & -> & Ho). exists o. split; [done|].
    destruct o as [k|]; cbn in *.
    + destruct Ho as (H1 & H2 & H3). split_and!; [lia|done|]. intros j Hj.
      destruct (Z.lt_ge_cases j (from + READ_SIZE)); [apply Hm; lia|apply H3; lia].
    + intros j Hj. destruct (Z.lt_ge_cases j (from + READ_SIZE)); [apply Hm; lia|apply Ho; lia].
Qed.

(** The windowed search finds what [String#index] would. *)
Lemma search_spec i needle from : input_ok i -> needle <> [] -> 0 <= from ->
  exists o, search i needle from = Ok o /\ first_from needle (body i) from o.
Proof. intros. apply search_loop_spec; try done. lia. Qed.

(** ** The specification: a string and a position *)

Definition string_read (b : bytes) (p : Z) (length_ : option Z) (buffer : option bytes)
    : Outcome (option bytes * option bytes) * Z :=
  let rest := drop (Z.to_nat p) b in
  match length_ with
  | None => (Done (into_buffer buffer rest), p + zlen rest)
  | Some n =>
      if n <? 0 then (Raised (argument_error ("negative length " ++ show_Z n)), p)
      else if n =? 0 then (Done (into_buffer buffer []), p)
      else if bool_decide (rest = []) then (Done (None, buffer), p)
      else (Done (into_buffer buffer (take (Z.to_nat n) rest)), p + zlen (take (Z.to_nat n) rest))
  end.

(** A line ends with its separator, or with the string. *)
Definition string_gets (b : bytes) (p : Z) (separator : option bytes) : Outcome (option bytes) * Z :=
  let rest := drop (Z.to_nat p) b in
  if bool_decide (rest = []) then (Done None, p)
  else
    let line :=
      match separator with
      | None => rest
      | Some sep =>
          match index_of sep rest with
          | Some i => take (i + length sep) rest
          | None => rest
          end
      end in
    (Done (Some line), p + zlen line).

Inductive InputOp :=
| Read (length_ : option Z) (buffer : option bytes)
| Gets (separator : option bytes)
| Rewind.

Inductive InputAnswer :=
| AnswerRead (value buffer : option bytes)
| AnswerGets (value : option bytes)
| AnswerRewind (n : Z).

Definition map_outcome {A B} (f : A -> B) (o : Outcome A) : Outcome B :=
  match o with
  | Done a => Done (f a)
  | Raised e => Raised e
  | Waiting => Waiting
  | Spinning => Spinning
  end.

Definition string_op (b : bytes) (op : InputOp) (p : Z) : Outcome InputAnswer * Z :=
  match op with
  | Read n buffer => let '(o, p) := string_read b p n buffer in (map_outcome (fun '(v, w) => AnswerRead v w) o, p)
  | Gets sep => let '(o, p) := string_gets b p sep in (map_outcome AnswerGets o, p)
  | Rewind => (Done (AnswerRewind 0), 0)
  end.

Definition input_op `{RubyVM} (op : InputOp) : Fib RackInput InputAnswer :=
  match op with
  | Read n buffer => let! (v, w) := input_read n buffer in done (AnswerRead v w)
  | Gets sep => let! v := input_gets sep in done (AnswerGets v)
  | Rewind => let! n := input_rewind in done (AnswerRewind n)
  end.

(** An application that rescues what a read raises and goes on. *)
Fixpoint input_run `{RubyVM} (ops : list InputOp) : St (Fiber RackInput) (list (Outcome InputAnswer)) := fun s =>
  match ops with
  | [] => ([], s)
  | op :: ops =>
      match input_op op s with
      | (Waiting, s) => ([Waiting], s)
      | (Spinning, s) => ([Spinning], s)
      | (o, s) => let '(os, s) := input_run ops s in (o :: os, s)
      end
  end.

(** Each answer is the string's; an operation that was raised out of moved nothing, and
    only the last may still wait. *)
Inductive answers (b : bytes) (disturbed : bool) : Z -> list InputOp -> list (Outcome InputAnswer) -> Prop :=
| answers_nil p : answers b disturbed p [] []
| answers_same p op o p' ops os : string_op b op p = (o, p') -> answers b disturbed p' ops os ->
    answers b disturbed p (op :: ops) (o :: os)
| answers_raised p op e ops os : disturbed = true -> answers b disturbed p ops os ->
    answers b disturbed p (op :: ops) (Raised e :: os)
| answers_waiting p op ops : answers b disturbed p (op :: ops) [Waiting].

Definition sensible (op : InputOp) : Prop :=
  match op with
  | Gets (Some sep) => sep <> []
  | _ => True
  end.

(** ** One operation *)

Section operations.
Context `{RubyVM} `{!QuietLookup} (c : Source).
Let r := source_queue c.
Implicit Types s : Fiber RackInput.

(** What [b] may be, when nothing more is read than [s] holds. *)
Definition bounds_body (b : bytes) s : Prop :=
  body (object s) `prefix_of` b /\ (is_finished (q_of r s) = true -> b = body (object s)).

(** An operation from [s], its outcome against what the string does from there. *)
Record operated {A} (s s' : Fiber RackInput) (o : Outcome A) (spec : bytes -> Outcome A * Z) : Prop := {
  op_later : later r body s s';
  op_serving : serving c s';
  op_stops : o <> Spinning;
  op_waiting : quiet_waiting c o s';
  op_undisturbed : undisturbed r s -> undisturbed r s';
  op_answer : forall b, bounds_body b s' ->
    spec b = (o, position (object s'))
    \/ (exists e, o = Raised e /\ ~ undisturbed r s /\ position (object s') = position (object s))
    \/ o = Waiting;
}.

Lemma take_grow p n (b b' : bytes) : b `prefix_of` b' -> (p + n <= length b)%nat ->
  take n (drop p b) = take n (drop p b').
Proof. intros [k ->] Hn. rewrite drop_app_le, take_app_le; [done|rewrite length_drop; lia|lia]. Qed.

Lemma take_run n buffer s : serving c s -> take_ n buffer s
  = (Done (into_buffer buffer (slice (position (object s)) n (body (object s)))),
     with_object s (set_position (object s) (position (object s) + zlen (slice (position (object s)) n (body (object s)))))).
Proof.
  intros Hs. unfold take_. rewrite fbind_run. unfold pure_.
  rewrite (peek_ok _ _ _ (sv_ok _ _ Hs)) by apply (io_position _ (sv_ok _ _ Hs)). reflexivity.
Qed.

(** Moving the position, within the bytes there are. *)
Lemma moved_serving s p : serving c s -> 0 <= p <= size (object s) ->
  serving c (with_object s (set_position (object s) p)).
Proof.
  intros [[R1 R2 R3 R4] [[S1 S2 S3 S4] S5]] Hp. constructor; [by constructor|]. split; [by constructor|done].
Qed.

Lemma moved_later s p : later r body s (with_object s (set_position (object s) p)).
Proof. constructor; try done. exists []. rewrite !app_nil_r. by split_and!. Qed.

Lemma take_serving n s : serving c s ->
  let b := slice (position (object s)) n (body (object s)) in
  serving c (with_object s (set_position (object s) (position (object s) + zlen b))).
Proof.
  intros Hs b. apply moved_serving; [done|]. destruct (sv_ok _ _ Hs) as [S1 S2 _ _].
  pose proof (slice_length (position (object s)) n (body (object s)) ltac:(lia)) as Hl. fold b in Hl.
  pose proof (zlen_nonneg b). lia.
Qed.

(** An operation that failed or still waits after [fill]. *)
Lemma operated_stopped {A} s s' (o : Outcome A) spec : serving c s -> went c s s' -> o <> Spinning -> quiet_waiting c o s' ->
  (forall a, o <> Done a) -> (undisturbed r s -> forall e, o <> Raised e) -> operated s s' o spec.
Proof.
  intros Hs W H1 H2 H3 H4. pose proof (wt_position _ _ _ W) as Hpos.
  constructor; try done; try apply W; [by eapply went_serving|]. intros b _. right. destruct o as [a|e| |]; try done.
  - by destruct (H3 a).
  - left. exists e. split_and!; try done. intros Hu. by apply (H4 Hu e).
  - by right.
Qed.

(** One that took [n] bytes after [fill]. *)
Lemma operated_took s s1 n (f : bytes -> InputAnswer) spec : serving c s -> went c s s1 ->
  let b1 := slice (position (object s1)) n (body (object s1)) in
  (forall b, bounds_body b s1 -> spec b = (Done (f b1), position (object s) + zlen b1)) ->
  operated s (with_object s1 (set_position (object s1) (position (object s1) + zlen b1))) (Done (f b1)) spec.
Proof.
  intros Hs W b1 Hspec. pose proof (wt_position _ _ _ W) as Hpos. constructor; try done.
  - etransitivity; [apply W|]. apply moved_later.
  - apply take_serving. by eapply went_serving.
  - intros Hu. destruct (wt_undisturbed _ _ _ _ _ W Hu). by constructor.
  - intros b Hb. left. rewrite Hspec by exact Hb. cbn. by rewrite Hpos.
Qed.

Lemma operated_there s s1 (a : InputAnswer) spec : serving c s -> went c s s1 ->
  (forall b, bounds_body b s1 -> spec b = (Done a, position (object s))) -> operated s s1 (Done a) spec.
Proof.
  intros Hs W Hspec. pose proof (wt_position _ _ _ W) as Hpos. constructor; try done; try apply W; [by eapply went_serving|].
  intros b Hb. left. by rewrite Hspec, Hpos.
Qed.

Lemma unread_drop s : serving c s -> unread (object s) = zlen (drop (Z.to_nat (position (object s))) (body (object s))).
Proof.
  intros Hs. destruct (sv_ok _ _ Hs) as [S1 S2 _ _]. unfold unread, zlen in *. rewrite length_drop. lia.
Qed.

(** The rest of a finished body. *)
Lemma rest_finished b s : bounds_body b s -> is_finished (q_of r s) = true ->
  drop (Z.to_nat (position (object s))) b = drop (Z.to_nat (position (object s))) (body (object s)).
Proof. intros [_ Hb] Hf. by rewrite (Hb Hf). Qed.

Lemma zlen_zero (b : bytes) : zlen b = 0 <-> b = [].
Proof. unfold zlen. destruct b; cbn; [done|]. split; [lia|done]. Qed.

Lemma slice_rest s n : n = unread (object s) -> serving c s ->
  slice (position (object s)) n (body (object s)) = drop (Z.to_nat (position (object s))) (body (object s)).
Proof. intros -> Hs. unfold slice. rewrite (unread_drop s Hs). unfold zlen. rewrite Nat2Z.id. apply take_ge. done. Qed.

Definition read_answer (x : option bytes * option bytes) : InputAnswer := AnswerRead x.1 x.2.

Lemma read_all_spec buffer s : serving c s ->
  let '(o, s') := input_op (Read None buffer) s in operated s s' o (fun b => string_op b (Read None buffer) (position (object s))).
Proof.
  intros Hs. cbn [input_op input_read]. unfold read_all. rewrite !fbind_run.
  pose proof (fill_until_spec c (fun _ => false) s Hs) as Hf.
  destruct (fill_until (fun _ => false) s) as [o s1]. destruct Hf as (F1 & F2 & F3 & F4 & F5).
  destruct o as [[]|e| |]; try done; try (apply operated_stopped; done).
  2: { apply operated_stopped; try done. intros Hu e' [= <-]. by apply (F4 Hu e). }
  2: { apply operated_stopped; try done. intros _. by apply F3. }
  destruct (F5 eq_refl) as [|Hfin]; [done|]. pose proof (went_serving c s s1 Hs F1) as Hs1.
  rewrite fbind_run, obj_run, take_run by done. cbn [done st_ret].
  apply (operated_took s s1 _ (fun x => AnswerRead (Some x) ((fun _ => x) <$> buffer))); [done..|].
  intros b Hb. cbn [string_op string_read]. rewrite slice_rest by done.
  rewrite <- (wt_position _ _ _ F1). rewrite (rest_finished b s1 Hb Hfin). reflexivity.
Qed.

Lemma read_some_spec n buffer s : serving c s ->
  let '(o, s') := input_op (Read (Some n) buffer) s in
  operated s s' o (fun b => string_op b (Read (Some n) buffer) (position (object s))).
Proof.
  intros Hs. cbn [input_op input_read string_op string_read]. rewrite fbind_run.
  destruct (n <? 0) eqn:E1.
  { cbn. constructor; try done. intros b _. by left. }
  destruct (n =? 0) eqn:E2.
  { cbn [done st_ret]. apply operated_there; [done|by apply went_same|done]. }
  rewrite fbind_run. pose proof (fill_until_spec c (fun i => n <=? unread i) s Hs) as Hf.
  destruct (fill_until _ s) as [o s1]. destruct Hf as (F1 & F2 & F3 & F4 & F5).
  destruct o as [[]|e| |]; try done.
  2: { apply operated_stopped; try done. intros Hu e' [= <-]. by apply (F4 Hu e). }
  2: { apply operated_stopped; try done. intros _. by apply F3. }
  pose proof (went_serving c s s1 Hs F1) as Hs1. pose proof (unread_drop s1 Hs1) as Hun.
  rewrite fbind_run, obj_run. rewrite <- (wt_position _ _ _ F1).
  destruct (unread (object s1) =? 0) eqn:E3.
  - cbn [done st_ret]. apply operated_there; [done..|]. intros b Hb.
    destruct (F5 eq_refl) as [Hc|Hfin]; [lia|]. rewrite (rest_finished b s1 Hb Hfin).
    rewrite bool_decide_true by (apply zlen_zero; lia). cbn. by rewrite (wt_position _ _ _ F1).
  - rewrite take_run by done. cbn [done st_ret].
    apply (operated_took s s1 _ (fun x => AnswerRead (Some x) ((fun _ => x) <$> buffer))); [done..|].
    intros b Hb. set (p := position (object s1)) in *.
    assert (slice p (Z.min n (unread (object s1))) (body (object s1)) = take (Z.to_nat n) (drop (Z.to_nat p) b)
            /\ drop (Z.to_nat p) b <> []) as [-> Hne].
    { destruct Hb as [Hb1 Hb2].
      assert (slice p (Z.min n (unread (object s1))) (body (object s1)) = take (Z.to_nat n) (drop (Z.to_nat p) (body (object s1)))) as ->.
      { unfold slice. rewrite Hun. unfold zlen. destruct (Z.le_gt_cases n (Z.of_nat (length (drop (Z.to_nat p) (body (object s1)))))).
        - by rewrite Z.min_l.
        - rewrite Z.min_r, !take_ge by lia. done. }
      assert (drop (Z.to_nat p) (body (object s1)) <> []) as Hne by (intros Hz; rewrite Hz in Hun; change (zlen []) with 0 in Hun; lia).
      destruct (F5 eq_refl) as [Hc|Hfin]; [|by rewrite (Hb2 Hfin)]. split.
      - apply take_grow; [done|]. pose proof (io_position _ (sv_ok _ _ Hs1)). fold p in H1. rewrite Hun in Hc. unfold zlen in Hc.
        rewrite length_drop in Hc. lia.
      - destruct Hb1 as [k ->]. intros Hz. apply Hne. destruct (Nat.le_gt_cases (Z.to_nat p) (length (body (object s1)))).
        + rewrite drop_app_le in Hz by done. by apply app_eq_nil in Hz as [-> _].
        + by rewrite drop_ge by lia. }
    rewrite bool_decide_false by done. cbn. by rewrite <- (wt_position _ _ _ F1).
Qed.

Lemma gets_all_spec s : serving c s ->
  let '(o, s') := input_op (Gets None) s in
  operated s s' o (fun b => string_op b (Gets None) (position (object s))).
Proof.
  intros Hs. cbn [input_op input_gets string_op]. unfold string_gets. rewrite !fbind_run.
  pose proof (fill_until_spec c (fun _ => false) s Hs) as Hf.
  destruct (fill_until (fun _ => false) s) as [o s1]. destruct Hf as (F1 & F2 & F3 & F4 & F5).
  destruct o as [[]|e| |]; try done.
  2: { apply operated_stopped; try done. intros Hu e' [= <-]. by apply (F4 Hu e). }
  2: { apply operated_stopped; try done. intros _. by apply F3. }
  destruct (F5 eq_refl) as [|Hfin]; [done|]. pose proof (went_serving c s s1 Hs F1) as Hs1.
  pose proof (unread_drop s1 Hs1) as Hun. rewrite fbind_run, obj_run. rewrite <- (wt_position _ _ _ F1).
  destruct (unread (object s1) =? 0) eqn:E.
  - cbn [done st_ret]. apply operated_there; [done..|]. intros b Hb. rewrite (rest_finished b s1 Hb Hfin).
    rewrite bool_decide_true by (apply zlen_zero; lia). cbn. by rewrite (wt_position _ _ _ F1).
  - rewrite fbind_run, take_run by done. cbn [done st_ret into_buffer fst].
    apply (operated_took s s1 _ (fun x => AnswerGets (Some x))); [done..|]. intros b Hb.
    rewrite slice_rest by done. rewrite (rest_finished b s1 Hb Hfin).
    rewrite bool_decide_false by (intros Hz; apply zlen_zero in Hz; lia). cbn. by rewrite (wt_position _ _ _ F1).
Qed.

(** The closure's variables: nothing starts before [from], whatever still arrives. *)
Definition searched (sep : bytes) (l : Z * option Z) s : Prop :=
  position (object s) <= l.1
  /\ forall b j, body (object s) `prefix_of` b -> position (object s) <= j < l.1 -> ~ occurs sep b (Z.to_nat j).

Definition line_found (sep : bytes) (l : Z * option Z) s : Prop :=
  first_from sep (body (object s)) (position (object s)) l.2
  /\ (l.2 = None -> is_finished (q_of r s) = true).

Definition gets_block (sep : bytes) (l : Z * option Z) : Fib RackInput ((Z * option Z) * bool) :=
  let '(from, _) := l in
  let! found := pure_ (fun i => search i sep from) in
  let! i := obj in
  let from := Z.max (size i - zlen sep + 1) (position i) in
  match found with
  | Some _ => done ((from, found), true)
  | None => let! f := chunks_finished in done ((from, found), f)
  end.

Lemma gets_block_looks sep : sep <> [] -> looks c body (input_of c) (filled c) never (gets_block sep) (searched sep) (line_found sep).
Proof.
  intros Hsep [from found0] s Hs [Hfrom Hno]. cbn [fst gets_block] in *.
  pose proof (sv_ok _ _ Hs) as Hok. destruct (io_position _ Hok) as [Hp0 Hp1].
  destruct (search_spec (object s) sep from Hok Hsep ltac:(lia)) as (found & Hsearch & Hfound).
  rewrite fbind_run. unfold pure_ at 1. rewrite Hsearch. rewrite fbind_run, obj_run.
  assert (first_from sep (body (object s)) (position (object s)) found) as Hfirst.
  { destruct found as [k|]; cbn in *.
    - destruct Hfound as (H1 & H2 & H3). split_and!; [lia|done|]. intros j Hj.
      destruct (Z.lt_ge_cases j from); [by apply Hno; [done|lia]|apply H3; lia].
    - intros j Hj. destruct (Z.lt_ge_cases j from); [by apply Hno; [done|lia]|by apply Hfound]. }
  destruct found as [k|].
  { cbn [done st_ret]. split; [by apply went_same|]. split; [by right|by split]. }
  rewrite fbind_run. pose proof (chunks_finished_spec c s Hs) as Hc.
  destruct (chunks_finished s) as [o s']. destruct Hc as (C1 & C2 & -> & C3). cbn [done st_ret].
  split; [done|]. split; [done|]. destruct (is_finished (q_of (source_queue c) s')) eqn:Efin.
  - unfold line_found. cbn [snd]. rewrite C3. by split.
  - split; [|split; [done|by intros []]]. unfold searched. cbn [fst]. rewrite C3. split; [lia|]. intros b j Hb Hj Ho.
    destruct (Z.lt_ge_cases j from) as [Hlt|Hge]; [by apply (Hno b j Hb ltac:(lia))|].
    apply (Hfirst j); [lia|]. apply (occurs_within _ _ b); [done| |done].
    rewrite (io_size _ Hok) in *. unfold zlen in *. lia.
Qed.

Lemma searched_stable sep l s s' : searched sep l s -> went c s s' -> searched sep l s'.
Proof.
  intros [H1 H2] W. unfold searched. rewrite (wt_position _ _ _ W). split; [done|]. intros b j Hb. apply H2.
  etransitivity; [apply (lt_pulled _ _ _ _ (wt_later _ _ _ _ _ W))|done].
Qed.

(** The line that was found is the string's. *)
Lemma line_is_first sep k b s : sep <> [] -> serving c s -> bounds_body b s ->
  first_from sep (body (object s)) (position (object s)) (Some k) ->
  let p := position (object s) in
  index_of sep (drop (Z.to_nat p) b) = Some (Z.to_nat (k - p))
  /\ slice p (k + zlen sep - p) (body (object s)) = take (Z.to_nat (k - p) + length sep) (drop (Z.to_nat p) b)
  /\ unread (object s) <> 0.
Proof.
  intros Hsep Hs [Hb _] (H1 & H2 & H3) p. destruct (sv_ok _ _ Hs) as [S1 [S2 S4] _ _]. fold p in H1, H3, S2, S4.
  pose proof (occurs_fits _ _ _ H2 Hsep) as Hfit.
  assert (length sep <> 0%nat) as Hl by (by destruct sep).
  split_and!.
  - apply index_of_first.
    + apply occurs_drop. replace (Z.to_nat p + Z.to_nat (k - p))%nat with (Z.to_nat k) by lia. by eapply occurs_grows.
    + intros j Hj Ho. apply occurs_drop in Ho. apply (H3 (p + Z.of_nat j)); [lia|].
      replace (Z.to_nat (p + Z.of_nat j)) with (Z.to_nat p + j)%nat by lia.
      apply (occurs_within _ _ b); [done|lia|done].
  - unfold slice, zlen. replace (Z.to_nat (k + Z.of_nat (length sep) - p)) with (Z.to_nat (k - p) + length sep)%nat by lia.
    apply take_grow; [done|lia].
  - unfold unread. fold p. unfold zlen in *. lia.
Qed.

Lemma gets_line_spec sep s : sep <> [] -> serving c s ->
  let '(o, s') := input_op (Gets (Some sep)) s in
  operated s s' o (fun b => string_op b (Gets (Some sep)) (position (object s))).
Proof.
  intros Hsep Hs. cbn [input_op input_gets string_op]. unfold string_gets. rewrite !fbind_run, obj_run, fbind_run.
  fold (gets_block sep).
  pose proof (fill_spec c (gets_block sep) (searched sep) (line_found sep) (position (object s), None) s
    (gets_block_looks sep Hsep) (searched_stable sep) Hs) as Hf.
  destruct (fill (gets_block sep) _ s) as [o s1]. destruct Hf as (F1 & F2 & F3 & F4 & F5).
  { split; cbn [fst]; [lia|]. intros b j _ Hj. lia. }
  destruct o as [[from found]|e| |]; try done.
  2: { apply operated_stopped; try done. intros Hu e' [= <-]. by apply (F4 Hu e). }
  2: { apply operated_stopped; try done. intros _. by apply F3. }
  destruct (F5 _ eq_refl) as [Hfirst Hfin]. cbn [snd] in *. pose proof (went_serving c s s1 Hs F1) as Hs1.
  pose proof (unread_drop s1 Hs1) as Hun. rewrite fbind_run, obj_run. rewrite <- (wt_position _ _ _ F1).
  destruct (unread (object s1) =? 0) eqn:E.
  - cbn [done st_ret]. apply operated_there; [done..|]. intros b Hb.
    destruct found as [k|]; [destruct (line_is_first sep k b s1 Hsep Hs1 Hb Hfirst) as (_ & _ & []); lia|].
    rewrite (rest_finished b s1 Hb (Hfin eq_refl)).
    rewrite bool_decide_true by (apply zlen_zero; lia). cbn. by rewrite (wt_position _ _ _ F1).
  - rewrite fbind_run, take_run by done. cbn [done st_ret into_buffer fst].
    apply (operated_took s s1 _ (fun x => AnswerGets (Some x))); [done..|]. intros b Hb.
    rewrite <- (wt_position _ _ _ F1). set (p := position (object s1)) in *.
    assert (drop (Z.to_nat p) b <> []) as Hne.
    { intros Hz. destruct Hb as [[k ->] _]. pose proof (io_position _ (sv_ok _ _ Hs1)) as Hp. fold p in Hp.
      pose proof (io_size _ (sv_ok _ _ Hs1)) as Hsz. unfold zlen in Hsz.
      rewrite drop_app_le in Hz by lia. apply app_eq_nil in Hz as [Hz _].
      rewrite Hz in Hun. change (zlen []) with 0 in Hun. lia. }
    rewrite bool_decide_false by done. cbn [map_outcome]. destruct found as [k|].
    + destruct (line_is_first sep k b s1 Hsep Hs1 Hb Hfirst) as (L1 & L2 & _). fold p in L1, L2.
      by rewrite L1, L2.
    + pose proof (slice_rest s1 _ eq_refl Hs1) as Hrest. pose proof (rest_finished b s1 Hb (Hfin eq_refl)) as Hfb.
      fold p in Hrest, Hfb. rewrite Hrest, Hfb.
      destruct (index_of sep _) as [i|] eqn:Ei; [|done]. exfalso.
      destruct (index_of_some _ _ _ Ei) as [Ho _]. apply occurs_drop in Ho.
      pose proof (io_position _ (sv_ok _ _ Hs1)) as Hp. fold p in Hp.
      apply (Hfirst (p + Z.of_nat i)); [fold p; lia|]. by replace (Z.to_nat (p + Z.of_nat i)) with (Z.to_nat p + i)%nat by lia.
Qed.

Lemma rewind_spec s : serving c s ->
  let '(o, s') := input_op Rewind s in operated s s' o (fun b => string_op b Rewind (position (object s))).
Proof.
  intros Hs. cbn. constructor; try done.
  - apply moved_later.
  - apply moved_serving; [done|]. destruct (io_position _ (sv_ok _ _ Hs)). lia.
  - intros [U1 U2]. by constructor.
  - intros b _. by left.
Qed.

Lemma input_op_spec op s : sensible op -> serving c s ->
  let '(o, s') := input_op op s in operated s s' o (fun b => string_op b op (position (object s))).
Proof.
  intros Hop Hs. destruct op as [[n|] buffer|[sep|]|];
    [by apply read_some_spec|by apply read_all_spec|by apply gets_line_spec|by apply gets_all_spec|by apply rewind_spec].
Qed.

(** ** A whole run *)

(** The body as it turned out: what the input holds and what still waits in the queue. *)
Definition whole_body s : bytes := body (object s) ++ queued_bytes (items (q_of r s)).

Lemma whole_bounds s s' : serving c s' -> later r body s s' -> bounds_body (whole_body s') s.
Proof.
  intros Hs' Hl. split.
  - etransitivity; [apply (lt_pulled _ _ _ _ Hl)|]. by apply prefix_app_r.
  - intros Hf. destruct (lt_finished _ _ _ _ Hl Hf) as [Hf' E]. unfold whole_body. rewrite E.
    destruct (finished_queue _ (rd_wf _ _ _ (sv_ready _ _ Hs')) Hf') as [Hq _].
    unfold r. by rewrite Hq, app_nil_r.
Qed.

Lemma input_run_spec ops s (disturbed : bool) : serving c s -> Forall sensible ops ->
  (disturbed = false -> undisturbed r s) ->
  let '(os, s') := input_run ops s in
  later r body s s' /\ serving c s' /\ Forall (fun o => o <> Spinning) os
  /\ (Waiting ∈ os -> coming s' = [] /\ exists v, waiter (q_of r s') = Some v)
  /\ answers (whole_body s') disturbed (position (object s)) ops os.
Proof.
  revert s. induction ops as [|op ops IH]; intros s Hs Hops Hd; cbn [input_run].
  { split_and!; try done; [by intros ?%elem_of_nil|constructor]. }
  apply Forall_cons_1 in Hops as [Hop Hops].
  pose proof (input_op_spec op s Hop Hs) as Ho. destruct (input_op op s) as [o s1].
  destruct Ho as [O1 O2 O3 O4 O5 O6].
  assert (disturbed = false -> undisturbed r s1) as Hd1 by auto.
  specialize (IH s1 O2 Hops Hd1).
  destruct o as [a|e| |]; [| | |by destruct O3].
  3: { split_and!; try done; [by repeat constructor|by intros; apply O4|constructor]. }
  all: destruct (input_run ops s1) as [os s2]; destruct IH as (I1 & I2 & I3 & I4 & I5).
  all: split_and!; [by etransitivity|done|by constructor|by intros [?|?]%elem_of_cons; [|apply I4]|].
  all: destruct (O6 _ (whole_bounds _ _ I2 I1)) as [Hspec|[(e' & [= <-] & Hu & Hp)|]]; try done.
  - by eapply answers_same.
  - by eapply answers_same.
  - apply answers_raised; [|by rewrite <- Hp]. destruct disturbed; [done|]. by destruct Hu, Hd.
Qed.

End operations.

(** C4: [rack.input] reads as a string.  Whatever arrives when, every [read], [gets] and
    [rewind] of an application answers as on a string that holds the whole body, with a
    position in it; one that is interrupted, or finds that the client failed, moves
    nothing; nothing spins, and a read that still waits has its place in the queue.  A
    [gets] with an empty separator is left out ([sensible]): what it gives depends on
    how much has arrived. *)
Theorem input_reads_as_string `{RubyVM} `{!QuietLookup} (c : Source) (s : Fiber RackInput) ops (disturbed : bool) :
  let r := source_queue c in
  object s = input_new c -> ready r s -> arrived s = [] -> Forall sensible ops ->
  (disturbed = false -> undisturbed r s) ->
  let '(os, s') := input_run ops s in
  let sent := (queued_bytes (items (q_of r s)) ++ queued_bytes (arrived_at r s'))%list in
  (exists b, answers b disturbed 0 ops os /\ b `prefix_of` sent /\ (cancelled (q_of r s') = false -> b = sent))
  /\ Forall (fun o => o <> Spinning) os
  /\ (Waiting ∈ os -> coming s' = [] /\ exists v, waiter (q_of r s') = Some v).
Proof.
  intros r Ho Hr Ha Hops Hd.
  assert (serving c s) as Hs.
  { constructor; [done|]. rewrite Ho. split; [|done]. by constructor. }
  pose proof (input_run_spec c ops s disturbed Hs Hops Hd) as Hrun.
  destruct (input_run ops s) as [os s']. destruct Hrun as (R1 & R2 & R3 & R4 & R5). split_and!; try done.
  rewrite Ho in R5. exists (whole_body c s'). split; [exact R5|].
  destruct (lt_arrived _ _ _ _ R1) as (new & L1 & _ & L2 & L3). rewrite Ho in L2, L3. cbn [body] in L2, L3.
  assert (arrived_at r s = []) as Hz by (unfold arrived_at; by rewrite Ha).
  fold r in L1. rewrite Hz in L1. cbn [app] in L1. rewrite L1. by split.
Qed.

(** A body that arrives in two pieces while it is read by lines, and its rewinding. *)
Definition example_source : Source := {| source_queue := Direct 1; source_waker := None |}.

Definition example_input : Fiber RackInput :=
  {| object := input_new example_source;
     store := (new_queue 16 (world_new 1)).2;
     coming := [Others [(Direct 1, OpWithinBudget (into_bytes "one"))]; Others []; Others [];
                Others [(Direct 1, OpWithinBudget (into_bytes "-two")); (Direct 1, OpUnpark)];
                Others [(Direct 1, OpPush End); (Direct 1, OpUnpark)]];
     arrived := []; departed := [] |}.

#[export] Instance example_lookup : QuietLookup (H := example_ruby).
Proof. by intros c w r. Defined.

Lemma input_reads_as_string_witness :
  let ops := [Gets (Some (into_bytes "-")); Read None None; Rewind; Read (Some 5) (Some [])] in
  let '(os, s') := input_run (H := example_ruby) ops example_input in
  (exists b, answers b false 0 ops os
   /\ b `prefix_of` (queued_bytes (arrived_at (Direct 1) s'))%list)
  /\ os = [Done (AnswerGets (Some (into_bytes "one-"))); Done (AnswerRead (Some (into_bytes "two")) None);
           Done (AnswerRewind 0); Done (AnswerRead (Some (into_bytes "one-t")) (Some (into_bytes "one-t")))].
Proof.
  cbv zeta.
  pose proof (input_reads_as_string (H := example_ruby) example_source example_input
    [Gets (Some (into_bytes "-")); Read None None; Rewind; Read (Some 5) (Some [])] false) as Ht.
  assert ((input_run (H := example_ruby) [Gets (Some (into_bytes "-")); Read None None; Rewind; Read (Some 5) (Some [])]
    example_input).1 = [Done (AnswerGets (Some (into_bytes "one-"))); Done (AnswerRead (Some (into_bytes "two")) None);
           Done (AnswerRewind 0); Done (AnswerRead (Some (into_bytes "one-t")) (Some (into_bytes "one-t")))]) as He
    by (vm_compute; reflexivity).
  destruct (input_run _ example_input) as [os s']. cbn [fst] in He. split; [|exact He].
  destruct Ht as [(b & H1 & H2 & _) _]; try done.
  - constructor; cbn; try done. all: repeat constructor; try done. by intros [|? ?] ? ? [=].
  - by repeat constructor.
  - intros _. constructor; cbn; repeat constructor; done.
  - by exists b.
Defined.
