(* ===== verification/Duplex.v ===== *)
(** * [Ruvoy::Stream] ([src/ruby/stream.rb]) and the body readers

    A duplex byte stream over the end of one queue and the start of another: what a
    streaming response body is called with, and what an upgraded upstream exchange is.
    [stream_write] is how every body reaches a queue. *)

From S2P Require Import Prelude RustStr Types Stream StreamTrace World Ruby Chunks Fibers RackInput.

Local Open Scope N_scope.

Definition RELAY_BYTES : Z := 64 * 1024.

#[global] Opaque RELAY_BYTES.

(** ** Writing *)

(** [Stream.write]: [chunk] whole, parking while the sink is full; fuel for the bytes to
    go and the events the waiting uses up. *)
Fixpoint write_loop {O} (fuel : nat) (sink : StreamHandle) (chunk : bytes) (offset : N) : Fib O bool :=
  match fuel with
  | 0%nat => st_ret Spinning
  | S fuel =>
      if offset <? len chunk then
        let! room := sink_writable sink in
        do! (if room then done tt else park_sink sink) in
        let! taken := sink_write sink chunk offset in
        match taken with
        | None => done false
        | Some taken => write_loop fuel sink chunk (offset + taken)
        end
      else done true
  end.

Definition stream_write {O} (sink : StreamHandle) (chunk : bytes) : Fib O bool :=
  fun s => write_loop (S (length chunk + length (coming s))) sink chunk 0 s.

(** ** The duplex stream *)

Record Duplex := {
  dx_source : Source;
  dx_sink : StreamHandle;
  dx_buffer : bytes;
  dx_failure : option Exn;
  dx_read_closed : bool;
  dx_write_closed : bool;
  dx_bytes_read : Z;
  dx_bytes_written : Z;
}.

Definition duplex_new (source : Source) (sink : StreamHandle) (buffered : bytes) : Duplex :=
  {| dx_source := source; dx_sink := sink; dx_buffer := buffered; dx_failure := None;
     dx_read_closed := false; dx_write_closed := false; dx_bytes_read := 0; dx_bytes_written := 0 |}.

Definition set_dx_buffer (d : Duplex) b n : Duplex :=
  {| dx_source := dx_source d; dx_sink := dx_sink d; dx_buffer := b; dx_failure := dx_failure d;
     dx_read_closed := dx_read_closed d; dx_write_closed := dx_write_closed d;
     dx_bytes_read := n; dx_bytes_written := dx_bytes_written d |}.
Definition set_dx_failure (d : Duplex) e : Duplex :=
  {| dx_source := dx_source d; dx_sink := dx_sink d; dx_buffer := dx_buffer d; dx_failure := e;
     dx_read_closed := dx_read_closed d; dx_write_closed := dx_write_closed d;
     dx_bytes_read := dx_bytes_read d; dx_bytes_written := dx_bytes_written d |}.
Definition set_dx_closed (d : Duplex) (read_ write_ : bool) : Duplex :=
  {| dx_source := dx_source d; dx_sink := dx_sink d; dx_buffer := dx_buffer d; dx_failure := dx_failure d;
     dx_read_closed := read_; dx_write_closed := write_;
     dx_bytes_read := dx_bytes_read d; dx_bytes_written := dx_bytes_written d |}.
Definition set_dx_written (d : Duplex) n : Duplex :=
  {| dx_source := dx_source d; dx_sink := dx_sink d; dx_buffer := dx_buffer d; dx_failure := dx_failure d;
     dx_read_closed := dx_read_closed d; dx_write_closed := dx_write_closed d;
     dx_bytes_read := dx_bytes_read d; dx_bytes_written := n |}.

Section duplex.
Context `{RubyVM} (wait_for_input : Fib Duplex unit).

(** ** Reading

    [wait_for_input] parks on the source; a stream facing an upstream bounds the wait. *)

Definition readable : Fib Duplex unit :=
  let! d := obj in
  if dx_read_closed d then raise (io_error "not opened for reading") else done tt.

Definition buffer_chunk (b : bytes) : Fib Duplex unit :=
  change (fun d => set_dx_buffer d (dx_buffer d ++ b) (dx_bytes_read d)).

(** What arrived before a failure is read first: the failure is kept for later. *)
Definition dx_drain : Fib Duplex unit :=
  let! d := obj in
  match dx_failure d with
  | Some _ => done tt
  | None =>
      rescue (pull buffer_chunk (dx_source d)) (fun e =>
        if is_standard e then Some (change (fun d => set_dx_failure d (Some e))) else None)
  end.

Definition dx_finished : Fib Duplex bool :=
  let! d := obj in
  match dx_failure d with
  | Some _ => done true
  | None => source_finished (dx_source d)
  end.

Definition raise_failure : Fib Duplex unit :=
  let! d := obj in
  match dx_failure d with
  | Some e => raise e
  | None => done tt
  end.

(** [fill { cond || finished? }] *)
Definition dx_fill (cond : Duplex -> bool) : Fib Duplex unit :=
  let! d := obj in
  fill_from (dx_source d) dx_drain wait_for_input (fun _ : unit =>
    let! d := obj in
    if cond d then done (tt, true) else let! f := dx_finished in done (tt, f)) tt.

(** [byteslice(length..)]; a negative start counts from the end. *)
Definition byteslice_from (length_ : Z) (b : bytes) : bytes :=
  if (length_ <? 0)%Z then
    if (- length_ <=? zlen b)%Z then drop (Z.to_nat (zlen b + length_)) b else []
  else drop (Z.to_nat length_) b.

(** [byteslice] of a negative length is nil, which has no [bytesize]. *)
Definition give (length_ : Z) (buffer : option bytes) : Fib Duplex (option bytes * option bytes) :=
  let! d := obj in
  let data := take (Z.to_nat length_) (dx_buffer d) in
  do! change (fun d => set_dx_buffer d (byteslice_from length_ (dx_buffer d)) (dx_bytes_read d)) in
  if (length_ <? 0)%Z then raise (Standard "NoMethodError" "undefined method 'bytesize' for nil")
  else
    do! change (fun d => set_dx_buffer d (dx_buffer d) (dx_bytes_read d + zlen data)) in
    done (into_buffer buffer data).

Definition dx_read (length_ : option Z) (buffer : option bytes) : Fib Duplex (option bytes * option bytes) :=
  do! readable in
  match length_ with
  | None =>
      do! dx_fill (fun _ => false) in
      let! d := obj in
      do! (if bool_decide (dx_buffer d = []) then raise_failure else done tt) in
      give (zlen (dx_buffer d)) buffer
  | Some n =>
      if (n <? 0)%Z then raise (argument_error ("negative length " ++ show_Z n))
      else if (n =? 0)%Z then give 0 buffer
      else
        do! dx_fill (fun d => n <=? zlen (dx_buffer d))%Z in
        let! d := obj in
        if bool_decide (dx_buffer d = []) then do! raise_failure in done (None, buffer)
        else give (Z.min n (zlen (dx_buffer d))) buffer
  end.

Definition dx_readpartial (length_ : Z) (buffer : option bytes) : Fib Duplex (option bytes * option bytes) :=
  do! readable in
  do! dx_fill (fun d => negb (bool_decide (dx_buffer d = []))) in
  let! d := obj in
  do! (if bool_decide (dx_buffer d = []) then do! raise_failure in raise eof_error else done tt) in
  give (Z.min length_ (zlen (dx_buffer d))) buffer.

(** ** Writing and closing *)

Fixpoint dx_write_all (strings : list bytes) (sum : Z) : Fib Duplex Z :=
  match strings with
  | [] => done sum
  | string_ :: rest =>
      let! d := obj in
      let! sent := stream_write (dx_sink d) string_ in
      if sent then
        do! change (fun d => set_dx_written d (dx_bytes_written d + zlen string_)%Z) in
        dx_write_all rest (sum + zlen string_)%Z
      else raise epipe
  end.

Definition dx_write (strings : list bytes) : Fib Duplex Z :=
  let! d := obj in
  if dx_write_closed d then raise (io_error "not opened for writing") else dx_write_all strings 0.

Definition dx_close_read : Fib Duplex unit :=
  change (fun d => set_dx_closed d true (dx_write_closed d)).

Definition dx_close_write : Fib Duplex unit :=
  let! d := obj in
  if dx_write_closed d then done tt
  else
    do! change (fun d => set_dx_closed d (dx_read_closed d) true) in
    sink_finish (dx_sink d).

Definition dx_close : Fib Duplex unit := do! dx_close_read in dx_close_write.

Definition dx_closed (d : Duplex) : bool := dx_read_closed d && dx_write_closed d.

End duplex.

(** [wait_for_input] of [Stream] itself. *)
Definition park_input `{RubyVM} : Fib Duplex unit := let! d := obj in park_source (dx_source d).

(** ** Relaying

    Each direction copies in a fiber of its own; what ended it is pushed on a queue, and
    the first failure ends the relay. *)

(** [copy(from, to)], over both streams. *)
Record Pair := { pair_from : Duplex; pair_to : Duplex }.

Definition on_from {A} : Fib Duplex A -> Fib Pair A :=
  zoom pair_from (fun p d => {| pair_from := d; pair_to := pair_to p |}).
Definition on_to {A} : Fib Duplex A -> Fib Pair A :=
  zoom pair_to (fun p d => {| pair_from := pair_from p; pair_to := d |}).

Section relay.
Context `{RubyVM} (wait_from : Fib Duplex unit).

Fixpoint copy_loop (fuel : nat) : Fib Pair unit :=
  match fuel with
  | 0%nat => st_ret Spinning
  | S fuel =>
      let! (data, _) := on_from (dx_readpartial wait_from RELAY_BYTES None) in
      let! _ := on_to (dx_write [default [] data]) in
      copy_loop fuel
  end.

Definition is_class (name : string) (e : Exn) : bool :=
  match e with
  | Standard c _ => bool_decide (c = name)
  | _ => false
  end.

Definition copy (fuel : nat) : Fib Pair unit :=
  rescue (copy_loop fuel) (fun e =>
    if is_class "EOFError" e then Some (on_to dx_close_write)
    else if is_class "Errno::EPIPE" e then Some (on_from dx_close_read)
    else None).

End relay.

(** What [relay] makes of the two endings, in the order they were pushed: it raises the
    first failure it pops, and closes both streams after two clean endings. *)
Definition relay_ends (first second : option Exn) : Outcome bool :=
  match first with
  | Some e => Raised e
  | None =>
      match second with
      | Some e => Raised e
      | None => Done true
      end
  end.

(** ** The body readers ([src/ruby/rack_streaming_body_reader.rb], [rack_body_reader.rb])

    An application's body: what its [each] yields before it returns or raises, or a
    [call] that is given a stream, or neither; and whether it responds to [close]. *)

Inductive Body :=
| Each (chunks : list bytes) (ends : option Exn)
| Call (body_call : Fib Duplex unit)
| Neither.

Record AppBody := { app_body : Body; responds_to_close : bool; closes : nat }.

Record Serving := { sv_body : AppBody; sv_input : RackInput; sv_stream : option Duplex }.

Section readers.
Context `{RubyVM}.

(** [each { |chunk| return unless Stream.write(sink, chunk) }] *)
Fixpoint each_write {O} (sink : StreamHandle) (chunks : list bytes) (ends : option Exn) : Fib O unit :=
  match chunks with
  | [] => match ends with
          | Some e => raise e
          | None => done tt
          end
  | chunk :: rest =>
      let! sent := stream_write sink chunk in
      if sent then each_write sink rest ends else done tt
  end.

Definition on_input {A} : Fib RackInput A -> Fib Serving A :=
  zoom sv_input (fun v i => {| sv_body := sv_body v; sv_input := i; sv_stream := sv_stream v |}).

Definition on_stream {A} (absent : A) (m : Fib Duplex A) : Fib Serving A := fun s =>
  match sv_stream (object s) with
  | Some d => zoom (fun _ => d) (fun v d => {| sv_body := sv_body v; sv_input := sv_input v; sv_stream := Some d |}) m s
  | None => (Done absent, s)
  end.

(** [body.close if body.respond_to?(:close)] *)
Definition close_body : Fib Serving unit :=
  change (fun v => {| sv_body := {| app_body := app_body (sv_body v); responds_to_close := responds_to_close (sv_body v);
                                    closes := if responds_to_close (sv_body v) then S (closes (sv_body v)) else closes (sv_body v) |};
                      sv_input := sv_input v; sv_stream := sv_stream v |}).

(** The reader of streamed responses. *)
Definition stream_body (sink : StreamHandle) : Fib Serving unit :=
  ensure (
    let! v := obj in
    match app_body (sv_body v) with
    | Each chunks ends => each_write sink chunks ends
    | Call body_call =>
        let! (buffered, source) := on_input input_detach in
        match source with
        | None => raise (Standard "NoMethodError" "undefined method 'next_chunk' for nil")
        | Some source =>
            do! change (fun v => {| sv_body := sv_body v; sv_input := sv_input v;
                                    sv_stream := Some (duplex_new source sink buffered) |}) in
            do! on_stream tt body_call in
            (* only a body that returned ends cleanly; one that raised is reset *)
            on_stream tt dx_close_write
        end
    | Neither => raise (type_error "a Rack response body must respond to each or call")
    end) close_body.

(** The reader that collects a body. *)
Definition collect_body : Fib Serving bytes :=
  let! v := obj in
  match app_body (sv_body v) with
  | Each chunks ends =>
      ensure (match ends with
              | Some e => raise e
              | None => done (concat chunks)
              end) close_body
  | _ => raise (type_error "streaming Rack response bodies are not supported")
  end.

End readers.
