(* ===== verification/DuplexSpec.v ===== *)
(** * What is written arrives

    [stream_write] hands a chunk to a queue while another thread empties it: it goes over
    whole and in order, or the other side has gone.  A body that is streamed is what its
    [each] yielded. *)

From S2P Require Import Prelude RustStr Types Stream StreamTrace World Ruby Chunks RubyExample Fibers FiberLogic RackInput Duplex.

Local Open Scope N_scope.

(** ** One write into the queue *)

Lemma push_within_env b q : stream_wf q ->
  let '(taken, q') := push_chunk_within_budget b q in
  env_step q q' (match taken with
                 | Some n => if n =? 0 then [] else [Chunk (ntake n b)]
                 | None => []
                 end) []
  /\ (taken = None <-> settled q = true)
  /\ (taken = Some 0 -> len b = 0 \/ full q = true)
  /\ (forall n, taken = Some n -> n <= len b).
Proof.
  intros Hwf. pose proof (push_chunk_within_budget_wf b q Hwf) as Hwf'. unfold push_chunk_within_budget in *.
  unfold settled. destruct (cancelled q || ended q) eqn:E.
  { split_and!; try done. by apply env_step_refl. }
  rewrite zero_lt_eqb in *. set (n := N.min _ _) in *. cbn [snd] in Hwf'. split_and!; try done.
  - destruct (n =? 0); cbn [negb] in *; [by apply env_step_refl|]. by apply env_step_append.
  - intros [= Hn]. unfold n, saturating_sub in Hn. unfold full. destruct (decide (len b = 0)); [by left|right].
    apply orb_true_iff. right. lia.
  - intros m [= <-]. unfold n. lia.
Qed.

Definition is_chunk (i : StreamItem) : bool :=
  match i with
  | Chunk _ => true
  | _ => false
  end.

Section writing.
Context {O : Type} (sink : StreamHandle).
Let r := stream sink.
Implicit Types s : Fiber O.

(** The fiber queued [its]; the other side may have taken some, or cancelled. *)
Record wrote (its : list StreamItem) s s' : Prop := {
  wr_object : object s' = object s;
  wr_ready : ready_as writer r s';
  wr_arrived : arrived_at r s' = arrived_at r s;
  wr_step : exists out, departed_at r s' = (departed_at r s ++ out)%list /\ env_step (q_of r s) (q_of r s') its out;
  wr_events : (length (coming s') <= length (coming s))%nat;
  wr_undisturbed : undisturbed r s -> undisturbed r s';
}.

Lemma wrote_nothing s s' : onward_as writer r s s' -> wrote [] s s'.
Proof.
  intros [A1 (new & out & A2 & A3 & A4 & A5) A6 A7 A8 A9]. cbn in A5. subst new. rewrite app_nil_r in A2.
  constructor; try done. by exists out.
Qed.

Lemma wrote_trans l1 l2 s1 s2 s3 : wrote l1 s1 s2 -> wrote l2 s2 s3 -> wrote (l1 ++ l2) s1 s3.
Proof.
  intros [A1 A2 A3 (o1 & A4 & A5) A6 A7] [B1 B2 B3 (o2 & B4 & B5) B6 B7]. constructor; try done; try congruence; [|lia|auto].
  exists (o1 ++ o2)%list. split; [by rewrite B4, A4, app_assoc|by eapply env_step_trans].
Qed.

Lemma writer_offers evs : Forall (allowed writer r) evs -> offered_coming r evs = 0.
Proof.
  assert (forall calls, Forall (allows writer r) calls -> offered_in r calls = 0) as Hcalls.
  { induction calls as [|[r' op] calls IH]; intros Hc; [done|]. apply Forall_cons_1 in Hc as [Hc Hcs].
    unfold offered_in in *. cbn [foldr fst snd]. rewrite IH by done. unfold allows in Hc. cbn [fst snd] in Hc.
    case_bool_decide as Heq; [|done]. specialize (Hc Heq). by destruct op. }
  induction evs as [|[calls|e] evs IH]; intros Hf; [done| |]; apply Forall_cons_1 in Hf as [Hc Hf];
    unfold offered_coming in *; cbn [foldr offered_by]; rewrite IH by done; [|done]. by rewrite Hcalls.
Qed.

(** [sink.write] after what the others did. *)
Lemma sink_write_spec chunk offset s : ready_as writer r s ->
  let '(o, s') := sink_write sink chunk offset s in
  exists taken, o = Done taken
  /\ wrote (match taken with
            | Some n => if n =? 0 then [] else [Chunk (ntake n (ndrop offset chunk))]
            | None => []
            end) s s'
  /\ (taken = None -> settled (q_of r s') = true)
  /\ (cancelled (q_of r s) = true -> taken = None)
  /\ (taken = Some 0 -> len chunk <= offset \/ (length (coming s') < length (coming s))%nat \/ full (q_of r s) = true)
  /\ (forall n, taken = Some n -> n <= len chunk - offset).
Proof.
  intros Hr. unfold sink_write. rewrite access_run. pose proof (interfere_onward r s Hr) as Ho.
  pose proof (interfere_events r s Hr) as Hev. set (s1 := interfere s) in *. clearbody s1.
  pose proof (on_ready _ _ _ _ Ho) as [R1 R2 R3 R4]. unfold write. rewrite bind_run, on_queue_fst.
  change (get_queue (store s1) (stream sink)) with (q_of r s1). unfold bytes_from.
  pose proof (push_within_env (ndrop offset chunk) (q_of r s1) R1) as Hp.
  set (w2 := (on_queue (stream sink) _ (store s1)).2).
  assert (get_queue w2 r = (push_chunk_within_budget (ndrop offset chunk) (q_of r s1)).2) as Hq by (unfold w2, r; by rewrite get_on_queue).
  destruct (push_chunk_within_budget (ndrop offset chunk) (q_of r s1)) as [taken q'] eqn:Ep. cbn [fst snd] in *.
  destruct Hp as (P1 & P2 & P3 & P4). rewrite len_ndrop in P3, P4.
  assert (cancelled (q_of r s) = true -> taken = None) as Hgone.
  { intros Hc. apply P2. destruct (on_logs _ _ _ _ Ho) as (n1 & o1 & _ & _ & Hs & _).
    unfold settled. by rewrite (es_cancelled _ _ _ _ Hs Hc). }
  assert (forall w3 its, get_queue w3 r = q' -> env_step (q_of r s1) q' its [] ->
    forallb is_chunk its = true -> wrote its s (with_store s1 w3)) as Hwrote.
  { intros w3 its H3 Hs Hits. apply (wrote_trans [] its s s1); [by apply wrote_nothing|].
    assert (q_of r (with_store s1 w3) = q') as Eq by exact H3.
    constructor; try done; [|exists []; rewrite app_nil_r, Eq; done|].
    2: { intros [U1 U2]. constructor; [done|]. rewrite Eq. apply (env_step_undisturbed _ _ _ _ Hs); [done|].
         apply list.Forall_forall. intros i Hi.
         rewrite forallb_forall in Hits. specialize (Hits i (proj1 (list_elem_of_In _ _) Hi)). by destruct i. }
    constructor; rewrite ?Eq; try done; [apply Hs|]. cbn [coming with_store]. rewrite (writer_offers _ R3).
    pose proof (wf_width _ (es_wf _ _ _ _ Hs)). lia. }
  destruct taken as [n|].
  - destruct (0 <? n) eqn:En; rewrite bind_run; cbn [st_ret fst snd]; exists (Some n); split; try done.
    all: split; [apply Hwrote; [by destruct r|done|by case_match]|]. all: split_and!; try done.
    + intros [= ->]. lia.
    + intros [= ->]. destruct (P3 eq_refl) as [Hl|Hf]; [left; lia|right]. cbn [coming with_store].
      destruct Hev as [Hl|[-> _]]; [by left|by right].
  - cbn [st_ret fst snd]. exists None. split_and!; try done; [by apply Hwrote|].
    intros _. unfold q_of. cbn [store with_store]. rewrite Hq. destruct P2 as [P2 _]. specialize (P2 eq_refl).
    unfold settled in *. apply orb_true_iff in P2 as [P2|P2];
      [by rewrite (es_cancelled _ _ _ _ P1 P2)|by rewrite (es_ended _ _ _ _ P1 P2), orb_true_r].
Qed.

(** Waiting for room: a turn that used up nothing found room, or that the queue is gone. *)
Lemma wait_for_room_spec s : ready_as writer r s ->
  let '(o, s') := (let! room := sink_writable sink in if room then done tt else park_sink sink) s in
  wrote [] s s' /\ o <> Spinning /\ (undisturbed r s -> forall e, o <> Raised e)
  /\ (o = Waiting -> coming s' = [] /\ exists v, waiter (q_of r s') = Some v)
  /\ (o = Done tt -> (length (coming s') < length (coming s))%nat
      \/ full (q_of r s') = false \/ cancelled (q_of r s') = true).
Proof.
  intros Hr. rewrite fbind_run. unfold sink_writable. rewrite access_run. cbn [writable read fst snd].
  pose proof (interfere_onward r s Hr) as Ho. pose proof (interfere_events r s Hr) as Hev.
  set (s1 := interfere s) in *. assert (with_store s1 (store s1) = s1) as -> by (by destruct s1).
  clearbody s1. unfold is_saturated. change (get_queue (store s1) (stream sink)) with (q_of r s1).
  destruct (full (q_of r s1)) eqn:Ef; cbn [negb].
  2: { cbn [done st_ret]. split_and!; try done; [by apply wrote_nothing|]. intros _. right. by left. }
  assert (forall v w, (sink_park sink v w).1 = true -> waiter (get_queue (sink_park sink v w).2 r) = Some v) as Hplace.
  { intros v w. unfold sink_park. rewrite on_queue_fst. fold r. rewrite get_on_queue. unfold park_writer. by case_match. }
  assert (@calm writer O r unit (sink_unpark sink)) as Hun by apply calm_unpark.
  assert (forall v, @calm writer O r bool (sink_park sink v)) as Hpk by (intros v; apply calm_park_writer).
  pose proof (park_on_onward r r (sink_park sink) (sink_unpark sink) s1 (on_ready _ _ _ _ Ho) Hpk Hun Hplace) as Hp.
  unfold park_sink. fold r. destruct (park_on _ _ _ s1) as [o s2]. destruct Hp as (P1 & P2 & P3 & P4 & P5).
  split_and!; try done; [by apply wrote_nothing, (onward_trans r s s1)|intros Hu; by apply P4, Ho|]. intros ->.
  pose proof (on_events _ _ _ _ Ho). pose proof (on_events _ _ _ _ P1).
  destruct (P5 eq_refl) as [Hl|(v & w & Hf & Hq)]; [left; lia|]. right. right.
  unfold sink_park in Hf. rewrite on_queue_fst in Hf. fold r in Hf. rewrite Hq in Hf. unfold park_writer in Hf.
  rewrite Ef in Hf. cbn [negb] in Hf. rewrite orb_false_r in Hf.
  destruct (cancelled (q_of r s1)) eqn:Ec; [|done].
  destruct (on_logs _ _ _ _ P1) as (n1 & o1 & _ & _ & Hs & _). by apply (es_cancelled _ _ _ _ Hs).
Qed.

Lemma fbind_assoc {A B C} (m : Fib O A) (k : A -> Fib O B) (h : B -> Fib O C) s :
  fbind (fbind m k) h s = fbind m (fun a => fbind (k a) h) s.
Proof. rewrite !fbind_run. by destruct (m s) as [[a|e| |] s']. Qed.

(** The items of a piece of the chunk. *)
Definition pieces (its : list StreamItem) (b : bytes) : Prop :=
  queued_bytes its = b /\ forallb is_chunk its = true.

Lemma pieces_app l1 l2 b1 b2 : pieces l1 b1 -> pieces l2 b2 -> pieces (l1 ++ l2) (b1 ++ b2).
Proof. intros [<- H1] [<- H2]. split; [apply queued_bytes_app|]. by rewrite forallb_app, H1, H2. Qed.

Lemma ndrop_add {A} n m (l : list A) : ndrop (n + m) l = ndrop m (ndrop n l).
Proof. by rewrite ndrop_ndrop. Qed.

Lemma write_loop_spec fuel chunk offset s : ready_as writer r s -> offset <= len chunk ->
  (N.to_nat (len chunk - offset) + length (coming s) < fuel)%nat ->
  let '(o, s') := write_loop fuel sink chunk offset s in
  exists n its, n <= len chunk - offset /\ pieces its (ntake n (ndrop offset chunk)) /\ wrote its s s'
  /\ o <> Spinning /\ (undisturbed r s -> forall e, o <> Raised e)
  /\ (o = Done true -> n = len chunk - offset)
  /\ (o = Done false -> settled (q_of r s') = true)
  /\ (o = Waiting -> coming s' = [] /\ exists v, waiter (q_of r s') = Some v).
Proof.
  revert offset s. induction fuel as [|fuel IH]; intros offset s Hr Hoff Hf; [lia|]. cbn [write_loop].
  assert (forall s' (o : Outcome bool), wrote [] s s' -> exists n its, n <= len chunk - offset
    /\ pieces its (ntake n (ndrop offset chunk)) /\ wrote its s s' /\ n = 0) as Hnone.
  { intros s' _ Hw. exists 0, []. split_and!; try done. lia. }
  destruct (offset <? len chunk) eqn:E.
  2: { cbn [done st_ret]. destruct (Hnone s (Done true)) as (n & its & H1 & H2 & H3 & H4).
       { by apply wrote_nothing, onward_refl. } exists n, its. split_and!; try done. lia. }
  rewrite <- (fbind_assoc (sink_writable sink) (fun room => if room then done tt else park_sink sink)), fbind_run.
  pose proof (wait_for_room_spec s Hr) as Hw. destruct (fbind (sink_writable sink) _ s) as [o s1].
  destruct Hw as (W1 & W2 & W5 & W3 & W4). pose proof (wr_events _ _ _ W1) as Hev1.
  destruct o as [[]|e| |]; try done.
  2: { destruct (Hnone s1 (Raised e) W1) as (n & its & H1 & H2 & H3 & H4). exists n, its. split_and!; try done.
       intros Hu e' [= <-]. by apply (W5 Hu e). }
  2: { destruct (Hnone s1 Waiting W1) as (n & its & H1 & H2 & H3 & H4). exists n, its. split_and!; try done. intros _. by apply W3. }
  rewrite fbind_run. pose proof (sink_write_spec chunk offset s1 (wr_ready _ _ _ W1)) as Hs.
  destruct (sink_write sink chunk offset s1) as [o s2]. destruct Hs as (taken & -> & V1 & V2 & V3 & V4 & V5).
  pose proof (wrote_trans _ _ _ _ _ W1 V1) as V. cbn [app] in V. pose proof (wr_events _ _ _ V1) as Hev2.
  destruct taken as [n|].
  2: { cbn [done st_ret]. exists 0, []. split_and!; try done; [lia|]. intros _. by apply V2. }
  specialize (V5 n eq_refl).
  assert (pieces (if n =? 0 then [] else [Chunk (ntake n (ndrop offset chunk))]) (ntake n (ndrop offset chunk))) as Hp.
  { destruct (n =? 0) eqn:En; [replace n with 0 by lia; done|]. split; [|done].
    cbn [queued_bytes mbind list_bind item_bytes]. by rewrite app_nil_r. }
  assert (0 < n \/ (length (coming s2) < length (coming s))%nat) as Hprog.
  { destruct (decide (n = 0)) as [->|]; [right|left; lia].
    destruct (W4 eq_refl) as [Hl|Hroom]; [lia|]. destruct (V4 eq_refl) as [Hl|[Hl|Hl]]; [lia|lia|].
    destruct Hroom as [Hroom|Hroom]; [congruence|]. by specialize (V3 Hroom). }
  specialize (IH (offset + n) s2 (wr_ready _ _ _ V1) ltac:(lia) ltac:(lia)).
  destruct (write_loop fuel sink chunk (offset + n) s2) as [o s3]. destruct IH as (m & its & I1 & I2 & I3 & I4 & I8 & I5 & I6 & I7).
  exists (n + m), ((if (n =? 0)%N then [] else [Chunk (ntake n (ndrop offset chunk))]) ++ its)%list.
  split_and!; try done; [lia| |by eapply wrote_trans|intros Hu; by apply I8, V|intros Hd; specialize (I5 Hd); lia].
  rewrite <- ntake_ntake_add, <- ndrop_add. by apply pieces_app.
Qed.

(** [Stream.write]: a prefix of the chunk went over; all of it, unless the other side is
    gone, the fiber was stopped, or it still waits. *)
Lemma stream_write_spec chunk s : ready_as writer r s ->
  let '(o, s') := stream_write sink chunk s in
  exists b its, b `prefix_of` chunk /\ pieces its b /\ wrote its s s' /\ o <> Spinning
  /\ (undisturbed r s -> forall e, o <> Raised e)
  /\ (o = Done true -> b = chunk)
  /\ (o = Done false -> settled (q_of r s') = true)
  /\ (o = Waiting -> coming s' = [] /\ exists v, waiter (q_of r s') = Some v).
Proof.
  intros Hr. pose proof (write_loop_spec (S (length chunk + length (coming s))) chunk 0 s Hr ltac:(lia)) as Hw.
  unfold stream_write. destruct (write_loop _ sink chunk 0 s) as [o s'].
  destruct Hw as (n & its & H1 & H2 & H3 & H4 & H8 & H5 & H6 & H7); [unfold len; lia|].
  exists (ntake n chunk), its. split_and!; try done; [apply prefix_take|].
  intros Hd. apply ntake_ge. specialize (H5 Hd). lia.
Qed.

(** [sink.finish] leaves the queue over, ended here or before. *)
Lemma sink_finish_spec s : ready_as writer r s ->
  let '(o, s') := sink_finish sink s in
  o = Done tt /\ exists its, wrote its s s' /\ settled (q_of r s') = true /\ (its = [End] \/ its = []).
Proof.
  intros Hr. unfold sink_finish. rewrite access_run. split; [by destruct (finish sink _).1|].
  pose proof (interfere_onward r s Hr) as Ho. set (s1 := interfere s) in *. clearbody s1.
  pose proof (on_ready _ _ _ _ Ho) as [R1 R2 R3 R4]. unfold finish. rewrite bind_run, on_queue_fst. fold r.
  change (get_queue (store s1) r) with (q_of r s1). unfold push_end. set (w2 := (on_queue r _ (store s1)).2).
  assert (get_queue w2 r = (push End (q_of r s1)).2) as Hq by (unfold w2; by rewrite get_on_queue).
  set (w3 := (_ w2).2). assert (get_queue w3 r = (push End (q_of r s1)).2) as Hq3.
  { rewrite <- Hq. unfold w3. destruct (push End (q_of r s1)).1; [|done]. by destruct r. }
  clearbody w3. pose proof (push_wf End (q_of r s1) R1) as Hwf. specialize (Hwf ltac:(cbn; rewrite N.add_0_r; apply R1)). unfold push in *.
  destruct (cancelled (q_of r s1) || ended (q_of r s1)) eqn:E; cbn [fst snd] in *.
  - exists []. split_and!; [|by unfold q_of; cbn [store with_store]; rewrite Hq3|by right].
    apply wrote_nothing. eapply onward_trans; [exact Ho|]. by apply onward_store.
  - exists [End]. set (s' := with_store s1 w3). assert (q_of r s' = set_items (q_of r s1) (items (q_of r s1) ++ [End]) (buffered_bytes (q_of r s1)) true) as Hq' by exact Hq3.
    split_and!; [|by rewrite Hq'; unfold settled; cbn; rewrite orb_true_r|by left].
    apply (wrote_trans [] [End] s s1); [by apply wrote_nothing|].
    constructor; fold r; rewrite ?Hq'; try done.
    + constructor; rewrite ?Hq'; done.
    + exists []. rewrite app_nil_r. split; [done|]. by apply env_step_append.
    + intros [U1 U2]. constructor; [done|]. fold r. rewrite Hq'. cbn [set_items items]. apply Forall_app. split; [done|]. by constructor.
Qed.

End writing.

(** ** Bodies *)

Section bodies.
Context (sink : StreamHandle).
Let r := stream sink.

Lemma each_write_spec {O} chunks ends (s : Fiber O) : ready_as writer r s ->
  let '(o, s') := each_write sink chunks ends s in
  exists b its, b `prefix_of` concat chunks /\ pieces its b /\ wrote sink its s s' /\ o <> Spinning
  /\ (o = Done tt -> settled (q_of r s') = true \/ b = concat chunks /\ ends = None)
  /\ (undisturbed r s -> forall e, o = Raised e -> ends = Some e /\ b = concat chunks)
  /\ (o = Waiting -> coming s' = [] /\ exists v, waiter (q_of r s') = Some v).
Proof.
  revert s. induction chunks as [|chunk rest IH]; intros s Hr; cbn [each_write concat].
  - pose proof (wrote_nothing sink s s (onward_refl r s Hr)) as W.
    destruct ends as [e|]; cbn [raise done st_ret]; exists [], []; split_and!; try done; [|by intros; right].
    by intros _ e' [= <-].
  - rewrite fbind_run. pose proof (stream_write_spec sink chunk s Hr) as Hw.
    destruct (stream_write sink chunk s) as [o s1]. destruct Hw as (b & its & H1 & H2 & H3 & H4 & H5 & H6 & H7 & H8).
    assert (b `prefix_of` chunk ++ concat rest) as Hb by (etransitivity; [exact H1|by apply prefix_app_r]).
    destruct o as [[|]|e| |]; try done.
    + rewrite (H6 eq_refl) in *. specialize (IH s1 (wr_ready _ _ _ _ H3)).
      destruct (each_write sink rest ends s1) as [o s2]. destruct IH as (b' & its' & I1 & I2 & I3 & I4 & I5 & I6 & I7).
      exists (chunk ++ b')%list, (its ++ its')%list. split_and!; try done; [by apply prefix_app|by apply pieces_app|by eapply wrote_trans| |].
      * intros Hd. destruct (I5 Hd) as [|[-> ->]]; [by left|by right].
      * intros Hu e Hraise. destruct (I6 (wr_undisturbed _ _ _ _ H3 Hu) e Hraise) as [-> ->]. done.
    + cbn [done st_ret]. exists b, its. split_and!; try done. intros _. left. by apply H7.
    + exists b, its. split_and!; try done. intros Hu e' _. by destruct (H5 Hu e).
    + exists b, its. split_and!; try done. intros _. by apply H8.
Qed.


End bodies.

(** A body of two chunks over a queue of three bytes that the worker empties twice. *)
Definition example_sink : StreamHandle := {| stream := Direct 1; waker := {| waker_filter := 0; waker_event := 1 |} |}.

Definition example_serving : Fiber Serving :=
  {| object := {| sv_body := {| app_body := Each [into_bytes "hello"; into_bytes "!"] None;
                                responds_to_close := true; closes := 0 |};
                  sv_input := input_new {| source_queue := Direct 2; source_waker := None |};
                  sv_stream := None |};
     store := (new_queue 3 (world_new 1)).2;
     coming := [Others []; Others []; Others []; Others []; Others [(Direct 1, OpTake); (Direct 1, OpUnpark)];
                Others []; Others []; Others []; Others []; Others []; Others [(Direct 1, OpTake); (Direct 1, OpUnpark)]];
     arrived := []; departed := [] |}.

