(* ===== verification/DuplexRead.v ===== *)
(** * What a duplex stream reads

    Bytes come out of [Ruvoy::Stream] in the order they arrived, each once, and a failure
    of the other side surfaces after what arrived before it. *)

From S2P Require Import Prelude RustStr Types Stream StreamTrace World Ruby Chunks RubyExample Fibers FiberLogic RackInput RackInputSpec Duplex.

Local Open Scope Z_scope.

(** ** Filling the buffer *)

(** All of the object but its buffer and a failure that is still to come. *)
Definition dx_rest (d : Duplex) := (dx_source d, dx_sink d, dx_read_closed d, dx_write_closed d, dx_bytes_read d, dx_bytes_written d).

Record dx_fine (d d' : Duplex) : Prop := {
  df_rest : dx_rest d' = dx_rest d;
  df_failure : forall e, dx_failure d = Some e -> dx_failure d' = Some e;
  df_new : forall e, dx_failure d' = Some e -> dx_failure d = Some e \/ exists x, e = FromRust x;
}.

#[export] Instance dx_fine_preorder : PreOrder dx_fine.
Proof.
  split; [by constructor; auto|]. intros d1 d2 d3 [A1 A2 A3] [B1 B2 B3]. constructor; [congruence|auto|].
  intros e He. destruct (B3 e He); auto.
Qed.

Definition dx_over (d : Duplex) : Prop := is_Some (dx_failure d).

Section duplex.
Context `{RubyVM} `{!QuietLookup} (c : Source) (wait_for_input : Fib Duplex unit).
Let r := source_queue c.
Implicit Types s : Fiber Duplex.

Definition dx_of (d : Duplex) : Prop := dx_source d = c /\ dx_read_closed d = false.

Lemma dx_good d d' : dx_of d -> dx_fine d d' -> dx_of d'.
Proof. unfold dx_of. intros [Hd Hc] [Hr _ _]. unfold dx_rest in Hr. split; congruence. Qed.

Lemma dx_over_fine d d' : dx_over d -> dx_fine d d' -> dx_over d'.
Proof. intros [e He] [_ Hf _]. exists e. auto. Qed.

Definition dx_reading s : Prop := reading c dx_of s.
Definition dx_went s s' : Prop := FiberLogic.went c dx_buffer dx_fine s s'.

Lemma dx_went_reading s s' : dx_reading s -> dx_went s s' -> dx_reading s'.
Proof. apply went_reading, dx_good. Qed.

Lemma dx_went_refl s : dx_reading s -> dx_went s s.
Proof. intros [Hr _]. apply went_refl; [apply _|done]. Qed.

Lemma buffer_chunk_keeps : keeps_chunk dx_buffer dx_of dx_fine buffer_chunk.
Proof. intros b s Hd. eexists. split; [done|]. split; [by constructor; auto|done]. Qed.

(** The loop of [pull] keeps no failure. *)
Lemma pull_loop_failure fuel s : dx_failure (object (pull_loop buffer_chunk fuel c s).2) = dx_failure (object s).
Proof.
  assert (forall s, object (source_next (O := Duplex) c s).2 = object s) as Hnext.
  { intros s0. unfold source_next, access_raising. rewrite fbind_run, access_run.
    pose proof (interfere_object s0) as Hi.
    set (res := (next_chunk_of _ _ _).1). by destruct res. }
  revert s. induction fuel as [|fuel IH]; intros s; [done|]. cbn [pull_loop]. rewrite fbind_run.
  pose proof (Hnext s) as Hn. destruct (source_next c s) as [[[b|]|e| |] s1]; cbn [snd] in *;
    try (cbn [done st_ret snd]; by rewrite Hn).
  rewrite fbind_run. cbn [buffer_chunk change]. rewrite IH. cbn. by rewrite Hn.
Qed.

(** What it raises came down the queue. *)
Lemma pull_loop_raises fuel s e : (pull_loop buffer_chunk fuel c s).1 = Raised e -> exists x, e = FromRust x.
Proof.
  assert (forall s e, (source_next (O := Duplex) c s).1 = Raised e -> exists x, e = FromRust x) as Hnext.
  { intros s0 e0. unfold source_next, access_raising. rewrite fbind_run, access_run.
    set (res := (next_chunk_of _ _ _).1). destruct res as [o|x]; cbn [done raise st_ret fst]; [done|].
    intros [= <-]. by exists x. }
  revert s. induction fuel as [|fuel IH]; intros s; [done|]. cbn [pull_loop]. rewrite fbind_run.
  pose proof (Hnext s) as Hn. destruct (source_next c s) as [[[b|]|e'| |] s1]; cbn [fst done st_ret] in *; try done.
  - rewrite fbind_run. cbn [buffer_chunk change]. apply IH.
  - intros [= <-]. by apply Hn.
Qed.

Lemma dx_drain_drains : drains c dx_buffer dx_of dx_fine dx_over dx_drain.
Proof.
  intros s Hs. unfold dx_drain. rewrite fbind_run. cbn [obj].
  destruct (dx_failure (object s)) as [e|] eqn:Ef.
  { cbn [done st_ret]. split_and!; try done; [by apply dx_went_refl|]. intros _. right. right. by exists e. }
  pose proof Hs as [Hr [Hd Hopen]]. unfold rescue. rewrite Hd.
  pose proof (pull_loop_spec c dx_buffer dx_of dx_fine dx_good buffer_chunk
    (S (takeable (source_queue c) s)) s buffer_chunk_keeps Hs (Nat.lt_succ_diag_r _)) as Hp.
  pose proof (pull_loop_failure (S (takeable (source_queue c) s)) s) as Hfail. rewrite Ef in Hfail.
  pose proof (pull_loop_raises (S (takeable (source_queue c) s)) s) as Hraise.
  unfold pull. destruct (pull_loop _ _ c s) as [o s1]. cbn [fst snd] in Hfail, Hraise. destruct Hp as (P1 & P2 & P3 & P4 & P5).
  assert (forall o' : Outcome unit, raised_asking dx_over o' s1) as Ha by (intros o' e _ [e' He']; congruence).
  destruct o as [[]|e| |]; try done.
  - split_and!; try done. intros _. destruct (P5 eq_refl) as [|]; [by left|right; by left].
  - destruct (is_standard e) eqn:Es; cbn [default from_option].
    + cbn [change]. split_and!; try done.
      * eapply went_trans; [apply _|exact P1|]. apply went_object; [apply P1|done|].
        constructor; [done|by rewrite Hfail|]. cbn. intros ? [= <-]. right. by apply Hraise.
      * intros _. right. right. by eexists.
    + split_and!; done.
Qed.

Lemma dx_finished_spec s : dx_reading s ->
  let '(o, s') := dx_finished s in
  dx_went s s' /\ ((left_to_do r s' < left_to_do r s)%nat \/ q_of r s' = q_of r s)
  /\ object s' = object s
  /\ exists f, o = Done f /\ (f = true <-> dx_over (object s') \/ is_finished (q_of r s') = true).
Proof.
  intros Hs. unfold dx_finished. rewrite fbind_run. cbn [obj]. unfold dx_over.
  destruct (dx_failure (object s)) as [e|] eqn:Ef.
  { cbn [done st_ret]. split_and!; try done; [by apply dx_went_refl|by right|]. exists true. rewrite Ef. split; [done|].
    split; [|done]. intros _. left. by eexists. }
  destruct Hs as [Hr [Hd _]]. rewrite Hd. pose proof (source_finished_spec (O := Duplex) c s Hr) as Hf.
  destruct (source_finished c s) as [o s']. destruct Hf as (F1 & F2 & ->).
  split_and!; try done; [by apply onward_went; [apply _|..]|apply F1|].
  eexists. split; [done|]. rewrite (on_object _ _ _ _ F1), Ef. split; [by right|]. by intros [[? ?]|].
Qed.

Context (waiting : waits c dx_of wait_for_input).

Lemma dx_fill_spec cond s : dx_reading s ->
  let '(o, s') := dx_fill wait_for_input cond s in
  dx_went s s' /\ o <> Spinning /\ quiet_waiting c o s' /\ no_raise c o s /\ raised_asking dx_over o s'
  /\ (o = Done tt -> cond (object s') = true \/ dx_over (object s') \/ is_finished (q_of r s') = true).
Proof.
  intros Hs. unfold dx_fill. rewrite fbind_run. cbn [obj]. pose proof (rg_good _ _ _ Hs) as [Hd _].
  rewrite Hd. set (block := fun _ : unit => _).
  pose proof (fill_from_spec c dx_buffer dx_of dx_fine dx_good dx_over dx_over_fine
    dx_drain wait_for_input block (fun _ _ => True)
    (fun _ s' => cond (object s') = true \/ dx_over (object s') \/ is_finished (q_of r s') = true) tt s) as Hf.
  destruct (fill_from c dx_drain wait_for_input block tt s) as [o s'].
  destruct Hf as (F1 & F2 & F3 & F4 & Fa & F5); try done.
  - apply dx_drain_drains.
  - intros [] s1 Hs1 _. unfold block. rewrite fbind_run. cbn [obj].
    destruct (cond (object s1)) eqn:Ec.
    + cbn [done st_ret]. split; [by apply dx_went_refl|]. split; [by right|]. cbn beta iota. by left.
    + rewrite fbind_run. pose proof (dx_finished_spec s1 Hs1) as Hfin.
      destruct (dx_finished s1) as [o1 s2]. destruct Hfin as (C1 & C2 & C3 & f & -> & Cf). cbn [done st_ret].
      split; [done|]. split; [done|]. destruct f; cbn beta iota; [right; by apply Cf|].
      split; [done|]. split; [|intros Ho; by apply Bool.diff_false_true, Cf; left].
      destruct (is_finished (q_of r s2)) eqn:E; [|done]. exfalso. apply Bool.diff_false_true, Cf. by right.
  - split_and!; try done. intros ->. by apply (F5 tt).
Qed.

(** ** Reads *)

(** The reads an application asks for, of a length that is not negative. *)
Inductive DuplexOp :=
| DxRead (length_ : option Z)
| DxReadPartial (length_ : Z).

Definition sensible (op : DuplexOp) : Prop :=
  match op with
  | DxRead (Some n) | DxReadPartial n => 0 <= n
  | DxRead None => True
  end.

Definition dx_op (op : DuplexOp) : Fib Duplex (option bytes * option bytes) :=
  match op with
  | DxRead n => dx_read wait_for_input n None
  | DxReadPartial n => dx_readpartial wait_for_input n None
  end.

Definition handed_out (o : Outcome (option bytes * option bytes)) : bytes :=
  match o with
  | Done (Some b, _) => b
  | _ => []
  end.

(** What one read promises, from the stream it left; [fin]: the source is finished. *)
Definition read_contract (op : DuplexOp) (o : Outcome (option bytes * option bytes)) (d : Duplex) (fin : bool) : Prop :=
  match op, o with
  | DxRead None, Done (b, _) => b <> None /\ dx_buffer d = [] /\ (dx_over d \/ fin = true)
  | DxRead (Some n), Done (Some b, _) => zlen b <= n /\ (zlen b = n \/ (b <> [] /\ dx_buffer d = [] /\ (dx_over d \/ fin = true)))
  | DxRead (Some n), Done (None, _) => 0 < n /\ dx_buffer d = [] /\ dx_failure d = None /\ fin = true
  | DxReadPartial n, Done (Some b, _) => zlen b <= n /\ (0 < n -> b <> [])
  | DxReadPartial n, Done (None, _) => False
  | _, Raised e => dx_over d -> dx_failure d = Some e /\ dx_buffer d = []
  | _, _ => True
  end.

(** From [s] to [s'], [b] was handed out: nothing is lost, repeated or out of order. *)
Definition kept (b : bytes) s s' : Prop :=
  exists new, arrived_at r s' = (arrived_at r s ++ new)%list
    /\ (cancelled (q_of r s) = true -> new = [])
    /\ (b ++ dx_buffer (object s') ++ queued_bytes (items (q_of r s')))%list
       `prefix_of` (dx_buffer (object s) ++ queued_bytes (items (q_of r s)) ++ queued_bytes new)%list
    /\ (cancelled (q_of r s') = false ->
        (b ++ dx_buffer (object s') ++ queued_bytes (items (q_of r s'))
         = dx_buffer (object s) ++ queued_bytes (items (q_of r s)) ++ queued_bytes new)%list).

Record conserves (b : bytes) s s' : Prop := {
  cv_arrived : kept b s s';
  cv_cancelled : cancelled (q_of r s) = true -> cancelled (q_of r s') = true;
  cv_count : dx_bytes_read (object s') = dx_bytes_read (object s) + zlen b;
  cv_reading : dx_reading s';
  cv_left : (left_to_do r s' <= left_to_do r s)%nat;
  cv_still : left_to_do r s' = left_to_do r s -> (b ++ dx_buffer (object s') = dx_buffer (object s))%list;
  cv_undisturbed : undisturbed r s -> undisturbed r s';
  cv_failure : forall e, dx_failure (object s') = Some e -> dx_failure (object s) = Some e \/ exists x, e = FromRust x;
  cv_sink : dx_sink (object s') = dx_sink (object s);
}.

Lemma conserves_went s s' : dx_reading s -> dx_went s s' -> conserves [] s s'.
Proof.
  intros Hs W. pose proof (dx_went_reading _ _ Hs W) as Hs'. destruct W as [[W1 W2 W3 W4 W5 W5'] W6 [W7 W8 W8'] W9].
  unfold dx_rest in W7. injection W7 as _ Es _ _ E _.
  constructor; try done. rewrite E. unfold zlen. cbn. lia.
Qed.

Lemma conserves_nil s : dx_reading s -> conserves [] s s.
Proof. intros Hs. by apply conserves_went, dx_went_refl. Qed.

(** Bytes conserved twice. *)
Lemma conserved_then (R : bytes -> bytes -> Prop) (b1 rest buf2 q2 buf1 q1 n1 n2 : bytes) :
  (b1 ++ buf2 ++ q2 = buf1 ++ q1 ++ n1)%list -> R (b1 ++ rest)%list (b1 ++ buf2 ++ q2 ++ n2)%list ->
  R (b1 ++ rest)%list (buf1 ++ q1 ++ n1 ++ n2)%list.
Proof.
  intros He. replace (buf1 ++ q1 ++ n1 ++ n2)%list with ((buf1 ++ q1 ++ n1) ++ n2)%list by (by rewrite <- !app_assoc).
  by rewrite <- He, <- !app_assoc.
Qed.

Lemma conserves_trans b1 b2 s1 s2 s3 : conserves b1 s1 s2 -> conserves b2 s2 s3 -> conserves (b1 ++ b2) s1 s3.
Proof.
  intros [(n1 & A1 & A2 & A3 & A4) A5 A6 A7 A8 A9 A10 A11 A12] [(n2 & B1 & B2 & B3 & B4) B5 B6 B7 B8 B9 B10 B11 B12].
  constructor; try done; [|auto|rewrite zlen_app; lia|lia| |auto| |congruence].
  3: { intros e He. destruct (B11 e He); auto. }
  2: { intros Hl. by rewrite <- app_assoc, B9, A9 by lia. }
  exists (n1 ++ n2)%list. rewrite queued_bytes_app, <- !app_assoc. split_and!; [by rewrite B1, A1, app_assoc| | |].
  - intros Hc. by rewrite A2, B2 by auto.
  - destruct (cancelled (q_of r s2)) eqn:E2.
    + rewrite (B2 eq_refl) in *. change (queued_bytes []) with (@nil byte) in *. rewrite !app_nil_r in *.
      etransitivity; [by apply prefix_app, B3|]. done.
    + specialize (A4 eq_refl). apply (conserved_then _ _ _ _ _ _ _ _ _ A4). by apply prefix_app.
  - intros Hc. destruct (cancelled (q_of r s2)) eqn:E2; [by rewrite B5 in Hc|]. specialize (A4 eq_refl).
    apply (conserved_then (=) _ _ _ _ _ _ _ _ A4). by rewrite B4.
Qed.

(** [give], of a length that is not negative. *)
Lemma give_spec n buffer s : dx_reading s -> 0 <= n ->
  let '(o, s') := give n buffer s in
  o = Done (into_buffer buffer (take (Z.to_nat n) (dx_buffer (object s))))
  /\ conserves (take (Z.to_nat n) (dx_buffer (object s))) s s'
  /\ dx_buffer (object s') = drop (Z.to_nat n) (dx_buffer (object s))
  /\ dx_failure (object s') = dx_failure (object s) /\ coming s' = coming s /\ q_of r s' = q_of r s.
Proof.
  intros Hs Hn. unfold give. rewrite fbind_run. cbn [obj]. rewrite fbind_run. cbn [change].
  replace (n <? 0) with false by lia. rewrite fbind_run. cbn [change done st_ret]. unfold byteslice_from.
  replace (n <? 0) with false by lia. split; [done|].
  destruct Hs as [[R1 R2 R3 R4] Hd]. set (s' := with_object (with_object _ _) _).
  assert (q_of r s' = q_of r s) as Hq by done. assert (arrived_at r s' = arrived_at r s) as Ha by done.
  assert (coming s' = coming s) as Hev by done.
  assert (dx_buffer (object s') = drop (Z.to_nat n) (dx_buffer (object s))) as Hb by done. split; [|done].
  constructor; rewrite ?Hq; try done.
  - exists []. rewrite !app_nil_r, Ha, Hb, (app_assoc (take _ _)), take_drop. by split_and!.
  - intros _. by rewrite Hb, take_drop.
  - intros [U1 U2]. by constructor; rewrite ?Hq.
  - intros e He. by left.
Qed.

Lemma zlen_take n (b : bytes) : 0 <= n -> zlen (take (Z.to_nat n) b) = Z.min n (zlen b).
Proof. unfold zlen. rewrite length_take. lia. Qed.

(** The bytes of a read of some length. *)
Lemma take_some n (b : bytes) : 0 < n -> b <> [] -> take (Z.to_nat n) b <> [].
Proof. intros Hn. destruct b; [done|]. by destruct (Z.to_nat n) eqn:E; [lia|]. Qed.

Lemma zlen_pos (b : bytes) : b <> [] -> 0 < zlen b.
Proof. destruct b; [done|]. unfold zlen. cbn. lia. Qed.

(** What a read did to the stream, and how it ended. *)
Record read_done (op : DuplexOp) (o : Outcome (option bytes * option bytes)) s s' : Prop := {
  ro_conserves : conserves (handed_out o) s s';
  ro_contract : read_contract op o (object s') (is_finished (q_of r s'));
  ro_stops : o <> Spinning;
  ro_waiting : quiet_waiting c o s';
  ro_raises : undisturbed r s -> forall e, o = Raised e ->
    dx_failure (object s') = Some e \/ e = eof_error /\ dx_buffer (object s') = [] /\ is_finished (q_of r s') = true;
}.

Lemma read_done_after op o s s1 s' : conserves [] s s1 -> read_done op o s1 s' -> read_done op o s s'.
Proof. intros Hc [R1 R2 R3 R4 R5]. constructor; try done; [by apply (conserves_trans [] _ s s1)|].
  intros Hu. by apply R5, (cv_undisturbed _ _ _ Hc). Qed.

(** A read that fills first. *)
Lemma fill_then op cond (k : Fib Duplex (option bytes * option bytes)) s : dx_reading s ->
  (forall s1, dx_reading s1 -> cond (object s1) = true \/ dx_over (object s1) \/ is_finished (q_of r s1) = true ->
    let '(o, s') := k s1 in read_done op o s1 s') ->
  let '(o, s') := (do! dx_fill wait_for_input cond in k) s in read_done op o s s'.
Proof.
  intros Hs Hk. rewrite fbind_run. pose proof (dx_fill_spec cond s Hs) as Hf.
  destruct (dx_fill wait_for_input cond s) as [o s1]. destruct Hf as (F1 & F2 & F3 & F4 & F5 & F6).
  pose proof (conserves_went _ _ Hs F1) as Hc. destruct o as [[]|e| |]; try done.
  - specialize (Hk s1 (dx_went_reading _ _ Hs F1) (F6 eq_refl)). destruct (k s1) as [o s'].
    by eapply read_done_after.
  - constructor; try done; [destruct op as [[n|]|n]; intros Ho; by destruct (F5 e eq_refl)|].
    intros Hu e' [= <-]. by destruct (F4 Hu e).
  - constructor; try done; [by destruct op as [[n|]|n]|]. intros _. by apply F3.
Qed.

(** A failure that was kept comes out once nothing is left. *)
Lemma failure_done op e s : dx_reading s -> dx_failure (object s) = Some e -> dx_buffer (object s) = [] ->
  read_done op (Raised e) s s.
Proof.
  intros Hs He Hb. constructor; try done; [by apply conserves_nil|by destruct op as [[n|]|n]|].
  intros _ e' [= <-]. by left.
Qed.

Lemma give_done op n s : dx_reading s -> 0 <= n ->
  (forall d, dx_buffer d = drop (Z.to_nat n) (dx_buffer (object s)) -> dx_failure d = dx_failure (object s) ->
    read_contract op (Done (Some (take (Z.to_nat n) (dx_buffer (object s))), None)) d (is_finished (q_of r s))) ->
  let '(o, s') := give n None s in read_done op o s s'.
Proof.
  intros Hs Hn Hc. pose proof (give_spec n None s Hs Hn) as Hg. destruct (give n None s) as [o s'].
  destruct Hg as (-> & G1 & G2 & G3 & G4 & G5). constructor; try done. cbn [into_buffer]. rewrite G5. by apply Hc.
Qed.

Lemma dx_op_done op s : dx_reading s -> sensible op ->
  let '(o, s') := dx_op op s in read_done op o s s'.
Proof.
  intros Hs Hop. pose proof (rg_good _ _ _ Hs) as [_ Hopen].
  assert (readable s = (Done tt, s)) as Hr by (unfold readable; rewrite fbind_run; cbn [obj]; by rewrite Hopen).
  destruct op as [[n|]|n]; cbn [dx_op sensible] in *; unfold dx_read, dx_readpartial; rewrite fbind_run, Hr.
  - replace (n <? 0) with false by lia. destruct (n =? 0) eqn:En.
    { apply give_done; [done|lia|]. intros d Hd Hf. change (Z.to_nat 0) with 0%nat. rewrite take_0. cbn. unfold zlen. cbn.
      split; [lia|]. left. lia. }
    apply fill_then; [done|]. intros s1 Hs1 Hc. rewrite fbind_run. cbn [obj]. case_bool_decide as Hb.
    + rewrite fbind_run. unfold raise_failure. rewrite fbind_run. cbn [obj].
      destruct (dx_failure (object s1)) as [e|] eqn:Ef; [by apply failure_done|]. cbn [done st_ret].
      constructor; try done; [by apply conserves_nil|]. split_and!; try done; [lia|].
      destruct Hc as [Hc|[[e He]|Hc]]; [|congruence|done]. rewrite Hb in Hc. unfold zlen in Hc. cbn in Hc. lia.
    + pose proof (zlen_pos _ Hb). apply give_done; [done|lia|]. intros d Hd Hf. cbn [read_contract].
      rewrite zlen_take by lia. split; [lia|]. destruct (decide (n <= zlen (dx_buffer (object s1)))); [left; lia|right].
      split; [|split].
      * apply take_some; [lia|done].
      * rewrite Hd. apply drop_ge. unfold zlen in *. lia.
      * destruct Hc as [Hc|[Hc|Hc]]; [lia|left; unfold dx_over in *; by rewrite Hf|by right].
  - apply fill_then; [done|]. intros s1 Hs1 Hc. rewrite fbind_run. cbn [obj]. rewrite fbind_run.
    assert (let '(o, s') := give (zlen (dx_buffer (object s1))) None s1 in read_done (DxRead None) o s1 s') as Hg.
    { apply give_done; [done|unfold zlen; lia|]. intros d Hd Hf. cbn [read_contract]. split_and!; [done| |].
      - rewrite Hd. apply drop_ge. unfold zlen. lia.
      - destruct Hc as [Hc|[Hc|Hc]]; [done|left; unfold dx_over in *; by rewrite Hf|by right]. }
    case_bool_decide as Hb; [|by cbn [done st_ret]].
    unfold raise_failure. rewrite fbind_run. cbn [obj].
    destruct (dx_failure (object s1)) as [e|] eqn:Ef; [by apply failure_done|]. by cbn [done st_ret].
  - apply fill_then; [done|]. intros s1 Hs1 Hc. rewrite fbind_run. cbn [obj]. rewrite fbind_run.
    case_bool_decide as Hb.
    + rewrite fbind_run. unfold raise_failure. rewrite fbind_run. cbn [obj].
      destruct (dx_failure (object s1)) as [e|] eqn:Ef; [by apply failure_done|]. cbn [done st_ret raise].
      constructor; try done; [by apply conserves_nil|intros [e He]; congruence|].
      intros _ e' [= <-]. right. split_and!; try done. destruct Hc as [Hc|[[e He]|Hc]]; [|congruence|done].
      done.
    + cbn [done st_ret]. pose proof (zlen_pos _ Hb). apply give_done; [done|lia|]. intros d Hd Hf. cbn [read_contract].
      rewrite zlen_take by lia. split; [lia|]. intros Hn. by apply take_some; [lia|].
Qed.

(** A run of reads, each with how it ended and what it left; one that waits is the last. *)
Record ReadRecord := {
  rd_op : DuplexOp;
  rd_outcome : Outcome (option bytes * option bytes);
  rd_left : Duplex;
  rd_finished : bool;
}.

Fixpoint dx_run (ops : list DuplexOp) s : list ReadRecord * Fiber Duplex :=
  match ops with
  | [] => ([], s)
  | op :: ops =>
      let '(o, s) := dx_op op s in
      let this := {| rd_op := op; rd_outcome := o; rd_left := object s; rd_finished := is_finished (q_of r s) |} in
      match o with
      | Waiting | Spinning => ([this], s)
      | _ => let '(rest, s) := dx_run ops s in (this :: rest, s)
      end
  end.

Definition keeps_contract (read : ReadRecord) : Prop :=
  rd_outcome read <> Spinning /\ read_contract (rd_op read) (rd_outcome read) (rd_left read) (rd_finished read).

Lemma dx_run_spec ops s : dx_reading s -> Forall sensible ops ->
  let '(reads, s') := dx_run ops s in
  conserves (concat (map (fun read => handed_out (rd_outcome read)) reads)) s s'
  /\ Forall keeps_contract reads
  /\ Forall (fun read => quiet_waiting c (rd_outcome read) s') reads.
Proof.
  revert s. induction ops as [|op ops IH]; intros s Hs Hops; cbn [dx_run].
  { split_and!; try done. by apply conserves_nil. }
  apply Forall_cons_1 in Hops as [Hop Hops]. pose proof (dx_op_done op s Hs Hop) as Hd. destruct (dx_op op s) as [o s1].
  destruct Hd as [D1 D2 D3 D4 _]. specialize (IH s1 (cv_reading _ _ _ D1) Hops).
  assert (forall s2 reads, conserves (concat (map (fun read => handed_out (rd_outcome read)) reads)) s1 s2 ->
    Forall keeps_contract reads -> Forall (fun read => quiet_waiting c (rd_outcome read) s2) reads ->
    quiet_waiting c o s2 ->
    let this := {| rd_op := op; rd_outcome := o; rd_left := object s1; rd_finished := is_finished (q_of r s1) |} in
    conserves (concat (map (fun read => handed_out (rd_outcome read)) (this :: reads))) s s2
    /\ Forall keeps_contract (this :: reads)
    /\ Forall (fun read => quiet_waiting c (rd_outcome read) s2) (this :: reads)) as Hgo.
  { intros s2 reads R1 R2 R3 R4. cbn [map concat rd_outcome]. split_and!; [by eapply conserves_trans|by constructor|by constructor]. }
  destruct o as [a|e| |]; try done.
  1,2: destruct (dx_run ops s1) as [reads s2]; destruct IH as (I1 & I2 & I3); by apply Hgo.
  apply (Hgo s1 []); try done. by apply conserves_nil, (cv_reading _ _ _ D1).
Qed.

End duplex.

(** [wait_for_input] of a stream facing the client. *)
Lemma park_input_waits `{RubyVM} `{!QuietLookup} (c : Source) : waits c (dx_of c) park_input.
Proof.
  intros s Hs. unfold park_input. rewrite fbind_run. cbn [obj]. pose proof (rg_good _ _ _ Hs) as [-> _].
  by apply (park_waits c (dx_of c)).
Qed.

(** C21: a [Ruvoy::Stream] is a byte stream: however the reads of its reader interleave
    with what the worker pushes, cancels and finishes, the bytes the reads hand out, then
    those buffered, then those queued are, in order, the bytes there were and those that
    arrived - a prefix of them if the queue was cancelled.  A read of [n] bytes hands out
    [n], or fewer only when the input is at its end and nothing is buffered; a partial
    read hands out at least one.  A failure that came down the queue surfaces only once
    nothing is buffered.  No read loops for ever, and one that waits is parked. *)
Theorem duplex_reads_in_order `{RubyVM} `{!QuietLookup} (c : Source) (s : Fiber Duplex) (ops : list DuplexOp) :
  dx_reading c s -> Forall sensible ops ->
  let '(reads, s') := dx_run c park_input ops s in
  conserves c (concat (map (fun read => handed_out (rd_outcome read)) reads)) s s'
  /\ Forall keeps_contract reads
  /\ Forall (fun read => quiet_waiting c (rd_outcome read) s') reads.
Proof. apply dx_run_spec, park_input_waits. Qed.

(** Three reads while the other side sends "-two" and ends; "one" was read ahead. *)
#[local] Abbreviation sample_duplex := {|
  object := duplex_new example_source {| stream := Direct 2; waker := {| waker_filter := 0; waker_event := 1 |} |} (into_bytes "one");
  store := (new_queue 16 (world_new 1)).2;
  coming := [Others []; Others [(Direct 1, OpWithinBudget (into_bytes "-two")); (Direct 1, OpUnpark)];
             Others []; Others [(Direct 1, OpPush End); (Direct 1, OpUnpark)]];
  arrived := []; departed := [] |}.

Lemma duplex_reads_in_order_witness :
  let ops := [DxReadPartial 2; DxRead (Some 4); DxRead (Some 9)] in
  let '(reads, s') := dx_run (H := example_ruby) example_source (park_input (H := example_ruby)) ops sample_duplex in
  conserves example_source (concat (map (fun read => handed_out (rd_outcome read)) reads)) sample_duplex s'
  /\ map rd_outcome reads = [Done (Some (into_bytes "on"), None); Done (Some (into_bytes "e-tw"), None);
                             Done (Some (into_bytes "o"), None)].
Proof.
  cbv zeta.
  pose proof (duplex_reads_in_order (H := example_ruby) example_source sample_duplex
    [DxReadPartial 2; DxRead (Some 4); DxRead (Some 9)]) as Ht.
  assert (map rd_outcome (dx_run (H := example_ruby) example_source (park_input (H := example_ruby))
    [DxReadPartial 2; DxRead (Some 4); DxRead (Some 9)] sample_duplex).1
    = [Done (Some (into_bytes "on"), None); Done (Some (into_bytes "e-tw"), None); Done (Some (into_bytes "o"), None)]) as He
    by (vm_compute; reflexivity).
  destruct (dx_run _ _ _ _) as [reads s']. cbn [fst] in He. split; [|exact He].
  destruct Ht as [H1 _]; [| |exact H1].
  - constructor; [|done]. constructor; cbn; try done. all: repeat constructor; try done. by intros [|? ?] ? ? [=].
  - by repeat constructor.
Defined.

(** A failure that arrives after the buffer was found empty, before [finished?] is asked,
    is not seen: the source counts as finished while the [Failed] item is still queued, and
    the read ends as at a clean end of the stream. *)
Lemma failure_read_as_end `{RubyVM} (c : Source) sink (w : World) e evs n :
  let r := source_queue c in
  items (get_queue w r) = [] -> settled (get_queue w r) = false -> buffered_bytes (get_queue w r) = 0%N ->
  let s := {| object := duplex_new c sink []; store := w;
              coming := Others [] :: Others [(r, OpPush (Failed e))] :: evs; arrived := []; departed := [] |} in
  let '(o, s') := dx_readpartial park_input n None s in
  o = Raised eof_error /\ items (q_of r s') = [Failed e].
Proof.
  intros r Hi Hs Hb s. unfold dx_readpartial, readable. rewrite !fbind_run. cbn [obj object s dx_read_closed duplex_new done st_ret].
  unfold dx_fill. rewrite !fbind_run. cbn [obj]. unfold fill_from.
  match goal with |- context [fill_loop _ _ _ ?b _ _] => set (block := b) end. cbn [fill_loop].
  set (s1 := with_coming s (Others [(r, OpPush (Failed e))] :: evs)).
  assert (exists w', dx_drain s = (Done tt, with_store s1 w') /\ get_queue w' r = get_queue w r) as (w' & Hd & Hw).
  { unfold dx_drain. rewrite fbind_run. cbn [obj]. unfold s at 1. cbn [object duplex_new dx_failure].
    unfold rescue, pull. cbn [pull_loop]. rewrite fbind_run.
    destruct (source_next_idle (dx_source (object s)) s (Others [(r, OpPush (Failed e))] :: evs) eq_refl Hi) as (w' & -> & Hw).
    exists w'. by split. }
  rewrite fbind_run, Hd. set (s2 := with_store s1 w').
  destruct (failure_counts_as_end r s2 e evs eq_refl) as [F1 F2]; try (unfold q_of; cbn [s2 store with_store]; by rewrite Hw).
  assert (block tt s2 = (Done (tt, true), interfere s2)) as Hblock.
  { unfold block. rewrite fbind_run. cbn [obj]. rewrite bool_decide_true by done. cbn [negb]. rewrite fbind_run.
    unfold dx_finished. rewrite fbind_run. cbn [obj]. change (object s2) with (duplex_new c sink []).
    cbn [duplex_new dx_failure dx_source]. rewrite source_finished_run. fold r. by rewrite F2. }
  rewrite fbind_run, Hblock. cbn [done st_ret]. rewrite fbind_run. cbn [obj].
  assert (object (interfere s2) = duplex_new c sink []) as Ho by apply interfere_object.
  rewrite fbind_run, Ho. cbn [duplex_new dx_buffer]. rewrite bool_decide_true by done. unfold raise_failure. rewrite !fbind_run.
  cbn [obj]. rewrite Ho. cbn [duplex_new dx_failure done st_ret raise]. by split.
Qed.

(** [readpartial] of a negative length is refused late: the buffer is cut first. *)
Example negative_length_cuts `{RubyVM} (c : Source) sink (w : World) :
  let s := {| object := duplex_new c sink (into_bytes "abc"); store := w; coming := []; arrived := []; departed := [] |} in
  let '(o, s') := give (-1) None s in
  o = Raised (Standard "NoMethodError" "undefined method 'bytesize' for nil") /\ dx_buffer (object s') = into_bytes "c".
Proof. by split. Qed.
