(* ===== verification/Relay.v ===== *)
(** * One direction of a relay

    [copy] reads one duplex stream and writes another, so it is the reader of one queue
    and the writer of another.  What it does at one end leaves the other as the others
    made it: [beside]. *)

From S2P Require Import Prelude RustStr Types Stream StreamTrace Upstream World Ruby Chunks RubyExample Fibers FiberLogic RackInput RackInputSpec Duplex DuplexSpec DuplexRead.

Local Open Scope Z_scope.

(** ** Code that does not touch a queue *)

(** The state without its object. *)
Definition forget {O} (s : Fiber O) : Fiber unit :=
  {| object := tt; store := store s; coming := coming s; arrived := arrived s; departed := departed s |}.

Lemma ready_forget role {O} r (s : Fiber O) : ready_as role r (forget s) <-> ready_as role r s.
Proof. split; by intros [R1 R2 R3 R4]. Qed.

(** Being ready is about the queue and the schedule. *)
Lemma ready_same role {O P} r (s : Fiber O) (t : Fiber P) : forget t = forget s -> ready_as role r s -> ready_as role r t.
Proof. intros [= Es Ec _ _] [R1 R2 R3 R4]. constructor; unfold q_of in *; by rewrite ?Ec, ?Es. Qed.

Lemma onward_forget role {O P} r (s s' : Fiber O) (t t' : Fiber P) :
  onward_as role r s s' -> forget t = forget s -> forget t' = forget s' -> object t' = object t -> onward_as role r t t'.
Proof.
  intros [A1 A2 A3 A4 A5 A6] [= E1 E2 E3 E4] [= F1 F2 F3 F4] Ho.
  unfold arrived_at, departed_at, takeable, calls_coming, q_of in *.
  constructor; try done; unfold arrived_at, departed_at, takeable, calls_coming, q_of; rewrite ?E1, ?E2, ?E3, ?E4, ?F1, ?F2, ?F3, ?F4; try done.
  - destruct A3 as [R1 R2 R3 R4]. unfold q_of in *. constructor; unfold q_of; rewrite ?F1, ?F2; done.
  - intros [U1 U2]. unfold q_of in *. rewrite E1, E2 in *. destruct A6 as [V1 V2]; [by constructor|].
    constructor; unfold q_of; by rewrite ?F1, ?F2.
Qed.

(** What [m] does leaves the queue as the others made it, from objects that keep [P]. *)
Definition beside (role : Role) (r : QRef) {O A} (P : O -> Prop) (m : Fib O A) : Prop :=
  forall s, P (object s) -> ready_as role r s ->
  onward_as role r (forget s) (forget (m s).2) /\ P (object (m s).2).

Section beside.
Context {role : Role} {r : QRef} {O : Type} {P : O -> Prop}.
#[local] Abbreviation beside := (beside role r P).

Lemma beside_same {A} (m : Fib O A) : (forall s, forget (m s).2 = forget s) ->
  (forall s, P (object s) -> P (object (m s).2)) -> beside m.
Proof. intros Hm HP s Hs Hr. rewrite Hm. split; [by apply onward_refl, ready_forget|by apply HP]. Qed.

Lemma beside_ret {A} (o : Outcome A) : beside (st_ret o).
Proof. by apply beside_same. Qed.

Lemma beside_bind {A B} (m : Fib O A) (k : A -> Fib O B) : beside m -> (forall a, beside (k a)) -> beside (fbind m k).
Proof.
  intros Hm Hk s Hs Hr. rewrite fbind_run. destruct (Hm s Hs Hr) as [H1 H2]. destruct (m s) as [[a|e| |] s1]; try done.
  cbn [snd] in *. destruct (Hk a s1 H2 (proj1 (ready_forget _ _ _) (on_ready _ _ _ _ H1))) as [H3 H4].
  split; [by eapply onward_trans|done].
Qed.

Lemma beside_obj {A} (k : O -> Fib O A) : (forall o, P o -> beside (k o)) -> beside (fbind obj k).
Proof. intros Hk s Hs. rewrite fbind_run. cbn [obj]. by apply Hk. Qed.

Lemma beside_ensure {A} (m : Fib O A) (k : Fib O unit) : beside m -> beside k -> beside (ensure m k).
Proof.
  intros Hm Hk s Hs Hr. unfold ensure. destruct (Hm s Hs Hr) as [H1 H2]. destruct (m s) as [[a|e| |] s1]; try done; cbn [snd] in *;
    destruct (Hk s1 H2 (proj1 (ready_forget _ _ _) (on_ready _ _ _ _ H1))) as [H3 H4];
    rewrite fbind_run; destruct (k s1) as [[[]|e'| |] s2]; (split; [by eapply onward_trans|done]).
Qed.

Lemma beside_rescue {A} (m : Fib O A) h : beside m -> (forall e k, h e = Some k -> beside k) -> beside (rescue m h).
Proof.
  intros Hm Hh s Hs Hr. unfold rescue. destruct (Hm s Hs Hr) as [H1 H2]. destruct (m s) as [[a|e| |] s1]; try done. cbn [snd] in *.
  destruct (h e) as [k|] eqn:Eh; cbn [default from_option id]; [|done].
  destruct (Hh e k Eh s1 H2 (proj1 (ready_forget _ _ _) (on_ready _ _ _ _ H1))) as [H3 H4]. split; [by eapply onward_trans|done].
Qed.

Lemma forget_calls (s : Fiber O) calls : forget (other_calls s calls) = other_calls (forget s) calls.
Proof.
  unfold other_calls. revert s. induction calls as [|c calls IH]; intros s; [done|]. cbn [foldl]. rewrite IH. f_equal.
  rewrite !other_call_eq. done.
Qed.

Lemma object_calls (s : Fiber O) calls : object (other_calls s calls) = object s.
Proof.
  unfold other_calls. revert s. induction calls as [|c calls IH]; intros s; [done|]. cbn [foldl]. rewrite IH.
  by rewrite other_call_eq.
Qed.

Lemma forget_interfere (s : Fiber O) : forget (interfere s) = interfere (forget s).
Proof. unfold interfere. cbn [coming forget]. destruct (coming s) as [|[calls|e] rest]; try done. apply forget_calls. Qed.

Lemma beside_access {A} (m : St World A) : calm (role := role) (O := unit) r m -> beside (access (O := O) m).
Proof.
  intros Hm s Hs Hr. rewrite access_run. pose proof (access_onward r m (forget s) (proj2 (ready_forget _ _ _) Hr) Hm) as Ho.
  rewrite access_run in Ho. rewrite <- forget_interfere in Ho. split; [exact Ho|]. cbn [snd object with_store].
  by rewrite interfere_object.
Qed.

Lemma forget_wait r' v evs (s : Fiber O) :
  wait_until r' v evs (forget s) = ((wait_until r' v evs s).1, forget (wait_until r' v evs s).2)
  /\ object (wait_until r' v evs s).2 = object s.
Proof.
  revert s. induction evs as [|e evs IH]; intros s; cbn [wait_until]; case_bool_decide as Hw;
    rewrite ?(bool_decide_true (waiter (get_queue (store (forget s)) r') = Some v) Hw),
            ?(bool_decide_false (waiter (get_queue (store (forget s)) r') = Some v) Hw); try done.
  destruct e as [calls|e]; [|done]. destruct (IH (other_calls (with_coming s evs) calls)) as [I1 I2].
  rewrite <- I1, I2, forget_calls, object_calls. done.
Qed.

Lemma beside_wait r' v : beside (wait (O := O) r' v).
Proof.
  intros s Hs Hr. unfold wait. pose proof (wait_until_onward r r' v (coming s) (forget s) (proj2 (ready_forget _ _ _) Hr) eq_refl) as Hw.
  destruct (forget_wait r' v (coming s) s) as [F1 F2]. rewrite F1 in Hw.
  destruct (wait_until r' v (coming s) s) as [o s']. cbn [fst snd] in *. split; [apply Hw|by rewrite F2].
Qed.

Lemma beside_park_on r' park_ unpark_ : (forall v, calm (role := role) (O := unit) r (park_ v)) ->
  calm (role := role) (O := unit) r unpark_ -> beside (park_on (O := O) r' park_ unpark_).
Proof.
  intros Hp Hu. unfold park_on. apply beside_bind; [apply beside_access, calm_fresh|]. intros v.
  apply beside_bind; [by apply beside_access|]. intros []; [|by apply beside_ret].
  apply beside_ensure; [apply beside_wait|by apply beside_access].
Qed.

(** A method of another queue. *)
Lemma calm_other {A} r' (m : St ResponseStream A) : r <> r' -> calm (role := role) (O := unit) r (on_queue r' m).
Proof. intros Hne. apply calm_same. intros w. by rewrite get_on_queue_ne. Qed.

End beside.

(** ** The two ends *)

(** Reading one queue leaves another. *)
Section reading_beside.
Context `{RubyVM} `{!QuietLookup} {role : Role} {r : QRef} (c : Source) (ne : r <> source_queue c).

Lemma beside_source_next {O} {P : O -> Prop} : beside role r P (source_next c).
Proof.
  unfold source_next, access_raising. apply beside_bind; [|intros [a|e]; by apply beside_ret].
  apply beside_access, calm_same. intros w. unfold next_chunk_of. rewrite bind_run.
  assert (forall w, get_queue (on_queue (source_queue c) take_next w).2 r = get_queue w r) as Ht
    by (intros w'; by rewrite get_on_queue_ne).
  destruct (on_queue (source_queue c) take_next w).1 as [i|]; [|cbn [ok st_ret snd]; apply Ht].
  rewrite bind_run. destruct i as [h|b| |e]; cbn [ok st_ret snd]; rewrite ?bind_run; cbn [fails st_ret snd];
    rewrite ?upstream_error_queue, source_woken_queue; apply Ht.
Qed.

Lemma beside_source_finished {O} {P : O -> Prop} : beside role r P (source_finished c).
Proof. apply beside_access, calm_read. Qed.

Lemma beside_park_source {O} {P : O -> Prop} : beside role r P (park_source c).
Proof.
  apply beside_park_on; [intros v; by apply calm_other|]. apply calm_same. intros w. rewrite bind_run.
  cbn [st_ret snd]. by rewrite get_on_queue_ne.
Qed.

Lemma beside_pull {O} {P : O -> Prop} (keep_ : bytes -> Fib O unit) : (forall b, beside role r P (keep_ b)) -> beside role r P (pull keep_ c).
Proof.
  intros Hk s. unfold pull. generalize (S (takeable (source_queue c) s)). intros fuel. revert s.
  induction fuel as [|fuel IH]; [by apply beside_ret|]. cbn [pull_loop].
  apply (beside_bind (source_next c)); [apply beside_source_next|]. intros [b|]; [|by apply beside_ret].
  by apply (beside_bind (keep_ b)).
Qed.

Lemma beside_fill {O L} {P : O -> Prop} (drain wait_ : Fib O unit) (block : L -> Fib O (L * bool)) l :
  beside role r P drain -> beside role r P wait_ -> (forall l, beside role r P (block l)) ->
  beside role r P (fill_from c drain wait_ block l).
Proof.
  intros Hd Hw Hb s. unfold fill_from. generalize (S (length (coming s) + takeable (source_queue c) s))%nat. intros fuel.
  revert l s. induction fuel as [|fuel IH]; intros l; [by apply beside_ret|]. cbn [fill_loop].
  apply (beside_bind drain); [done|]. intros _. apply (beside_bind (block l)); [done|]. intros [l' []]; [by apply beside_ret|].
  apply (beside_bind wait_); [done|]. intros _. exact (IH l').
Qed.

(** [readpartial] of a stream over that queue. *)
Lemma beside_readpartial (wait_for_input : Fib Duplex unit) n :
  let P d := dx_source d = c in
  beside role r P wait_for_input -> beside role r P (dx_readpartial wait_for_input n None).
Proof.
  intros P Hwait. assert (forall f : Duplex -> Duplex, (forall d, dx_source (f d) = dx_source d) -> beside role r P (change f)) as Hchange.
  { intros f Hf. apply beside_same; [done|]. intros s Hs. unfold P in *. cbn [change snd object with_object]. by rewrite Hf. }
  assert (forall d : Duplex, beside role r P (match dx_failure d with Some e => raise e | None => done tt end)) as Hfail
    by (intros d; destruct (dx_failure d); by apply beside_ret).
  unfold dx_readpartial. apply beside_bind.
  { unfold readable. apply beside_obj. intros d _. destruct (dx_read_closed d); by apply beside_ret. }
  intros _. apply beside_bind.
  { unfold dx_fill. apply beside_obj. intros d Hd. unfold P in Hd. rewrite Hd. apply beside_fill; [|done|].
    - unfold dx_drain. apply beside_obj. intros d' Hd'. unfold P in Hd'. destruct (dx_failure d'); [by apply beside_ret|]. rewrite Hd'.
      apply beside_rescue; [apply beside_pull; intros b; by apply Hchange|]. intros e k. destruct (is_standard e); [|done].
      intros [= <-]. by apply Hchange.
    - intros []. apply beside_obj. intros d' Hd'. unfold P in Hd'. destruct (negb _); [by apply beside_ret|]. apply beside_bind; [|intros f; by apply beside_ret].
      unfold dx_finished. apply beside_obj. intros d'' Hd''. unfold P in Hd''. destruct (dx_failure d''); [by apply beside_ret|]. rewrite Hd''.
      apply beside_source_finished. }
  intros _. apply beside_obj. intros d _. apply beside_bind.
  { case_bool_decide; [|by apply beside_ret]. apply beside_bind; [|intros _; by apply beside_ret].
    unfold raise_failure. by apply beside_obj. }
  intros _. unfold give. apply beside_obj. intros d' _. apply beside_bind; [by apply Hchange|]. intros _.
  destruct (_ <? 0)%Z; [by apply beside_ret|]. apply beside_bind; [by apply Hchange|]. intros _. by apply beside_ret.
Qed.

End reading_beside.

(** Writing a queue leaves another. *)
Section writing_beside.
Context {role : Role} {r : QRef} (sink : StreamHandle) (ne : r <> stream sink).

Lemma wake_handle_queue h w r' : get_queue (wake_handle h w).2 r' = get_queue w r'.
Proof. by destruct r'. Qed.

Lemma beside_sink_writable {O} {P : O -> Prop} : beside role r P (sink_writable sink).
Proof. apply beside_access, calm_read. Qed.

Lemma beside_park_sink {O} {P : O -> Prop} : beside role r P (park_sink sink).
Proof.
  apply beside_park_on; [intros v; by apply calm_other|]. apply calm_same. intros w. unfold sink_unpark. rewrite bind_run.
  cbn [st_ret snd]. by rewrite get_on_queue_ne.
Qed.

Lemma beside_sink_write {O} {P : O -> Prop} chunk offset : beside role r P (sink_write sink chunk offset).
Proof.
  apply beside_access, calm_same. intros w. unfold write. rewrite bind_run.
  set (taken := (on_queue _ _ w).1). assert (get_queue (on_queue (stream sink) (push_chunk_within_budget (bytes_from offset chunk)) w).2 r
    = get_queue w r) as Ht by (by rewrite get_on_queue_ne).
  destruct taken as [n|]; [|done]. rewrite bind_run. cbn [st_ret snd]. by destruct (0 <? n)%N; rewrite ?wake_handle_queue.
Qed.

Lemma beside_sink_finish {O} {P : O -> Prop} : beside role r P (sink_finish sink).
Proof.
  apply beside_access, calm_same. intros w. unfold finish. rewrite bind_run.
  assert (get_queue (on_queue (stream sink) push_end w).2 r = get_queue w r) as Ht by (by rewrite get_on_queue_ne).
  by destruct (on_queue (stream sink) push_end w).1; rewrite ?wake_handle_queue.
Qed.

Lemma beside_write_loop {O} {P : O -> Prop} fuel chunk offset : beside role r P (write_loop fuel sink chunk offset).
Proof.
  revert offset. induction fuel as [|fuel IH]; intros offset; [by apply beside_ret|]. cbn [write_loop].
  destruct (offset <? len chunk)%N; [|by apply beside_ret].
  apply (beside_bind (sink_writable sink)); [apply beside_sink_writable|]. intros room.
  apply beside_bind; [destruct room; [by apply beside_ret|apply beside_park_sink]|]. intros _.
  apply (beside_bind (sink_write sink chunk offset)); [apply beside_sink_write|]. intros [taken|]; [apply IH|by apply beside_ret].
Qed.

Lemma beside_stream_write {O} {P : O -> Prop} chunk : beside role r P (stream_write sink chunk).
Proof. intros s. apply beside_write_loop. Qed.

End writing_beside.

(** ** Two streams

    [copy] works on a pair of streams; each of its halves is code of one of them. *)

Definition from_of (s : Fiber Pair) : Fiber Duplex :=
  {| object := pair_from (object s); store := store s; coming := coming s; arrived := arrived s; departed := departed s |}.
Definition to_of (s : Fiber Pair) : Fiber Duplex :=
  {| object := pair_to (object s); store := store s; coming := coming s; arrived := arrived s; departed := departed s |}.

Lemma on_from_run {A} (m : Fib Duplex A) s :
  let '(o, s') := on_from m s in
  o = (m (from_of s)).1 /\ from_of s' = (m (from_of s)).2 /\ pair_to (object s') = pair_to (object s).
Proof. unfold on_from, zoom. fold (from_of s). destruct (m (from_of s)) as [o p]. split_and!; try done. by destruct p. Qed.

Lemma on_to_run {A} (m : Fib Duplex A) s :
  let '(o, s') := on_to m s in
  o = (m (to_of s)).1 /\ to_of s' = (m (to_of s)).2 /\ pair_from (object s') = pair_from (object s).
Proof. unfold on_to, zoom. fold (to_of s). destruct (m (to_of s)) as [o p]. split_and!; try done. by destruct p. Qed.

Lemma forget_from s : forget (from_of s) = forget s.
Proof. done. Qed.
Lemma forget_to s : forget (to_of s) = forget s.
Proof. done. Qed.

(** ** A direction of the relay *)

Lemma undisturbed_as {O P} r (s : Fiber O) (t : Fiber P) :
  forget t = forget s -> undisturbed r s -> undisturbed r t.
Proof. intros [= Es Ec _ _] [U1 U2]. constructor; unfold q_of in *; by rewrite ?Ec, ?Es. Qed.

Lemma wrote_forget {O} sink its (s s' : Fiber O) : wrote sink its s s' -> wrote sink its (forget s) (forget s').
Proof.
  intros [V1 V2 V3 V4 V5 V6]. constructor; [done|by apply ready_forget|done|done|done|].
  intros Hu. by apply (undisturbed_as _ s'), V6, (undisturbed_as _ (forget s)).
Qed.

Section copying.
Context `{RubyVM} `{!QuietLookup} (c : Source) (sink : StreamHandle) (apart : source_queue c <> stream sink).
Context (wait_from : Fib Duplex unit) (waiting : waits c (dx_of c) wait_from)
  (aside : beside writer (stream sink) (fun d => dx_source d = c) wait_from).
Let r1 := source_queue c.
Let r2 := stream sink.
Implicit Types s : Fiber Pair.

Record relaying s : Prop := {
  ry_reading : dx_reading c (from_of s);
  ry_writing : ready_as writer r2 s;
  ry_sink : dx_sink (pair_to (object s)) = sink;
  ry_open : dx_write_closed (pair_to (object s)) = false;
}.

(** [handed] came out of the source, [its] went into the sink. *)
Record crossed (handed : bytes) (its : list StreamItem) s s' : Prop := {
  mv_read : conserves c handed (from_of s) (from_of s');
  mv_wrote : wrote sink its (forget s) (forget s');
  mv_relaying : relaying s';
}.

Lemma crossed_trans h1 i1 h2 i2 s1 s2 s3 : crossed h1 i1 s1 s2 -> crossed h2 i2 s2 s3 -> crossed (h1 ++ h2) (i1 ++ i2) s1 s3.
Proof. intros [A1 A2 A3] [B1 B2 B3]. constructor; [by eapply conserves_trans|by eapply wrote_trans|done]. Qed.

(** What happened beside the source took nothing out of it. *)
Lemma read_nothing s s' : relaying s -> onward r1 (forget s) (forget s') -> pair_from (object s') = pair_from (object s) ->
  conserves c [] (from_of s) (from_of s').
Proof.
  intros [R1 R2 R3 R4] Ho Hf. apply conserves_went; [done|]. apply onward_went; [apply _|apply R1|].
  by apply (onward_forget reader r1 (forget s) (forget s')).
Qed.

Lemma read_turn s : relaying s ->
  let '(o, s') := on_from (dx_readpartial wait_from RELAY_BYTES None) s in
  crossed (handed_out o) [] s s' /\ read_done c (DxReadPartial RELAY_BYTES) o (from_of s) (from_of s').
Proof.
  intros [R1 R2 R3 R4]. pose proof (on_from_run (dx_readpartial wait_from RELAY_BYTES None) s) as Hrun.
  destruct (on_from _ s) as [o s']. destruct Hrun as (-> & E1 & E2). rewrite E1.
  assert (sensible (DxReadPartial RELAY_BYTES)) as Hs by done.
  pose proof (dx_op_done c wait_from waiting (DxReadPartial RELAY_BYTES) (from_of s) R1 Hs) as Hd. cbn [dx_op] in Hd.
  pose proof (beside_readpartial (role := writer) (r := r2) c (not_eq_sym apart) wait_from RELAY_BYTES aside (from_of s)
    (proj1 (rg_good _ _ _ R1)) (ready_same _ _ s (from_of s) eq_refl R2)) as [Hb _].
  destruct (dx_readpartial _ _ _ (from_of s)) as [o p]. cbn [fst snd] in *. subst p. split; [|done].
  pose proof (ro_conserves _ _ _ _ _ Hd) as Hc. constructor; [done|by apply wrote_nothing|].
  constructor; [apply Hc|by apply ready_forget, Hb|by rewrite E2..].
Qed.

(** [to.write(data)] *)
Lemma write_turn b s : relaying s ->
  let '(o, s') := on_to (dx_write [b]) s in
  exists sent its, sent `prefix_of` b /\ pieces its sent /\ crossed [] its s s' /\ o <> Spinning
  /\ (forall n, o = Done n -> sent = b)
  /\ (undisturbed r2 s -> forall e, o = Raised e -> e = epipe /\ settled (q_of r2 s') = true)
  /\ (o = Waiting -> coming s' = [] /\ exists v, waiter (q_of r2 s') = Some v).
Proof.
  intros [R1 R2 R3 R4]. pose proof (on_to_run (dx_write [b]) s) as Hrun.
  destruct (on_to _ s) as [o s']. destruct Hrun as (-> & E1 & E2).
  assert (dx_write [b] (to_of s)
    = (let! sent := stream_write sink b in
       if sent then
         do! change (fun d => set_dx_written d (dx_bytes_written d + zlen b)) in done (0 + zlen b)
       else raise epipe) (to_of s)) as Ew.
  { unfold dx_write. rewrite fbind_run. cbn [obj]. change (object (to_of s)) with (pair_to (object s)). rewrite R4.
    cbn [dx_write_all]. rewrite fbind_run. cbn [obj]. change (object (to_of s)) with (pair_to (object s)). by rewrite R3. }
  rewrite Ew in *. clear Ew. rewrite fbind_run in *.
  pose proof (ready_same _ _ s (to_of s) eq_refl R2) as R2'.
  pose proof (stream_write_spec sink b (to_of s) R2') as Hw.
  pose proof (beside_stream_write (role := reader) (r := r1) (O := Duplex) (P := fun d => d = pair_to (object s)) sink apart b (to_of s) eq_refl
    (ready_same _ _ (from_of s) (to_of s) eq_refl (rg_ready _ _ _ R1))) as [Hb Hobj].
  destruct (stream_write sink b (to_of s)) as [o p]. cbn [fst snd] in *.
  destruct Hw as (sent & its & W1 & W2 & W3 & W4 & W5 & W6 & W7 & W8).
  assert (forall o' : Outcome Z, o' <> Spinning -> (forall n, o' = Done n -> o = Done true) ->
    (forall e, o' = Raised e -> o = Raised e \/ e = epipe /\ o = Done false) -> (o' = Waiting -> o = Waiting) ->
    forget s' = forget p -> dx_sink (pair_to (object s')) = sink -> dx_write_closed (pair_to (object s')) = false ->
    exists sent its, sent `prefix_of` b /\ pieces its sent /\ crossed [] its s s' /\ o' <> Spinning
    /\ (forall n, o' = Done n -> sent = b)
    /\ (undisturbed r2 s -> forall e, o' = Raised e -> e = epipe /\ settled (q_of r2 s') = true)
    /\ (o' = Waiting -> coming s' = [] /\ exists v, waiter (q_of r2 s') = Some v)) as Hgo.
  { intros o' O1 O2 O3 O4 Ef Es Eo. exists sent, its.
    assert (conserves c [] (from_of s) (from_of s')) as Hc by (apply read_nothing; [done|by rewrite Ef|done]).
    assert (wrote sink its (forget s) (forget s')) as Hwr by (rewrite Ef; by apply (wrote_forget sink its (to_of s) p)).
    pose proof Ef as [= F1 F2 _ _]. unfold q_of. rewrite F1, F2.
    split_and!; try done.
    - constructor; [done|done|]. constructor; [apply Hc|by apply ready_forget, Hwr|done|done].
    - intros n Hd. by apply W6, (O2 n).
    - intros Hu e He. destruct (O3 e He) as [Hr|[-> Hr]]; [|split; [done|by apply W7]].
      by destruct (W5 (undisturbed_as r2 s (to_of s) eq_refl Hu) e).
    - intros Hwt. by apply W8, O4. }
  assert (forall t : Fiber Duplex, to_of s' = t -> forget s' = forget t /\ pair_to (object s') = object t) as Hto by (by intros t <-).
  destruct o as [[|]|e| |]; try done; cbn [done st_ret raise fst snd] in *.
  1: rewrite fbind_run in *; cbn [change done st_ret fst snd] in *.
  all: destruct (Hto _ E1) as [F1 F2]; apply Hgo; try done; rewrite ?F2; cbn [object with_object set_dx_written dx_sink dx_write_closed]; rewrite ?Hobj; try done.
  all: intros e' [= <-]; auto.
Qed.

(** What is raised by a direction nobody disturbed: the end of the source once everything
    was sent, a sink that is gone, or a failure that came down the source. *)
Definition relay_raises (handed sent : bytes) (e : Exn) s' : Prop :=
  (e = eof_error /\ sent = handed /\ dx_buffer (pair_from (object s')) = [] /\ is_finished (q_of r1 s') = true)
  \/ (e = epipe /\ settled (q_of r2 s') = true)
  \/ exists x, e = FromRust x.

Definition rust_failure s : Prop := forall e, dx_failure (pair_from (object s)) = Some e -> exists x, e = FromRust x.

Record looped (o : Outcome unit) (handed sent : bytes) (its : list StreamItem) s s' : Prop := {
  lp_crossed : crossed handed its s s';
  lp_sent : sent `prefix_of` handed;
  lp_pieces : pieces its sent;
  lp_stops : o <> Spinning /\ o <> Done tt;
  lp_waiting : o = Waiting -> coming s' = [] /\ exists v, waiter (q_of r1 s') = Some v \/ waiter (q_of r2 s') = Some v;
  lp_raises : undisturbed r1 s -> undisturbed r2 s -> rust_failure s -> forall e, o = Raised e -> relay_raises handed sent e s';
}.

Lemma crossed_undisturbed handed its s s' : crossed handed its s s' -> undisturbed r1 s -> undisturbed r2 s -> rust_failure s ->
  undisturbed r1 s' /\ undisturbed r2 s' /\ rust_failure s'.
Proof.
  intros [M1 M2 M3] U1 U2 Hf. split_and!.
  - by apply (undisturbed_as _ (from_of s')), (cv_undisturbed _ _ _ _ M1), (undisturbed_as _ s).
  - by apply (undisturbed_as _ (forget s')), (wr_undisturbed _ _ _ _ M2), (undisturbed_as _ s).
  - intros e He. destruct (cv_failure _ _ _ _ M1 e He) as [H1|H1]; [by apply Hf|done].
Qed.

(** A turn, then the rest of the loop. *)
Lemma looped_after b o handed sent its its' s s1 s2 : crossed b its s s1 -> pieces its b ->
  looped o handed sent its' s1 s2 -> looped o (b ++ handed) (b ++ sent) (its ++ its') s s2.
Proof.
  intros M P [L1 L2 L3 L4 L5 L6]. constructor; try done.
  - by eapply crossed_trans.
  - by apply prefix_app.
  - by apply pieces_app.
  - intros U1 U2 Hf e He. destruct (crossed_undisturbed _ _ _ _ M U1 U2 Hf) as (V1 & V2 & Vf).
    destruct (L6 V1 V2 Vf e He) as [(E1 & E2 & E3)|E]; [left|by right]. split_and!; [done|by rewrite E2|apply E3..].
Qed.

(** A read that hands out nothing ends the loop. *)
Lemma read_ends (o : Outcome (option bytes * option bytes)) (o' : Outcome unit) s s' : crossed (handed_out o) [] s s' ->
  read_done c (DxReadPartial RELAY_BYTES) o (from_of s) (from_of s') ->
  match o, o' with
  | Raised e, Raised e' => e = e'
  | Waiting, Waiting => True
  | _, _ => False
  end -> looped o' [] [] [] s s'.
Proof.
  intros M [D1 D2 D3 D4 D5] Ho. destruct o as [r|e| |], o' as [r'|e'| |]; try done; constructor; try done.
  - intros U1 U2 Hf e0 [= <-]. subst e'. destruct (D5 (undisturbed_as r1 s (from_of s) eq_refl U1) e eq_refl) as [D|[-> [D E]]].
    + right. right. by apply (proj2 (proj2 (crossed_undisturbed _ _ _ _ M U1 U2 Hf))).
    + left. by split_and!.
  - intros _. destruct (D4 eq_refl) as [W1 [v W2]]. split; [done|]. exists v. by left.
Qed.

(** A write that sends less than it was given ends it too. *)
Lemma write_ends (o : Outcome Z) (o' : Outcome unit) b s s1 s2 : crossed b [] s s1 ->
  on_to (dx_write [b]) s1 = (o, s2) ->
  match o, o' with
  | Raised e, Raised e' => e = e'
  | Waiting, Waiting => True
  | _, _ => False
  end -> exists handed sent its, looped o' handed sent its s s2.
Proof.
  intros M1 Hw Ho. pose proof (write_turn b s1 (mv_relaying _ _ _ _ M1)) as Hwrite. rewrite Hw in Hwrite.
  destruct Hwrite as (sent & its & W1 & W2 & M2 & W3 & W4 & W5 & W6). exists b, sent, its.
  pose proof (crossed_trans _ _ _ _ _ _ _ M1 M2) as M. rewrite app_nil_r in M. cbn [app] in M.
  destruct o as [?|e| |], o' as [?|e'| |]; try done; constructor; try done.
  - subst e'. intros U1 U2 Hf e0 [= <-]. right. left. apply W5; [|done]. by apply (crossed_undisturbed _ _ _ _ M1).
  - intros _. destruct (W6 eq_refl) as [? [v ?]]. split; [done|]. exists v. by right.
Qed.

(** With enough fuel the loop ends, and in one way. *)
Definition ends_up s : Prop :=
  exists n o s', (forall fuel, (n <= fuel)%nat -> copy_loop wait_from fuel s = (o, s'))
  /\ exists handed sent its, looped o handed sent its s s'.

Lemma ends_now s o s' : (forall fuel, copy_loop wait_from (S fuel) s = (o, s')) ->
  (exists handed sent its, looped o handed sent its s s') -> ends_up s.
Proof. intros Ho Hl. exists 1%nat, o, s'. split; [|done]. intros [|fuel] Hf; [lia|done]. Qed.

(** One turn: it ends the loop, or moves some bytes across. *)
Lemma turn_ends s : relaying s ->
  ends_up s
  \/ exists b its s2, (forall fuel, copy_loop wait_from (S fuel) s = copy_loop wait_from fuel s2)
     /\ crossed b its s s2 /\ pieces its b /\ b <> [].
Proof.
  intros Hs. pose proof (read_turn s Hs) as Hread.
  destruct (on_from (dx_readpartial wait_from RELAY_BYTES None) s) as [o s1] eqn:Er. destruct Hread as [M1 D].
  assert (forall fuel, copy_loop wait_from (S fuel) s = match o with
    | Done (data, _) => (do! on_to (dx_write [default [] data]) in copy_loop wait_from fuel) s1
    | Raised e => (Raised e, s1)
    | Waiting => (Waiting, s1)
    | Spinning => (Spinning, s1)
    end) as Hloop by (intros fuel; cbn [copy_loop]; rewrite fbind_run, Er; by destruct o as [[? ?]|e| |]).
  destruct o as [[[b|] rest]|e| |]; try by destruct (ro_contract _ _ _ _ _ D).
  2: { left. apply (ends_now s (Raised e) s1 Hloop). exists [], [], []. by apply (read_ends (Raised e)). }
  2: { left. apply (ends_now s Waiting s1 Hloop). exists [], [], []. by apply (read_ends Waiting). }
  2: { by destruct (ro_stops _ _ _ _ _ D). }
  cbn [default from_option id handed_out] in *. destruct (ro_contract _ _ _ _ _ D) as [_ Hb]. specialize (Hb eq_refl).
  pose proof (write_turn b s1 (mv_relaying _ _ _ _ M1)) as Hwrite.
  destruct (on_to (dx_write [b]) s1) as [ow s2] eqn:Ew.
  assert (forall fuel, copy_loop wait_from (S fuel) s = match ow with
    | Done _ => copy_loop wait_from fuel s2
    | Raised e => (Raised e, s2)
    | Waiting => (Waiting, s2)
    | Spinning => (Spinning, s2)
    end) as Hloop2 by (intros fuel; by rewrite Hloop, fbind_run, Ew).
  destruct Hwrite as (sent & its & W1 & W2 & M2 & W3 & W4 & _). destruct ow as [n|e| |]; try done.
  - right. exists b, its, s2. rewrite (W4 n eq_refl) in W2. split_and!; try done.
    pose proof (crossed_trans _ _ _ _ _ _ _ M1 M2) as M. by rewrite app_nil_r in M.
  - left. apply (ends_now s (Raised e) s2 Hloop2). by apply (write_ends (Raised e) (Raised e) b s s1).
  - left. apply (ends_now s Waiting s2 Hloop2). by apply (write_ends Waiting Waiting b s s1).
Qed.

Lemma copy_loop_spec s : relaying s -> ends_up s.
Proof.
  remember (left_to_do r1 (from_of s)) as left_ eqn:Hleft. revert s Hleft.
  induction left_ as [left_ IHleft] using lt_wf_ind. intros s.
  remember (length (dx_buffer (pair_from (object s)))) as buffered eqn:Hbuf. revert s Hbuf.
  induction buffered as [buffered IHbuf] using lt_wf_ind. intros s -> -> Hs.
  destruct (turn_ends s Hs) as [|(b & its & s2 & Hturn & M & Hp & Hb)]; [done|].
  pose proof (mv_read _ _ _ _ M) as Hc. pose proof (cv_left _ _ _ _ Hc) as Hl. fold r1 in Hl.
  assert (ends_up s2) as (n & o & s' & Hn & handed & sent & its' & L).
  { destruct (decide (left_to_do r1 (from_of s2) = left_to_do r1 (from_of s))) as [He|Hne].
    - pose proof (cv_still _ _ _ _ Hc He) as Hst. cbn [object from_of] in Hst.
      apply (IHbuf (length (dx_buffer (pair_from (object s2))))); [|done|by symmetry|apply M].
      rewrite <- Hst, length_app. destruct b; [done|]. cbn. lia.
    - apply (IHleft (left_to_do r1 (from_of s2)) ltac:(lia) s2 eq_refl). apply M. }
  exists (S n), o, s'. split.
  - intros [|fuel] Hf; [lia|]. rewrite Hturn. apply Hn. lia.
  - exists (b ++ handed)%list, (b ++ sent)%list, (its ++ its')%list. by apply (looped_after b o _ _ _ _ s s2 s').
Qed.

(** [to.close_write] *)
Lemma close_write_turn s : relaying s ->
  let '(o, s') := on_to dx_close_write s in
  o = Done tt /\ conserves c [] (from_of s) (from_of s') /\ settled (q_of r2 s') = true
  /\ dx_write_closed (pair_to (object s')) = true
  /\ (is_finished (q_of r1 s) = true -> is_finished (q_of r1 s') = true)
  /\ pair_from (object s') = pair_from (object s)
  /\ exists its, wrote sink its (forget s) (forget s') /\ queued_bytes its = [].
Proof.
  intros [R1 R2 R3 R4]. pose proof (on_to_run dx_close_write s) as Hrun.
  destruct (on_to dx_close_write s) as [o s']. destruct Hrun as (-> & E1 & E2).
  set (t := with_object (to_of s) (set_dx_closed (pair_to (object s)) (dx_read_closed (pair_to (object s))) true)).
  assert (dx_close_write (to_of s) = sink_finish sink t) as Ew.
  { unfold dx_close_write. rewrite fbind_run. cbn [obj]. change (object (to_of s)) with (pair_to (object s)). rewrite R4, fbind_run.
    cbn [change]. change (object (to_of s)) with (pair_to (object s)). by rewrite R3. }
  rewrite Ew in *. pose proof (sink_finish_spec sink t (ready_same _ _ s t eq_refl R2)) as Hf.
  pose proof (beside_sink_finish (role := reader) (r := r1) (O := Duplex) (P := fun d => d = object t) sink apart t eq_refl
    (ready_same _ _ (from_of s) t eq_refl (rg_ready _ _ _ R1))) as [Hb Hobj].
  destruct (sink_finish sink t) as [o p]. cbn [fst snd] in *. destruct Hf as (-> & its & F1 & F2 & F3).
  assert (forget s' = forget p /\ pair_to (object s') = object p) as [G1 G2] by (by subst p).
  change (forget t) with (forget s) in Hb. rewrite <- G1 in Hb. pose proof G1 as [= G3 _ _ _].
  assert (conserves c [] (from_of s) (from_of s')) as Hc by (by apply read_nothing).
  split_and!; try done.
  - by unfold q_of in *; rewrite G3.
  - by rewrite G2, Hobj.
  - intros Hfin. apply (lt_finished r1 (fun _ => []) (forget s) (forget s')); [|done].
    apply onward_later; [|done]. by apply (ready_same _ _ (from_of s)), R1.
  - exists its. split; [rewrite G1; by apply (wrote_forget sink its t p)|]. by destruct F3 as [-> | ->].
Qed.

(** Both queues over a direction that has gone from [s] to [s']. *)
Record relayed (handed sent : bytes) s s' : Prop := {
  rl_read : kept c handed (from_of s) (from_of s');
  rl_sent : sent `prefix_of` handed;
  rl_wrote : exists its, queued_bytes its = sent /\ wrote sink its (forget s) (forget s');
}.

(** How a direction ended well: everything went over and the sink was ended, or the sink
    is gone and the source is closed. *)
Definition ended_well (handed sent : bytes) s' : Prop :=
  settled (q_of r2 s') = true
  /\ ((sent = handed /\ dx_buffer (pair_from (object s')) = [] /\ is_finished (q_of r1 s') = true
       /\ dx_write_closed (pair_to (object s')) = true)
      \/ dx_read_closed (pair_from (object s')) = true).

Lemma copy_spec s : relaying s ->
  exists n o s', (forall fuel, (n <= fuel)%nat -> copy wait_from fuel s = (o, s'))
  /\ o <> Spinning
  /\ (o = Waiting -> coming s' = [] /\ exists v, waiter (q_of r1 s') = Some v \/ waiter (q_of r2 s') = Some v)
  /\ exists handed sent, relayed handed sent s s'
     /\ (undisturbed r1 s -> undisturbed r2 s -> rust_failure s -> o = Done tt -> ended_well handed sent s').
Proof.
  intros Hs. destruct (copy_loop_spec s Hs) as (n & o & s1 & Hn & handed & sent & its & [M L1 [L2 L2'] [L3 L4] L5 L6]).
  assert (relayed handed sent s s1) as Hrel.
  { constructor; [apply M|done|]. exists its. split; [done|apply M]. }
  assert (forall o' s', (forall fuel, (n <= fuel)%nat -> copy wait_from fuel s = (o', s')) -> o' <> Spinning ->
    (o' = Waiting -> coming s' = [] /\ exists v, waiter (q_of r1 s') = Some v \/ waiter (q_of r2 s') = Some v) ->
    relayed handed sent s s' ->
    (undisturbed r1 s -> undisturbed r2 s -> rust_failure s -> o' = Done tt -> ended_well handed sent s') ->
    exists n o s', (forall fuel, (n <= fuel)%nat -> copy wait_from fuel s = (o, s')) /\ o <> Spinning
    /\ (o = Waiting -> coming s' = [] /\ exists v, waiter (q_of r1 s') = Some v \/ waiter (q_of r2 s') = Some v)
    /\ exists handed sent, relayed handed sent s s'
       /\ (undisturbed r1 s -> undisturbed r2 s -> rust_failure s -> o = Done tt -> ended_well handed sent s')) as Hgo.
  { intros o' s' ? ? ? ? ?. exists n, o', s'. split_and!; try done. by exists handed, sent. }
  destruct o as [[]|e| |]; try done.
  2: { apply (Hgo Waiting s1); try done. intros fuel Hf. unfold copy, rescue. by rewrite Hn. }
  destruct (is_class "EOFError" e) eqn:E1; [|destruct (is_class "Errno::EPIPE" e) eqn:E2].
  - pose proof (close_write_turn s1 (mv_relaying _ _ _ _ M)) as Hclose. destruct (on_to dx_close_write s1) as [oc s2] eqn:Ec.
    destruct Hclose as (-> & C1 & C2 & C3 & C4 & C5 & its' & C6 & C7). apply (Hgo (Done tt) s2); try done.
    + intros fuel Hf. unfold copy, rescue. rewrite Hn, E1 by done. exact Ec.
    + pose proof (conserves_trans c handed [] _ _ _ (mv_read _ _ _ _ M) C1) as Hc. rewrite app_nil_r in Hc.
      constructor; [apply Hc|done|]. exists (its ++ its')%list. split; [by rewrite queued_bytes_app, C7, app_nil_r|].
      eapply wrote_trans; [apply M|done].
    + intros U1 U2 Hf _. split; [done|]. left. destruct (L6 U1 U2 Hf e eq_refl) as [(_ & H1 & H2 & H3)|[[-> _]|[x ->]]];
        [|by vm_compute in E1..]. split_and!; [done|by rewrite C5|by apply C4|done].
  - apply (Hgo (Done tt) (on_from dx_close_read s1).2); try done.
    + intros fuel Hf. unfold copy, rescue. by rewrite Hn, E1, E2.
    + destruct Hrel. by constructor.
    + intros U1 U2 Hf _. destruct (L6 U1 U2 Hf e eq_refl) as [(-> & _)|[[_ H2]|[x ->]]]; [by vm_compute in E1| |by vm_compute in E2].
      split; [exact H2|by right].
  - apply (Hgo (Raised e) s1); try done. intros fuel Hf. unfold copy, rescue. by rewrite Hn, E1, E2.
Qed.

End copying.

(** C22: one direction of a relay carries a byte stream.  However the reads and writes
    interleave with what the senders, the takers and the cancellers of the two queues do,
    what reached the sink is, in order, a prefix of what came out of the source, which
    keeps every byte; the copy always comes to an end or waits with its place in one of
    the two queues taken; and where nobody interrupted it and no failure came down, a copy
    that returned has sent everything up to the end of the source and ended the sink, or
    has lost the sink and closed the source. *)
Theorem relay_copies `{RubyVM} `{!QuietLookup} (c : Source) (sink : StreamHandle) (s : Fiber Pair) :
  source_queue c <> stream sink -> relaying c sink s ->
  exists n o s', (forall fuel, (n <= fuel)%nat -> copy park_input fuel s = (o, s'))
  /\ o <> Spinning
  /\ (o = Waiting -> coming s' = []
      /\ exists v, waiter (q_of (source_queue c) s') = Some v \/ waiter (q_of (stream sink) s') = Some v)
  /\ exists handed sent, relayed c sink handed sent s s'
     /\ (undisturbed (source_queue c) s -> undisturbed (stream sink) s -> rust_failure s -> o = Done tt ->
         ended_well c sink handed sent s').
Proof.
  intros Hne. apply copy_spec; [done|apply park_input_waits|].
  unfold park_input. apply beside_obj. intros d ->. by apply beside_park_source.
Qed.

(** "one" was read ahead and "-two" comes at once; the sink holds four bytes, and is emptied
    once. *)
#[local] Abbreviation sample_sink := {| stream := Direct 2; waker := {| waker_filter := 0; waker_event := 1 |} |}.
#[local] Abbreviation sample_pair := {|
  object := {| pair_from := duplex_new example_source sample_sink (into_bytes "one");
               pair_to := duplex_new example_source sample_sink [] |};
  store := (new_queue 4 (new_queue 16 (world_new 1)).2).2;
  coming := Others [(Direct 1, OpWithinBudget (into_bytes "-two")); (Direct 1, OpUnpark)]
    :: repeat (Others []) 12
    ++ [Others [(Direct 2, OpTake); (Direct 2, OpUnpark)]; Others []; Others []; Others []; Others [(Direct 1, OpPush End); (Direct 1, OpUnpark)]];
  arrived := []; departed := [] |}.

Lemma relay_copies_witness :
  (exists n o s', (forall fuel, (n <= fuel)%nat -> copy (H := example_ruby) (park_input (H := example_ruby)) fuel sample_pair = (o, s'))
    /\ o <> Spinning
    /\ exists handed sent, relayed example_source sample_sink handed sent sample_pair s')
  /\ let '(o, s') := copy (H := example_ruby) (park_input (H := example_ruby)) 8 sample_pair in
     o = Done tt
     /\ (departed_at (Direct 2) s' ++ items (q_of (Direct 2) s'))%list = [Chunk (into_bytes "one-"); Chunk (into_bytes "two"); End].
Proof.
  split.
  - destruct (relay_copies (H := example_ruby) example_source sample_sink sample_pair) as (n & o & s' & H1 & H2 & _ & handed & sent & H3 & _).
    + by intros [=].
    + constructor; [| |done|done].
      * constructor; [|done]. constructor; cbn; try done. all: repeat constructor; try done. by intros [|? ?] ? ? [=].
      * constructor; cbn; try done. all: repeat constructor; try done. by intros [|? ?] ? ? [=].
    + exists n, o, s'. split_and!; [exact H1|exact H2|by exists handed, sent].
  - vm_compute. by split.
Defined.
