(* ===== verification/Extensions.v ===== *)
(** * What a filter exposes beyond Rack ([src/src/extensions.rs])

    [env["ruvoy.context"]] reads Envoy's view of the request; [env["ruvoy.upstream"]]
    queues calls for the request's worker, and what comes back is read through an
    [UpstreamCall] or an [UpstreamChannelObject]. *)

From S2P Require Import Prelude RustStr Types Stream Upstream World Ruby Chunks.
From Stdlib Require Import Floats.SpecFloat.

Local Open Scope N_scope.

(** ** Seconds as doubles *)

(** [a / b] to the nearest integer, ties to even. *)
Definition div_round (a b : N) : N :=
  let q := a / b in
  let r := a mod b in
  if (2 * r <? b) || ((2 * r =? b) && N.even q) then q else q + 1.

(** [Duration::try_from_secs_f64(x).ok()] *)
Definition try_from_secs_f64 (x : f64) : option Duration :=
  match x with
  | S754_nan => None
  | S754_infinity _ => None
  | S754_zero _ => Some 0
  | S754_finite true _ _ => None
  | S754_finite false m e =>
      let '(num, den) := if (0 <=? e)%Z then (Npos m * 2 ^ Z.to_N e, 1) else (Npos m, 2 ^ Z.to_N (- e)) in
      if width64 * den <=? num then None else Some (div_round (num * NANOS_PER_SEC) den)
  end.

(** [Duration::as_secs_f64] *)
Definition float_of (n : N) : f64 := binary_normalize 53 1024 (Z.of_N n) 0 false.
Definition as_secs_f64 (d : Duration) : f64 :=
  SFadd 53 1024 (float_of (d / NANOS_PER_SEC))
    (SFdiv 53 1024 (float_of (d mod NANOS_PER_SEC)) (float_of NANOS_PER_SEC)).

Section extensions.
Context `{RubyVM}.
(** [Display] of an [f64], for a message. *)
Context (show_f64 : f64 -> string).

(** ** Context *)

Definition opt_str : option string -> RValue := opt_value str_new.

(** A sequence of [aset]s on a fresh hash. *)
Fixpoint hash_of (pairs : list (string * RValue)) (h : hash) : result hash MagnusError :=
  match pairs with
  | [] => Ok h
  | (key, value) :: rest => let? h := aset h key value in hash_of rest h
  end.

Definition connection_hash (c : Connection) : result RValue MagnusError :=
  let? h := hash_of [("id", opt_value RInt (conn_id c)); ("source_address", opt_str (source_address c));
                     ("source_port", opt_value RInt (source_port c));
                     ("destination_address", opt_str (destination_address c));
                     ("destination_port", opt_value RInt (destination_port c))]%string [] in
  Ok (RHash h).

Definition peer_hash (c : PeerCertificate) : result RValue MagnusError :=
  let? h := hash_of [("subject", opt_str (subject c)); ("uri_san", opt_str (uri_san c));
                     ("dns_san", opt_str (dns_san c)); ("sha256", opt_str (sha256 c))]%string [] in
  Ok (RHash h).

Definition tls_hash (t : Tls) : result RValue MagnusError :=
  let? h := hash_of [("version", str_new (tls_version t)); ("server_name", opt_str (tls_server_name t))]%string [] in
  let? peer := match peer_certificate t with
               | Some certificate => peer_hash certificate
               | None => Ok RNil
               end in
  let? h := aset h "peer_certificate" peer in
  Ok (RHash h).

Fixpoint metadata_value (value : MetadataValue) : result RValue MagnusError :=
  match value with
  | MString text => Ok (str_new text)
  | MNumber number => Ok (RFloat number)
  | MBool flag => Ok (RBool flag)
  | MList values =>
      let? list := (fix push_all (values : list MetadataValue) (l : list RValue) :=
         match values with
         | [] => Ok l
         | value :: rest =>
             let? v := metadata_value value in
             let? l := ary_push l v in
             push_all rest l
         end) values [] in
      Ok (RArray list)
  end.

Fixpoint fields_hash (fields : list (string * MetadataValue)) (h : hash) : result hash MagnusError :=
  match fields with
  | [] => Ok h
  | (key, value) :: rest =>
      let? v := metadata_value value in
      let? h := aset h key v in
      fields_hash rest h
  end.

Fixpoint namespaces_hash (namespaces : list Namespace) (h : hash) : result hash MagnusError :=
  match namespaces with
  | [] => Ok h
  | ns :: rest =>
      let? fields := fields_hash (ns_fields ns) [] in
      let? h := aset h (ns_name ns) (RHash fields) in
      namespaces_hash rest h
  end.

Definition metadata_hash (namespaces : list Namespace) : result RValue MagnusError :=
  let? h := namespaces_hash namespaces [] in Ok (RHash h).

Definition ctx_route_name (c : Context) : option string := route_name c.
Definition ctx_tls (c : Context) : result RValue MagnusError :=
  match tls c with
  | Some t => tls_hash t
  | None => Ok RNil
  end.

Definition to_h (c : Context) : result RValue MagnusError :=
  let? h := aset [] "route_name" (opt_str (ctx_route_name c)) in
  let? v := connection_hash (connection c) in
  let? h := aset h "connection" v in
  let? v := ctx_tls c in
  let? h := aset h "tls" v in
  let? v := metadata_hash (dynamic_metadata c) in
  let? h := aset h "dynamic_metadata" v in
  let? v := metadata_hash (route_metadata c) in
  let? h := aset h "route_metadata" v in
  Ok (RHash h).

(** ** Calls *)

(** [Ruvoy::Upstream]: the route, and the settings it was opened with. *)
Record UpstreamObject := { object_route : N; object_settings : UpstreamSettings }.

(** One call in flight, as the fiber that made it sees it. *)
Record UpstreamCall := {
  call_stream : QRef;
  call_head : option ResponseHead;
  call_body : bytes;
  call_taken : bool;
}.

Definition arg_error (message : string) : MagnusError := wrap_error "ArgumentError" message.

Definition refused_cluster (cluster : string) : MagnusError :=
  arg_error ("cluster " ++ debug_str cluster ++ " is not one this filter lets the application call")%string.

(** The deadline a call asks for, or [absent] when it asks for none. *)
Definition call_timeout (absent : Duration) (timeout : option f64) : result Duration MagnusError :=
  match timeout with
  | None => Ok absent
  | Some seconds =>
      match try_from_secs_f64 seconds with
      | Some t => if t =? 0
                  then Err (arg_error ("timeout must be a positive number of seconds, got " ++ show_f64 seconds)%string)
                  else Ok t
      | None => Err (arg_error ("timeout must be a positive number of seconds, got " ++ show_f64 seconds)%string)
      end
  end.

Definition header_pair (headers : Value) (index : N) : St World (result (string * bytes) MagnusError) :=
  let?* row := entry_array headers index in
  let?* name := entry_string row 0 in
  let?* value := entry_string row 1 in
  ok (name, into_bytes value).

Definition header_pairs (headers : Value) : St World (result (list (string * bytes)) MagnusError) :=
  let* n := read (array_len headers) in
  try_map (fun i => header_pair headers (N.of_nat i)) (seq 0 (N.to_nat n)).

(** [map_err(|error| upstream_error(ruby, &error))] *)
Definition raising {A} (m : St World (result A BridgeError)) : St World (result A MagnusError) :=
  let* r := m in
  match r with
  | Ok a => ok a
  | Err error => let* e := upstream_error error in fails e
  end.

(** A route that is gone cannot be asked. *)
Definition no_route {A} : result A BridgeError := Err RuntimeStopped.

Definition dispatch (o : UpstreamObject) (cluster : string) (headers : Value) (body : option bytes)
    (timeout : option f64) : St World (result UpstreamCall MagnusError) :=
  if negb (allows (object_settings o) cluster) then fails (refused_cluster cluster)
  else
    let?* t := pure (call_timeout (Upstream.timeout (object_settings o)) timeout) in
    let?* headers := header_pairs headers in
    let body := default [] body in
    let* response := new_queue (max_response_bytes (object_settings o)) in
    let?* _ := raising (on_route no_route (object_route o) (queue
      {| req_cluster := cluster; req_headers := headers; req_body := body; req_timeout := t;
         req_response := response |})) in
    ok {| call_stream := response; call_head := None; call_body := []; call_taken := false |}.

(** ** Streams *)

(** One streamed call in flight. *)
Record UpstreamChannelObject := { object_channel : N; channel_route : N }.

Definition open_stream (o : UpstreamObject) (cluster : string) (headers : Value) (timeout : option f64)
    (has_body : bool) : St World (result UpstreamChannelObject MagnusError) :=
  if negb (allows (object_settings o) cluster) then fails (refused_cluster cluster)
  else
    let?* t := pure (call_timeout 0 timeout) in
    let* channel := new_channel (stream_buffer_bytes (object_settings o)) in
    do* (if negb has_body then let* _ := on_queue (RequestOf channel) push_end in st_ret tt
         else st_ret tt) in
    let?* headers := header_pairs headers in
    let?* _ := raising (on_route no_route (object_route o) (queue_stream
      {| sreq_cluster := cluster; sreq_headers := headers; sreq_timeout := t; sreq_channel := channel |})) in
    ok {| object_channel := channel; channel_route := object_route o |}.

Definition default_timeout (o : UpstreamObject) : f64 := as_secs_f64 (Upstream.timeout (object_settings o)).

(** ** Answers *)

(** Repeated names become an Array of values. *)
Definition add_header (h : hash) (name value : string) : result hash MagnusError :=
  match pairs_get h name with
  | None => aset h name (str_new value)
  | Some (RArray values) =>
      let? values := ary_push values (str_new value) in
      (* the array is the hash's own, extended in place *)
      Ok (pairs_set h name (RArray values))
  | Some existing =>
      let? values := ary_push [] existing in
      let? values := ary_push values (str_new value) in
      aset h name (RArray values)
  end.

Fixpoint rack_headers_into (fields : list (string * string)) (h : hash) : result hash MagnusError :=
  match fields with
  | [] => Ok h
  | (name, value) :: rest => let? h := add_header h name value in rack_headers_into rest h
  end.

Definition rack_headers (fields : list (string * string)) : result RValue MagnusError :=
  let? h := rack_headers_into fields [] in Ok (RHash h).

Definition rack_response (head : ResponseHead) (body : bytes) : result RValue MagnusError :=
  let? response := ary_push [] (RInt (status head)) in
  let? h := rack_headers (Types.headers head) in
  let? response := ary_push response h in
  let? response := ary_push response (RString body) in
  Ok (RArray response).

Definition already_taken : MagnusError := wrap_error "RuntimeError" "the response was already taken".

Definition taken_head (c : UpstreamCall) (head : option ResponseHead) (body : bytes) : UpstreamCall :=
  {| call_stream := call_stream c; call_head := head; call_body := body; call_taken := true |}.

(** One item of [UpstreamCall::response]'s loop: go on with the call changed, or
    answer. *)
Definition answer_item (c : UpstreamCall) (item : StreamItem)
    : UpstreamCall + (UpstreamCall * St World (result (option RValue) MagnusError)) :=
  match item with
  | Head head =>
      inl {| call_stream := call_stream c; call_head := Some head; call_body := call_body c;
             call_taken := call_taken c |}
  | Chunk chunk =>
      inl {| call_stream := call_stream c; call_head := call_head c;
             call_body := call_body c ++ chunk; call_taken := call_taken c |}
  | End =>
      match call_head c with
      | Some head =>
          inr (taken_head c None [], pure (let? r := rack_response head (call_body c) in Ok (Some r)))
      | None =>
          inr (taken_head c None (call_body c),
               let* e := upstream_error (Types.Upstream "the response ended before its head") in fails e)
      end
  | Failed error =>
      inr (taken_head c (call_head c) (call_body c), let* e := upstream_error error in fails e)
  end.

Fixpoint response_loop (fuel : nat) (c : UpstreamCall)
    : St World (UpstreamCall * result (option RValue) MagnusError) :=
  match fuel with
  | O => st_ret (c, Ok None)
  | S fuel =>
      let* item := on_queue (call_stream c) take_next in
      match item with
      | None => st_ret (c, Ok None)
      | Some item =>
          match answer_item c item with
          | inl c => response_loop fuel c
          | inr (c, m) => let* r := m in st_ret (c, r)
          end
      end
  end.

(** [UpstreamCall::response]; the call's cells change with it. *)
Definition call_response_ (c : UpstreamCall) : St World (UpstreamCall * result (option RValue) MagnusError) :=
  if call_taken c then st_ret (c, Err already_taken)
  else
    let* fuel := read (fun w => S (length (items (get_queue w (call_stream c))))) in
    response_loop fuel c.

Definition call_park (c : UpstreamCall) (waiter_ : Value) : St World bool :=
  on_queue (call_stream c) (park waiter_).

Definition call_unpark (c : UpstreamCall) : St World unit :=
  do* on_queue (call_stream c) unpark in st_ret tt.

(** ** The channel's ends *)

Definition channel_head (c : UpstreamChannelObject) : St World (result (option RValue) MagnusError) :=
  let r := ResponseOf (object_channel c) in
  let* item := on_queue r take_next in
  match item with
  | None =>
      let* gone := read (fun w => is_cancelled (get_queue w r)) in
      if gone then let* e := upstream_error (Types.Upstream "the stream was closed") in fails e
      else ok None
  | Some (Head head) =>
      pure (let? row := ary_push [] (RInt (status head)) in
            let? h := rack_headers (Types.headers head) in
            let? row := ary_push row h in
            Ok (Some (RArray row)))
  | Some (Failed error) => let* e := upstream_error error in fails e
  | Some _ => let* e := upstream_error (Types.Upstream "the response arrived without a head") in fails e
  end.

(** The reader's waker does nothing: Envoy applies no flow control to a stream a
    module starts. *)
Definition reader_next_chunk (c : UpstreamChannelObject) : St World (result (option bytes) MagnusError) :=
  next_chunk_of (ResponseOf (object_channel c)) (st_ret tt).

(** The writer's waker is the route's. *)
Definition writer (c : UpstreamChannelObject) (w : World) : option StreamHandle :=
  u ← routes w !! channel_route c;
  Some {| stream := RequestOf (object_channel c); waker := route_waker u |}.

Definition channel_close (c : UpstreamChannelObject) : St World unit :=
  do* on_channel (object_channel c) (modify close) in wake_route (channel_route c).

Definition channel_time_out (c : UpstreamChannelObject) : St World unit :=
  do* on_channel (object_channel c) (modify time_out) in wake_route (channel_route c).

Definition channel_trailers (c : UpstreamChannelObject) : St World (result (option RValue) MagnusError) :=
  let* t := read (fun w => Upstream.trailers (get_channel w (object_channel c))) in
  match t with
  | Some fields => pure (let? h := rack_headers fields in Ok (Some h))
  | None => ok None
  end.

End extensions.
