(* ===== verification/ExtensionsSpec.v ===== *)
(** * What a call asks for, and what its fiber reads back

    A call leaves Ruby only for a cluster the filter allows and with a positive
    deadline; the answer the worker delivers is what the fiber reads, once; and a
    response's headers keep every value in order. *)

From S2P Require Import Prelude RustStr Types Stream Upstream World Client Envoy Metrics Calls Ruby Chunks RubyExample Extensions.
From Stdlib Require Import Floats.SpecFloat.

Local Open Scope N_scope.

(** ** Header grouping *)

Definition values_of (name : string) (fields : list (string * string)) : list string :=
  map snd (List.filter (fun '(n, _) => bool_decide (n = name)) fields).

(** One value as a string, several as an array. *)
Definition grouped (values : list string) : option RValue :=
  match values with
  | [] => None
  | [v] => Some (str_new v)
  | vs => Some (RArray (map str_new vs))
  end.

Lemma values_of_app name l k : values_of name (l ++ k) = (values_of name l ++ values_of name k)%list.
Proof. unfold values_of. by rewrite List.filter_app, map_app. Qed.

Lemma grouped_snoc vs v : grouped (vs ++ [v]) =
  match vs with
  | [] => Some (str_new v)
  | _ => Some (RArray (map str_new vs ++ [str_new v]))
  end.
Proof. destruct vs as [|x [|y vs]]; try done. cbn. by rewrite map_app. Qed.

Section headers.
Context `{RubyVM}.

Lemma ary_push_ok l v l' : ary_push l v = Ok l' -> l' = (l ++ [v])%list.
Proof. unfold ary_push. destruct (store_fails _ _); [done|]. by intros [= <-]. Qed.

Lemma add_header_ok h name value h' vs :
  add_header h name value = Ok h' -> pairs_get h name = grouped vs ->
  h' = pairs_set h name (default RNil (grouped (vs ++ [value]))).
Proof.
  unfold add_header. intros Ha Hg. rewrite Hg in Ha. rewrite grouped_snoc.
  destruct vs as [|x [|y vs]]; cbn in Ha |- *.
  - by apply aset_ok in Ha.
  - apply result_bind_ok in Ha as (l1 & H1 & Ha). apply result_bind_ok in Ha as (l2 & H2 & Ha).
    apply ary_push_ok in H1 as ->. apply ary_push_ok in H2 as ->. by apply aset_ok in Ha.
  - apply result_bind_ok in Ha as (l1 & H1 & Ha). apply ary_push_ok in H1 as ->. by injection Ha as <-.
Qed.

Lemma rack_headers_into_ok fields seen h h' :
  (forall name, pairs_get h name = grouped (values_of name seen)) ->
  rack_headers_into fields h = Ok h' ->
  forall name, pairs_get h' name = grouped (values_of name (seen ++ fields)).
Proof.
  revert seen h. induction fields as [|[n v] fields IH]; intros seen h Hh Hr name; cbn in Hr.
  { injection Hr as <-. by rewrite app_nil_r. }
  apply result_bind_ok in Hr as (h1 & H1 & Hr).
  pose proof (add_header_ok _ _ _ _ _ H1 (Hh n)) as ->.
  replace (seen ++ (n, v) :: fields)%list with ((seen ++ [(n, v)]) ++ fields)%list by (by rewrite <- app_assoc).
  eapply IH; [|exact Hr]. intros m. rewrite pairs_get_set, values_of_app. unfold values_of at 3. cbn.
  destruct (decide (m = n)) as [->|Hne].
  - rewrite !bool_decide_true by done. cbn. rewrite grouped_snoc. by destruct (values_of n seen).
  - rewrite !bool_decide_false by congruence. cbn. by rewrite app_nil_r, Hh.
Qed.

(** A response's headers as Ruby reads them: under every name, its one value, or
    all its values in the order they came; and no other name. *)
Theorem rack_headers_group fields h :
  rack_headers fields = Ok (RHash h) ->
  forall name, pairs_get h name = grouped (values_of name fields).
Proof.
  unfold rack_headers. intros Hr. apply result_bind_ok in Hr as (h' & Hr & [= <-]).
  by apply (rack_headers_into_ok fields [] [] h').
Qed.

End headers.

Lemma rack_headers_group_witness : exists h,
  rack_headers (H := example_ruby) [("set-cookie", "a"); ("x", "1"); ("set-cookie", "b")]%string = Ok (RHash h)
  /\ pairs_get h "set-cookie" = Some (RArray [str_new "a"; str_new "b"])
  /\ pairs_get h "x" = Some (str_new "1").
Proof.
  eexists. split; [reflexivity|].
  split; rewrite (rack_headers_group (H := example_ruby)
    [("set-cookie", "a"); ("x", "1"); ("set-cookie", "b")]%string _ eq_refl); reflexivity.
Defined.

(** ** Deadlines *)

Lemma call_timeout_positive `{RubyVM} show_f64 absent t seconds :
  call_timeout show_f64 absent (Some seconds) = Ok t -> 0 < t.
Proof.
  unfold call_timeout. destruct (try_from_secs_f64 seconds) as [d|]; [|done].
  destruct (d =? 0) eqn:E; [done|]. intros [= <-]. lia.
Qed.

(** Half a second, one and a half nanoseconds to even, and what is refused. *)
Example secs_half : try_from_secs_f64 (S754_finite false 1 (-1)) = Some 500000000.
Proof. reflexivity. Qed.
Example secs_negative : try_from_secs_f64 (S754_finite true 1 0) = None.
Proof. reflexivity. Qed.
Example secs_overflow : try_from_secs_f64 (S754_finite false 1 64) = None.
Proof. reflexivity. Qed.
Example default_half : as_secs_f64 500000000 = S754_finite false 4503599627370496 (-53).
Proof. reflexivity. Qed.

(** ** Reading the answer *)

Definition call_new (r : QRef) : UpstreamCall :=
  {| call_stream := r; call_head := None; call_body := []; call_taken := false |}.

Lemma take_step r w i rest :
  items (get_queue w r) = i :: rest -> paused (get_queue w r) = false ->
  exists w1, on_queue r take_next w = (Some i, w1)
    /\ items (get_queue w1 r) = rest /\ paused (get_queue w1 r) = false.
Proof.
  intros Hi Hp. pose proof (get_on_queue r take_next w) as Hg. pose proof (on_queue_fst r take_next w) as Hf.
  destruct (on_queue r take_next w) as [a w1]. cbn [fst snd] in *. unfold take_next in *. rewrite Hp, Hi in *.
  exists w1. rewrite Hg, Hf. by split_and!.
Qed.

Lemma deliver_paused res fields body limit s :
  paused (deliver res fields body limit s).2 = paused s.
Proof.
  assert (Hpush : forall i s, paused (push i s).2 = paused s) by (intros i s'; unfold push; by case_match).
  unfold deliver. destruct res; unfold answer; repeat case_match; simplify_eq/=; try done;
    unfold st_bind, st_ret, push_head, push_chunk, push_end, push_failure.
  all: repeat match goal with
       | |- context [push ?i ?s] => let E := fresh in pose proof (Hpush i s) as E; destruct (push i s); cbn in *
       | |- context [if ?b then _ else _] => destruct b; cbn in *
       end; congruence.
Qed.

Section answers.
Context `{RubyVM}.

Lemma response_step fuel c w i rest :
  items (get_queue w (call_stream c)) = i :: rest -> paused (get_queue w (call_stream c)) = false ->
  exists w1, items (get_queue w1 (call_stream c)) = rest /\ paused (get_queue w1 (call_stream c)) = false
    /\ response_loop (S fuel) c w = match answer_item c i with
       | inl c => response_loop fuel c w1
       | inr (c, m) => st_bind m (fun r => st_ret (c, r)) w1
       end.
Proof.
  intros Hi Hp. destruct (take_step _ _ _ _ Hi Hp) as (w1 & Ht & H1 & H2). exists w1. split_and!; [done..|].
  cbn [response_loop]. unfold st_bind at 1. rewrite Ht. by destruct (answer_item c i) as [|[]].
Qed.

(** C27: the fiber reads what the worker counted.  Once the worker has delivered a
    finished call, the fiber's next read gives the whole response of a completed call,
    its head, headers and body, or raises the error a failed call was counted as, of
    that error's class; the call is then spent, and any further read is refused and
    changes nothing. *)
Theorem call_reads_answer (r : QRef) (w : World) res fields body (limit n : N) :
  let delivered := deliver res fields body limit (stream_new n) in
  get_queue w r = delivered.2 ->
  let out := call_response_ (call_new r) w in
  let '(c', read) := out.1 in
  call_taken c' = true
  /\ call_response_ c' out.2 = ((c', Err already_taken), out.2)
  /\ ((exists head, delivered.1 = Completed /\ head_of (default [] fields) = Some head
         /\ read = (let? v := rack_response head (concatenate (default [] body)) in Ok (Some v)))
      \/ (exists error w1, delivered.1 = failed error /\ delivered.1 <> Completed
         /\ read = Err (upstream_error error w1).1)).
Proof.
  intros delivered Hq out. pose proof (deliver_reports res fields body limit n) as Hd.
  pose proof (deliver_paused res fields body limit (stream_new n)) as Hp.
  unfold delivered in Hq |- *. destruct (deliver res fields body limit (stream_new n)) as [counted s]. cbn [fst snd] in *.
  rewrite <- Hq in Hp. unfold out.
  assert (Hout : call_response_ (call_new r) w
    = response_loop (S (length (items (get_queue w r)))) (call_new r) w) by reflexivity.
  rewrite Hout. clear Hout out.
  destruct Hd as [(head & -> & _ & Hh & _ & Hi)|(error & -> & Hne & Hi & _)]; rewrite Hq, Hi; rewrite <- Hq in Hi.
  - case_bool_decide as Hb; cbn [app length] in Hi |- *.
    + destruct (response_step 2 (call_new r) w _ _ Hi Hp) as (w1 & H1 & P1 & ->). cbn [answer_item].
      edestruct (fun c => response_step 1 c w1) as (w2 & H2 & P2 & ->); [exact H1|exact P1|].
      cbn. rewrite Hb. split_and!; [done..|]. left. by exists head.
    + destruct (response_step 3 (call_new r) w _ _ Hi Hp) as (w1 & H1 & P1 & ->). cbn [answer_item].
      edestruct (fun c => response_step 2 c w1) as (w2 & H2 & P2 & ->); [exact H1|exact P1|]. cbn [answer_item].
      edestruct (fun c => response_step 1 c w2) as (w3 & H3 & P3 & ->); [exact H2|exact P2|].
      cbn. split_and!; [done..|]. left. by exists head.
  - cbn [length]. destruct (response_step 1 (call_new r) w _ _ Hi Hp) as (w1 & H1 & P1 & ->).
    cbn [answer_item]. unfold st_bind. destruct (upstream_error error w1) as [e w2] eqn:Ee. cbn.
    split_and!; [done..|]. right. exists error, w1. by rewrite Ee.
Qed.

End answers.

Definition answered_world : World :=
  set_queues (world_new 1)
    {[ 1 := (deliver CalloutSuccess (Some [(into_bytes ":status", into_bytes "200"); (into_bytes "x", into_bytes "1")])
               (Some [into_bytes "hi"]) 16 (stream_new 16)).2 ]}%string.

Lemma call_reads_answer_witness :
  ((call_response_ (H := example_ruby) (call_new (Direct 1)) answered_world).1).2
    = Ok (Some (RArray [RInt 200; RHash [("x"%string, str_new "1")]; RString (into_bytes "hi")]))
  /\ call_taken ((call_response_ (H := example_ruby) (call_new (Direct 1)) answered_world).1).1 = true.
Proof.
  split; [reflexivity|].
  pose proof (call_reads_answer (H := example_ruby) (Direct 1) answered_world CalloutSuccess
    (Some [(into_bytes ":status", into_bytes "200"); (into_bytes "x", into_bytes "1")]%string)
    (Some [into_bytes "hi"%string]) 16 16 eq_refl) as Hr. cbn zeta in Hr.
  destruct ((call_response_ (call_new (Direct 1)) answered_world).1) as [c' read]. exact (proj1 Hr).
Defined.

(** ** Asking *)

Section asking.
Context `{RubyVM} (show_f64 : f64 -> string).

(** What [dispatch] queues. *)
Definition queued_call (cluster : string) (headers : list (string * bytes)) (body : option bytes)
    (t : Duration) (response : QRef) : UpstreamRequest :=
  {| req_cluster := cluster; req_headers := headers; req_body := default [] body; req_timeout := t;
     req_response := response |}.

(** C28: a call is queued for the worker, once and with the worker woken, only for a
    cluster the filter allows and with a positive deadline, the filter's own unless the
    call sets one; it waits on a fresh queue bounded by the filter's limit.  A cluster
    not allowed or a deadline that is no positive number of seconds is refused before
    anything changes. *)
Theorem dispatch_queues_once (o : UpstreamObject) cluster headers body seconds (w : World) :
  0 < Upstream.timeout (object_settings o) ->
  let out := dispatch show_f64 o cluster headers body seconds w in
  (is_err out.1 = false ->
     exists t hs w1 u,
       allows (object_settings o) cluster = true /\ 0 < t
       /\ (seconds = None -> t = Upstream.timeout (object_settings o))
       /\ header_pairs headers w = (Ok hs, w1) /\ routes w1 !! object_route o = Some u /\ closed (calls u) = false
       /\ out.1 = Ok (call_new (Direct (next_ref w1)))
       /\ routes out.2 !! object_route o = Some {| settings := settings u;
            calls := add_queued (queued_call cluster hs body t (Direct (next_ref w1))) (calls u);
            route_waker := route_waker u |}
       /\ posted out.2 = posted w1 ++ [route_waker u]
       /\ get_queue out.2 (Direct (next_ref w1)) = stream_new (max_response_bytes (object_settings o)))
  /\ (allows (object_settings o) cluster = false
      \/ is_err (call_timeout show_f64 (Upstream.timeout (object_settings o)) seconds) = true ->
      is_err out.1 = true /\ out.2 = w).
Proof.
  intros Hpos out. unfold out, dispatch. destruct (allows _ cluster) eqn:Ea; cbn [negb].
  2:{ cbn. split; [done|]. by intros _. }
  unfold pure. destruct (call_timeout _ _ seconds) as [t|e] eqn:Et; unfold tries; cbn [st_ret].
  2:{ cbn. split; [done|]. by intros _. }
  split; [|intros [?|?]; done]. intros Hok.
  assert (Ht : 0 < t) by (destruct seconds; [by eapply call_timeout_positive | by injection Et as <-]).
  destruct (header_pairs headers w) as [[hs|e] w1] eqn:Eh; [|done].
  unfold raising, new_queue, fresh, on_route, queue, push_route, push_call, st_bind in *.
  cbn [set_queues set_next routes posted queues next_ref fst snd] in *.
  destruct (routes w1 !! object_route o) as [u|] eqn:Eu.
  2:{ unfold no_route in Hok. cbn in Hok.
      match type of Hok with context [upstream_error ?a ?b] => by destruct (upstream_error a b) end. }
  destruct (closed (calls u)) eqn:Ec.
  { cbn in Hok. match type of Hok with context [upstream_error ?a ?b] => by destruct (upstream_error a b) end. }
  exists t, hs, w1, u. cbn. split_and!; try done.
  - intros ->. by injection Et as <-.
  - by rewrite lookup_insert_eq.
  - by rewrite lookup_insert_eq.
Qed.

End asking.

Definition upstream_example : UpstreamObject :=
  {| object_route := 1;
     object_settings := {| clusters := ["users"%string]; timeout := from_secs 15; max_response_bytes := 1024;
                           stream_buffer_bytes := 1024 |} |}.

Definition route_world : World :=
  set_routes (world_new 1) {[ 1 := upstreams_new (object_settings upstream_example)
                                     {| waker_filter := 1; waker_event := 3 |} ]}.

Lemma dispatch_queues_once_witness :
  let out := dispatch (H := example_ruby) (fun _ => ""%string) upstream_example "users" 4 None None route_world in
  is_err out.1 = false
  /\ posted out.2 = [{| waker_filter := 1; waker_event := 3 |}]
  /\ is_err (dispatch (H := example_ruby) (fun _ => ""%string) upstream_example "other" 4 None None route_world).1 = true.
Proof.
  cbn zeta. split; [reflexivity|]. split; [reflexivity|].
  assert (Hpos : 0 < Upstream.timeout (object_settings upstream_example)) by (vm_compute; reflexivity).
  destruct (dispatch_queues_once (H := example_ruby) (fun _ => ""%string) upstream_example "other" 4 None None
    route_world Hpos) as [_ Hr].
  exact (proj1 (Hr (or_introl eq_refl))).
Defined.
