(* ===== verification/UpstreamRb.v ===== *)
(** * Calling upstreams from Ruby ([src/ruby/upstream.rb])

    The fields of a call, the fiber that waits for its answer, the body that streams a
    response, what is sent up, and an exchange upgraded to another protocol. *)

From S2P Require Import Prelude RustStr Types Stream StreamTrace Upstream World Ruby Chunks Extensions Fibers Duplex.

Local Open Scope N_scope.

(** ** The fields of a call

    A header's value is what [to_s] and [Array()] make of it; [downcase], [upcase] and
    [casecmp?] go by Unicode. *)

Record HeaderArg := { arg_text : string; arg_elements : list string }.

Record TextOps := {
  downcase : string -> string;
  upcase : string -> string;
  casecmp : string -> string -> bool;
  inspect : string -> string;
}.

Section fields.
Context (ops : TextOps).

Fixpoint header_fields (headers : list (string * HeaderArg)) (host : string) (acc : list (string * string))
    : result (string * list (string * string)) Exn :=
  match headers with
  | [] => Ok (host, acc)
  | (name, value) :: rest =>
      let name := downcase ops name in
      if starts_with ":" name
      then Err (argument_error (name ++ " is set from the call's arguments, not its headers")%string)
      else if bool_decide (name = "host"%string) then header_fields rest (arg_text value) acc
      else header_fields rest host (acc ++ map (fun e => (name, e)) (arg_elements value))
  end.

Definition named (name : string) (f : string * string) : bool := bool_decide (f.1 = name).

Definition fields (cluster method_ path_ : string) (headers : list (string * HeaderArg)) (body_ : option bytes)
    : result (list (string * string)) Exn :=
  if bool_decide (method_ = ""%string) then Err (argument_error "method must not be empty")
  else if negb (starts_with "/" path_)
  then Err (argument_error ("path must start with /, got " ++ inspect ops path_)%string)
  else
    let? (host, acc) := header_fields headers cluster [(":method"%string, upcase ops method_); (":path"%string, path_)] in
    let acc := match body_ with
               | Some b => if existsb (named "content-length") acc then acc
                           else acc ++ [("content-length"%string, show (len b))]
               | None => acc
               end in
    Ok (acc ++ [("host"%string, host)]).

(** The headers of a call that asks to upgrade; [key] is random. *)
Definition upgrade_headers (protocol key : string) (headers : list (string * HeaderArg)) : list (string * HeaderArg) :=
  let one s := {| arg_text := s; arg_elements := [s] |} in
  let headers := List.filter (fun h => negb (bool_decide (downcase ops h.1 = "upgrade"%string)
                                             || bool_decide (downcase ops h.1 = "connection"%string))) headers in
  let headers := pairs_set (pairs_set headers "upgrade" (one protocol)) "connection" (one "upgrade") in
  if casecmp ops protocol "websocket" && negb (existsb (fun h => casecmp ops h.1 "sec-websocket-key") headers)
  then pairs_set (pairs_set headers "sec-websocket-key" (one key)) "sec-websocket-version" (one "13")
  else headers.

End fields.

(** ** [call]: waiting for an answer *)

Section calls.
Context `{RubyVM}.

(** [pending.response]: the cells of the call change with it. *)
Definition pending_response : Fib UpstreamCall (option RValue) := fun s =>
  let s := interfere s in
  let '((c, r), w) := call_response_ (object s) (store s) in
  let s := with_object (with_store s w) c in
  match r with
  | Ok v => (Done v, s)
  | Err e => (Raised (FromRust e), s)
  end.

Definition park_call : Fib UpstreamCall unit :=
  let! c := obj in park_on (call_stream c) (call_park c) (call_unpark c).

Fixpoint call_loop (fuel : nat) : Fib UpstreamCall RValue :=
  match fuel with
  | O => st_ret Spinning
  | S fuel =>
      let! response := pending_response in
      match response with
      | Some response => done response
      | None => do! park_call in call_loop fuel
      end
  end.

(** The loop of [call], for the call that [dispatch] made. *)
Definition await_call : Fib UpstreamCall RValue := fun s => call_loop (S (length (coming s))) s.

(** ** Waiting on an upstream that may go quiet *)

Definition upstream_timeout (seconds : string) : Exn :=
  Standard "Ruvoy::UpstreamTimeout" ("the upstream sent nothing for " ++ seconds ++ " seconds").

Definition reader_of (ch : UpstreamChannelObject) : Source :=
  {| source_queue := ResponseOf (object_channel ch); source_waker := None |}.

(** [await(@reader)] *)
Definition await {O} (ch : UpstreamChannelObject) (idle_timeout : string) : Fib O unit :=
  rescue (park_source (reader_of ch)) (fun e =>
    if is_class "Async::TimeoutError" e
    then Some (do! access (channel_time_out ch) in raise (upstream_timeout idle_timeout))
    else None).

(** ** The body of a streamed response

    [upload]: whether the fiber that sends the request's body is alive, if there is one;
    [yielded]: what the block was given. *)

Record UpstreamBody := {
  ub_channel : UpstreamChannelObject;
  ub_upload : option bool;
  ub_idle_timeout : string;
  ub_finished : bool;
  ub_closed : bool;
  ub_yielded : bytes;
}.

Definition body_new (ch : UpstreamChannelObject) (upload : option bool) (idle_timeout : string) : UpstreamBody :=
  {| ub_channel := ch; ub_upload := upload; ub_idle_timeout := idle_timeout; ub_finished := false;
     ub_closed := false; ub_yielded := [] |}.

Definition set_finished (b : UpstreamBody) (f : bool) : UpstreamBody :=
  {| ub_channel := ub_channel b; ub_upload := ub_upload b; ub_idle_timeout := ub_idle_timeout b;
     ub_finished := f; ub_closed := ub_closed b; ub_yielded := ub_yielded b |}.
Definition set_body_closed (b : UpstreamBody) : UpstreamBody :=
  {| ub_channel := ub_channel b; ub_upload := (fun _ => false) <$> ub_upload b; ub_idle_timeout := ub_idle_timeout b;
     ub_finished := ub_finished b; ub_closed := true; ub_yielded := ub_yielded b |}.

Definition yield_chunk (chunk : bytes) : Fib UpstreamBody unit :=
  change (fun b => {| ub_channel := ub_channel b; ub_upload := ub_upload b; ub_idle_timeout := ub_idle_timeout b;
                      ub_finished := ub_finished b; ub_closed := ub_closed b; ub_yielded := ub_yielded b ++ chunk |}).

(** [head] *)
Fixpoint head_loop (fuel : nat) : Fib UpstreamBody RValue :=
  match fuel with
  | 0%nat => st_ret Spinning
  | S fuel =>
      let! b := obj in
      let! head := access_raising (channel_head (ub_channel b)) in
      match head with
      | Some head => done head
      | None => do! await (ub_channel b) (ub_idle_timeout b) in head_loop fuel
      end
  end.

Definition head : Fib UpstreamBody RValue := fun s => head_loop (S (length (coming s))) s.

(** [each] *)
Definition each : Fib UpstreamBody unit :=
  let! b := obj in
  if ub_finished b then done tt
  else
    fill_from (reader_of (ub_channel b)) (pull yield_chunk (reader_of (ub_channel b)))
      (await (ub_channel b) (ub_idle_timeout b))
      (fun _ : unit =>
        let! f := source_finished (reader_of (ub_channel b)) in
        do! change (fun b => set_finished b f) in
        done (tt, f)) tt.

(** [close] *)
Definition close_upstream : Fib UpstreamBody unit :=
  let! b := obj in
  if ub_closed b then done tt
  else
    do! change set_body_closed in
    if default false (ub_upload b) || negb (ub_finished b) then access (channel_close (ub_channel b)) else done tt.

(** ** What goes up

    An IO: the pieces its reads give, and what a read after them raises, if not nil. *)

Definition UPLOAD_BYTES : N := 64 * 1024.

Record Io := { io_pieces : list bytes; io_ends : option Exn }.

(** [preread]: what was read, unless nothing, and whether more may follow. *)
Fixpoint preread_loop (pieces : list bytes) (ends : option Exn) (read_ : bytes) : result (option bytes * option Io) Exn :=
  if len read_ <=? UPLOAD_BYTES then
    match pieces with
    | [] => match ends with
            | Some e => Err e
            | None => Ok (if bool_decide (read_ = []) then None else Some read_, None)
            end
    | piece :: pieces => preread_loop pieces ends (read_ ++ piece)
    end
  else Ok (Some read_, Some {| io_pieces := pieces; io_ends := ends |}).

Definition preread (io : Io) : result (option bytes * option Io) Exn := preread_loop (io_pieces io) (io_ends io) [].

(** The body of a streamed call. *)
Inductive BodyArg := NoBody | StringBody (b : bytes) | IoBody (io : Io).

(** What [stream] asks for before it opens the stream: the fields, whether a body goes up
    or the exchange is to be upgraded, and what goes up: a first piece and what follows. *)
Definition stream_request (ops : TextOps) (cluster method_ path_ : string) (headers : list (string * HeaderArg))
    (body_ : BodyArg) (protocol : option string) (key : string)
    : result (list (string * string) * bool * option (bytes * option Io)) Exn :=
  let? headers := match protocol with
                  | None => Ok headers
                  | Some p =>
                      match body_ with
                      | NoBody => Ok (upgrade_headers ops p key headers)
                      | _ => Err (argument_error "an upgraded stream sends its body through the stream it returns")
                      end
                  end in
  let? (first, rest) := match body_ with
                        | NoBody => Ok (None, None)
                        | StringBody b => Ok (Some b, None)
                        | IoBody io => preread io
                        end in
  let? fs := fields ops cluster method_ path_ headers (match rest with Some _ => None | None => first end) in
  Ok (fs, match protocol, first with None, None => false | _, _ => true end, (fun b => (b, rest)) <$> first).

(** [while sent && rest && (chunk = rest.read(UPLOAD_BYTES))] *)
Fixpoint upload_rest {O} (sink : StreamHandle) (sent : bool) (pieces : list bytes) (ends : option Exn) : Fib O unit :=
  if sent then
    match pieces with
    | [] => match ends with
            | Some e => raise e
            | None => done tt
            end
    | chunk :: pieces =>
        let! sent := stream_write sink chunk in
        upload_rest sink sent pieces ends
    end
  else done tt.

(** The fiber of [upload]. *)
Definition upload {O} (ch : UpstreamChannelObject) (sink : StreamHandle) (read_ : bytes) (rest : option Io) : Fib O unit :=
  rescue (
    let! sent := stream_write sink read_ in
    do! (match rest with
         | Some io => upload_rest sink sent (io_pieces io) (io_ends io)
         | None => done tt
         end) in
    sink_finish sink)
    (fun e => if is_standard e then Some (do! access (channel_close ch) in raise e) else None).

(** ** An upgraded exchange: [wait_for_input] and [close] of [UpstreamStream] *)

Definition await_input (ch : UpstreamChannelObject) (idle_timeout : string) : Fib Duplex unit := await ch idle_timeout.

Definition upstream_stream_new (ch : UpstreamChannelObject) (writer_ : StreamHandle) : Duplex :=
  duplex_new (reader_of ch) writer_ [].

Definition upstream_stream_close (ch : UpstreamChannelObject) : Fib Duplex unit :=
  do! dx_close in access (channel_close ch).

End calls.

#[global] Opaque UPLOAD_BYTES.
