(* ===== verification/UpstreamRbSpec.v ===== *)
(** * What a call of Ruby asks for and what its fiber reads *)

From S2P Require Import Prelude RustStr Types Stream StreamTrace Upstream World Ruby Chunks RubyExample Extensions ExtensionsSpec Fibers FiberLogic RackInput RackInputSpec Duplex DuplexSpec DuplexRead UpstreamRb.

Local Open Scope N_scope.

(** ** The fields of a call *)

Section fields.
Context (ops : TextOps).

(** A header's own fields; [host] is taken out. *)
Definition own_fields (h : string * HeaderArg) : list (string * string) :=
  if bool_decide (downcase ops h.1 = "host"%string) then []
  else map (fun e => (downcase ops h.1, e)) (arg_elements h.2).

Definition host_of (cluster : string) (headers : list (string * HeaderArg)) : string :=
  foldl (fun host h => if bool_decide (downcase ops h.1 = "host"%string) then arg_text h.2 else host) cluster headers.

Definition pseudo (h : string * HeaderArg) : bool := starts_with ":" (downcase ops h.1).

Definition length_field (body_ : option bytes) (mid : list (string * string)) : list (string * string) :=
  match body_ with
  | Some b => if existsb (named "content-length") mid then [] else [("content-length"%string, show (len b))]
  | None => []
  end.

Lemma header_fields_spec headers host acc :
  header_fields ops headers host acc =
    match List.find pseudo headers with
    | Some (name, _) =>
        Err (argument_error (downcase ops name ++ " is set from the call's arguments, not its headers")%string)
    | None => Ok (host_of host headers, (acc ++ concat (map own_fields headers))%list)
    end.
Proof.
  revert host acc. induction headers as [|[name value] rest IH]; intros host acc; cbn [header_fields].
  { cbn. by rewrite app_nil_r. }
  cbn [List.find]. unfold pseudo at 1. cbn [fst]. destruct (starts_with ":" (downcase ops name)); [done|]. cbn [map concat].
  unfold own_fields at 1, host_of. cbn [foldl fst snd]. case_bool_decide; rewrite IH; unfold host_of; [done|].
  destruct (List.find _ rest) as [[? ?]|]; [done|]. by rewrite <- app_assoc.
Qed.

(** What a call sends, for every call: the method and the path first, then the
    headers in order, one field for each value, their names in lower case, then the
    length of a body whose headers do not give it, and the host last - the cluster's
    name, unless a header sets it.  A call without a method, or whose path is not
    absolute, or that sets a pseudo-header, is refused. *)
Theorem call_fields cluster method_ path_ headers body_ :
  let mid := concat (map own_fields headers) in
  fields ops cluster method_ path_ headers body_ =
    if bool_decide (method_ = ""%string) then Err (argument_error "method must not be empty")
    else if negb (starts_with "/" path_) then Err (argument_error ("path must start with /, got " ++ inspect ops path_)%string)
    else match List.find pseudo headers with
         | Some (name, _) =>
             Err (argument_error (downcase ops name ++ " is set from the call's arguments, not its headers")%string)
         | None =>
             Ok ([(":method"%string, upcase ops method_); (":path"%string, path_)] ++ mid ++ length_field body_ mid
                 ++ [("host"%string, host_of cluster headers)])%list
         end.
Proof.
  cbv zeta. unfold fields. case_bool_decide; [done|]. destruct (starts_with "/" path_); [|done]. cbn [negb].
  rewrite header_fields_spec. destruct (List.find pseudo headers) as [[name v]|]; [done|]. cbn [result_bind].
  set (mid := concat (map own_fields headers)). f_equal. unfold length_field.
  destruct body_ as [b|]; [|by rewrite <- !app_assoc].
  assert (existsb (named "content-length") ([(":method"%string, upcase ops method_); (":path"%string, path_)] ++ mid)
    = existsb (named "content-length") mid) as -> by done.
  destruct (existsb _ mid); by rewrite <- !app_assoc.
Qed.

(** Every name between the path and the host is an ordinary one. *)
Lemma own_fields_plain headers : List.find pseudo headers = None ->
  Forall (fun f => starts_with ":" f.1 = false /\ f.1 <> "host"%string) (concat (map own_fields headers)).
Proof.
  induction headers as [|h rest IH]; [constructor|]. cbn [List.find map concat]. intros Hf. unfold pseudo at 1 in Hf.
  destruct (starts_with ":" (downcase ops h.1)) eqn:Ec; [done|]. apply Forall_app. split; [|by apply IH].
  unfold own_fields. case_bool_decide; [constructor|]. apply Forall_map. by apply Forall_true.
Qed.

(** *** Upgrading *)

(** The headers of some name, whatever its case. *)
Definition asked (name : string) (headers : list (string * HeaderArg)) : list (string * HeaderArg) :=
  List.filter (fun h => bool_decide (downcase ops h.1 = name)) headers.

Lemma asked_set_other name headers k v : downcase ops k <> name -> asked name (pairs_set headers k v) = asked name headers.
Proof.
  intros Hk. unfold asked. induction headers as [|[k' v'] rest IH]; cbn [pairs_set List.filter fst].
  { by rewrite bool_decide_false. }
  case_bool_decide as Heq; cbn [List.filter fst]; [subst k'; by rewrite (bool_decide_false _ Hk)|]. by rewrite IH.
Qed.

Lemma pairs_set_absent headers k (v : HeaderArg) : downcase ops k = k -> asked k headers = [] -> pairs_set headers k v = (headers ++ [(k, v)])%list.
Proof.
  intros Hk. unfold asked. induction headers as [|[k' v'] rest IH]; cbn [pairs_set List.filter fst app]; [done|].
  case_bool_decide as Heq; [done|]. intros Hf. rewrite bool_decide_false by congruence. by rewrite IH.
Qed.

Lemma asked_app name l k : asked name (l ++ k) = (asked name l ++ asked name k)%list.
Proof. apply List.filter_app. Qed.

(** An upgrade is asked for once, whatever the caller's own headers were. *)
Lemma upgrade_headers_ask protocol key headers :
  Forall (fun s => downcase ops s = s) ["upgrade"; "connection"; "sec-websocket-key"; "sec-websocket-version"]%string ->
  let asks s := {| arg_text := s; arg_elements := [s] |} in
  let headers' := upgrade_headers ops protocol key headers in
  asked "upgrade" headers' = [("upgrade"%string, asks protocol)]
  /\ asked "connection" headers' = [("connection"%string, asks "upgrade"%string)].
Proof.
  intros Hd. apply Forall_cons_1 in Hd as [D1 Hd]. apply Forall_cons_1 in Hd as [D2 Hd].
  apply Forall_cons_1 in Hd as [D3 Hd]. apply Forall_cons_1 in Hd as [D4 _]. cbv zeta. unfold upgrade_headers.
  set (kept := List.filter _ headers).
  assert (asked "upgrade" kept = [] /\ asked "connection" kept = []) as [K1 K2].
  { unfold kept, asked. induction headers as [|h rest [I1 I2]]; [done|]. cbn [List.filter].
    destruct (bool_decide (downcase ops h.1 = "upgrade"%string)) eqn:E1, (bool_decide (downcase ops h.1 = "connection"%string)) eqn:E2;
      cbn [orb negb]; try done. cbn [List.filter]. by rewrite E1, E2. }
  set (base := pairs_set (pairs_set kept _ _) _ _).
  assert (asked "upgrade" base = [("upgrade"%string, {| arg_text := protocol; arg_elements := [protocol] |})]
    /\ asked "connection" base = [("connection"%string, {| arg_text := "upgrade"; arg_elements := ["upgrade"%string] |})]) as [B1 B2].
  { unfold base. rewrite (pairs_set_absent kept "upgrade"%string _ D1 K1).
    assert (forall v, asked "upgrade" [("upgrade"%string, v)] = [("upgrade"%string, v)]) as U1
      by (intros v; unfold asked; cbn; by rewrite D1).
    assert (forall v, asked "connection" [("upgrade"%string, v)] = []) as U2 by (intros v; unfold asked; cbn; by rewrite D1).
    rewrite pairs_set_absent; [|done|by rewrite asked_app, K2, U2]. rewrite !asked_app, K1, K2, U1, U2.
    unfold asked. cbn. rewrite D2. by split. }
  destruct (_ && _); [|by split]. rewrite !(asked_set_other _ _ "sec-websocket-version"), !(asked_set_other _ _ "sec-websocket-key") by (rewrite ?D3, ?D4; done). by split.
Qed.

End fields.

(** ** Waiting for the answer

    Of a call's queue the fiber that waits is the only reader, and nobody cancels it:
    until the answer is complete, its end is still queued. *)

Definition terminal (i : StreamItem) : bool :=
  match i with
  | End | Failed _ => true
  | Head _ | Chunk _ => false
  end.

Definition call_may (op : StreamOp) : bool :=
  match op with
  | OpTake | OpPause true | OpCancel => false
  | _ => true
  end.

Record call_ok (q : ResponseStream) : Prop := {
  ck_paused : paused q = false;
  ck_cancelled : cancelled q = false;
  ck_ended : ended q = true -> existsb terminal (items q) = true;
}.

Program Definition caller : Role := {| may := call_may; role_ok := call_ok; role_logs _ out := out = [] |}.
Next Obligation. done. Qed.
Next Obligation. by intros n1 o1 n2 o2 -> ->. Qed.
Next Obligation.
  intros op q Hop [H1 H2 H3].
  destruct op as [|[]|item|b|chunk| |w|w| | | |]; try discriminate Hop; cbn;
    unfold reply, push, push_chunk_within_budget, push_chunk_if_room, park, park_writer, unpark; repeat case_match; simplify_eq/=;
    (split; [|done]); constructor; cbn; try done; rewrite ?existsb_app; try (intros Hq; rewrite (H3 Hq)); rewrite ?orb_true_r; done.
Qed.
Next Obligation. intros q v [H1 H2 H3]. by constructor. Qed.

(** What the call has gathered once [l] was read. *)
Definition gather_item (c : UpstreamCall) (i : StreamItem) : UpstreamCall :=
  match i with
  | Head h => {| call_stream := call_stream c; call_head := Some h; call_body := call_body c; call_taken := call_taken c |}
  | Chunk b => {| call_stream := call_stream c; call_head := call_head c; call_body := call_body c ++ b; call_taken := call_taken c |}
  | End | Failed _ => c
  end.

Definition gathered (c : UpstreamCall) (l : list StreamItem) : UpstreamCall := foldl gather_item c l.

Definition plain (l : list StreamItem) : Prop := existsb terminal l = false.

Section waiting.
Context `{RubyVM} `{!QuietLookup} (r : QRef).
Implicit Types s : Fiber UpstreamCall.

(** What an end of the waiting says of everything that was queued, [l]; [calm]: nobody
    interrupts, and no call fails. *)
Definition answer_ends (c : UpstreamCall) (l : list StreamItem) (o : Outcome RValue) (calm : Prop) : Prop :=
  match o with
  | Done v => exists l1 l2 h, l = (l1 ++ End :: l2)%list /\ plain l1 /\ call_head (gathered c l1) = Some h
      /\ rack_response h (call_body (gathered c l1)) = Ok v
  | Raised _ => calm -> exists l1 l2, l = (l1 ++ End :: l2)%list /\ plain l1
      /\ forall h, call_head (gathered c l1) = Some h -> is_err (rack_response h (call_body (gathered c l1))) = true
  | Waiting => True
  | Spinning => False
  end.

Lemma plain_app l1 l2 : plain (l1 ++ l2) <-> plain l1 /\ plain l2.
Proof. unfold plain. rewrite existsb_app. apply orb_false_iff. Qed.

Lemma answer_ends_after c l l' o P : plain l -> answer_ends (gathered c l) l' o P -> answer_ends c (l ++ l') o P.
Proof.
  intros Hl. unfold answer_ends, gathered. destruct o as [v|e| |]; try done.
  - intros (l1 & l2 & h & -> & H1 & H2 & H3). exists (l ++ l1)%list, l2, h. rewrite <- app_assoc, foldl_app.
    split_and!; try done. by apply plain_app.
  - intros Hc HP. destruct (Hc HP) as (l1 & l2 & -> & H1 & H2). exists (l ++ l1)%list, l2. rewrite <- app_assoc, foldl_app.
    split_and!; try done. by apply plain_app.
Qed.

Lemma gathered_kept c l : call_stream (gathered c l) = call_stream c /\ call_taken (gathered c l) = call_taken c.
Proof. unfold gathered. revert c. induction l as [|[] l IH]; intros c; cbn; try done; by rewrite !(proj1 (IH _)), !(proj2 (IH _)). Qed.

(** The queue after everything was taken. *)
Record drained (q q' : ResponseStream) : Prop := {
  dr_items : items q' = [];
  dr_cancelled : cancelled q' = cancelled q;
  dr_ended : ended q' = ended q;
  dr_paused : paused q' = paused q;
  dr_wf : stream_wf q -> stream_wf q' /\ buffered_bytes q' <= buffered_bytes q;
}.

Lemma drained_take q q1 q' i rest : take_next q = (Some i, q1) -> items q = i :: rest -> paused q = false ->
  drained q1 q' -> drained q q'.
Proof.
  intros Ht Hi Hp [D1 D2 D3 D4 D5]. pose proof (take_next_wf q) as Hwf. unfold take_next in *. rewrite Hp, Hi in *.
  injection Ht as <-. cbn [set_items cancelled ended paused buffered_bytes snd] in *. constructor; try done.
  intros Hw. destruct (D5 (Hwf Hw)) as [W1 W2]. split; [done|]. etransitivity; [exact W2|].
  destruct i; unfold saturating_sub; lia.
Qed.

(** Reading everything that is queued. *)
Lemma response_loop_spec fuel c w : call_stream c = r -> paused (get_queue w r) = false ->
  (length (items (get_queue w r)) < fuel)%nat ->
  let '((c', res), w') := response_loop fuel c w in
  let l := items (get_queue w r) in
  (plain l /\ res = Ok None /\ c' = gathered c l /\ drained (get_queue w r) (get_queue w' r))
  \/ exists l1 i l2, l = (l1 ++ i :: l2)%list /\ plain l1 /\ terminal i = true
     /\ match res with
        | Ok (Some v) => i = End /\ exists h, call_head (gathered c l1) = Some h
            /\ rack_response h (call_body (gathered c l1)) = Ok v
        | Ok None => False
        | Err _ => i = End -> forall h, call_head (gathered c l1) = Some h ->
            is_err (rack_response h (call_body (gathered c l1))) = true
        end.
Proof.
  revert c w. induction fuel as [|fuel IH]; intros c w Hc Hp Hf; [lia|]. cbn [response_loop]. rewrite Hc, bind_run, on_queue_fst.
  pose proof (get_on_queue r take_next w) as Hq1. set (w1 := (on_queue r take_next w).2) in *.
  destruct (take_next (get_queue w r)) as [o q1] eqn:Et. cbn [fst snd] in *. pose proof Et as Et'.
  unfold take_next in Et. rewrite Hp in Et. destruct (items (get_queue w r)) as [|i rest] eqn:Ei; injection Et as <- Eq.
  { cbn [st_ret]. left. split_and!; try done. rewrite Hq1, <- Eq. by constructor. }
  assert (items q1 = rest /\ paused q1 = false) as [I1 I2] by (by rewrite <- Eq).
  assert (forall c1, answer_item c i = inl c1 -> terminal i = false -> gather_item c i = c1 ->
    let '((c', res), w') := response_loop fuel c1 w1 in
    (plain (i :: rest) /\ res = Ok None /\ c' = gathered c (i :: rest) /\ drained (get_queue w r) (get_queue w' r))
    \/ exists l1 j l2, (i :: rest = l1 ++ j :: l2)%list /\ plain l1 /\ terminal j = true
     /\ match res with
        | Ok (Some v) => j = End /\ exists h, call_head (gathered c l1) = Some h
            /\ rack_response h (call_body (gathered c l1)) = Ok v
        | Ok None => False
        | Err _ => j = End -> forall h, call_head (gathered c l1) = Some h ->
            is_err (rack_response h (call_body (gathered c l1))) = true
        end) as Hgo.
  { intros c1 Ha Hi Hg. assert (call_stream c1 = r) as Hc1 by (by destruct i; cbn in Ha; simplify_eq/=).
    specialize (IH c1 w1 Hc1). rewrite Hq1, I1 in IH. specialize (IH I2). cbn [length] in Hf. specialize (IH ltac:(lia)).
    destruct (response_loop fuel c1 w1) as [[c' res] w']. destruct IH as [(H1 & H2 & H3 & H4)|(l1 & j & l2 & H1 & H2 & H3 & H4)].
    - left. split_and!; try done; [unfold plain in *; cbn; by rewrite Hi|unfold gathered in *; cbn; by rewrite Hg|].
      by eapply drained_take.
    - right. exists (i :: l1), j, l2. rewrite H1. unfold gathered, plain in *. cbn [foldl existsb]. rewrite Hg, Hi.
      by split_and!. }
  destruct i as [h|b| |e]; cbn [answer_item] in *; try (by apply Hgo).
  - destruct (call_head c) as [h|] eqn:Eh; rewrite bind_run; unfold pure.
    + cbn [st_ret fst snd]. right. exists [], End, rest. cbn [gathered foldl]. do 3 (split; [done|]).
      destruct (rack_response h (call_body c)) as [v|e] eqn:Er; cbn [result_bind].
      * split; [done|]. by exists h.
      * intros _ h'. rewrite Eh. intros [= <-]. by rewrite Er.
    + rewrite bind_run. cbn [fails st_ret fst snd]. right. exists [], End, rest. do 3 (split; [done|]). cbn. intros _ h'. by rewrite Eh.
  - rewrite !bind_run. cbn [fails st_ret fst snd]. right. exists [], (Failed e), rest. by split_and!.
Qed.

(** The state after the fiber read its queue empty. *)
Lemma drained_ready s w c : ready_as caller r s -> plain (items (q_of r s)) -> drained (q_of r s) (get_queue w r) ->
  ready_as caller r (with_object (with_store s w) c).
Proof.
  intros [R1 R2 R3 R4] Hl [D1 D2 D3 D4 D5]. destruct (D5 R1) as [W1 W2]. set (s' := with_object _ c).
  assert (q_of r s' = get_queue w r) as Hq by done. assert (coming s' = coming s) as Hc by done.
  constructor; rewrite ?Hq, ?Hc; try done; [lia|]. destruct R4 as [K1 K2 K3].
  constructor; rewrite ?D1, ?D2, ?D3, ?D4; try done. intros He. unfold plain in Hl. by rewrite K3 in Hl.
Qed.

Lemma arrived_caller s s' : onward_as caller r s s' ->
  exists new, arrived_at r s' = (arrived_at r s ++ new)%list /\ items (q_of r s') = (items (q_of r s) ++ new)%list.
Proof.
  intros Ho. pose proof (on_ready _ _ _ _ Ho) as [_ _ _ [_ Hc _]].
  destruct (on_logs _ _ _ _ Ho) as (new & out & A1 & A2 & A3 & A4). cbn in A4. subst out.
  exists new. split; [done|]. by apply (es_items _ _ _ _ A3).
Qed.

Lemma call_loop_spec fuel s : ready_as caller r s -> call_stream (object s) = r -> call_taken (object s) = false ->
  (length (coming s) < fuel)%nat ->
  let '(o, s') := call_loop fuel s in
  exists new, arrived_at r s' = (arrived_at r s ++ new)%list
  /\ answer_ends (object s) (items (q_of r s) ++ new) o (undisturbed r s)
  /\ (o = Waiting -> coming s' = [] /\ exists v, waiter (q_of r s') = Some v).
Proof.
  revert s. induction fuel as [|fuel IH]; intros s Hr Hc Ht Hf; [lia|]. cbn [call_loop]. rewrite fbind_run.
  unfold pending_response. pose proof (interfere_onward r s Hr) as Ho. pose proof (interfere_object s) as Hobj.
  pose proof (arrived_caller _ _ Ho) as (n1 & A1 & A2). set (s1 := interfere s) in *. clearbody s1.
  pose proof (on_ready _ _ _ _ Ho) as Hr1. pose proof Hr1 as [_ _ _ [P1 P2 _]].
  unfold call_response_. rewrite Hobj, Ht, bind_run. cbn [read fst snd]. rewrite Hc.
  change (get_queue (store s1) r) with (q_of r s1).
  pose proof (response_loop_spec (S (length (items (q_of r s1)))) (object s) (store s1) Hc P1 (Nat.lt_succ_diag_r _)) as Hl.
  destruct (response_loop _ (object s) (store s1)) as [[c' res] w']. change (get_queue (store s1) r) with (q_of r s1) in Hl.
  set (s2 := with_object (with_store s1 w') c').
  assert (arrived_at r s2 = (arrived_at r s ++ n1)%list) as A1' by exact A1.
  destruct Hl as [(L1 & -> & -> & L2)|(l1 & i & l2 & L1 & L2 & L3 & L4)].
  2: { destruct res as [[v|]|e]; [|done|]; exists n1; (split; [done|]); rewrite <- A2, L1; (split; [|done]).
       - destruct L4 as (-> & h & L4 & L5). by exists l1, l2, h.
       - intros Hu. cbn in Hu. pose proof (on_undisturbed _ _ _ _ Ho Hu) as [_ U2]. rewrite L1 in U2.
         apply Forall_app in U2 as [_ U2]. apply Forall_cons_1 in U2 as [U2 _].
         destruct i as [| | |e']; try discriminate L3; [|discriminate U2]. exists l1, l2. split_and!; try done. by apply L4. }
  pose proof (drained_ready s1 w' (gathered (object s) (items (q_of r s1))) Hr1 L1 L2) as Hr2. fold s2 in Hr2.
  set (c2 := gathered (object s) (items (q_of r s1))) in *.
  destruct (gathered_kept (object s) (items (q_of r s1))) as [G1 G2]. fold c2 in G1, G2.
  rewrite fbind_run. unfold park_call. rewrite fbind_run. cbn [obj].
  assert (call_stream (object s2) = r) as -> by (cbn; congruence).
  pose proof (park_on_onward r r (call_park (object s2)) (call_unpark (object s2)) s2 Hr2) as Hp.
  assert (call_stream (object s2) = r) as Hcs by (cbn; congruence).
  unfold call_park, call_unpark in *. rewrite Hcs in *.
  specialize (Hp (calm_park r r) (calm_unpark r r)).
  destruct (park_on r _ _ s2) as [o s3]. destruct Hp as (W1 & W2 & W3 & W4 & W5).
  { intros v w. rewrite on_queue_fst, get_on_queue. unfold park. by case_match. }
  assert (items (q_of r s2) = []) as Hi2 by apply L2.
  assert (undisturbed r s -> undisturbed r s2) as Hu2.
  { intros Hu. destruct (on_undisturbed _ _ _ _ Ho Hu) as [U1 U2]. constructor; [done|by rewrite Hi2]. }
  destruct (arrived_caller _ _ W1) as (n2 & B1 & B2). rewrite Hi2 in B2. cbn [app] in B2.
  destruct o as [[]|e| |]; try done.
  - assert (length (coming s3) < length (coming s))%nat as Hlt.
    { pose proof (on_events _ _ _ _ Ho). assert (coming s2 = coming s1) as E2 by done. rewrite E2 in W5.
      destruct (W5 eq_refl) as [Hlt|(v & w & Hpf & Hq)]; [lia|]. exfalso. rewrite on_queue_fst, Hq in Hpf.
      pose proof (rd_wf _ _ _ Hr2) as Hwf. unfold park in Hpf. rewrite (wf_buffered _ Hwf), Hi2 in Hpf. cbn in Hpf.
      pose proof (rd_role _ _ _ Hr2) as [_ Hcc He]. rewrite Hcc, orb_false_r in Hpf. destruct (ended (q_of r s2)); [|done].
      rewrite Hi2 in He. by specialize (He eq_refl). }
    specialize (IH s3 (on_ready _ _ _ _ W1)). rewrite (on_object _ _ _ _ W1) in IH. specialize (IH Hcs ltac:(cbn; congruence) ltac:(lia)).
    destruct (call_loop fuel s3) as [o s4]. destruct IH as (n3 & I1 & I2 & I3). exists (n1 ++ n2 ++ n3)%list.
    split_and!; [by rewrite I1, B1, A1', <- !app_assoc| |done].
    rewrite app_assoc, <- A2. apply answer_ends_after; [done|]. rewrite B2 in I2.
    destruct o as [v|e| |]; try done. cbn [answer_ends] in *. intros Hu. apply I2, W1, Hu2, Hu.
  - exists (n1 ++ n2)%list. split_and!; try done; [by rewrite B1, A1', app_assoc|].
    intros Hu. by destruct (W4 (Hu2 Hu) e).
  - exists (n1 ++ n2)%list. split_and!; [by rewrite B1, A1', app_assoc|done|by intros; apply W3].
Qed.

End waiting.

(** C26: a call that waits gives what the worker delivered.  However its items arrive, the
    answer is the last head and all the bytes that were queued before the end, as a Rack
    response; nothing else is ever answered.  It raises only when it is interrupted, when
    the call failed, or when the response ended without a head that Rack can be given; and
    it never loops for ever: either it ends or it waits with its place in the queue
    taken. *)
Theorem call_waits_for_answer `{RubyVM} `{!QuietLookup} (s : Fiber UpstreamCall) :
  let r := call_stream (object s) in
  object s = call_new r -> ready_as caller r s ->
  let '(o, s') := await_call s in
  exists new, arrived_at r s' = (arrived_at r s ++ new)%list
  /\ answer_ends (call_new r) (items (q_of r s) ++ new) o (undisturbed r s)
  /\ (o = Waiting -> coming s' = [] /\ exists v, waiter (q_of r s') = Some v).
Proof.
  intros r Hc Hr. pose proof (call_loop_spec r (S (length (coming s))) s Hr eq_refl) as Hl.
  unfold await_call. destruct (call_loop _ s) as [o s']. rewrite Hc in Hl. apply Hl; [done|lia].
Qed.

(** An answer that arrives in two deliveries, the fiber woken by the first. *)
#[local] Abbreviation sample_call := {|
  object := call_new (Direct 1);
  store := (new_queue 16 (world_new 1)).2;
  coming := [Others []; Others []; Others [];
             Others [(Direct 1, OpPush (Head {| status := 200; headers := [("x", "1")]%string; ruby_thread_object_id := 0 |}));
                     (Direct 1, OpPush (Chunk (into_bytes "he"))); (Direct 1, OpUnpark)];
             Others [(Direct 1, OpPush (Chunk (into_bytes "y"))); (Direct 1, OpPush End)]];
  arrived := []; departed := [] |}.

Lemma call_waits_for_answer_witness :
  let '(o, s') := await_call (H := example_ruby) sample_call in
  answer_ends (H := example_ruby) (call_new (Direct 1)) (arrived_at (Direct 1) s') o True
  /\ o = Done (RArray [RInt 200; RHash [("x"%string, str_new "1")]; RString (into_bytes "hey")]).
Proof.
  pose proof (call_waits_for_answer (H := example_ruby) sample_call eq_refl) as Ht.
  assert ((await_call (H := example_ruby) sample_call).1
    = Done (RArray [RInt 200; RHash [("x"%string, str_new "1")]; RString (into_bytes "hey")])) as He by (vm_compute; reflexivity).
  destruct (await_call sample_call) as [o s']. cbn [fst] in He. split; [|exact He].
  destruct Ht as (new & H1 & H2 & _).
  - constructor; cbn; try done. all: repeat constructor; try done. by intros [|? ?] ? ? [=].
  - change (arrived_at (Direct 1) s' = new) in H1. subst new. rewrite He in H2 |- *. exact H2.
Defined.
