(* ===== verification/UpstreamBodySpec.v ===== *)
(** * Streaming an exchange with an upstream

    The body of a streamed response yields what the upstream sent, in order and once; a
    quiet upstream is given up; and what an application sends goes up whole. *)

From S2P Require Import Prelude RustStr Types Stream StreamTrace Upstream World Ruby Chunks RubyExample Extensions Fibers FiberLogic RackInput RackInputSpec Duplex DuplexSpec DuplexRead UpstreamRb UpstreamRbSpec.

Local Open Scope N_scope.

(** ** Waiting on the upstream *)

Section awaiting.
Context `{RubyVM} `{!QuietLookup} (ch : UpstreamChannelObject) (idle_timeout : string).
Let c := reader_of ch.
Let r := ResponseOf (object_channel ch).

Lemma time_out_queue w r' : r' = ResponseOf (object_channel ch) \/ r' = RequestOf (object_channel ch) ->
  get_queue (channel_time_out ch w).2 r' = cancel (get_queue w r').
Proof. intros Hr. by apply (channel_given_up (object_channel ch)). Qed.

Lemma close_queue w r' : r' = ResponseOf (object_channel ch) \/ r' = RequestOf (object_channel ch) ->
  get_queue (channel_close ch w).2 r' = cancel (get_queue w r').
Proof. intros Hr. by apply (channel_given_up (object_channel ch)). Qed.

Lemma calm_time_out {O} : calm (role := reader) (O := O) r (channel_time_out ch).
Proof. apply calm_cancel; [done|]. intros w. apply time_out_queue. by left. Qed.

Lemma await_waits {O} (good : O -> Prop) : waits c good (await ch idle_timeout).
Proof.
  intros s Hs. unfold await, rescue. fold c. pose proof (park_waits c good s Hs) as Hp.
  destruct (park_source c s) as [o s1]. destruct Hp as (P1 & P2 & P3 & P4 & P5).
  destruct o as [a|e| |]; try done. destruct (is_class "Async::TimeoutError" e); cbn [default from_option id]; [|done].
  rewrite fbind_run, access_run. pose proof (access_onward r (channel_time_out ch) s1 (on_ready _ _ _ _ P1) calm_time_out) as Ho.
  rewrite access_run in Ho. cbn [snd] in Ho. cbn [raise st_ret]. split_and!; try done; [by eapply onward_trans|].
  intros Hu e' [= <-]. by apply (P4 Hu e).
Qed.

(** Silence past the idle timeout gives the exchange up, in both directions. *)
Lemma await_gives_up {O} (s s1 : Fiber O) e :
  park_source c s = (Raised e, s1) -> is_class "Async::TimeoutError" e = true ->
  let '(o, s') := await ch idle_timeout s in
  o = Raised (upstream_timeout idle_timeout)
  /\ cancelled (q_of r s') = true /\ cancelled (q_of (RequestOf (object_channel ch)) s') = true
  /\ timed_out (get_channel (store s') (object_channel ch)) = true
  /\ wants_reset (get_channel (store s') (object_channel ch)) = true.
Proof.
  intros Hp He. unfold await, rescue. fold c. rewrite Hp, He. cbn [default from_option id]. rewrite fbind_run, access_run.
  cbn [raise st_ret]. unfold q_of. cbn [store with_store]. rewrite !time_out_queue by auto. do 3 (split; [done|]).
  assert (forall n w, channels (wake_route n w).2 = channels w) as Hch.
  { intros n w. unfold wake_route, on_route. by destruct (routes w !! n). }
  unfold channel_time_out. rewrite bind_run. unfold get_channel. rewrite Hch. unfold on_channel, modify. cbn [snd set_channels channels].
  by rewrite lookup_insert_eq.
Qed.

(** An upgraded exchange reads as any duplex stream does. *)
Lemma upstream_stream_reads ops (s : Fiber Duplex) : dx_reading c s -> Forall sensible ops ->
  let '(reads, s') := dx_run c (await_input ch idle_timeout) ops s in
  conserves c (concat (map (fun read => handed_out (rd_outcome read)) reads)) s s'
  /\ Forall keeps_contract reads
  /\ Forall (fun read => quiet_waiting c (rd_outcome read) s') reads.
Proof. apply dx_run_spec, await_waits. Qed.

(** ** The body *)

Definition body_rest (b : UpstreamBody) := (ub_channel b, ub_upload b, ub_idle_timeout b, ub_closed b).
Definition body_fine (b b' : UpstreamBody) : Prop := body_rest b' = body_rest b.
Definition body_of (b : UpstreamBody) : Prop := ub_channel b = ch /\ ub_idle_timeout b = idle_timeout.

#[local] Instance body_fine_preorder : PreOrder body_fine.
Proof. split; [done|]. intros b1 b2 b3. unfold body_fine. congruence. Qed.

Lemma body_good b b' : body_of b -> body_fine b b' -> body_of b'.
Proof. unfold body_of, body_fine, body_rest. intros [<- <-] [=]. by split. Qed.

Lemma yield_keeps : keeps_chunk ub_yielded body_of body_fine yield_chunk.
Proof. intros b s Hg. eexists. by split. Qed.

(** [each] of a response that is still read. *)
Lemma each_spec (s : Fiber UpstreamBody) : reading c body_of s -> ub_finished (object s) = false ->
  let '(o, s') := each s in
  FiberLogic.went c ub_yielded body_fine s s' /\ o <> Spinning /\ quiet_waiting c o s' /\ no_raise c o s
  /\ (o = Done tt -> is_finished (q_of r s') = true /\ ub_finished (object s') = true).
Proof.
  intros Hs Hf. unfold each. rewrite fbind_run. cbn [obj]. rewrite Hf. destruct (rg_good _ _ _ Hs) as [-> ->]. fold c.
  set (block := fun _ : unit => _).
  pose proof (fill_from_spec c ub_yielded body_of body_fine body_good (fun _ => False) ltac:(done) (pull yield_chunk c)
    (await ch idle_timeout) block (fun _ _ => True)
    (fun _ s' => is_finished (q_of r s') = true /\ ub_finished (object s') = true) tt s
    (pull_drains c ub_yielded body_of body_fine body_good (fun _ => False) _ ltac:(by intros ? []) yield_keeps)
    (await_waits body_of)) as Hfill.
  destruct (fill_from c _ _ block tt s) as [o s']. destruct Hfill as (F1 & F2 & F3 & F4 & _ & F5); try done.
  2: { split_and!; try done. intros ->. by apply (F5 tt). }
  intros [] s1 Hs1 _. unfold block. rewrite fbind_run.
  pose proof (source_finished_spec (O := UpstreamBody) c s1 (rg_ready _ _ _ Hs1)) as Hsf.
  destruct (source_finished c s1) as [o1 s2]. destruct Hsf as (G1 & G2 & ->). rewrite fbind_run. cbn [change done st_ret].
  set (f := is_finished (q_of (source_queue c) s2)). set (s3 := with_object s2 _).
  assert (FiberLogic.went c ub_yielded body_fine s1 s3) as W.
  { apply (FiberLogic.went_trans c ub_yielded body_fine s1 s2 s3); [by apply onward_went; [apply _|apply Hs1|]|].
    apply went_object; [apply G1|done|done]. }
  assert (q_of (source_queue c) s3 = q_of (source_queue c) s2) as Hq by done.
  split; [done|]. split.
  { destruct G2 as [G2|G2]; [left|right; by rewrite Hq]. unfold left_to_do, takeable in *. exact G2. }
  assert (ub_finished (object s3) = f) as Hfin by done. assert (is_finished (q_of r s3) = f) as Hend by done.
  clearbody s3 f. destruct f; [by split|]. split_and!; [done|exact Hend|by intros []].
Qed.

End awaiting.

(** C23: the body of a streamed response is what the upstream sent.  However the worker's
    deliveries interleave with the block, [each] yields the bytes that were queued and
    those that arrive, in order and once; it returns only once the response is finished
    and all of it was yielded, or was cancelled; undisturbed it raises nothing; it never
    loops for ever, and while it waits it is parked. *)
Theorem upstream_body_in_order `{RubyVM} `{!QuietLookup} (s : Fiber UpstreamBody) :
  let ch := ub_channel (object s) in
  let r := ResponseOf (object_channel ch) in
  ready r s -> ub_finished (object s) = false ->
  let '(o, s') := each s in
  (exists new, arrived_at r s' = (arrived_at r s ++ new)%list
    /\ (ub_yielded (object s') ++ queued_bytes (items (q_of r s')))%list
       `prefix_of` (ub_yielded (object s) ++ queued_bytes (items (q_of r s)) ++ queued_bytes new)%list
    /\ (cancelled (q_of r s') = false ->
        (ub_yielded (object s') ++ queued_bytes (items (q_of r s'))
         = ub_yielded (object s) ++ queued_bytes (items (q_of r s)) ++ queued_bytes new)%list))
  /\ (o = Done tt -> ub_finished (object s') = true /\ settled (q_of r s') = true
      /\ queued_bytes (items (q_of r s')) = [])
  /\ (undisturbed r s -> forall e, o <> Raised e)
  /\ o <> Spinning
  /\ (o = Waiting -> coming s' = [] /\ exists v, waiter (q_of r s') = Some v).
Proof.
  intros ch r Hr Hf.
  pose proof (each_spec ch (ub_idle_timeout (object s)) s ltac:(by constructor) Hf) as He.
  destruct (each s) as [o s']. destruct He as (E1 & E2 & E3 & E4 & E5). split_and!; try done.
  - destruct (lt_arrived _ _ _ _ (wt_later _ _ _ _ _ E1)) as (new & A1 & _ & A2 & A3). by exists new.
  - intros Hd. destruct (E5 Hd) as [H1 H2]. split; [done|].
    destruct (finished_queue _ (rd_wf _ _ _ (wt_ready _ _ _ _ _ E1)) H1) as [H3 H4]. by split.
Qed.

(** C24: a failure that is missed.  When the upstream fails after [each] found nothing to
    yield and before it asks [finished?], the failure is not raised, now or later: [each]
    returns as at the end of a whole response, with the failure still queued, and the body
    counts as finished. *)
Theorem failure_ends_body `{RubyVM} ch idle_timeout (w : World) e evs :
  let r := ResponseOf (object_channel ch) in
  items (get_queue w r) = [] -> settled (get_queue w r) = false -> buffered_bytes (get_queue w r) = 0 ->
  let s := {| object := body_new ch None idle_timeout; store := w;
              coming := Others [] :: Others [(r, OpPush (Failed e))] :: evs; arrived := []; departed := [] |} in
  let '(o, s') := each s in
  o = Done tt /\ items (q_of r s') = [Failed e] /\ ub_finished (object s') = true.
Proof.
  intros r Hi Hs Hb s. unfold each. rewrite fbind_run. cbn [obj]. change (ub_finished (object s)) with false. cbn iota.
  change (ub_channel (object s)) with ch. unfold fill_from.
  match goal with |- context [fill_loop _ _ _ ?b _ _] => set (block := b) end. cbn [fill_loop].
  rewrite fbind_run. unfold pull. cbn [pull_loop]. rewrite fbind_run.
  destruct (source_next_idle (reader_of ch) s (Others [(r, OpPush (Failed e))] :: evs) eq_refl Hi) as (w' & -> & Hw).
  cbn [done st_ret]. set (s2 := with_store _ w').
  assert (q_of r s2 = get_queue w r) as Hq by exact Hw.
  destruct (failure_counts_as_end r s2 e evs eq_refl) as [F1 F2]; try (by rewrite Hq).
  rewrite fbind_run. unfold block. rewrite fbind_run, source_finished_run. change (source_queue (reader_of ch)) with r.
  rewrite F2, fbind_run. cbn [change done st_ret]. by split_and!.
Qed.

Lemma failure_ends_body_witness :
  let '(o, s') := each (H := example_ruby) {| object := body_new {| object_channel := 1; channel_route := 1 |} None "5";
    store := (new_channel 16 (world_new 1)).2;
    coming := [Others []; Others [(ResponseOf 1, OpPush (Failed RuntimeStopped))]]; arrived := []; departed := [] |} in
  o = Done tt /\ items (q_of (ResponseOf 1) s') = [Failed RuntimeStopped] /\ ub_finished (object s') = true.
Proof. apply (failure_ends_body (H := example_ruby) {| object_channel := 1; channel_route := 1 |} "5"); reflexivity. Defined.

(** A response that arrives in two pieces, the second with the end. *)
#[local] Abbreviation sample_channel := {| object_channel := 1; channel_route := 1 |}.
#[local] Abbreviation sample_body := {|
  object := body_new sample_channel None "5";
  store := (new_channel 16 (world_new 1)).2;
  coming := [Others [(ResponseOf 1, OpPush (Chunk (into_bytes "on")))]; Others []; Others []; Others []; Others [];
             Others [(ResponseOf 1, OpPush (Chunk (into_bytes "e"))); (ResponseOf 1, OpUnpark)];
             Others []; Others [(ResponseOf 1, OpPush End)]];
  arrived := []; departed := [] |}.

Lemma upstream_body_in_order_witness :
  let '(o, s') := each (H := example_ruby) sample_body in
  (cancelled (q_of (ResponseOf 1) s') = false ->
     (ub_yielded (object s') ++ queued_bytes (items (q_of (ResponseOf 1) s')))%list
     = queued_bytes (arrived_at (ResponseOf 1) s'))
  /\ o = Done tt /\ ub_yielded (object s') = into_bytes "one".
Proof.
  pose proof (upstream_body_in_order (H := example_ruby) sample_body) as Ht.
  assert (let '(o, s') := each (H := example_ruby) sample_body in o = Done tt /\ ub_yielded (object s') = into_bytes "one") as He
    by (vm_compute; by split).
  destruct (each sample_body) as [o s']. split; [|exact He]. cbv zeta in Ht. destruct Ht as [(new & H1 & _ & H2) _].
  - constructor; cbn; try done. all: repeat constructor; try done. by intros [|? ?] ? ? [=].
  - done.
  - change (arrived_at (ResponseOf 1) s' = new) in H1. subst new. exact H2.
Defined.

(** ** What goes up *)

Definition rest_bytes (rest : option Io) : bytes :=
  match rest with
  | Some io => concat (io_pieces io)
  | None => []
  end.

(** Reading ahead loses nothing: what was read and what is left are the whole. *)
Lemma preread_loop_whole bodies ends read_ first rest : preread_loop bodies ends read_ = Ok (first, rest) ->
  (default [] first ++ rest_bytes rest = read_ ++ concat bodies)%list
  /\ match rest with
     | Some io => io_ends io = ends /\ UPLOAD_BYTES < len (default [] first)
     | None => ends = None
     end.
Proof.
  revert read_. induction bodies as [|piece bodies IH]; intros read_; cbn [preread_loop concat];
    destruct (len read_ <=? UPLOAD_BYTES) eqn:El.
  2,4: intros [= <- <-]; cbn [rest_bytes default from_option id io_pieces io_ends concat]; split_and!; [done|done|lia].
  - destruct ends as [e|]; [done|]. intros [= <- <-]. rewrite !app_nil_r. split; [|done]. by case_bool_decide.
  - intros Hp. apply IH in Hp. by rewrite <- app_assoc in Hp.
Qed.

Definition body_whole (b : BodyArg) : bytes :=
  match b with
  | NoBody => []
  | StringBody b => b
  | IoBody io => concat (io_pieces io)
  end.

(** What a streamed call sends is its body; its length is given when none is left to
    read. *)
Lemma stream_request_whole ops cluster method_ path_ headers body_ protocol key fs has_body up :
  stream_request ops cluster method_ path_ headers body_ protocol key = Ok (fs, has_body, up) ->
  (default [] (fst <$> up) ++ rest_bytes (up ≫= snd) = body_whole body_)%list
  /\ (up = None -> body_whole body_ = [])
  /\ (has_body = true <-> is_Some protocol \/ is_Some up)
  /\ (forall b, up = Some (b, None) -> exists headers', fields ops cluster method_ path_ headers' (Some b) = Ok fs).
Proof.
  unfold stream_request. intros Hs. apply result_bind_ok in Hs as (headers' & Hh & Hs).
  apply result_bind_ok in Hs as ((first & rest) & Hb & Hs). apply result_bind_ok in Hs as (fs' & Hf & [= -> <- <-]).
  assert ((default [] first ++ rest_bytes rest = body_whole body_)%list
    /\ (first = None -> rest = None)) as [Hw Hn].
  { destruct body_ as [|b|io]; cbn [body_whole].
    - by injection Hb as <- <-.
    - injection Hb as <- <-. by rewrite app_nil_r.
    - pose proof Hb as Hp. unfold preread in Hp. apply preread_loop_whole in Hp as [Hp Hl]. split; [done|]. intros ->.
      destruct rest as [io'|]; [|done]. destruct Hl as [_ Hl]. by cbn in Hl. }
  destruct first as [b|]; cbn [fmap option_fmap option_map mbind option_bind fst snd default from_option id] in *.
  - split; [done|]. split; [done|]. split; [split; [by right|by destruct protocol]|].
    intros b' [= <- ->]. by exists headers'.
  - rewrite Hn in Hw by done. split; [done|]. split; [done|]. split; [|done].
    destruct protocol; split; try done; [by left|by intros [[]|[]]].
Qed.

Section uploading.
Context {O : Type} (ch : UpstreamChannelObject) (sink : StreamHandle).
Let r := stream sink.
Context (up : r = RequestOf (object_channel ch)).
Implicit Types s : Fiber O.

Lemma upload_rest_each bodies ends sent s :
  upload_rest (O := O) sink sent bodies ends s = if sent then each_write sink bodies ends s else (Done tt, s).
Proof.
  revert sent s. induction bodies as [|chunk bodies IH]; intros [|] s; try done. cbn [upload_rest each_write].
  rewrite !fbind_run. destruct (stream_write sink chunk s) as [[sent|e| |] s1]; try done. rewrite IH. by destruct sent.
Qed.

(** The fiber of an upload whose IO ends cleanly. *)
Lemma upload_spec read_ rest s : ready_as writer r s -> (forall io, rest = Some io -> io_ends io = None) ->
  let whole := (read_ ++ rest_bytes rest)%list in
  let '(o, s') := upload ch sink read_ rest s in
  match o with
  | Done _ => settled (q_of r s') = true /\ exists sent its last_, sent `prefix_of` whole /\ pieces its sent
      /\ wrote sink (its ++ last_) s s' /\ (last_ = [End] \/ last_ = [])
      /\ (sent = whole \/ exists s1, wrote sink its s s1 /\ settled (q_of r s1) = true)
  | Waiting => (coming s' = [] /\ exists v, waiter (q_of r s') = Some v)
      /\ exists sent its, sent `prefix_of` whole /\ pieces its sent /\ wrote sink its s s'
  | Raised e => ~ undisturbed r s /\ (is_standard e = true -> cancelled (q_of r s') = true)
  | Spinning => False
  end.
Proof.
  intros Hr Hends whole. unfold upload, rescue.
  set (bodies := match rest with Some io => io_pieces io | None => [] end).
  assert (forall s, (let! sent := stream_write sink read_ in
    do! (match rest with Some io => upload_rest sink sent (io_pieces io) (io_ends io) | None => done tt end) in sink_finish sink) s
    = (do! each_write sink (read_ :: bodies) None in sink_finish sink) s) as Heq.
  { intros s0. rewrite !fbind_run. cbn [each_write]. rewrite fbind_run.
    destruct (stream_write sink read_ s0) as [[sent|e| |] s1]; try done. rewrite fbind_run. destruct rest as [io|].
    - rewrite (Hends io eq_refl), upload_rest_each. by destruct sent.
    - by destruct sent. }
  assert (concat (read_ :: bodies) = whole) as Hwhole by (unfold whole, bodies; by destruct rest).
  rewrite Heq, fbind_run. clear Heq. pose proof (each_write_spec sink (read_ :: bodies) None s Hr) as Hw. fold r in Hw.
  destruct (each_write sink (read_ :: bodies) None s) as [o s1]. rewrite Hwhole in Hw.
  destruct Hw as (sent & its & W1 & W2 & W3 & W4 & W5 & W6 & W7). destruct o as [[]|e| |]; try done.
  - pose proof (sink_finish_spec sink s1 (wr_ready _ _ _ _ W3)) as Hf. destruct (sink_finish sink s1) as [o s2].
    destruct Hf as (-> & last_ & F1 & F2 & F3). split; [done|]. exists sent, its, last_.
    split_and!; try done; [by eapply wrote_trans|]. destruct (W5 eq_refl) as [Hs|[-> _]]; [right; by exists s1|by left].
  - assert (~ undisturbed r s) as Hu by (intros Hu; by destruct (W6 Hu e eq_refl)).
    destruct (is_standard e) eqn:Es; cbn [default from_option id raise st_ret]; [|by split; [|congruence]].
    rewrite fbind_run, access_run. cbn [raise st_ret]. split; [done|]. intros _. unfold q_of. cbn [store with_store].
    rewrite close_queue by (right; exact up). done.
  - split; [by apply W7|]. by exists sent, its.
Qed.

End uploading.

(** C25: what an application streams up arrives whole.  For a body that is a string or an
    IO, however its reads cut it, what [stream] read ahead and what is left are the body,
    and a body that is wholly read ahead goes with its length; the upload then queues, in
    order, a prefix of the body and nothing else before the end - all of it, unless the
    exchange was given up - while the worker takes and pauses as it likes; it never loops
    for ever, parks while it waits, and when it is interrupted gives the exchange up. *)
Theorem streamed_body_goes_up {O} ops cluster method_ path_ headers body_ protocol key fs has_body read_ rest
    (ch : UpstreamChannelObject) (sink : StreamHandle) (s : Fiber O) :
  stream_request ops cluster method_ path_ headers body_ protocol key = Ok (fs, has_body, Some (read_, rest)) ->
  (forall io, body_ = IoBody io -> io_ends io = None) ->
  stream sink = RequestOf (object_channel ch) -> ready_as writer (stream sink) s ->
  let r := stream sink in
  has_body = true
  /\ (rest = None -> exists headers', fields ops cluster method_ path_ headers' (Some (body_whole body_)) = Ok fs)
  /\ let '(o, s') := upload ch sink read_ rest s in
     match o with
     | Done _ => settled (q_of r s') = true /\ exists sent its last_, sent `prefix_of` body_whole body_ /\ pieces its sent
         /\ wrote sink (its ++ last_) s s' /\ (last_ = [End] \/ last_ = [])
         /\ (sent = body_whole body_ \/ exists s1, wrote sink its s s1 /\ settled (q_of r s1) = true)
     | Waiting => (coming s' = [] /\ exists v, waiter (q_of r s') = Some v)
         /\ exists sent its, sent `prefix_of` body_whole body_ /\ pieces its sent /\ wrote sink its s s'
     | Raised e => ~ undisturbed r s /\ (is_standard e = true -> cancelled (q_of r s') = true)
     | Spinning => False
     end.
Proof.
  intros Hs Hio Hup Hr r. pose proof (stream_request_whole _ _ _ _ _ _ _ _ _ _ _ Hs) as (W1 & W2 & W3 & W4).
  cbn [fmap option_fmap option_map mbind option_bind fst snd default from_option id] in *.
  split; [apply W3; right; by eexists|]. split.
  { intros ->. cbn [rest_bytes] in W1. rewrite app_nil_r in W1. rewrite <- W1. by apply W4. }
  rewrite <- W1. apply upload_spec; [done|done|]. intros io ->. unfold stream_request in Hs.
  apply result_bind_ok in Hs as (headers' & _ & Hs). apply result_bind_ok in Hs as ((first & rest) & Hb & Hs).
  apply result_bind_ok in Hs as (fs' & _ & [= _ _ Hu]). destruct body_ as [|b|io']; try (by injection Hb as <- <-).
  unfold preread in Hb. apply preread_loop_whole in Hb as [_ Hl]. destruct first as [b|]; [|done].
  cbn in Hu. injection Hu as _ ->. destruct Hl as [-> _]. by apply Hio.
Qed.

(** An IO that is read in three pieces, sent through a queue of two bytes. *)
#[local] Abbreviation sample_ops := {| downcase := lowercase; upcase := fun s => s; casecmp := fun a b => bool_decide (a = b); inspect := fun s => s |}.
#[local] Abbreviation sample_io := {| io_pieces := [into_bytes "he"; into_bytes "l"; into_bytes "lo"]; io_ends := None |}.
#[local] Abbreviation sample_writer := {| stream := RequestOf 1; waker := {| waker_filter := 0; waker_event := 1 |} |}.
#[local] Abbreviation sample_upload := {|
  object := tt;
  store := (new_channel 2 (world_new 1)).2;
  coming := [Others []; Others []; Others []; Others []; Others []; Others [(RequestOf 1, OpTake); (RequestOf 1, OpUnpark)];
             Others []; Others []; Others []; Others []; Others []; Others [(RequestOf 1, OpTake); (RequestOf 1, OpUnpark)]];
  arrived := []; departed := [] |}.

Lemma streamed_body_goes_up_witness :
  stream_request sample_ops "users" "POST" "/" [] (IoBody sample_io) None ""
    = Ok ([(":method", "POST"); (":path", "/"); ("content-length", "5"); ("host", "users")]%string, true,
          Some (into_bytes "hello", None))
  /\ let '(o, s') := upload sample_channel sample_writer (into_bytes "hello") None sample_upload in
     o = Done tt /\ settled (q_of (RequestOf 1) s') = true
     /\ (departed_at (RequestOf 1) s' ++ items (q_of (RequestOf 1) s'))%list
        = [Chunk (into_bytes "he"); Chunk (into_bytes "ll"); Chunk (into_bytes "o"); End].
Proof.
  assert (stream_request sample_ops "users" "POST" "/" [] (IoBody sample_io) None ""
    = Ok ([(":method", "POST"); (":path", "/"); ("content-length", "5"); ("host", "users")]%string, true,
          Some (into_bytes "hello", None))) as Hs by (vm_compute; reflexivity).
  split; [exact Hs|].
  assert (let '(o, s') := upload sample_channel sample_writer (into_bytes "hello") None sample_upload in
    o = Done tt /\ (departed_at (RequestOf 1) s' ++ items (q_of (RequestOf 1) s'))%list
          = [Chunk (into_bytes "he"); Chunk (into_bytes "ll"); Chunk (into_bytes "o"); End]) as He by (vm_compute; by split).
  destruct (streamed_body_goes_up _ _ _ _ _ _ _ _ _ _ _ _ sample_channel sample_writer sample_upload Hs) as (_ & _ & Ht).
  - by intros io [= <-].
  - done.
  - assert (q_of (stream sample_writer) sample_upload = stream_new 2) as Hq by (vm_compute; reflexivity).
    constructor; rewrite ?Hq; [by apply stream_new_wf|vm_compute; reflexivity|by repeat constructor|done].
  - destruct (upload _ _ _ _ _) as [o s']. destruct He as [-> He]. split; [done|]. split; [apply Ht|exact He].
Defined.
