(* ===== verification/Rack.v ===== *)
(** * Rack ([src/src/rack.rs])

    A request becomes a Rack environment, the application is called with it, and
    what it returns becomes a response: collected ([call], the serial runtime) or
    pushed head first into the stream the worker reads ([call_streaming]). *)

From S2P Require Import Prelude RustStr Types Stream Request World Ruby Chunks.
From Stdlib Require Import Strings.Ascii.

Local Open Scope N_scope.

Inductive Concurrency := Serial | Interleaved.

Definition multithread (c : Concurrency) : bool :=
  match c with
  | Interleaved => true
  | Serial => false
  end.

Record CallContext := {
  app : Value;
  string_io_class : Value;
  request_body_class : option Value;
  rack_errors : Value;
  body_reader : Value;
  ctx_thread_object_id : N;
  concurrency : Concurrency;
  extensions : bool;
}.

(** ** Environment keys *)

Definition INTERNED_KEYS : list string :=
  ["CONTENT_LENGTH"; "CONTENT_TYPE"; "HTTP_ACCEPT"; "HTTP_ACCEPT_ENCODING"; "HTTP_ACCEPT_LANGUAGE";
   "HTTP_AUTHORIZATION"; "HTTP_CACHE_CONTROL"; "HTTP_CONNECTION"; "HTTP_COOKIE"; "HTTP_HOST";
   "HTTP_IF_MODIFIED_SINCE"; "HTTP_IF_NONE_MATCH"; "HTTP_ORIGIN"; "HTTP_RANGE"; "HTTP_REFERER";
   "HTTP_USER_AGENT"; "HTTP_X_FORWARDED_FOR"; "HTTP_X_FORWARDED_PROTO"; "HTTP_X_REQUEST_ID";
   "PATH_INFO"; "QUERY_STRING"; "REMOTE_ADDR"; "REQUEST_METHOD"; "SCRIPT_NAME"; "SERVER_NAME";
   "SERVER_PORT"; "SERVER_PROTOCOL"; "rack.errors"; "rack.input"; "rack.multiprocess";
   "rack.multithread"; "rack.run_once"; "rack.url_scheme"; "ruvoy.context"; "ruvoy.force_gc";
   "ruvoy.upstream"]%string.

(** The table maps a key to an interned string of the same text. *)
Definition env_keys (key : string) : option string :=
  List.find (fun interned => bool_decide (interned = key)) INTERNED_KEYS.

(** Pseudo-headers have no Rack representation. *)
Definition env_header_key (name : string) : option string :=
  if starts_with_char ":"%char name then None
  else if eq_ignore_ascii_case name "content-type" then Some "CONTENT_TYPE"%string
  else if eq_ignore_ascii_case name "content-length" then Some "CONTENT_LENGTH"%string
  else Some ("HTTP_" ++ map_chars (fun c => if Ascii.eqb c "-"%char then "_"%char
                                            else to_ascii_uppercase c) name)%string.

(** ** Protocol upgrades *)

(** [split(',').map(trim).filter(non-empty)] over every header of that name. *)
Definition tokens (headers : list (string * bytes)) (wanted : string) : list string :=
  flat_map (fun '(_, value) =>
      List.filter (fun token => negb (is_empty token))
        (map trim (split ","%char (from_utf8_lossy value))))
    (List.filter (fun '(name, _) => eq_ignore_ascii_case name wanted) headers).

Definition upgrade_protocols (headers : list (string * bytes)) : option (list string) :=
  if negb (existsb (fun token => eq_ignore_ascii_case token "upgrade") (tokens headers "connection"))
  then None
  else match tokens headers "upgrade" with
       | [] => None
       | protocols => Some protocols
       end.

(** [headers.iter().position(..)] and [headers.remove(index)]: the value at the
    first header of that name, and the headers without it. *)
Fixpoint remove_header (name : string) (headers : list (string * string))
    : option (string * list (string * string)) :=
  match headers with
  | [] => None
  | (n, v) :: rest =>
      if bool_decide (n = name) then Some (v, rest)
      else '(found, rest) ← remove_header name rest; Some (found, (n, v) :: rest)
  end.

Definition upgrade_header (name : string) : bool :=
  eq_ignore_ascii_case name "upgrade" || eq_ignore_ascii_case name "connection".

(** The accepted protocol, and the headers left. *)
Definition accepted_protocol (headers : list (string * string)) (offered : option (list string))
    : result (option string * list (string * string)) BridgeError :=
  match remove_header "rack.protocol" headers with
  | None => Ok (None, headers)
  | Some (protocol, headers) =>
      if negb (match offered with
               | Some offered => existsb (fun candidate => bool_decide (candidate = protocol)) offered
               | None => false
               end)
      then Err (InvalidResponse
             ("rack.protocol " ++ debug_str protocol ++ " is not one the client offered")%string)
      else Ok (Some protocol, List.filter (fun '(name, _) => negb (upgrade_header name)) headers)
  end.

Definition upgraded (head : N) (headers : list (string * string)) (offered : option (list string))
    : result (N * list (string * string)) BridgeError :=
  let? r := accepted_protocol headers offered in
  match r with
  | (Some protocol, headers) =>
      Ok (101, (headers ++ [("upgrade"%string, protocol); ("connection", "upgrade")%string])%list)
  | (None, headers) => Ok (head, headers)
  end.

(** ** Stage timings *)

Record EnvBuild := {
  env : list (string * RValue);
  input : Value;
  protocols : option (list string);
  streaming_input_ : option Value;
  build_diagnostics : option RequestDiagnostics;
  runtime_queue_time : option Duration;
  rack_input_time : Duration;
}.

Definition stage_timing_headers (build : EnvBuild) (rack_call_time response_copy_time : Duration)
    : list (string * string) :=
  match build_diagnostics build with
  | None => []
  | Some d =>
      let ingress_time := match diag_submitted_at d with
                          | Some submitted_at => duration_since submitted_at (received_at d)
                          | None => 0
                          end in
      [("x-ruvoy-stage-timing", "1");
       ("x-ruvoy-stage-ingress-ns", show ingress_time);
       ("x-ruvoy-stage-body-copy-ns", show (body_copy_time d));
       ("x-ruvoy-stage-body-callbacks", show (body_callbacks d));
       ("x-ruvoy-stage-runtime-queue-ns", show (default 0 (runtime_queue_time build)));
       ("x-ruvoy-stage-rack-input-ns", show (rack_input_time build));
       ("x-ruvoy-stage-rack-call-ns", show rack_call_time);
       ("x-ruvoy-stage-response-copy-ns", show response_copy_time)]%string
  end.

Section rack.
Context `{RubyVM}.

(** ** The environment *)

Definition set (env : hash) (key : string) (value : RValue) : result hash BridgeError :=
  map_err (ruby_error ("setting " ++ key)%string)
    (match env_keys key with
     | Some interned => aset env interned value
     | None => aset env key value
     end).

(** [if let Some(x) = o { set(env, key, f(x))? }] *)
Definition set_some {A} (env : hash) (key : string) (f : A -> RValue) (o : option A)
    : result hash BridgeError :=
  match o with
  | Some a => set env key (f a)
  | None => Ok env
  end.

Fixpoint set_headers (env : hash) (headers : list (string * bytes)) : result hash BridgeError :=
  match headers with
  | [] => Ok env
  | (name, value) :: rest =>
      let? env := match env_header_key name with
                  | Some key => set env key (RString value)
                  | None => Ok env
                  end in
      set_headers env rest
  end.

Definition collected_input (ctx : CallContext) (body : bytes) : St World (result Value BridgeError) :=
  let?* input := mapping (ruby_error "creating rack.input StringIO")
                   (funcall (string_io_class ctx) "new" [RString body]) in
  let?* _ := mapping (ruby_error "setting rack.input binary mode") (funcall input "binmode" []) in
  ok input.

Definition streaming_input (ctx : CallContext) (handle : StreamHandle)
    : St World (result Value BridgeError) :=
  match request_body_class ctx with
  | None => fails (InvalidResponse "this runtime cannot serve a streaming request body")
  | Some cls =>
      mapping (ruby_error "creating rack.input") (funcall cls "new" [RSource handle])
  end.

(** Every key but [rack.input]: the request line, what Envoy says of the
    connection, the constants, the extensions, then the client's headers. *)
Definition env_of (ctx : CallContext) (r : Request) : result (hash * option (list string)) BridgeError :=
  let '(path_info, query_string) :=
    match split_once "?"%char (path r) with
    | Some p => p
    | None => (path r, ""%string)
    end in
  let m := metadata r in
  let? env := set [] "REQUEST_METHOD" (str_new (method r)) in
  let? env := set env "SCRIPT_NAME" (str_new "") in
  let? env := set env "PATH_INFO" (str_new path_info) in
  let? env := set env "QUERY_STRING" (str_new query_string) in
  let? env := set env "SERVER_NAME" (str_new (server_name m)) in
  let? env := set env "SERVER_PORT" (str_new (show (server_port m))) in
  let? env := set env "SERVER_PROTOCOL" (str_new (protocol m)) in
  let? env := set env "HTTP_HOST" (str_new (authority m)) in
  let? env := set_some env "REMOTE_ADDR" str_new (remote_addr m) in
  let? env := set env "rack.url_scheme" (str_new (scheme m)) in
  let? env := set env "rack.errors" (RObject (rack_errors ctx)) in
  let? env := set env "rack.multithread" (RBool (multithread (concurrency ctx))) in
  let? env := set env "rack.multiprocess" (RBool false) in
  let? env := set env "rack.run_once" (RBool false) in
  let? env := set env "ruvoy.force_gc" (RBool (force_gc r)) in
  let? env := set_some env "ruvoy.context" RContext (if extensions ctx then context r else None) in
  let? env := set_some env "ruvoy.upstream" RUpstream (if extensions ctx then upstreams r else None) in
  let protocols := if extensions ctx then upgrade_protocols (request_headers r) else None in
  let? env := set_some env "rack.protocol" (fun p => RArray (map str_new p)) protocols in
  let? env := set_headers env (request_headers r) in
  Ok (env, protocols).

Definition build_env (ctx : CallContext) (r : Request) : St World (result EnvBuild BridgeError) :=
  let* runtime_started_at := now in
  let queue_time :=
    match diagnostics r with
    | Some d => (fun submitted_at => duration_since runtime_started_at submitted_at) <$> diag_submitted_at d
    | None => None
    end in
  let?* (env, protocols) := pure (env_of ctx r) in
  let* rack_input_started_at := now in
  let?* (rack_input, closed_after) :=
    match body_stream r with
    | Some handle => let?* input := streaming_input ctx handle in ok (input, Some input)
    | None => let?* input := collected_input ctx (body r) in ok (input, None)
    end in
  let?* env := pure (set env "rack.input" (RObject rack_input)) in
  let* t := now in
  ok {| env := env; input := rack_input; protocols := protocols; streaming_input_ := closed_after;
        build_diagnostics := diagnostics r; runtime_queue_time := queue_time;
        rack_input_time := duration_since t rack_input_started_at |}.

(** ** The response *)

Record ResponseParts := {
  part_status : N;
  part_headers : list (string * string);
  part_body : Value;
}.

(** One pass of [headers.foreach]. *)
Definition copy_header (name value : Value) : St World (result (list (string * string)) MagnusError) :=
  let?* name := to_string name in
  let* many := read (is_array value) in
  if many
  then let?* values := to_strings value in ok (map (fun v => (name, v)) values)
  else let?* value := to_string value in ok [(name, value)].

Definition copy_headers (headers : Value) : St World (result (list (string * string)) BridgeError) :=
  let* pairs := read (hash_pairs headers) in
  mapping (ruby_error "copying response headers")
    (let?* copied := try_map (fun '(name, value) => copy_header name value) pairs in
     ok (concat copied)).

Definition u16_range_error (status : Z) : BridgeError :=
  InvalidResponse ("status " ++ show_Z status ++ " is outside the u16 range")%string.

Definition response_parts (rack_response : Value) : St World (result ResponseParts BridgeError) :=
  let* n := read (array_len rack_response) in
  if negb (n =? 3)
  then fails (InvalidResponse ("expected 3 entries, got " ++ show n)%string)
  else
    let?* status := mapping (ruby_error "converting response status") (entry_i64 rack_response 0) in
    let?* status := pure (ok_or (u16_try_from status) (u16_range_error status)) in
    let?* headers := mapping (ruby_error "converting response headers") (entry_hash rack_response 1) in
    let?* headers := copy_headers headers in
    let?* body := mapping (ruby_error "reading response body") (entry_value rack_response 2) in
    ok {| part_status := status; part_headers := headers; part_body := body |}.

(** [app.funcall::<_, _, RArray>("call", (env,))] *)
Definition call_app (ctx : CallContext) (build : EnvBuild) : St World (result Value BridgeError) :=
  mapping (ruby_error "calling app.call(env)")
    (let?* returned := funcall (app ctx) "call" [RHash (env build)] in to_array returned).

Definition call (ctx : CallContext) (r : Request) : St World (result Response BridgeError) :=
  let?* build := build_env ctx r in
  let* rack_call_started_at := now in
  let?* rack_response := call_app ctx build in
  let* t := now in
  let rack_call_time := duration_since t rack_call_started_at in
  let* response_copy_started_at := now in
  let?* parts := response_parts rack_response in
  let?* body := mapping (ruby_error "consuming response body")
    (let?* collected := funcall (body_reader ctx) "call" [RObject (part_body parts)] in
     to_rstring collected) in
  let* t := now in
  ok {| resp_status := part_status parts;
        resp_headers := part_headers parts
          ++ stage_timing_headers build rack_call_time (duration_since t response_copy_started_at);
        resp_body := body; resp_ruby_thread_object_id := ctx_thread_object_id ctx |}.

Definition respond (ctx : CallContext) (build : EnvBuild) (handle : StreamHandle) (sink : RValue)
    : St World (result unit BridgeError) :=
  let* rack_call_started_at := now in
  let?* rack_response := call_app ctx build in
  let* t := now in
  let rack_call_time := duration_since t rack_call_started_at in
  let?* parts := response_parts rack_response in
  let?* (status, headers) := pure (upgraded (part_status parts) (part_headers parts) (protocols build)) in
  let head := {| status := status; headers := headers ++ stage_timing_headers build rack_call_time 0;
                 ruby_thread_object_id := ctx_thread_object_id ctx |} in
  let* pushed := on_queue (stream handle) (push_head head) in
  if negb pushed then ok tt
  else
    do* wake_handle handle in
    let?* _ := mapping (ruby_error "streaming response body")
      (funcall (body_reader ctx) "call" [RObject (part_body parts); sink; RObject (input build)]) in
    do* on_queue (stream handle) push_end in
    do* wake_handle handle in
    ok tt.

Definition call_streaming (ctx : CallContext) (r : Request) (handle : StreamHandle) (sink : RValue)
    : St World (result unit BridgeError) :=
  let?* build := build_env ctx r in
  let* res := respond ctx build handle sink in
  do* match streaming_input_ build with
      | Some input => let* _ := funcall input "close" [] in st_ret tt
      | None => st_ret tt
      end in
  st_ret res.

End rack.
