(* ===== verification/RackEnv.v ===== *)
(** * What the application is told, and what it may answer

    The Rack environment as a table: what Envoy says of the request cannot be
    overridden by the client's headers, and every header is found under its key.
    And the answer to an upgrade: accepted only when the client offered it. *)

From S2P Require Import Prelude RustStr Types Stream Request World Ruby Chunks RubyExample Rack.
From Stdlib Require Import Strings.Ascii.

Local Open Scope N_scope.

(** ** The environment as a table *)

Definition optional {A} (key : string) (f : A -> RValue) (o : option A) : list (string * RValue) :=
  match o with
  | Some a => [(key, f a)]
  | None => []
  end.

Definition path_parts (p : string) : string * string :=
  match split_once "?"%char p with
  | Some q => q
  | None => (p, ""%string)
  end.

Definition offered_protocols (ctx : CallContext) (r : Request) : option (list string) :=
  if extensions ctx then upgrade_protocols (request_headers r) else None.

(** What the runtime says of a request, whatever headers came with it. *)
Definition rack_base (ctx : CallContext) (r : Request) : list (string * RValue) :=
  let m := metadata r in
  ([("REQUEST_METHOD", str_new (method r)); ("SCRIPT_NAME", str_new "");
    ("PATH_INFO", str_new (path_parts (path r)).1); ("QUERY_STRING", str_new (path_parts (path r)).2);
    ("SERVER_NAME", str_new (server_name m)); ("SERVER_PORT", str_new (show (server_port m)));
    ("SERVER_PROTOCOL", str_new (protocol m)); ("HTTP_HOST", str_new (authority m))]
   ++ optional "REMOTE_ADDR" str_new (remote_addr m)
   ++ [("rack.url_scheme", str_new (scheme m)); ("rack.errors", RObject (rack_errors ctx));
       ("rack.multithread", RBool (multithread (concurrency ctx))); ("rack.multiprocess", RBool false);
       ("rack.run_once", RBool false); ("ruvoy.force_gc", RBool (force_gc r))]
   ++ optional "ruvoy.context" RContext (if extensions ctx then context r else None)
   ++ optional "ruvoy.upstream" RUpstream (if extensions ctx then upstreams r else None)
   ++ optional "rack.protocol" (fun p => RArray (map str_new p)) (offered_protocols ctx r))%list%string.

(** The last header that maps to [key]. *)
Definition client_value (key : string) (headers : list (string * bytes)) : option bytes :=
  foldl (fun found '(name, value) =>
    if bool_decide (env_header_key name = Some key) then Some value else found) None headers.

Definition put_all (env : list (string * RValue)) (l : list (string * RValue)) : list (string * RValue) :=
  foldl (fun env '(key, value) => pairs_set env key value) env l.

Lemma get_put_all l env key :
  NoDup (l.*1) ->
  pairs_get (put_all env l) key = match pairs_get l key with Some v => Some v | None => pairs_get env key end.
Proof.
  revert env. induction l as [|[k v] l IH]; intros env Hn; [done|].
  cbn [put_all foldl fmap list_fmap fst] in *. apply list.NoDup_cons in Hn as [Hk Hn].
  change (foldl _ (pairs_set env k v) l) with (put_all (pairs_set env k v) l). rewrite IH by done.
  rewrite pairs_get_set. unfold pairs_get. cbn [List.find]. destruct (decide (k = key)) as [->|Hne].
  - rewrite bool_decide_true by done. cbn. destruct (List.find _ l) as [[k' v']|] eqn:E; [|done].
    exfalso. apply List.find_some in E as [Hin Hb]. apply bool_decide_eq_true in Hb. subst k'. apply Hk.
    apply list_elem_of_fmap. exists (key, v'). split; [done|]. by apply list_elem_of_In.
  - by rewrite (bool_decide_false (k = key)), (bool_decide_false (key = k)) by congruence.
Qed.

Lemma pairs_get_in (l : list (string * RValue)) key v :
  NoDup (l.*1) -> In (key, v) l -> pairs_get l key = Some v.
Proof.
  unfold pairs_get. induction l as [|[k x] l IH]; intros Hn Hin; [done|]. cbn [List.find fmap list_fmap fst] in *.
  apply list.NoDup_cons in Hn as [Hk Hn]. destruct Hin as [[= -> ->]|Hin].
  - by rewrite bool_decide_true.
  - rewrite bool_decide_false; [by apply IH|]. intros ->. apply Hk. apply list_elem_of_fmap.
    exists (key, v). split; [done|]. by apply list_elem_of_In.
Qed.

Lemma pairs_get_absent {A} (l : list (string * A)) key : key ∉ l.*1 -> pairs_get l key = None.
Proof.
  unfold pairs_get. induction l as [|[k x] l IH]; intros Hin; [done|]. cbn [List.find fmap list_fmap fst] in *.
  apply list.not_elem_of_cons in Hin as [Hne Hin]. rewrite bool_decide_false by congruence. by apply IH.
Qed.

Section env.
Context `{RubyVM}.

Lemma set_ok env key v env' : set env key v = Ok env' -> env' = pairs_set env key v.
Proof.
  unfold set, env_keys. intros Hs.
  destruct (List.find _ INTERNED_KEYS) as [interned|] eqn:E.
  - apply List.find_some in E as [_ E]. apply bool_decide_eq_true in E. subst interned.
    destruct (aset env key v) eqn:Ea; [|done]. injection Hs as <-. by apply aset_ok in Ea.
  - destruct (aset env key v) eqn:Ea; [|done]. injection Hs as <-. by apply aset_ok in Ea.
Qed.

Lemma set_some_ok {A} env key (f : A -> RValue) o env' :
  set_some env key f o = Ok env' -> env' = put_all env (optional key f o).
Proof. destruct o; cbn; [apply set_ok | by intros [= <-]]. Qed.

Lemma client_value_from key (headers : list (string * bytes)) (v : bytes) :
  exists v', foldl (fun found '(name, value) =>
    if bool_decide (env_header_key name = Some key) then Some value else found) (Some v) headers = Some v'.
Proof.
  revert v. induction headers as [|[name x] rest IH]; intros v; cbn; [by exists v|].
  destruct (bool_decide (env_header_key name = Some key)); apply IH.
Qed.

Lemma set_headers_ok headers env env' :
  set_headers env headers = Ok env' ->
  forall key, pairs_get env' key
    = match client_value key headers with Some v => Some (RString v) | None => pairs_get env key end.
Proof.
  intros Hs key. unfold client_value.
  cut (forall found, (if found is Some v then pairs_get env key = Some (RString v) else True) ->
    pairs_get env' key = match foldl (fun found '(name, value) =>
      if bool_decide (env_header_key name = Some key) then Some value else found) found headers with
    | Some v => Some (RString v) | None => pairs_get env key end).
  { intros Hc. by apply (Hc None). }
  revert env Hs. induction headers as [|[name v] rest IH]; intros env Hs found Hf; cbn in *.
  { injection Hs as ->. by destruct found. }
  apply result_bind_ok in Hs as (env1 & H1 & Hs).
  specialize (IH env1 Hs (if bool_decide (env_header_key name = Some key) then Some v else found)).
  destruct (env_header_key name) as [k|]; cbn in *.
  - apply set_ok in H1 as ->. rewrite pairs_get_set in IH. case_bool_decide as Hk.
    + injection Hk as ->. rewrite bool_decide_true in IH by done. rewrite IH by done.
      by destruct (client_value_from key rest v) as [v' ->].
    + rewrite bool_decide_false in IH by congruence. by apply IH.
  - injection H1 as ->. rewrite bool_decide_false in * by done. by apply IH.
Qed.

(** ** Keys *)

(** A client's header never maps to a key without one of these shapes. *)
Definition header_key (key : string) : bool :=
  bool_decide (key = "CONTENT_TYPE"%string) || bool_decide (key = "CONTENT_LENGTH"%string)
  || starts_with "HTTP_" key.

Lemma env_header_key_shape name key : env_header_key name = Some key -> header_key key = true.
Proof.
  unfold env_header_key. destruct (starts_with_char _ name); [done|].
  destruct (eq_ignore_ascii_case name "content-type"); [by intros [= <-]|].
  destruct (eq_ignore_ascii_case name "content-length"); [by intros [= <-]|]. by intros [= <-].
Qed.

Lemma client_value_shape key headers : header_key key = false -> client_value key headers = None.
Proof.
  intros Hk. unfold client_value. induction headers as [|[name v] rest IH]; cbn; [done|].
  rewrite bool_decide_false; [done|]. intros E. apply env_header_key_shape in E. congruence.
Qed.

Definition base_keys : list string :=
  ["REQUEST_METHOD"; "SCRIPT_NAME"; "PATH_INFO"; "QUERY_STRING"; "SERVER_NAME"; "SERVER_PORT";
   "SERVER_PROTOCOL"; "HTTP_HOST"; "REMOTE_ADDR"; "rack.url_scheme"; "rack.errors"; "rack.multithread";
   "rack.multiprocess"; "rack.run_once"; "ruvoy.force_gc"; "ruvoy.context"; "ruvoy.upstream";
   "rack.protocol"]%string.

Lemma rack_base_sublist ctx r : sublist ((rack_base ctx r).*1) base_keys.
Proof.
  unfold rack_base, optional, base_keys.
  destruct (remote_addr (metadata r)), (if extensions ctx then context r else None),
    (if extensions ctx then upstreams r else None), (offered_protocols ctx r); cbn [app fmap list_fmap fst];
    repeat first [apply sublist_skip | apply sublist_cons | apply sublist_nil].
Qed.

Lemma rack_base_nodup ctx r : NoDup ((rack_base ctx r).*1).
Proof.
  eapply sublist_NoDup; [|apply rack_base_sublist]. apply (bool_decide_unpack _). vm_compute. exact I.
Qed.

Lemma rack_base_reserved ctx r key :
  key ∈ (rack_base ctx r).*1 -> key <> "HTTP_HOST"%string -> header_key key = false.
Proof.
  intros Hin Hne. eapply list.elem_of_sublist in Hin; [|apply rack_base_sublist].
  revert Hne. pattern key. revert key Hin. apply (proj1 (list.Forall_forall _ _)).
  unfold base_keys. repeat constructor; done.
Qed.

Lemma rack_base_input ctx r key : key ∈ (rack_base ctx r).*1 -> key <> "rack.input"%string.
Proof.
  intros Hin ->. eapply list.elem_of_sublist in Hin; [|apply rack_base_sublist].
  revert Hin. apply (bool_decide_unpack _). vm_compute. exact I.
Qed.

Lemma put_all_app env l k : put_all env (l ++ k) = put_all (put_all env l) k.
Proof. apply foldl_app. Qed.

(** [build_env] adds [rack.input] to what [env_of] makes. *)
Lemma build_env_ok ctx r w w' b :
  build_env ctx r w = (Ok b, w') ->
  exists env, env_of ctx r = Ok (env, protocols b)
    /\ Rack.env b = pairs_set env "rack.input" (RObject (input b))
    /\ build_diagnostics b = diagnostics r.
Proof.
  unfold build_env, st_bind at 1. destruct (now w) as [t0 w0]. intros Hb.
  apply tries_ok in Hb as ([env p] & w1 & He & Hb). unfold pure, st_ret in He. injection He as He <-.
  unfold st_bind at 1 in Hb. destruct (now w0) as [t1 w2].
  apply tries_ok in Hb as ([inp closed] & w3 & _ & Hb).
  apply tries_ok in Hb as (env' & w4 & Hs & Hb). unfold pure, st_ret in Hs. injection Hs as Hs <-.
  unfold st_bind in Hb. destruct (now w3) as [t2 w5]. injection Hb as <- _. cbn.
  exists env. split_and!; [done | by apply set_ok | done].
Qed.

Lemma env_of_ok ctx r env p :
  env_of ctx r = Ok (env, p) ->
  p = offered_protocols ctx r
  /\ set_headers (put_all [] (rack_base ctx r)) (request_headers r) = Ok env.
Proof.
  unfold env_of. fold (path_parts (path r)). destruct (path_parts (path r)) as [pi qs] eqn:Ep.
  intros He. repeat (apply result_bind_ok in He as (? & Hs & He);
    first [apply set_ok in Hs | apply set_some_ok in Hs | idtac]; try subst).
  injection He as <- <-. split; [done|].
  unfold rack_base. rewrite Ep, !put_all_app. exact Hs.
Qed.

(** C17: the environment says of the connection what Envoy said, whatever headers the
    client sent: only [HTTP_HOST] can be replaced.  Every other key is absent unless
    a header maps to it, and a header repeated is found with its last value. *)
Theorem env_protects ctx r (w w' : World) b :
  build_env ctx r w = (Ok b, w') ->
  (forall key value, In (key, value) (rack_base ctx r) -> key <> "HTTP_HOST"%string ->
     pairs_get (Rack.env b) key = Some value)
  /\ pairs_get (Rack.env b) "HTTP_HOST"
     = Some (RString (default (into_bytes (authority (metadata r)))
                        (client_value "HTTP_HOST" (request_headers r))))
  /\ (forall key, key ∉ (rack_base ctx r).*1 -> key <> "rack.input"%string ->
     pairs_get (Rack.env b) key = RString <$> client_value key (request_headers r))
  /\ pairs_get (Rack.env b) "rack.input" = Some (RObject (input b))
  /\ protocols b = offered_protocols ctx r.
Proof.
  intros Hb. apply build_env_ok in Hb as (env & He & Henv & _).
  apply env_of_ok in He as [Hp Hs]. rewrite Henv. pose proof (set_headers_ok _ _ _ Hs) as Hget.
  assert (Hbase : forall key, pairs_get (put_all [] (rack_base ctx r)) key = pairs_get (rack_base ctx r) key).
  { intros key. rewrite get_put_all by apply rack_base_nodup. by destruct (pairs_get _ key). }
  split_and!; [intros key value Hin Hne | | intros key Hkey Hne | |exact Hp].
  - assert (Hk : key ∈ (rack_base ctx r).*1)
      by (apply list_elem_of_fmap; exists (key, value); split; [done | by apply list_elem_of_In]).
    rewrite pairs_get_set, bool_decide_false by (by eapply rack_base_input).
    rewrite Hget, client_value_shape by (by eapply rack_base_reserved).
    rewrite Hbase. by apply pairs_get_in; [apply rack_base_nodup|].
  - rewrite pairs_get_set, bool_decide_false, Hget, Hbase by done.
    assert (Hh : pairs_get (rack_base ctx r) "HTTP_HOST" = Some (str_new (authority (metadata r)))).
    { apply pairs_get_in; [apply rack_base_nodup|]. unfold rack_base. do 7 right. by left. }
    rewrite Hh. by destruct (client_value _ _).
  - rewrite pairs_get_set, bool_decide_false, Hget, Hbase by done.
    rewrite (pairs_get_absent _ _ Hkey). by destruct (client_value key _).
  - by rewrite pairs_get_set, bool_decide_true.
Qed.
End env.

(** A client that sends [remote-addr] and [request-method] headers of its own. *)
Definition context_example : CallContext :=
  {| app := 1; string_io_class := 2; request_body_class := None; rack_errors := 3; body_reader := 4;
     ctx_thread_object_id := 5; concurrency := Interleaved; extensions := true |}.

Definition spoofing : Request :=
  with_header (with_header (Request_new "GET" "/a?b=c" []) "Request-Method" (into_bytes "POST"))
    "remote-addr" (into_bytes "10.0.0.1").

Lemma env_protects_witness : exists b w',
  build_env context_example spoofing (world_new 1) = (Ok b, w')
  /\ pairs_get (Rack.env b) "REQUEST_METHOD" = Some (str_new "GET")
  /\ pairs_get (Rack.env b) "REMOTE_ADDR" = None
  /\ pairs_get (Rack.env b) "HTTP_REMOTE_ADDR" = Some (RString (into_bytes "10.0.0.1")).
Proof.
  destruct (build_env context_example spoofing (world_new 1)) as [[b|e] w'] eqn:E; [|discriminate E].
  destruct (env_protects _ _ _ _ _ E) as (H1 & _ & H3 & _). exists b, w'. split_and!.
  - reflexivity.
  - apply H1; [by left | discriminate].
  - rewrite H3; [reflexivity | apply (bool_decide_unpack _); vm_compute; exact I | discriminate].
  - rewrite H3; [reflexivity | apply (bool_decide_unpack _); vm_compute; exact I | discriminate].
Defined.

(** ** Upgrades *)

Lemma remove_header_some name headers v rest :
  remove_header name headers = Some (v, rest) ->
  exists l1 l2, headers = (l1 ++ (name, v) :: l2)%list /\ rest = (l1 ++ l2)%list.
Proof.
  revert rest. induction headers as [|[n x] headers IH]; intros rest Hr; cbn in Hr; [done|].
  case_bool_decide as Hn.
  - injection Hr as -> ->. subst n. by exists [], rest.
  - destruct (remove_header name headers) as [[v' rest']|]; [|done]. cbn in Hr. injection Hr as -> <-.
    destruct (IH rest' eq_refl) as (l1 & l2 & -> & ->). by exists ((n, x) :: l1), l2.
Qed.

Lemma remove_header_none name headers :
  remove_header name headers = None -> forall v, ~ In (name, v) headers.
Proof.
  induction headers as [|[n x] headers IH]; intros Hr v Hin; cbn in *; [done|].
  case_bool_decide as Hn; [done|]. destruct (remove_header name headers) as [[]|]; [done|].
  destruct Hin as [[= -> ->]|Hin]; [done | by eapply IH].
Qed.

Definition asked_to_upgrade (headers : list (string * bytes)) : Prop :=
  exists token, In token (tokens headers "connection") /\ eq_ignore_ascii_case token "upgrade" = true.

Lemma upgrade_protocols_some headers p l :
  upgrade_protocols headers = Some l -> In p l ->
  asked_to_upgrade headers /\ In p (tokens headers "upgrade").
Proof.
  unfold upgrade_protocols. destruct (existsb _ _) eqn:E; [|done]. cbn [negb].
  apply existsb_exists in E as (token & Hin & Ht). intros Hl Hp. split; [by exists token|].
  destruct (tokens headers "upgrade"); [done|]. by injection Hl as <-.
Qed.

(** C18: the connection is switched to another protocol only when the client asked to
    upgrade and offered that protocol and the application named it; the head then
    carries exactly the two upgrade headers that go with it, in place of any the
    application set.  Otherwise status and headers are the application's own. *)
Theorem upgrade_offered ctx r st hs st' hs' :
  upgraded st hs (offered_protocols ctx r) = Ok (st', hs') ->
  (st' = st /\ hs' = hs /\ forall v, ~ In ("rack.protocol"%string, v) hs)
  \/ exists p l1 l2,
       hs = (l1 ++ ("rack.protocol"%string, p) :: l2)%list
       /\ asked_to_upgrade (request_headers r) /\ In p (tokens (request_headers r) "upgrade")
       /\ st' = 101
       /\ hs' = (List.filter (fun '(name, _) => negb (upgrade_header name)) (l1 ++ l2)
                 ++ [("upgrade", p); ("connection", "upgrade")])%list%string.
Proof.
  unfold upgraded, accepted_protocol. intros Hu.
  destruct (remove_header "rack.protocol" hs) as [[p rest]|] eqn:Er.
  - right. apply remove_header_some in Er as (l1 & l2 & -> & ->).
    destruct (offered_protocols ctx r) as [l|] eqn:Eo; [|done].
    destruct (existsb _ l) eqn:Ee; cbn in Hu; [|done]. injection Hu as <- <-.
    apply existsb_exists in Ee as (q & Hin & Hq). apply bool_decide_eq_true in Hq. subst q.
    unfold offered_protocols in Eo. destruct (extensions ctx); [|done].
    destruct (upgrade_protocols_some _ _ _ Eo Hin) as [H1 H2]. by exists p, l1, l2.
  - left. cbn in Hu. injection Hu as <- <-. split_and!; try done. by apply remove_header_none.
Qed.

Definition upgrading : Request :=
  with_header (with_header (Request_new "GET" "/ws" []) "connection" (into_bytes "keep-alive, Upgrade"))
    "upgrade" (into_bytes "h2c, websocket").

Lemma upgrade_offered_witness :
  asked_to_upgrade (request_headers upgrading) /\ In "websocket"%string (tokens (request_headers upgrading) "upgrade").
Proof.
  destruct (upgrade_offered context_example upgrading 200 [("rack.protocol", "websocket"); ("Upgrade", "h2c")]%string
    101 [("upgrade", "websocket"); ("connection", "upgrade")]%string eq_refl) as [(E & _)|(p & l1 & l2 & E & H1 & H2 & _)].
  - discriminate E.
  - split; [exact H1|]. vm_compute. right. left. reflexivity.
Defined.
