(* ===== verification/Fiber.v ===== *)
(** * The Ruby thread's side of the fiber runtime ([src/src/fiber.rs])

    [FiberBridge] is what the reactor (in Ruby) calls: [drain] once per pass, then
    [execute] in a fiber of its own for each call drained.  Envelopes are Ruby
    objects with interior state, named by reference.  A runtime whose application
    failed to load answers everything with that failure instead. *)

From S2P Require Import Prelude RustStr Types Budget Stream Upstream Wake Request World Client Ruby Chunks Rack.

Local Open Scope N_scope.

Definition DEFAULT_MAX_INFLIGHT_REQUESTS : N := 1024.

(** ** Objects of the Ruby thread *)

(** [env_stream] is kept past the call: a fiber may still be asked whether its client
    has gone. *)
Record FiberEnvelope := { env_stream : QRef; env_call : option FiberCall }.

Record AdminEnvelope := { env_request : AdminRequest; env_reply : option N }.

(** What is sent on a reply channel. *)
Inductive Answer :=
| Answered (reply : N) (status : N) (body : string)
| Stopped (reply : N).

(** The receiver of commands, the wake reader and the owed wakeups, which a bridge
    shares with the clients, are the store's; [answers] logs what was sent on reply
    channels. *)
Record FiberBridge := {
  shutdown_reply : option N;
  thread_object_id : N;
  heartbeat : ReactorHeartbeat;
  body_class : Value;
  fiber_envelopes : gmap N FiberEnvelope;
  admin_envelopes : gmap N AdminEnvelope;
  answers : list Answer;
}.

Definition set_shutdown_reply (b : FiberBridge) r : FiberBridge :=
  {| shutdown_reply := r; thread_object_id := thread_object_id b; heartbeat := heartbeat b;
     body_class := body_class b; fiber_envelopes := fiber_envelopes b;
     admin_envelopes := admin_envelopes b; answers := answers b |}.
Definition set_heartbeat (b : FiberBridge) h : FiberBridge :=
  {| shutdown_reply := shutdown_reply b; thread_object_id := thread_object_id b; heartbeat := h;
     body_class := body_class b; fiber_envelopes := fiber_envelopes b;
     admin_envelopes := admin_envelopes b; answers := answers b |}.
Definition set_fiber_envelopes (b : FiberBridge) e : FiberBridge :=
  {| shutdown_reply := shutdown_reply b; thread_object_id := thread_object_id b;
     heartbeat := heartbeat b; body_class := body_class b; fiber_envelopes := e;
     admin_envelopes := admin_envelopes b; answers := answers b |}.
Definition set_admin_envelopes (b : FiberBridge) e : FiberBridge :=
  {| shutdown_reply := shutdown_reply b; thread_object_id := thread_object_id b;
     heartbeat := heartbeat b; body_class := body_class b; fiber_envelopes := fiber_envelopes b;
     admin_envelopes := e; answers := answers b |}.
Definition set_answers (b : FiberBridge) a : FiberBridge :=
  {| shutdown_reply := shutdown_reply b; thread_object_id := thread_object_id b;
     heartbeat := heartbeat b; body_class := body_class b; fiber_envelopes := fiber_envelopes b;
     admin_envelopes := admin_envelopes b; answers := a |}.

(** The Ruby thread: its bridge and the store. *)
Record Reactor := { bridge : FiberBridge; shared : World }.

Definition in_bridge {A} (m : St FiberBridge A) : St Reactor A := fun r =>
  let '(a, b) := m (bridge r) in (a, {| bridge := b; shared := shared r |}).
Definition in_shared {A} (m : St World A) : St Reactor A := fun r =>
  let '(a, w) := m (shared r) in (a, {| bridge := bridge r; shared := w |}).

(** [SyncSender::send] on a channel of one: it fails when the asker gave up. *)
Definition send_answer (listening : N -> bool) (reply : N) (a : Answer) : St FiberBridge bool := fun b =>
  if listening reply then (true, set_answers b (answers b ++ [a])) else (false, b).

(** ** Envelopes *)

Definition envelope_cancelled (e : N) : St Reactor bool := fun r =>
  (match fiber_envelopes (bridge r) !! e with
   | Some env => is_cancelled (get_queue (shared r) (env_stream env))
   | None => false
   end, r).

Definition admin_reply_ (listening : N -> bool) (e : N) (status : N) (body : string) : St Reactor unit :=
  in_bridge (fun b =>
    match admin_envelopes b !! e with
    | Some env =>
        let b := set_admin_envelopes b (<[e := {| env_request := env_request env; env_reply := None |}]>
                   (admin_envelopes b)) in
        match env_reply env with
        | Some reply =>
            let '(_, b) := send_answer listening reply (Answered reply status body) b in (tt, b)
        | None => (tt, b)
        end
    | None => (tt, b)
    end).

(** ** Draining *)

Section fiber.
Context `{RubyVM}.

Definition fiber_bridge_error (error : BridgeError) : MagnusError :=
  wrap_error "RuntimeError" (error_to_string error).

(** The fibers owed a wakeup, resolved on the one thread that may do it. *)
Fixpoint resolve_streams (streams : list QRef) : St World (result unit MagnusError) :=
  match streams with
  | [] => ok tt
  | r :: rest =>
      let* waiting := on_queue r unpark in
      match waiting with
      | Some v => let?* _ := funcall v "resolve" [] in resolve_streams rest
      | None => resolve_streams rest
      end
  end.

Definition take_wakeups : St World (list QRef) := fun w =>
  let '(l, o) := take_owed (owed w) in (l, set_owed w o).

Definition resolve_wakeups : St World (result unit MagnusError) :=
  let* streams := take_wakeups in resolve_streams streams.

(** [wake::drain] on the bridge's reader; interrupted reads are retried. *)
Definition drain_socket : St World (result unit BridgeError) := fun w =>
  let '(r, s) := Wake.drain [] (wake_socket w) in (default (Ok tt) r, set_socket w s).

Record Batch := {
  envelopes : list N;
  admin_batch : option (list N);
  draining : bool;
  shutting_down : bool;
}.

Definition batch_new : Batch :=
  {| envelopes := []; admin_batch := None; draining := false; shutting_down := false |}.

(** [RArray::push] of an envelope, which may raise. *)
Definition push_envelope (l : list N) (e : N) : result (list N) MagnusError :=
  match store_fails (RArray (map RObject l)) (RObject e) with
  | Some error => Err error
  | None => Ok (l ++ [e])%list
  end.

Definition new_fiber_envelope (call : FiberCall) : St Reactor N :=
  let* e := in_shared fresh in
  do* in_bridge (modify (fun b => set_fiber_envelopes b
        (<[e := {| env_stream := stream (call_handle call); env_call := Some call |}]> (fiber_envelopes b)))) in
  st_ret e.

Definition new_admin_envelope (call : AdminCall) : St Reactor N :=
  let* e := in_shared fresh in
  do* in_bridge (modify (fun b => set_admin_envelopes b
        (<[e := {| env_request := admin_request call; env_reply := Some (admin_reply call) |}]>
           (admin_envelopes b)))) in
  st_ret e.

Definition pop_command : St World (option FiberCommand) := fun w =>
  match commands w with
  | [] => (None, w)
  | c :: rest => (Some c, set_commands w rest)
  end.

(** The loop over [try_recv], with fuel for the commands queued; [connected] while any
    client is alive.  A command sent while the loop runs is found by it, or by the next
    pass, as one that was queued before is: it counts as queued when the pass begins, or
    when the next one does. *)
Fixpoint receive (fuel : nat) (connected : bool) (batch : Batch) : St Reactor (result Batch MagnusError) :=
  match fuel with
  | O => ok batch
  | S fuel =>
      let* command := in_shared pop_command in
      match command with
      | Some (Call call) =>
          let* e := new_fiber_envelope call in
          let?* l := pure (push_envelope (envelopes batch) e) in
          receive fuel connected
            {| envelopes := l; admin_batch := admin_batch batch; draining := draining batch;
               shutting_down := shutting_down batch |}
      | Some (Admin call) =>
          let* e := new_admin_envelope call in
          let?* l := pure (push_envelope (default [] (admin_batch batch)) e) in
          receive fuel connected
            {| envelopes := envelopes batch; admin_batch := Some l; draining := draining batch;
               shutting_down := shutting_down batch |}
      | Some Drain =>
          receive fuel connected
            {| envelopes := envelopes batch; admin_batch := admin_batch batch; draining := true;
               shutting_down := shutting_down batch |}
      | Some (Shutdown reply) =>
          do* in_bridge (modify (fun b => set_shutdown_reply b (Some reply))) in
          ok {| envelopes := envelopes batch; admin_batch := admin_batch batch;
                draining := draining batch; shutting_down := true |}
      | None =>
          ok {| envelopes := envelopes batch; admin_batch := admin_batch batch;
                draining := draining batch; shutting_down := negb connected |}
      end
  end.

Definition receive_all (connected : bool) : St Reactor (result Batch MagnusError) := fun r =>
  receive (S (length (commands (shared r)))) connected batch_new r.

Definition bridge_drain (connected : bool) : St Reactor (result Batch MagnusError) :=
  let* t := in_shared now in
  do* in_bridge (modify (fun b => set_heartbeat b (record_pass (heartbeat b) t))) in
  let?* _ := in_shared resolve_wakeups in
  let?* _ := mapping fiber_bridge_error (in_shared drain_socket) in
  receive_all connected.

(** ** Executing *)

(** [envelope.call.borrow_mut().take()] *)
Definition take_call (e : N) : St FiberBridge (option FiberCall) := fun b =>
  match fiber_envelopes b !! e with
  | Some env => (env_call env,
      set_fiber_envelopes b (<[e := {| env_stream := env_stream env; env_call := None |}]> (fiber_envelopes b)))
  | None => (None, b)
  end.

Definition release (permit_ : Lease) : St World unit :=
  modify (fun w => set_admission w (drop_lease permit_ (admission w))).

(** What [execute] does with a call it took. *)
Definition run_call (b : FiberBridge) (call : FiberCall) (app_ rack_errors_ reader : Value)
    : St World (result unit MagnusError) :=
  let* string_io := const_get "StringIO" in
  match string_io with
  | Err error => do* modify (drop_command (Call call)) in fails error
  | Ok string_io =>
      let ctx := {| app := app_; string_io_class := string_io; request_body_class := Some (body_class b);
                    rack_errors := rack_errors_; body_reader := reader;
                    ctx_thread_object_id := thread_object_id b; concurrency := Interleaved;
                    extensions := true |} in
      let handle := call_handle call in
      let* res := call_streaming ctx (call_request call) handle (RSink handle) in
      do* match res with
          | Err error => do* on_queue (stream handle) (push_failure error) in wake_handle handle
          | Ok _ => st_ret tt
          end in
      do* release (permit call) in
      ok tt
  end.

Definition execute (e : N) (app_ rack_errors_ reader : Value) : St Reactor (result unit MagnusError) :=
  let* call := in_bridge (take_call e) in
  match call with
  | None => fails (wrap_error "RuntimeError" "request reused")
  | Some call => fun r => in_shared (run_call (bridge r) call app_ rack_errors_ reader) r
  end.

Definition ack_shutdown (listening : N -> bool) : St Reactor bool := in_bridge (fun b =>
  match shutdown_reply b with
  | Some reply => send_answer listening reply (Stopped reply) (set_shutdown_reply b None)
  | None => (false, b)
  end).

End fiber.

(** ** A runtime whose application failed to load *)

Definition drop_commands (l : list FiberCommand) (w : World) : World := foldr drop_command w l.

(** The receiver is dropped, and with it whatever is still queued; later sends fail. *)
Definition drop_receiver : St World unit := fun w =>
  let w' := drop_commands (commands w) w in
  (tt, {| queues := queues w'; channels := channels w'; routes := routes w'; owed := owed w';
          wake_socket := wake_socket w'; commands := []; receiving := false; admission := admission w';
          posted := posted w'; next_ref := next_ref w'; instants := instants w'; vm := vm w' |}).

(** [retain_failed_runtime], over the commands that arrive; [true] when it was shut
    down, [false] while it waits for more. *)
Fixpoint retain_failed_runtime (listening : N -> bool) (startup_error : BridgeError)
    (arriving : list FiberCommand) : St Reactor bool :=
  match arriving with
  | [] => st_ret false
  | Call call :: rest =>
      do* in_shared (on_queue (stream (call_handle call)) (push_failure startup_error)) in
      do* in_shared (wake_handle (call_handle call)) in
      do* in_shared (release (permit call)) in
      retain_failed_runtime listening startup_error rest
  | Admin call :: rest =>
      do* in_bridge (send_answer listening (admin_reply call)
            (Answered (admin_reply call) 503
               (error_to_string startup_error ++ String (Ascii.ascii_of_N 10) "")%string)) in
      retain_failed_runtime listening startup_error rest
  | Drain :: rest => retain_failed_runtime listening startup_error rest
  | Shutdown reply :: rest =>
      do* in_bridge (send_answer listening reply (Stopped reply)) in
      do* in_shared (modify (drop_commands rest)) in
      do* in_shared drop_receiver in
      st_ret true
  end.
