(* ===== verification/Runner.v ===== *)
(** * The reactor's loop, its lifecycle and offloading

    [src/ruby/fiber_runner.rb]: the loop that drains the bridge and runs one fiber per
    request, as a step relation.  The async gem runs a fiber of the loop at once, until
    it waits; a fiber that is ready may go on whenever the loop itself waits, starts
    another or stops one, so the relation lets fibers move between any two steps of the
    loop.  Then the parts of [src/ruby/lifecycle.rb] and [src/ruby/offload.rb] that
    decide something. *)

From S2P Require Import Prelude RustStr Types Budget Stream Upstream Wake Request World Client Ruby Chunks Rack Fibers Fiber.
From Stdlib Require Import Strings.Ascii Strings.String.

Local Open Scope N_scope.

(** ** The admin pages ([Ruvoy::Admin]) *)

Inductive Route := Overview | Gc | FibersPage | ConfigPage.

Definition ROUTES (path : string) : option Route :=
  if bool_decide (path = "/ruvoy")%string then Some Overview
  else if bool_decide (path = "/ruvoy/gc")%string then Some Gc
  else if bool_decide (path = "/ruvoy/fibers")%string then Some FibersPage
  else if bool_decide (path = "/ruvoy/config")%string then Some ConfigPage
  else None.

(** [path.split("?", 2)]: of an empty string nothing is left. *)
Definition split_query (path : string) : option (string * option string) :=
  if bool_decide (path = ""%string) then None
  else match split_once "?"%char path with
       | Some (a, b) => Some (a, Some b)
       | None => Some (path, None)
       end.

(** [chomp("/")] *)
Definition chomp_slash (s : string) : string :=
  let n := (String.length s - 1)%nat in
  if bool_decide (String.substring n 1 s = "/"%string) then String.substring 0 n s else s.

Definition newline : string := String (Ascii.ascii_of_N 10) "".

(** What a page answers: [pages] is what the VM makes of it, as JSON, or raises. *)
Definition admin_page (pages : Route -> string -> result string Exn) (path : string) : result (N * string) Exn :=
  match split_query path with
  | None => Err (Standard "NoMethodError" "undefined method 'chomp' for nil")
  | Some (path, query) =>
      match ROUTES (chomp_slash path) with
      | None => Ok (404, "no such ruvoy endpoint" ++ newline)%string
      | Some route =>
          match pages route (default ""%string query) with
          | Ok json => Ok (200, json ++ newline)%string
          | Err e => Err e
          end
      end
  end.

(** The text of ["#{error.class}: #{error.message}"]. *)
Definition exn_text (e : Exn) : string :=
  match e with
  | Standard c m => (c ++ ": " ++ m)%string
  | FromRust e => magnus_text e
  | Stop => "Async::Stop"
  end.

Definition admin_answer (pages : Route -> string -> result string Exn) (path : string) : option (N * string) :=
  match admin_page pages path with
  | Ok answer => Some answer
  | Err e => if is_standard e then Some (500, exn_text e ++ newline)%string else None
  end.

(** [Admin.handle(envelope)] *)
Definition admin_handle (listening : N -> bool) (pages : Route -> string -> result string Exn) (e : N)
    : St Reactor unit := fun rx =>
  match admin_envelopes (bridge rx) !! e with
  | None => (tt, rx)
  | Some env =>
      match admin_answer pages (admin_path (env_request env)) with
      | Some (status, body) => admin_reply_ listening e status body rx
      | None => (tt, rx)
      end
  end.

(** ** Lifecycle hooks

    A hook is what its block ends with: nothing, or what it raises.  Each returns how
    many were called and what came out. *)

(** [Lifecycle.drain]: a hook that fails is reported and the next one runs. *)
Fixpoint lifecycle_drain (hooks : list (option Exn)) : nat * option Exn :=
  match hooks with
  | [] => (0%nat, None)
  | hook :: rest =>
      let go := let '(n, e) := lifecycle_drain rest in (S n, e) in
      match hook with
      | Some e => if is_standard e then go else (1%nat, Some e)
      | None => go
      end
  end.

(** [Lifecycle.run_before_ready]: the first that fails is what starting up fails with. *)
Fixpoint run_before_ready (hooks : list (option Exn)) : nat * option Exn :=
  match hooks with
  | [] => (0%nat, None)
  | Some e :: _ => (1%nat, Some e)
  | None :: rest => let '(n, e) := run_before_ready rest in (S n, e)
  end.

(** ** Offloading

    What a fiber that waits for a thread sees: interruptions, and the thread's end. *)

Inductive OffloadEvent :=
| Interruption (e : Exn)
| ThreadEnds.

(** [thread.join], retried when interrupted; what is left of the events. *)
Fixpoint join_retry (evs : list OffloadEvent) : option (list OffloadEvent) :=
  match evs with
  | [] => None
  | ThreadEnds :: rest => Some rest
  | Interruption _ :: rest => join_retry rest
  end.

(** [Offload#run], of work that ends with [work] on its thread. *)
Definition offload_run {A} (work : result A Exn) (evs : list OffloadEvent) : Outcome A * list OffloadEvent :=
  match evs with
  | [] => (Waiting, [])
  | ThreadEnds :: rest =>
      (match work with
       | Ok a => Done a
       | Err e => Raised e
       end, rest)
  | Interruption e :: rest =>
      match join_retry rest with
      | Some rest => (Raised e, rest)
      | None => (Waiting, [])
      end
  end.

(** ** The loop *)

(** A fiber of the loop, and what it is in the middle of: a request inside
    [bridge.execute], which has taken the call; an admin request; the drain hooks. *)
Inductive Work :=
| RequestWork (e : N) (call : FiberCall)
| AdminWork (e : N)
| DrainWork.

Inductive Job := RequestJob (e : N) | AdminJob (e : N) | DrainJob.

Definition job_of (w : Work) : Job :=
  match w with
  | RequestWork e _ => RequestJob e
  | AdminWork e => AdminJob e
  | DrainWork => DrainJob
  end.

(** Where the loop is: waiting for the bridge; starting the fibers of a batch; asking
    each running request whether its client is still there; stopping those that still
    run; waiting for the last of them; gone. *)
Inductive At :=
| AtWait
| AtSpawn (batch : Batch)
| AtSweep (visits : list N) (shutting : bool)
| AtStop (visits : list N)
| AtJoin
| AtEnd.

Inductive LoopEvent :=
| Handed (jobs : list Job)
| DrainRaised (e : MagnusError)
| Started (j : Job)
| Ended (j : Job)
| StopSent (e : N)
| Acked (sent : bool).

(** [running], a Hash, in the order of its keys; [tasks], the fibers that have not
    ended, by number. *)
Record Runner := {
  rn_reactor : Reactor;
  rn_running : list (N * N);
  rn_tasks : gmap N Work;
  rn_next : N;
  rn_at : At;
  rn_log : list LoopEvent;
}.

(** The loop before its first pass. *)
Definition runner_new (rx : Reactor) : Runner :=
  {| rn_reactor := rx; rn_running := []; rn_tasks := ∅; rn_next := 0; rn_at := AtWait; rn_log := [] |}.

Definition set_at (at_ : At) (s : Runner) : Runner :=
  {| rn_reactor := rn_reactor s; rn_running := rn_running s; rn_tasks := rn_tasks s; rn_next := rn_next s;
     rn_at := at_; rn_log := rn_log s |}.
Definition set_reactor (rx : Reactor) (s : Runner) : Runner :=
  {| rn_reactor := rx; rn_running := rn_running s; rn_tasks := rn_tasks s; rn_next := rn_next s;
     rn_at := rn_at s; rn_log := rn_log s |}.
Definition add_log (l : list LoopEvent) (s : Runner) : Runner :=
  {| rn_reactor := rn_reactor s; rn_running := rn_running s; rn_tasks := rn_tasks s; rn_next := rn_next s;
     rn_at := rn_at s; rn_log := rn_log s ++ l |}.
Definition set_tasks (tasks : gmap N Work) (running : list (N * N)) (s : Runner) : Runner :=
  {| rn_reactor := rn_reactor s; rn_running := running; rn_tasks := tasks; rn_next := rn_next s;
     rn_at := rn_at s; rn_log := rn_log s |}.

(** [running.key?], [running[e] = task] and [running.delete(e)]. *)
Definition runs (e : N) (l : list (N * N)) : bool := bool_decide (e ∈ l.*1).
Definition running_set (e t : N) (l : list (N * N)) : list (N * N) :=
  if runs e l then map (fun '(e', t') => if e' =? e then (e', t) else (e', t')) l else l ++ [(e, t)].
Definition running_delete (e : N) (l : list (N * N)) : list (N * N) := List.filter (fun '(e', _) => negb (e' =? e)) l.

(** [parent.async], of a fiber that has begun [w]. *)
Definition spawn (w : Work) (s : Runner) : Runner :=
  {| rn_reactor := rn_reactor s; rn_running := rn_running s; rn_tasks := <[rn_next s := w]> (rn_tasks s);
     rn_next := rn_next s + 1; rn_at := rn_at s; rn_log := rn_log s ++ [Started (job_of w)] |}.

(** The fiber of a request registers itself and calls [execute], which takes the call
    out of the envelope, or raises when there is none left. *)
Definition spawn_request (e : N) (s : Runner) : Runner :=
  let '(call, b) := take_call e (bridge (rn_reactor s)) in
  let s := set_reactor {| bridge := b; shared := shared (rn_reactor s) |} s in
  let running := running_set e (rn_next s) (rn_running s) in
  match call with
  | Some call => spawn (RequestWork e call) (set_tasks (rn_tasks s) running s)
  | None => add_log [Started (RequestJob e); Ended (RequestJob e)] (set_tasks (rn_tasks s) (running_delete e running) s)
  end.

Definition task_stop (e : N) (s : Runner) : Runner := add_log [StopSent e] s.

Section runner.
Context `{RubyVM} (connected : bool) (listening : N -> bool).

Definition batch_jobs (b : Batch) : list Job :=
  map RequestJob (envelopes b) ++ map AdminJob (default [] (admin_batch b)) ++ (if draining b then [DrainJob] else []).

(** One fiber of the batch, and what is left of it. *)
Definition spawn_next (b : Batch) (s : Runner) : Runner :=
  match envelopes b with
  | e :: rest =>
      set_at (AtSpawn {| envelopes := rest; admin_batch := admin_batch b; draining := draining b;
                         shutting_down := shutting_down b |}) (spawn_request e s)
  | [] =>
      match default [] (admin_batch b) with
      | a :: rest =>
          set_at (AtSpawn {| envelopes := []; admin_batch := Some rest; draining := draining b;
                             shutting_down := shutting_down b |}) (spawn (AdminWork a) s)
      | [] =>
          if draining b
          then set_at (AtSpawn {| envelopes := []; admin_batch := None; draining := false;
                                  shutting_down := shutting_down b |}) (spawn DrainWork s)
          else set_at (AtSweep (rn_running s).*1 (shutting_down b)) s
      end
  end.

(** The next thing the loop does; where it can only wait, nothing.  A pass that raises
    ends the loop: the fibers it started run to their end, and then it is acknowledged. *)
Definition parent_step (s : Runner) : Runner :=
  match rn_at s with
  | AtWait =>
      match bridge_drain connected (rn_reactor s) with
      | (Ok batch, rx) => set_at (AtSpawn batch) (add_log [Handed (batch_jobs batch)] (set_reactor rx s))
      | (Err error, rx) => set_at AtJoin (add_log [DrainRaised error] (set_reactor rx s))
      end
  | AtSpawn batch => spawn_next batch s
  | AtSweep (e :: rest) shutting =>
      let s := set_at (AtSweep rest shutting) s in
      if runs e (rn_running s) && (envelope_cancelled e (rn_reactor s)).1 then task_stop e s else s
  | AtSweep [] shutting => set_at (if shutting then AtStop (rn_running s).*1 else AtWait) s
  | AtStop (e :: rest) =>
      let s := set_at (AtStop rest) s in
      if runs e (rn_running s) then task_stop e s else s
  | AtStop [] => set_at AtJoin s
  | AtJoin =>
      if bool_decide (rn_tasks s = ∅) then
        let '(sent, rx) := ack_shutdown listening (rn_reactor s) in
        set_at AtEnd (add_log [Acked sent] (set_reactor rx s))
      else s
  | AtEnd => s
  end.

End runner.

(** A request's fiber ends: [execute] gives the permit back, and the entry is deleted. *)
Definition request_ends (t e : N) (call : FiberCall) (s : Runner) : Runner :=
  add_log [Ended (RequestJob e)]
    (set_tasks (delete t (rn_tasks s)) (running_delete e (rn_running s))
       (set_reactor (in_shared (release (permit call)) (rn_reactor s)).2 s)).

Definition fiber_ends (t : N) (j : Job) (s : Runner) : Runner :=
  add_log [Ended j] (set_tasks (delete t (rn_tasks s)) (rn_running s) s).

(** What clients, workers and the application's own code do to the store meanwhile.  A
    cancelled queue stays so. *)
Definition cancels_kept (w w' : World) : Prop :=
  forall r, is_cancelled (get_queue w r) = true -> is_cancelled (get_queue w' r) = true.

Inductive outside : World -> World -> Prop :=
| outside_submit w request handle : outside w (submit request handle w).2
| outside_send w c : (forall call, c <> Call call) -> outside w (send_and_wake c w).2
| outside_other w w' :
    commands w' = commands w -> admission w' = admission w -> next_ref w <= next_ref w' -> cancels_kept w w' ->
    outside w w'.

Inductive runner_step `{RubyVM} : Runner -> Runner -> Prop :=
| step_parent s connected listening : runner_step s (parent_step connected listening s)
| step_request_ends s t e call :
    rn_tasks s !! t = Some (RequestWork e call) -> runner_step s (request_ends t e call s)
| step_admin_ends s t e listening pages :
    rn_tasks s !! t = Some (AdminWork e) ->
    runner_step s (fiber_ends t (AdminJob e) (set_reactor (admin_handle listening pages e (rn_reactor s)).2 s))
| step_drain_ends s t :
    rn_tasks s !! t = Some DrainWork -> runner_step s (fiber_ends t DrainJob s)
| step_outside s w :
    outside (shared (rn_reactor s)) w ->
    runner_step s (set_reactor {| bridge := bridge (rn_reactor s); shared := w |} s).
