(* ===== verification/Execution.v ===== *)
(** * What a call leaves in its response stream

    While the Ruby thread runs one call, the worker takes from the stream, pauses it
    or cancels it, in any order.  [evolves] is what a piece of code and the worker
    together may have done to a queue, with the items that were accepted; [Confined]
    is what is assumed of the application: only code given the sink writes to the
    stream, and then only through the sink. *)

From S2P Require Import Prelude RustStr Types Budget Stream StreamTrace Upstream Request World Client Ruby Chunks RubyExample Rack Fiber.

Local Open Scope N_scope.

(** ** Histories of one queue *)

Definition history (ops : list StreamOp) (s : ResponseStream) : list StreamItem :=
  accepted ops (impl_run ops s).1.

Lemma run_cons op ops s :
  impl_run (op :: ops) s =
    (let '(r, s1) := impl_step op s in let '(rs, s2) := impl_run ops s1 in (r :: rs, s2)).
Proof. reflexivity. Qed.

Lemma history_cons op ops s :
  history (op :: ops) s
  = (accepted_by op (impl_step op s).1 ++ history ops (impl_step op s).2)%list.
Proof.
  unfold history. rewrite run_cons. destruct (impl_step op s) as [r s1]. cbn [fst snd].
  by destruct (impl_run ops s1).
Qed.

Lemma run_cons_state op ops s : (impl_run (op :: ops) s).2 = (impl_run ops (impl_step op s).2).2.
Proof. rewrite run_cons. destruct (impl_step op s) as [r s1]. cbn [snd]. by destruct (impl_run ops s1). Qed.

Lemma run_app_state ops ops' s : (impl_run (ops ++ ops') s).2 = (impl_run ops' (impl_run ops s).2).2.
Proof.
  revert s. induction ops as [|op ops IH]; intros s; [done|].
  change ((op :: ops) ++ ops')%list with (op :: (ops ++ ops'))%list. by rewrite !run_cons_state, IH.
Qed.

Lemma history_app ops ops' s :
  history (ops ++ ops') s = (history ops s ++ history ops' (impl_run ops s).2)%list.
Proof.
  revert s. induction ops as [|op ops IH]; intros s; [done|].
  change ((op :: ops) ++ ops')%list with (op :: (ops ++ ops'))%list.
  by rewrite !history_cons, IH, run_cons_state, app_assoc.
Qed.

Lemma step_settled op s :
  settled (impl_step op s).2 = settled s || settled (impl_step op s).2
  /\ (settled s = true -> accepted_by op (impl_step op s).1 = [])
  /\ (ended (impl_step op s).2 = ended s || existsb terminal (accepted_by op (impl_step op s).1)).
Proof.
  unfold settled. destruct op as [|p|item|b|chunk| |w|w| | | |]; cbn [impl_step];
    unfold reply, push, push_chunk_within_budget, push_chunk_if_room, take_next, park, park_writer, unpark;
    destruct (cancelled s) eqn:Ec, (ended s) eqn:Ee; cbn; repeat case_match; simplify_eq/=; try done;
    rewrite ?Ec, ?Ee; cbn; rewrite ?orb_true_r, ?orb_false_r; try done.
Qed.

Lemma run_settled ops s : settled s = true -> settled (impl_run ops s).2 = true /\ history ops s = [].
Proof.
  revert s. induction ops as [|op ops IH]; intros s Hs; [done|].
  destruct (step_settled op s) as (H1 & H2 & _). rewrite Hs in H1. cbn in H1.
  rewrite run_cons_state, history_cons, H2 by done. by apply IH.
Qed.

Lemma run_ended ops s : ended s = true -> ended (impl_run ops s).2 = true.
Proof.
  revert s. induction ops as [|op ops IH]; intros s Hs; [done|].
  rewrite run_cons_state. apply IH. destruct (step_settled op s) as (_ & _ & ->). by rewrite Hs.
Qed.

Lemma log_ok_app l k : existsb terminal l = false -> log_ok k -> log_ok (l ++ k).
Proof.
  intros Hl Hk. induction l as [|x l IH]; [done|]. cbn in Hl. apply orb_false_elim in Hl as [Hx Hl].
  intros a i b E Ht. destruct a as [|y a]; cbn in E; injection E as -> E.
  - congruence.
  - by apply (IH Hl a i b).
Qed.

(** What is accepted ends with its first terminal item, after which nothing is. *)
Lemma run_history ops s :
  ended s = false ->
  log_ok (history ops s) /\ ended (impl_run ops s).2 = existsb terminal (history ops s).
Proof.
  revert s. induction ops as [|op ops IH]; intros s Hs; [by split; [intros [] ? ? [=]|]|].
  destruct (step_settled op s) as (H1 & H2 & H3). rewrite Hs in H3. cbn in H3.
  rewrite run_cons_state, history_cons.
  destruct (ended (impl_step op s).2) eqn:He.
  - destruct (run_settled ops (impl_step op s).2) as [Hd Hh]; [unfold settled; by rewrite He, orb_true_r|].
    rewrite Hh, app_nil_r, <- H3. split.
    + assert (Hone : exists i, accepted_by op (impl_step op s).1 = [] \/ accepted_by op (impl_step op s).1 = [i]).
      { unfold accepted_by. destruct op, (impl_step _ s).1; repeat case_match;
        first [exists End; by left | eexists; by right]. }
      destruct Hone as (i & [-> | ->]); [by intros [] ? ? [=]|]. by apply (log_ok_snoc []).
    + by apply run_ended.
  - destruct (IH _ He) as [IH1 IH2]. rewrite IH2, existsb_app, <- H3. split; [|done].
    by apply log_ok_app.
Qed.

(** ** What code and worker may have done to the queue [r] together *)

Definition evolves (r : QRef) (w w' : World) (l : list StreamItem) : Prop :=
  exists ops, get_queue w' r = (impl_run ops (get_queue w r)).2 /\ history ops (get_queue w r) = l.

Lemma evolves_same r w w' : get_queue w' r = get_queue w r -> evolves r w w' [].
Proof. intros E. by exists []. Qed.

Lemma evolves_trans r w1 w2 w3 l k : evolves r w1 w2 l -> evolves r w2 w3 k -> evolves r w1 w3 (l ++ k).
Proof.
  intros (a & H1 & <-) (b & H2 & <-). exists (a ++ b)%list.
  by rewrite run_app_state, history_app, <- H1.
Qed.

Lemma evolves_settled r w w' l :
  evolves r w w' l -> settled (get_queue w r) = true -> settled (get_queue w' r) = true /\ l = [].
Proof. intros (ops & -> & <-) Hs. by apply run_settled. Qed.

(** [m] run from [w] after [l0] was accepted ends in a state where [Q] holds. *)
Definition wp (r : QRef) {A} (m : St World A) (Q : A -> list StreamItem -> World -> Prop)
    (l0 : list StreamItem) (w : World) : Prop :=
  exists l, evolves r w (m w).2 l /\ Q (m w).1 (l0 ++ l)%list (m w).2.

Section wp.
Context (r : QRef).

Lemma wp_ret {A} (a : A) (Q : A -> list StreamItem -> World -> Prop) l w : Q a l w -> wp r (st_ret a) Q l w.
Proof. intros HQ. exists []. rewrite app_nil_r. split; [by apply evolves_same | done]. Qed.

Lemma wp_bind {A B} (m : St World A) (k : A -> St World B) Q l w :
  wp r m (fun a l w => wp r (k a) Q l w) l w -> wp r (st_bind m k) Q l w.
Proof.
  intros (l1 & H1 & l2 & H2 & HQ). unfold wp, st_bind. destruct (m w) as [a w1]. cbn in *.
  exists (l1 ++ l2)%list. rewrite app_assoc. split; [by eapply evolves_trans | done].
Qed.

Lemma wp_tries {A B E} (m : St World (result A E)) (k : A -> St World (result B E)) Q l w :
  wp r m (fun a l w => match a with Ok a => wp r (k a) Q l w | Err e => Q (Err e) l w end) l w ->
  wp r (tries m k) Q l w.
Proof.
  intros (l1 & H1 & H2). unfold wp, tries. destruct (m w) as [[a|e] w1]; cbn in *.
  - destruct H2 as (l2 & H2 & HQ). exists (l1 ++ l2)%list. rewrite app_assoc.
    split; [by eapply evolves_trans | done].
  - by exists l1.
Qed.

Lemma wp_mapping {A E F} (f : E -> F) (m : St World (result A E)) Q l w :
  wp r m (fun a l w => Q (map_err f a) l w) l w -> wp r (mapping f m) Q l w.
Proof. intros Hm. apply wp_bind. destruct Hm as (l1 & H1 & H2). exists l1. split; [done|]. by apply wp_ret. Qed.

Lemma wp_mono {A} (m : St World A) (P Q : A -> list StreamItem -> World -> Prop) l w :
  wp r m P l w -> (forall a l w, P a l w -> Q a l w) -> wp r m Q l w.
Proof. intros (l1 & H1 & H2) HPQ. exists l1. split; [done | by apply HPQ]. Qed.

(** Code that queues nothing. *)
Definition quiet {A} (m : St World A) : Prop := forall w, evolves r w (m w).2 [].

(** [Q] holds after quiet code if it holds of any state it may lead to. *)
Lemma wp_quiet {A} (m : St World A) (Q : A -> list StreamItem -> World -> Prop) l w :
  quiet m ->
  (forall a w', (settled (get_queue w r) = true -> settled (get_queue w' r) = true) -> Q a l w') ->
  wp r m Q l w.
Proof.
  intros Hm HQ. specialize (Hm w). exists []. rewrite app_nil_r. split; [done|]. apply HQ.
  intros Hs. by eapply evolves_settled.
Qed.

(** A push is accepted unless the queue takes nothing more. *)
Lemma wp_push item (Q : bool -> list StreamItem -> World -> Prop) l w :
  (settled (get_queue w r) = true -> forall w', settled (get_queue w' r) = true -> Q false l w') ->
  (forall w', (terminal item = true -> settled (get_queue w' r) = true) -> Q true (l ++ [item])%list w') ->
  wp r (on_queue r (push item)) Q l w.
Proof.
  intros Hno Hyes. set (w' := (on_queue r (push item) w).2).
  assert (Hev : evolves r w w' (if settled (get_queue w r) then [] else [item])).
  { exists [OpPush item]. unfold w'. rewrite get_on_queue, history_cons, run_cons_state. cbn [impl_step history].
    unfold reply, settled, push. destruct (cancelled _ || ended _); cbn; by rewrite ?app_nil_r. }
  exists (if settled (get_queue w r) then [] else [item]). split; [exact Hev|].
  rewrite on_queue_fst. fold w'. unfold push at 1.
  change (cancelled (get_queue w r) || ended (get_queue w r)) with (settled (get_queue w r)).
  destruct (settled (get_queue w r)) eqn:Es; cbn [fst].
  - rewrite app_nil_r. apply Hno; [done|]. by eapply evolves_settled in Hev as [? _].
  - apply Hyes. intros Ht. unfold w'. rewrite get_on_queue. unfold push.
    change (cancelled (get_queue w r) || ended (get_queue w r)) with (settled (get_queue w r)). rewrite Es.
    unfold settled. cbn. destruct item; try done; by rewrite orb_true_r.
Qed.

Lemma quiet_ret {A} (a : A) : quiet (st_ret a).
Proof. intros w. by apply evolves_same. Qed.

Lemma quiet_bind {A B} (m : St World A) (k : A -> St World B) :
  quiet m -> (forall a, quiet (k a)) -> quiet (st_bind m k).
Proof.
  intros Hm Hk w. unfold st_bind. specialize (Hm w). destruct (m w) as [a w1].
  by apply (evolves_trans r w w1 _ [] []); [|apply Hk].
Qed.

Lemma quiet_tries {A B E} (m : St World (result A E)) (k : A -> St World (result B E)) :
  quiet m -> (forall a, quiet (k a)) -> quiet (tries m k).
Proof.
  intros Hm Hk w. unfold tries. specialize (Hm w). destruct (m w) as [[a|e] w1]; [|done].
  by apply (evolves_trans r w w1 _ [] []); [|apply Hk].
Qed.

Lemma quiet_mapping {A E F} (f : E -> F) (m : St World (result A E)) : quiet m -> quiet (mapping f m).
Proof. intros Hm. by apply quiet_bind; [|intros; apply quiet_ret]. Qed.

Lemma quiet_try_map {A B E} (m : A -> St World (result B E)) l :
  (forall a, quiet (m a)) -> quiet (try_map m l).
Proof.
  intros Hm. induction l as [|x l IH]; cbn; [apply quiet_ret|]. apply quiet_tries; [done|]. intros b.
  apply quiet_tries; [done|]. intros. apply quiet_ret.
Qed.

Lemma quiet_read {A} (f : World -> A) : quiet (read f).
Proof. intros w. by apply evolves_same. Qed.

Lemma quiet_now : quiet now.
Proof. intros w. apply evolves_same. unfold now. by destruct (instants w), r. Qed.

Lemma quiet_wake h : quiet (wake_handle h).
Proof. intros w. apply evolves_same. by destruct r. Qed.

Lemma quiet_release p : quiet (release p).
Proof. intros w. apply evolves_same. by destruct r. Qed.

End wp.

Create HintDb quiet discriminated.
#[export] Hint Resolve quiet_ret quiet_read quiet_now quiet_wake quiet_release : quiet.

(** ** The application *)

Definition body_item (i : StreamItem) : Prop :=
  match i with
  | Chunk _ | End => True
  | Head _ | Failed _ => False
  end.

Definition no_sink (args : list RValue) : Prop :=
  Forall (fun a => match a with RSink _ => False | _ => True end) args.

(** The sink is a capability: Ruby code not given it queues nothing on the stream, and
    code given it queues chunks, and perhaps the end. *)
Class Confined `{RubyVM} (h : StreamHandle) : Prop := {
  confined_call : forall v name args, no_sink args -> quiet (stream h) (funcall v name args);
  confined_sink : forall v name args w, exists l,
    evolves (stream h) w (funcall v name args w).2 l /\ Forall body_item l;
  confined_array : forall v, quiet (stream h) (to_array v);
  confined_string : forall v, quiet (stream h) (to_string v);
  confined_strings : forall v, quiet (stream h) (to_strings v);
  confined_value : forall v n, quiet (stream h) (entry_value v n);
  confined_i64 : forall v n, quiet (stream h) (entry_i64 v n);
  confined_hash : forall v n, quiet (stream h) (entry_hash v n);
  confined_const : forall c, quiet (stream h) (const_get c);
}.

Section execution.
Context `{RubyVM} (h : StreamHandle) `{!Confined h}.
Let r := stream h.

Hint Resolve quiet_bind quiet_tries quiet_mapping quiet_try_map : quiet.
Hint Resolve confined_array confined_string confined_strings confined_value confined_i64 confined_hash
  confined_const : quiet.

Ltac quiet_step :=
  match goal with
  | |- forall _, _ => intros
  | |- quiet _ (st_bind _ _) => apply quiet_bind
  | |- quiet _ (tries _ _) => apply quiet_tries
  | |- quiet _ (mapping _ _) => apply quiet_mapping
  | |- quiet _ (try_map _ _) => apply quiet_try_map
  | |- quiet _ (pure _) => apply quiet_ret
  | |- quiet _ (ok _) => apply quiet_ret
  | |- quiet _ (fails _) => apply quiet_ret
  | |- quiet _ (match ?x with _ => _ end) => destruct x
  | |- quiet _ (funcall _ _ _) => apply confined_call; repeat constructor
  | |- _ => solve [eauto with quiet]
  end.
Ltac quiet_auto := repeat quiet_step.

Lemma quiet_build_env ctx q : quiet r (build_env ctx q).
Proof. unfold build_env, streaming_input, collected_input. quiet_auto. Qed.

Lemma quiet_call_app ctx build : quiet r (call_app ctx build).
Proof. unfold call_app. quiet_auto. Qed.

Lemma quiet_response_parts v : quiet r (response_parts v).
Proof. unfold response_parts, copy_headers, copy_header. quiet_auto. Qed.

(** Nothing yet, or a head and body items after it. *)
Definition headed (l : list StreamItem) : Prop :=
  match l with
  | [] => True
  | Head _ :: body => Forall body_item body
  | _ => False
  end.

Definition responding (res : result unit BridgeError) (l : list StreamItem) (w : World) : Prop :=
  headed l /\ (res = Ok tt -> settled (get_queue w r) = true).

Lemma headed_snoc l k : headed l -> l <> [] -> Forall body_item k -> headed (l ++ k).
Proof. destruct l as [|[hd| | |] l]; try done. cbn. intros. by apply Forall_app. Qed.

Lemma responding_err e l w : headed l -> responding (Err e) l w.
Proof. by split. Qed.

(** The reader streams the body. *)
Lemma wp_reader v name args (Q : result Value MagnusError -> list StreamItem -> World -> Prop) l w :
  (forall a k w', Forall body_item k -> Q a (l ++ k)%list w') -> wp r (funcall v name args) Q l w.
Proof.
  intros HQ. destruct (confined_sink (h := h) v name args w) as (k & Hk & Hb).
  exists k. split; [done | by apply HQ].
Qed.

Lemma respond_wp ctx build w :
  wp r (respond ctx build h (RSink h)) responding [] w.
Proof.
  unfold respond. apply wp_bind, wp_quiet; [apply quiet_now|]. intros t0 w0 _.
  apply wp_tries, wp_quiet; [apply quiet_call_app|]. intros [v|e] w1 _; [|by apply responding_err].
  apply wp_bind, wp_quiet; [apply quiet_now|]. intros t1 w2 _.
  apply wp_tries, wp_quiet; [apply quiet_response_parts|]. intros [parts|e] w3 _; [|by apply responding_err].
  apply wp_tries, wp_quiet; [apply quiet_ret|]. intros [[st hs]|e] w4 _; [|by apply responding_err].
  apply wp_bind. apply wp_push.
  { intros _ w5 Hs. cbn. apply wp_ret. by split. }
  intros w5 _. cbn [negb app]. apply wp_bind, wp_quiet; [apply quiet_wake|]. intros [] w6 _.
  apply wp_tries, wp_mapping, wp_reader. intros [v'|e] k w7 Hk; cbn [map_err]; [|by apply responding_err].
  apply wp_bind. unfold push_end. apply wp_push.
  - intros _ w8 Hs. apply wp_bind, wp_quiet; [apply quiet_wake|]. intros [] w9 Hs'. apply wp_ret.
    split; [done | intros _; by apply Hs'].
  - intros w8 Hs. apply wp_bind, wp_quiet; [apply quiet_wake|]. intros [] w9 Hs'. apply wp_ret.
    split; [|intros _; by apply Hs', Hs]. cbn. apply Forall_app. by split; [|constructor].
Qed.

Lemma call_streaming_wp ctx q w :
  wp r (call_streaming ctx q h (RSink h)) responding [] w.
Proof.
  unfold call_streaming. apply wp_tries, wp_quiet; [apply quiet_build_env|].
  intros [build|e] w1 _; [|by apply responding_err].
  apply wp_bind. eapply wp_mono; [apply respond_wp|]. intros res l w2 [Hh Hs].
  apply wp_bind, wp_quiet; [quiet_auto|]. intros _ w3 Hw. apply wp_ret. split; [done|].
  intros Hr. by apply Hw, Hs.
Qed.

(** A whole answer as it was accepted: head, body and one terminal item, or a failure
    in place of any of these. *)
Definition answer_log (l : list StreamItem) : Prop :=
  headed l \/ exists l' e, l = (l' ++ [Failed e])%list /\ headed l'.

(** The call, up to the release of its permit. *)
Lemma run_call_wp b call app_ errors reader w :
  call_handle call = h ->
  exists w1 l,
    (run_call b call app_ errors reader w).2 = set_admission w1 (drop_lease (permit call) (admission w1))
    /\ evolves r w w1 l /\ answer_log l
    /\ ((run_call b call app_ errors reader w).1 = Ok tt -> settled (get_queue w1 r) = true)
    /\ (forall e, (run_call b call app_ errors reader w).1 = Err e -> l = []).
Proof.
  intros Hh. unfold run_call, st_bind.
  pose proof (confined_const (h := h) "StringIO" w) as Hc.
  destruct (const_get "StringIO" w) as [[io|e] w0]; cbn [snd] in *.
  2:{ exists w0, []. split_and!; try done. by left. }
  rewrite Hh. set (ctx := {| app := app_ |}).
  assert (Hwp : wp r (let* res := call_streaming ctx (call_request call) h (RSink h) in
      match res with
      | Err error => do* on_queue r (push_failure error) in wake_handle h
      | Ok _ => st_ret tt
      end) (fun _ l w => answer_log l /\ settled (get_queue w r) = true) [] w0).
  { apply wp_bind. eapply wp_mono; [apply call_streaming_wp|]. intros [[]|e] l w1 [Hl Hs].
    - apply wp_ret. split; [by left | by apply Hs].
    - apply wp_bind. unfold push_failure. apply wp_push.
      + intros _ w2 Hs2. apply wp_quiet; [apply quiet_wake|]. intros [] w3 Hs3.
        split; [by left | by apply Hs3].
      + intros w2 Hs2. apply wp_quiet; [apply quiet_wake|]. intros [] w3 Hs3.
        split; [right; by exists l, e | by apply Hs3, Hs2]. }
  destruct Hwp as (l & Hev & Hl & Hs). unfold st_bind in *.
  destruct (call_streaming ctx (call_request call) h (RSink h) w0) as [res w1].
  destruct res as [[]|e]; cbn in *.
  - exists w1, l. split_and!; try done. by apply (evolves_trans _ _ w0 _ []).
  - unfold r in *. destruct (on_queue (stream h) (push_failure e) w1) as [? w2]. cbn in *.
    exists (set_posted w2 (wake h (posted w2))), l. split_and!; [reflexivity | by apply (evolves_trans _ _ w0 _ []) | done..].
Qed.

End execution.

(** C7: each call answers its stream once.  However the application and the worker
    interleave, what [execute] leaves accepted is a head, body items and one terminal
    item, or a failure in place of any of these, with nothing after it; unless the
    worker cancelled the stream, the answer is complete when [execute] returns; the
    permit is given back only after that; and a call cannot be executed twice. *)
Theorem execute_answers_once `{RubyVM} (h : StreamHandle) `{!Confined h} (rx : Reactor) e env call app_ errors reader :
  fiber_envelopes (bridge rx) !! e = Some env -> env_call env = Some call -> call_handle call = h ->
  ended (get_queue (shared rx) (stream h)) = false ->
  let out := execute e app_ errors reader rx in
  (exists w1 l,
    shared out.2 = set_admission w1 (drop_lease (permit call) (admission w1))
    /\ evolves (stream h) (shared rx) w1 l
    /\ answer_log l /\ log_ok l
    /\ (out.1 = Ok tt -> cancelled (get_queue w1 (stream h)) = false -> existsb terminal l = true)
    /\ (is_err out.1 = true -> l = []))
  /\ execute e app_ errors reader out.2
     = (Err (wrap_error "RuntimeError" "request reused"),
        {| bridge := (take_call e (bridge out.2)).2; shared := shared out.2 |}).
Proof.
  intros He Hc Hh Hend. unfold execute, st_bind, in_bridge, take_call. rewrite He, Hc. cbn [fst snd bridge].
  set (b := set_fiber_envelopes _ _). unfold in_shared. cbn [bridge shared].
  destruct (run_call_wp h b call app_ errors reader (shared rx) Hh) as (w1 & l & H1 & H2 & H3 & H4 & H5).
  destruct (run_call b call app_ errors reader (shared rx)) as [res w2]. cbn [fst snd bridge shared] in *.
  split.
  - exists w1, l. destruct H2 as (ops & Hq & Hl). destruct (run_history ops _ Hend) as [Hok Hterm].
    rewrite Hl in Hok, Hterm. split_and!; try done; [by exists ops| |].
    + intros Hr Hcan. rewrite <- Hterm, <- Hq. specialize (H4 Hr). unfold settled in H4. by rewrite Hcan in H4.
    + destruct res as [|e']; [done|]. intros _. by apply (H5 e').
  - unfold b at 1. cbn. by rewrite lookup_insert_eq.
Qed.

(** ** A confined application *)

Lemma write_evolves sink chunk offset r w : exists l,
  evolves r w (write sink chunk offset w).2 l /\ Forall body_item l.
Proof.
  unfold write, st_bind.
  set (m := push_chunk_within_budget (bytes_from offset chunk)).
  assert (Hev : exists l, evolves r w (on_queue (stream sink) m w).2 l /\ Forall body_item l).
  { destruct (decide (r = stream sink)) as [->|Hne].
    - set (op := OpWithinBudget (bytes_from offset chunk)).
      exists (history [op] (get_queue w (stream sink))). split.
      + exists [op]. split; [|done]. rewrite get_on_queue, run_cons_state. cbn. unfold reply, m. by destruct (push_chunk_within_budget _ _).
      + rewrite history_cons. cbn [op impl_step accepted_by]. unfold reply. destruct (push_chunk_within_budget _ _) as [[n|] s];
          cbn; [|constructor]. destruct (n =? 0); repeat constructor.
    - exists []. split; [|constructor]. apply evolves_same. by apply get_on_queue_ne. }
  destruct Hev as (l & Hev & Hl). destruct (on_queue (stream sink) m w) as [[n|] w1]; [|by exists l].
  exists l. split; [|done]. cbn in *. destruct Hev as (ops & Hq & Hh). exists ops. split; [|done].
  rewrite <- Hq. destruct (0 <? n); [|done]. by destruct r.
Qed.

Lemma sink_of_none args : no_sink args -> sink_of args = None.
Proof.
  unfold sink_of. induction args as [|a args IH]; intros Hn; [done|]. apply Forall_cons_1 in Hn as [Ha Hn].
  destruct a; try done; cbn; by apply IH.
Qed.

#[export] Instance example_confined h : Confined (H := example_ruby) h.
Proof.
  constructor; try (intros; apply quiet_ret).
  - intros v name args Hn. cbn. rewrite sink_of_none by done. apply quiet_ret.
  - intros v name args w. cbn. destruct (sink_of args) as [sink|].
    + unfold st_bind. destruct (write_evolves sink (into_bytes "hello") 0 (stream h) w) as (l & H1 & H2).
      exists l. destruct (write _ _ _ w). by split.
    + exists []. split; [by apply evolves_same | constructor].
Defined.

Definition executing : Reactor :=
  let '(r, w) := new_queue 16 (world_new 1) in
  let h := {| stream := r; waker := {| waker_filter := 0; waker_event := 1 |} |} in
  {| bridge := {| shutdown_reply := None; thread_object_id := 7;
                  heartbeat := {| started_at := 0; last_pass_ms := 0 |}; body_class := 8;
                  fiber_envelopes := {[ 1 := {| env_stream := r; env_call := Some
                    {| call_request := Request_new "GET" "/" []; call_handle := h; permit := {| held := 1 |} |} |} ]};
                  admin_envelopes := ∅; answers := [] |};
     shared := w |}.

Lemma execute_answers_once_witness :
  (exists w1 l, answer_log l /\ log_ok l /\ evolves (Direct 1) (shared executing) w1 l)
  /\ items (get_queue (shared (execute (H := example_ruby) 1 2 3 4 executing).2) (Direct 1))
     = [Head {| status := 200; headers := [("x-name", "value")]%string; ruby_thread_object_id := 7 |};
        Chunk (into_bytes "hello"); End].
Proof.
  split; [|reflexivity].
  destruct (execute_answers_once (H := example_ruby)
    {| stream := Direct 1; waker := {| waker_filter := 0; waker_event := 1 |} |} executing 1 _ _ 2 3 4
    eq_refl eq_refl eq_refl eq_refl) as [(w1 & l & _ & H1 & H2 & H3 & _) _].
  by exists w1, l.
Defined.
