(* ===== verification/Drain.v ===== *)
(** * What one pass of the reactor hands over

    [receive_all] turns the commands queued so far into envelopes.  The theorem says
    that none is lost, repeated or reordered, and that nothing after a shutdown is
    touched. *)

From S2P Require Import Prelude RustStr Types Budget Stream Upstream Wake Request World Client Ruby Chunks RubyExample Rack Fiber.

Local Open Scope N_scope.

(** The commands up to the first shutdown, which asker wants its answer, the rest. *)
Fixpoint until_shutdown (cmds : list FiberCommand) : list FiberCommand * option N * list FiberCommand :=
  match cmds with
  | [] => ([], None, [])
  | Shutdown reply :: rest => ([], Some reply, rest)
  | c :: rest => let '(handed, reply, later) := until_shutdown rest in (c :: handed, reply, later)
  end.

Definition call_of (c : FiberCommand) : option FiberCall :=
  match c with
  | Call call => Some call
  | _ => None
  end.

Definition admin_of (c : FiberCommand) : option AdminCall :=
  match c with
  | Admin call => Some call
  | _ => None
  end.

Definition is_drain (c : FiberCommand) : bool :=
  match c with
  | Drain => true
  | _ => false
  end.

(** Envelope [e] holds [call], not yet executed. *)
Definition holds_call (b : FiberBridge) (e : N) (call : FiberCall) : Prop :=
  fiber_envelopes b !! e = Some {| env_stream := stream (call_handle call); env_call := Some call |}.

Definition holds_admin (b : FiberBridge) (e : N) (call : AdminCall) : Prop :=
  admin_envelopes b !! e = Some {| env_request := admin_request call; env_reply := Some (admin_reply call) |}.

(** The batch stands for the commands [done]. *)
Record stands_for (batch : Batch) (rx : Reactor) (done_ : list FiberCommand) : Prop := {
  sf_calls : Forall2 (holds_call (bridge rx)) (envelopes batch) (omap call_of done_);
  sf_admin : Forall2 (holds_admin (bridge rx)) (default [] (admin_batch batch)) (omap admin_of done_);
  sf_draining : draining batch = existsb is_drain done_;
  sf_fresh : Forall (fun e => e < next_ref (shared rx)) (envelopes batch ++ default [] (admin_batch batch));
  sf_nodup : NoDup (envelopes batch);
}.

Section drain.
Context `{RubyVM}.

Lemma holds_call_later b e x l k :
  Forall (fun i => i < e) l ->
  Forall2 (holds_call b) l k -> Forall2 (holds_call (set_fiber_envelopes b (<[e := x]> (fiber_envelopes b)))) l k.
Proof.
  intros Hl Hf. induction Hf as [|i c l k Hi Hf IH]; [constructor|].
  apply Forall_cons_1 in Hl as [Hi' Hl]. constructor; [|by apply IH].
  unfold holds_call in *. cbn. rewrite lookup_insert_ne by lia. done.
Qed.

Lemma holds_admin_later b e x l k :
  Forall (fun i => i < e) l ->
  Forall2 (holds_admin b) l k -> Forall2 (holds_admin (set_admin_envelopes b (<[e := x]> (admin_envelopes b)))) l k.
Proof.
  intros Hl Hf. induction Hf as [|i c l k Hi Hf IH]; [constructor|].
  apply Forall_cons_1 in Hl as [Hi' Hl]. constructor; [|by apply IH].
  unfold holds_admin in *. cbn. rewrite lookup_insert_ne by lia. done.
Qed.

Lemma fresh_later l n : Forall (fun e => e < n) l -> Forall (fun e => e < n + 1) (l ++ [n]).
Proof.
  intros Hl. apply Forall_app. split; [|by repeat constructor; lia].
  eapply list.Forall_impl; [exact Hl|]. cbn. lia.
Qed.

Lemma nodup_later (l : list N) n : Forall (fun e => e < n) l -> NoDup l -> NoDup (l ++ [n]).
Proof.
  intros Hl Hn. apply list.NoDup_app. split_and!; [done| |apply list.NoDup_singleton].
  intros e He Hin. apply list_elem_of_singleton in Hin. subst e.
  eapply list.Forall_forall in Hl; [|exact He]. cbn in Hl. lia.
Qed.

(** One more call, or admin request, in the batch. *)
Lemma stands_for_call batch rx done_ call l :
  stands_for batch rx done_ ->
  push_envelope (envelopes batch) (next_ref (shared rx)) = Ok l ->
  stands_for {| envelopes := l; admin_batch := admin_batch batch; draining := draining batch;
                shutting_down := shutting_down batch |}
    (new_fiber_envelope call rx).2 (done_ ++ [Call call]).
Proof.
  intros [H1 H2 H3 H4 H5] Hl. unfold push_envelope in Hl. destruct (store_fails _ _); [done|].
  injection Hl as <-. apply Forall_app in H4 as [H4 H4'].
  constructor; cbn [envelopes admin_batch draining new_fiber_envelope bridge shared].
  - rewrite omap_app. apply Forall2_app; [by apply holds_call_later|].
    repeat constructor. unfold holds_call. cbn. by rewrite lookup_insert_eq.
  - rewrite omap_app, app_nil_r. exact H2.
  - rewrite H3, existsb_app. cbn. by rewrite orb_false_r.
  - cbn. apply Forall_app. split; [by apply fresh_later|].
    eapply list.Forall_impl; [exact H4'|]. cbn. lia.
  - by apply nodup_later.
Qed.

Lemma stands_for_admin batch rx done_ call l :
  stands_for batch rx done_ ->
  push_envelope (default [] (admin_batch batch)) (next_ref (shared rx)) = Ok l ->
  stands_for {| envelopes := envelopes batch; admin_batch := Some l; draining := draining batch;
                shutting_down := shutting_down batch |}
    (new_admin_envelope call rx).2 (done_ ++ [Admin call]).
Proof.
  intros [H1 H2 H3 H4 H5] Hl. unfold push_envelope in Hl. destruct (store_fails _ _); [done|].
  injection Hl as <-. apply Forall_app in H4 as [H4 H4'].
  constructor; cbn [envelopes admin_batch draining new_admin_envelope bridge shared default].
  - rewrite omap_app, app_nil_r. exact H1.
  - rewrite omap_app. apply Forall2_app; [by apply holds_admin_later|].
    repeat constructor. unfold holds_admin. cbn. by rewrite lookup_insert_eq.
  - rewrite H3, existsb_app. cbn. by rewrite orb_false_r.
  - cbn. apply Forall_app. split; [|by apply fresh_later].
    eapply list.Forall_impl; [exact H4|]. cbn. lia.
  - done.
Qed.

Lemma receive_spec fuel connected batch rx done_ batch' rx' :
  (length (commands (shared rx)) < fuel)%nat ->
  stands_for batch rx done_ -> shutting_down batch = false ->
  receive fuel connected batch rx = (Ok batch', rx') ->
  let '(handed, reply, rest) := until_shutdown (commands (shared rx)) in
  stands_for batch' rx' (done_ ++ handed)
  /\ commands (shared rx') = rest
  /\ shutting_down batch' = match reply with Some _ => true | None => negb connected end
  /\ shutdown_reply (bridge rx') = match reply with Some n => Some n | None => shutdown_reply (bridge rx) end.
Proof.
  revert batch rx done_. induction fuel as [|fuel IH]; intros batch rx done_ Hlen Hsf Hsd Hr; [lia|].
  cbn [receive] in Hr. unfold st_bind at 1, in_shared, pop_command in Hr.
  destruct (commands (shared rx)) as [|c cmds] eqn:Ec; cbn [until_shutdown].
  { injection Hr as <- <-. rewrite app_nil_r. cbn. split_and!; try done. by destruct Hsf. }
  cbn in Hlen. set (rx1 := {| bridge := bridge rx; shared := set_commands (shared rx) cmds |}) in *.
  assert (Hsf1 : stands_for batch rx1 done_) by (by destruct Hsf).
  destruct c as [call|call| |reply].
  - unfold st_bind at 1 in Hr. destruct (new_fiber_envelope call rx1) as [e rx2] eqn:En.
    apply tries_ok in Hr as (l & rx3 & Hp & Hr). unfold pure, st_ret in Hp. injection Hp as Hp <-.
    assert (e = next_ref (shared rx1)) as -> by (by injection En).
    pose proof (stands_for_call batch rx1 done_ call l Hsf1 Hp) as Hsf2. rewrite En in Hsf2. cbn [snd] in Hsf2.
    injection En as <-. specialize (fun Hl => IH _ _ _ Hl Hsf2 Hsd Hr) as IH'. cbn in IH'.
    specialize (IH' ltac:(lia)).
    destruct (until_shutdown cmds) as [[handed reply] rest]. by rewrite <- app_assoc in IH'.
  - unfold st_bind at 1 in Hr. destruct (new_admin_envelope call rx1) as [e rx2] eqn:En.
    apply tries_ok in Hr as (l & rx3 & Hp & Hr). unfold pure, st_ret in Hp. injection Hp as Hp <-.
    assert (e = next_ref (shared rx1)) as -> by (by injection En).
    pose proof (stands_for_admin batch rx1 done_ call l Hsf1 Hp) as Hsf2. rewrite En in Hsf2. cbn [snd] in Hsf2.
    injection En as <-. specialize (fun Hl => IH _ _ _ Hl Hsf2 Hsd Hr) as IH'. cbn in IH'.
    specialize (IH' ltac:(lia)).
    destruct (until_shutdown cmds) as [[handed reply] rest]. by rewrite <- app_assoc in IH'.
  - assert (Hsf2 : stands_for {| envelopes := envelopes batch; admin_batch := admin_batch batch;
      draining := true; shutting_down := shutting_down batch |} rx1 (done_ ++ [Drain])).
    { destruct Hsf1 as [H1 H2 H3 H4 H5]. constructor; cbn; rewrite ?omap_app, ?app_nil_r; try done.
      rewrite existsb_app. cbn. by rewrite orb_true_r. }
    specialize (fun Hl => IH _ _ _ Hl Hsf2 Hsd Hr) as IH'. cbn in IH'.
    specialize (IH' ltac:(lia)).
    destruct (until_shutdown cmds) as [[handed reply] rest]. by rewrite <- app_assoc in IH'.
  - injection Hr as <- <-. rewrite app_nil_r. cbn. split_and!; try done. by destruct Hsf1.
Qed.

(** C16: one pass hands over every command queued before a shutdown, each exactly once
    and in order: the calls in envelopes of their own, ready to be executed once, the
    admin requests in theirs, and whether Envoy has begun draining.  A shutdown is
    noted with the reply it wants, and what came after it is left in the queue.  What is
    sent while the pass runs and is still found by it counts as queued before it. *)
Theorem receive_hands_over (connected : bool) (rx rx' : Reactor) batch :
  receive_all connected rx = (Ok batch, rx') ->
  let '(handed, reply, rest) := until_shutdown (commands (shared rx)) in
  Forall2 (holds_call (bridge rx')) (envelopes batch) (omap call_of handed) /\ NoDup (envelopes batch)
  /\ Forall2 (holds_admin (bridge rx')) (default [] (admin_batch batch)) (omap admin_of handed)
  /\ draining batch = existsb is_drain handed
  /\ commands (shared rx') = rest
  /\ shutting_down batch = match reply with Some _ => true | None => negb connected end
  /\ shutdown_reply (bridge rx') = match reply with Some n => Some n | None => shutdown_reply (bridge rx) end.
Proof.
  intros Hr. assert (Hnone : stands_for batch_new rx []) by (by constructor; try constructor).
  pose proof (receive_spec _ _ _ _ [] _ _ (Nat.lt_succ_diag_r _) Hnone eq_refl Hr) as Hs.
  destruct (until_shutdown _) as [[handed reply] rest]. destruct Hs as ([H1 H2 H3 H4 H5] & H6 & H7 & H8).
  by split_and!.
Qed.

End drain.

(** A call, the drain announcement, a shutdown, and a call too late. *)
Definition queued_example : Reactor :=
  let call n := Call {| call_request := Request_new "GET" "/" [];
                        call_handle := {| stream := Direct n; waker := {| waker_filter := n; waker_event := 1 |} |};
                        permit := {| held := 1 |} |} in
  {| bridge := {| shutdown_reply := None; thread_object_id := 7;
                  heartbeat := {| started_at := 0; last_pass_ms := 0 |}; body_class := 8;
                  fiber_envelopes := ∅; admin_envelopes := ∅; answers := [] |};
     shared := set_commands (world_new 4) [call 1; Drain; Shutdown 9; call 2] |}.

Lemma receive_hands_over_witness : exists batch rx',
  receive_all (H := example_ruby) true queued_example = (Ok batch, rx')
  /\ shutdown_reply (bridge rx') = Some 9 /\ draining batch = true /\ length (commands (shared rx')) = 1%nat.
Proof.
  destruct (receive_all (H := example_ruby) true queued_example) as [[batch|e] rx'] eqn:E; [|discriminate E].
  destruct (receive_hands_over true queued_example rx' batch E) as (_ & _ & _ & H1 & H2 & _ & H3).
  exists batch, rx'. rewrite H1, H2, H3. repeat split.
Defined.
