(* ===== verification/Admission.v ===== *)
(** * Admission over the life of the runtime ([src/src/fiber.rs], [src/src/budget.rs])

    A permit travels with its call: through the command queue, an envelope and an
    execution, or into whatever drops it on the way.  The steps below are the
    runtime's own operations, in any order; what else the threads do to the store is
    one step that leaves commands and admission alone. *)

From S2P Require Import Prelude RustStr Types Budget Stream Upstream Wake Request World Client Ruby Chunks RubyExample Rack Fiber Drain.

Local Open Scope N_scope.

(** The reactor and the calls its fibers are executing. *)
Record Runtime := { reactor : Reactor; executing : list FiberCall }.

(** The calls in envelopes no fiber has taken from. *)
Definition enveloped (m : gmap N FiberEnvelope) : list FiberCall :=
  omap (fun '(_, env) => env_call env) (map_to_list m).

(** Every call whose permit is out. *)
Definition live_calls (rt : Runtime) : list FiberCall :=
  omap call_of (commands (shared (reactor rt)))
  ++ enveloped (fiber_envelopes (bridge (reactor rt))) ++ executing rt.

(** The VM frees an envelope, and with it a call nobody took. *)
Definition free_envelope (e : N) : St Reactor unit := fun rx =>
  match fiber_envelopes (bridge rx) !! e with
  | Some env =>
      (tt, {| bridge := set_fiber_envelopes (bridge rx) (delete e (fiber_envelopes (bridge rx)));
              shared := match env_call env with
                        | Some call => drop_command (Call call) (shared rx)
                        | None => shared rx
                        end |})
  | None => (tt, rx)
  end.

Definition with_commands (rx : Reactor) (l : list FiberCommand) : Reactor :=
  {| bridge := bridge rx; shared := set_commands (shared rx) l |}.

Definition is_shutdown (c : FiberCommand) : bool :=
  match c with
  | Shutdown _ => true
  | _ => false
  end.

(** ** Counting permits *)

(** [calls] hold one permit each, of the [limit] there are. *)
Record counted (limit : N) (calls : list FiberCall) (a : Ceiling) : Prop := {
  ct_used : used a = len calls;
  ct_held : Forall (fun c => held (permit c) = 1) calls;
  ct_capacity : capacity a = limit;
  ct_limit : len calls <= limit;
}.

Lemma counted_perm limit l k a : l ≡ₚ k -> counted limit l a -> counted limit k a.
Proof.
  intros Hp [H1 H2 H3 H4]. assert (Hl : len l = len k) by (unfold len; by rewrite Hp).
  constructor; rewrite <- ?Hl; try done. by rewrite <- Hp.
Qed.

#[export] Instance counted_proper limit : Proper (Permutation ==> eq ==> iff) (counted limit).
Proof. intros l k Hp a _ <-. split; by apply counted_perm. Qed.

Lemma counted_ok limit calls a : limit < width64 -> counted limit calls a -> budget_ok a.
Proof. intros Hl [H1 H2 H3 H4]. split; lia. Qed.

Lemma counted_acquire limit calls call a a' :
  limit < width64 -> counted limit calls a ->
  try_acquire a 1 = (Some (permit call), a') -> counted limit (call :: calls) a'.
Proof.
  intros Hlim Hc Ha. pose proof (counted_ok _ _ _ Hlim Hc) as Hok. destruct Hc as [H1 H2 H3 H4].
  apply (try_acquire_some a 1 a' _ Hok) in Ha as (Hh & Hu & Hcap & Hle).
  constructor; rewrite ?len_cons; [lia|by constructor|congruence|lia].
Qed.

Lemma counted_release limit calls call a :
  limit < width64 -> counted limit (call :: calls) a -> counted limit calls (drop_lease (permit call) a).
Proof.
  intros Hlim Hc. pose proof (counted_ok _ _ _ Hlim Hc) as Hok. destruct Hc as [H1 H2 H3 H4].
  apply Forall_cons_1 in H2 as [Hh H2]. rewrite len_cons in *.
  constructor; [|done|done|lia]. rewrite drop_lease_used by (done || lia). lia.
Qed.

(** Releasing what was just acquired leaves no trace. *)
Lemma acquire_release a lease a' :
  budget_ok a -> try_acquire a 1 = (Some lease, a') -> drop_lease lease a' = a.
Proof.
  intros Hok Ha. pose proof (try_acquire_some _ _ _ _ Hok Ha) as (Hh & Hu & Hcap & Hroom).
  destruct Hok as [_ Hw]. destruct a' as [u c], a as [u0 c0]. cbn in *. unfold drop_lease, sub_used. cbn.
  rewrite Hh, Hcap. f_equal. replace (u + width64 - 1) with (u0 + 1 * width64) by lia.
  rewrite N.Div0.mod_add. apply N.mod_small. lia.
Qed.

(** Dropping commands releases the calls among them. *)
Lemma counted_drop limit l calls w :
  limit < width64 -> counted limit (omap call_of l ++ calls) (admission w) ->
  counted limit calls (admission (drop_commands l w)).
Proof.
  intros Hlim. unfold drop_commands. revert calls. induction l as [|c l IH]; intros calls Hc; [done|].
  cbn [foldr]. destruct c as [call|call| |reply]; cbn in Hc; try by apply IH.
  cbn [drop_command admission set_admission]. apply counted_release; [done|]. apply IH.
  eapply counted_perm; [|exact Hc]. apply Permutation_middle.
Qed.

Lemma drop_commands_quiet l w :
  commands (drop_commands l w) = commands w /\ next_ref (drop_commands l w) = next_ref w.
Proof. unfold drop_commands. induction l as [|[call|call| |reply] l [IH1 IH2]]; cbn; by rewrite ?IH1, ?IH2. Qed.

(** ** Envelopes *)

Lemma enveloped_insert m e env :
  m !! e = None -> enveloped (<[e := env]> m) ≡ₚ option_list (env_call env) ++ enveloped m.
Proof.
  intros He. unfold enveloped. rewrite map_to_list_insert by done. cbn. by destruct (env_call env).
Qed.

Lemma enveloped_delete m e env :
  m !! e = Some env -> enveloped m ≡ₚ option_list (env_call env) ++ enveloped (delete e m).
Proof.
  intros He. rewrite <- enveloped_insert by apply lookup_delete_eq. by rewrite insert_delete_id.
Qed.

Lemma enveloped_take m e env env' :
  m !! e = Some env -> env_call env' = None ->
  enveloped m ≡ₚ option_list (env_call env) ++ enveloped (<[e := env']> m).
Proof.
  intros He Hn. rewrite (enveloped_delete m e env) by done. f_equiv.
  rewrite <- (insert_delete_eq m e env'), enveloped_insert by apply lookup_delete_eq. by rewrite Hn.
Qed.

Section admission.
Context `{RubyVM}.

Inductive runtime_step : Runtime -> Runtime -> Prop :=
| step_submit rx k request handle :
    runtime_step {| reactor := rx; executing := k |}
      {| reactor := (in_shared (submit request handle) rx).2; executing := k |}
| step_send rx k c :
    call_of c = None ->
    runtime_step {| reactor := rx; executing := k |}
      {| reactor := (in_shared (send_and_wake c) rx).2; executing := k |}
| step_pass rx k connected :
    runtime_step {| reactor := rx; executing := k |}
      {| reactor := (receive_all connected rx).2; executing := k |}
| step_begin rx k e call :
    (take_call e (bridge rx)).1 = Some call ->
    runtime_step {| reactor := rx; executing := k |}
      {| reactor := (in_bridge (take_call e) rx).2; executing := k ++ [call] |}
| step_end rx k call k' :
    runtime_step {| reactor := rx; executing := k ++ call :: k' |}
      {| reactor := (in_shared (release (permit call)) rx).2; executing := k ++ k' |}
| step_free rx k e :
    runtime_step {| reactor := rx; executing := k |} {| reactor := (free_envelope e rx).2; executing := k |}
| step_stop rx k :
    runtime_step {| reactor := rx; executing := k |}
      {| reactor := (in_shared drop_receiver rx).2; executing := k |}
| step_failed rx k listening error handled rest :
    commands (shared rx) = handled ++ rest ->
    (existsb is_shutdown handled = true -> rest = []) ->
    runtime_step {| reactor := rx; executing := k |}
      {| reactor := (retain_failed_runtime listening error handled (with_commands rx rest)).2; executing := k |}
| step_other rx k w :
    commands w = commands (shared rx) -> admission w = admission (shared rx) ->
    next_ref (shared rx) <= next_ref w ->
    runtime_step {| reactor := rx; executing := k |}
      {| reactor := {| bridge := bridge rx; shared := w |}; executing := k |}.

(** ** The invariant *)

Record admitted (limit : N) (rt : Runtime) : Prop := {
  ad_counted : counted limit (live_calls rt) (admission (shared (reactor rt)));
  ad_fresh : forall e, next_ref (shared (reactor rt)) <= e -> fiber_envelopes (bridge (reactor rt)) !! e = None;
}.

(** The calls a reactor holds besides those being executed. *)
Definition held_calls (rx : Reactor) : list FiberCall :=
  omap call_of (commands (shared rx)) ++ enveloped (fiber_envelopes (bridge rx)).

Definition envelopes_fresh (rx : Reactor) : Prop :=
  forall e, next_ref (shared rx) <= e -> fiber_envelopes (bridge rx) !! e = None.

(** A pass moves calls from the queue to envelopes and changes nothing else that counts,
    whether or not Ruby raises on the way. *)
Lemma receive_keeps fuel connected batch rx res rx' :
  envelopes_fresh rx -> receive fuel connected batch rx = (res, rx') ->
  held_calls rx' ≡ₚ held_calls rx /\ admission (shared rx') = admission (shared rx) /\ envelopes_fresh rx'.
Proof.
  revert batch rx. induction fuel as [|fuel IH]; intros batch rx Hf Hr; [by injection Hr as _ <-|].
  cbn [receive] in Hr. unfold st_bind at 1, in_shared, pop_command in Hr.
  destruct (commands (shared rx)) as [|c cmds] eqn:Ec; [injection Hr as _ <-; by destruct rx|].
  set (rx1 := {| bridge := bridge rx; shared := set_commands (shared rx) cmds |}) in *.
  assert (Hkept : forall rx2, held_calls rx2 ≡ₚ held_calls rx -> envelopes_fresh rx2 ->
    admission (shared rx2) = admission (shared rx) -> forall batch2,
    receive fuel connected batch2 rx2 = (res, rx') ->
    held_calls rx' ≡ₚ held_calls rx /\ admission (shared rx') = admission (shared rx) /\ envelopes_fresh rx').
  { intros rx2 H1 H2 H3 batch2 Hr2. destruct (IH batch2 rx2 H2 Hr2) as (H4 & H5 & H6).
    split_and!; [by rewrite H4|congruence|done]. }
  destruct c as [call|call| |reply].
  - unfold st_bind at 1 in Hr. unfold new_fiber_envelope in Hr.
    assert (H1 : held_calls (new_fiber_envelope call rx1).2 ≡ₚ held_calls rx).
    { unfold held_calls. rewrite Ec. cbn. rewrite enveloped_insert by (apply Hf; lia). cbn.
      by rewrite <- Permutation_middle. }
    assert (H2 : envelopes_fresh (new_fiber_envelope call rx1).2).
    { intros e He. cbn in He |- *. rewrite lookup_insert_ne by lia. apply Hf. lia. }
    cbn -[receive push_envelope] in Hr, H1, H2. unfold tries, pure, st_ret in Hr.
    destruct (push_envelope _ _) as [l|error]; [by refine (Hkept _ _ _ _ _ Hr)|]. injection Hr as _ <-. by split_and!.
  - assert (H1 : held_calls (new_admin_envelope call rx1).2 ≡ₚ held_calls rx).
    { unfold held_calls. rewrite Ec. done. }
    assert (H2 : envelopes_fresh (new_admin_envelope call rx1).2).
    { intros e He. cbn in He |- *. apply Hf. lia. }
    unfold st_bind at 1 in Hr. unfold new_admin_envelope in Hr.
    cbn -[receive push_envelope] in Hr, H1, H2. unfold tries, pure, st_ret in Hr.
    destruct (push_envelope _ _) as [l|error]; [by refine (Hkept _ _ _ _ _ Hr)|]. injection Hr as _ <-. by split_and!.
  - eapply (Hkept rx1); [|done..|exact Hr]. unfold held_calls. by rewrite Ec.
  - injection Hr as _ <-. split_and!; [|done..]. unfold held_calls. cbn. by rewrite Ec.
Qed.

Lemma on_queue_keeps {A} r (m : St ResponseStream A) w :
  commands (on_queue r m w).2 = commands w /\ admission (on_queue r m w).2 = admission w
  /\ next_ref (on_queue r m w).2 = next_ref w.
Proof.
  destruct r as [n|c|c]; cbn [on_queue]; unfold on_channel, on_response, on_request; by destruct (m _).
Qed.

Lemma drop_receiver_counted limit calls w :
  limit < width64 -> counted limit (omap call_of (commands w) ++ calls) (admission w) ->
  counted limit calls (admission (drop_receiver w).2).
Proof. intros Hlim Hc. by apply counted_drop. Qed.

(** A failed runtime releases the call of every command it takes. *)
Lemma retain_keeps listening error handled rx res rx' limit others :
  limit < width64 ->
  retain_failed_runtime listening error handled rx = (res, rx') ->
  counted limit (omap call_of handled ++ omap call_of (commands (shared rx)) ++ others) (admission (shared rx)) ->
  fiber_envelopes (bridge rx') = fiber_envelopes (bridge rx) /\ next_ref (shared rx') = next_ref (shared rx)
  /\ counted limit (omap call_of (commands (shared rx')) ++ others) (admission (shared rx')).
Proof.
  intros Hlim. revert rx. induction handled as [|c handled IH]; intros rx Hr Hc; [by injection Hr as _ <-|].
  cbn [retain_failed_runtime] in Hr. destruct c as [call|call| |reply].
  - unfold st_bind, in_shared, wake_handle, release, modify in Hr.
    destruct (on_queue_keeps (stream (call_handle call)) (push_failure error) (shared rx)) as (H1 & H2 & H3).
    destruct (on_queue _ _ (shared rx)) as [p w]. cbn [fst snd bridge shared] in *.
    destruct (IH _ Hr) as (H4 & H5 & H6); cbn [bridge shared next_ref commands admission set_admission set_posted] in *.
    + rewrite H1, H2. by apply counted_release.
    + by rewrite H4, H5, H3.
  - unfold st_bind, in_bridge, send_answer in Hr.
    destruct (listening (admin_reply call)); by destruct (IH _ Hr Hc) as (H4 & H5 & H6).
  - by apply IH.
  - unfold st_bind, in_bridge, in_shared, send_answer, modify, st_ret in Hr.
    assert (Hd : let w := (drop_receiver (drop_commands handled (shared rx))).2 in
      commands w = [] /\ next_ref w = next_ref (shared rx) /\ counted limit others (admission w)).
    { cbv zeta. destruct (drop_commands_quiet handled (shared rx)) as [H1 H2]. split_and!; [done| |].
      - cbn [drop_receiver snd next_ref]. destruct (drop_commands_quiet (commands (drop_commands handled (shared rx)))
          (drop_commands handled (shared rx))) as [_ ->]. done.
      - apply drop_receiver_counted; [done|]. rewrite H1. by apply counted_drop. }
    destruct Hd as (H1 & H2 & H3).
    assert (fiber_envelopes (bridge rx') = fiber_envelopes (bridge rx)
      /\ shared rx' = (drop_receiver (drop_commands handled (shared rx))).2) as [H4 ->].
    { destruct (listening reply); by injection Hr as _ <-. }
    by rewrite H1.
Qed.

Lemma submit_counted limit request handle w others :
  limit < width64 -> counted limit (omap call_of (commands w) ++ others) (admission w) ->
  counted limit (omap call_of (commands (submit request handle w).2) ++ others) (admission (submit request handle w).2)
  /\ next_ref (submit request handle w).2 = next_ref w.
Proof.
  intros Hlim Hc. unfold submit. destruct (try_acquire (admission w) 1) as [[lease|] a] eqn:Ea.
  - set (call := {| call_request := request; call_handle := handle; permit := lease |}).
    assert (Hc' : counted limit (call :: omap call_of (commands w) ++ others) a) by (by eapply counted_acquire).
    unfold send_and_wake, signal_runtime. cbn [receiving set_admission].
    destruct (receiving w); cbn [snd].
    + destruct (signal _ _) as [r s]. cbn. split; [|done]. rewrite omap_app. cbn.
      eapply counted_perm; [|exact Hc']. rewrite <- app_assoc. apply Permutation_middle.
    + cbn. split; [|done]. by apply (counted_release limit _ call) in Hc'.
  - apply try_acquire_none in Ea as [-> _]; [done|by eapply counted_ok].
Qed.

Lemma send_counted c w :
  call_of c = None ->
  omap call_of (commands (send_and_wake c w).2) = omap call_of (commands w)
  /\ admission (send_and_wake c w).2 = admission w /\ next_ref (send_and_wake c w).2 = next_ref w.
Proof.
  intros Hn. unfold send_and_wake, signal_runtime. destruct (receiving w).
  - destruct (signal _ _) as [r s]. cbn. rewrite omap_app. cbn. rewrite Hn. by rewrite app_nil_r.
  - by destruct c.
Qed.

Lemma admitted_step limit rt rt' :
  limit < width64 -> runtime_step rt rt' -> admitted limit rt -> admitted limit rt'.
Proof.
  intros Hlim Hs [Hc Hf]. unfold live_calls in Hc.
  destruct Hs as [rx k request handle|rx k c Hn|rx k connected|rx k e call Ht|rx k call k'|rx k e|rx k
    |rx k listening error handled rest Hcmds Hrest|rx k w H1 H2 H3]; cbn [reactor executing] in Hc, Hf.
  - destruct (submit_counted limit request handle (shared rx) _ Hlim Hc) as [H1 H2].
    unfold in_shared. destruct (submit request handle (shared rx)) as [r w]. cbn in *.
    constructor; unfold live_calls; cbn; [done|]. by rewrite H2.
  - destruct (send_counted c (shared rx) Hn) as (H1 & H2 & H3). unfold in_shared.
    destruct (send_and_wake c (shared rx)) as [r w]. cbn in *.
    constructor; unfold live_calls; cbn; [by rewrite H1, H2|by rewrite H3].
  - destruct (receive_all connected rx) as [res rx'] eqn:Er. cbn [snd].
    destruct (receive_keeps _ _ _ _ _ _ Hf Er) as (H1 & H2 & H3).
    constructor; unfold live_calls; cbn [reactor executing]; [|done]. rewrite H2.
    eapply counted_perm; [|exact Hc]. rewrite !app_assoc. f_equiv. by symmetry.
  - unfold in_bridge, take_call in *. destruct (fiber_envelopes (bridge rx) !! e) as [env|] eqn:Ee; [|done].
    cbn [fst] in Ht. constructor; unfold live_calls; cbn.
    + eapply counted_perm; [|exact Hc]. rewrite (enveloped_take _ e env {| env_stream := env_stream env; env_call := None |} Ee eq_refl), Ht. cbn.
      apply Permutation_app_head. by rewrite app_assoc, <- Permutation_cons_append.
    + intros e' He'. rewrite lookup_insert_ne; [by apply Hf|]. intros ->. by rewrite Hf in Ee.
  - constructor; [|done]. unfold live_calls. cbn. apply counted_release; [done|].
    eapply counted_perm; [|exact Hc]. rewrite !app_assoc. by rewrite <- Permutation_middle.
  - unfold free_envelope. destruct (fiber_envelopes (bridge rx) !! e) as [env|] eqn:Ee; [|by constructor].
    rewrite (enveloped_delete _ e env Ee) in Hc. constructor; unfold live_calls; cbn.
    + destruct (env_call env) as [call|]; cbn in Hc |- *; [|done]. apply counted_release; [done|].
      eapply counted_perm; [|exact Hc]. symmetry. apply Permutation_middle.
    + intros e' He'. destruct (decide (e' = e)) as [->|Hne]; [by rewrite lookup_delete_eq|].
      rewrite lookup_delete_ne by done. apply Hf. by destruct (env_call env).
  - constructor; unfold live_calls; cbn [in_shared].
    + unfold in_shared. cbn. by apply drop_receiver_counted.
    + unfold in_shared. cbn. by destruct (drop_commands_quiet (commands (shared rx)) (shared rx)) as [_ ->].
  - destruct (retain_failed_runtime listening error handled (with_commands rx rest)) as [res rx'] eqn:Er.
    rewrite Hcmds, omap_app, <- app_assoc in Hc.
    destruct (retain_keeps _ _ _ _ _ _ limit _ Hlim Er Hc) as (H1 & H2 & H3). cbn in H1, H2, H3.
    constructor; unfold live_calls; cbn [snd reactor executing]; rewrite ?H1, ?H2; done.
  - constructor; unfold live_calls; cbn; [by rewrite H1, H2|]. intros e He. apply Hf. lia.
Qed.

(** A runtime that has been asked nothing yet. *)
Definition idle_runtime (limit : N) (rt : Runtime) : Prop :=
  commands (shared (reactor rt)) = [] /\ fiber_envelopes (bridge (reactor rt)) = ∅
  /\ executing rt = [] /\ admission (shared (reactor rt)) = Budget_new limit.

Lemma idle_admitted limit rt : idle_runtime limit rt -> admitted limit rt.
Proof.
  intros (H1 & H2 & H3 & H4). constructor; [|by rewrite H2].
  unfold live_calls. rewrite H1, H2, H3, H4. constructor; cbn; [done|constructor|done|apply N.le_0_l].
Qed.

(** The last thing an execution does is give its permit back. *)
Lemma run_call_releases b call app_ rack_errors_ reader w :
  exists w', (run_call b call app_ rack_errors_ reader w).2 = (release (permit call) w').2.
Proof.
  unfold run_call, st_bind. destruct (const_get "StringIO" w) as [[string_io|error] w1].
  - destruct (call_streaming _ _ _ _ w1) as [res w2].
    destruct res as [u|error]; cbn [st_ret]; [by exists w2|].
    destruct (on_queue _ _ w2) as [pushed w3]. by eexists.
  - by exists w1.
Qed.

Lemma signal_error interrupts s : (signal interrupts s).1 <> Err Overloaded.
Proof.
  revert s. induction interrupts as [|i rest IH]; intros s; cbn [signal]; destruct (interruptible _ _ s) as [o s'];
    destruct o as [[|[]]| | |]; done.
Qed.

Lemma submit_decides limit live request handle w r w' :
  budget_ok (admission w) -> used (admission w) = live -> capacity (admission w) = limit -> live <= limit ->
  submit request handle w = (r, w') ->
  (r = Err Overloaded <-> live = limit)
  /\ (if (live =? limit) || negb (receiving w) then w' = w
      else commands w' = commands w ++ [Call {| call_request := request; call_handle := handle;
                                                permit := {| held := 1 |} |}]).
Proof.
  intros Hok <- <- Hle. unfold submit. destruct (try_acquire (admission w) 1) as [[lease|] a] eqn:Ea.
  - pose proof (try_acquire_some _ _ _ _ Hok Ea) as (Hh & Hu & Hcap & Hroom).
    rewrite (proj2 (N.eqb_neq _ _)) by lia. cbn [orb].
    unfold send_and_wake, signal_runtime. cbn [receiving set_admission]. destruct (receiving w) eqn:Hr; cbn [negb].
    + destruct (signal _ _) as [r0 s] eqn:Esig. intros [= <- <-]. split.
      * split; [|lia]. intros ->. pose proof (f_equal fst Esig) as Hsig. by apply signal_error in Hsig.
      * destruct lease as [h]. cbn in Hh |- *. by rewrite Hh.
    + intros [= <- <-]. split; [split; [done|lia]|]. cbn [drop_command permit admission set_admission].
      rewrite acquire_release with (1 := Hok) (2 := Ea). by destruct w.
  - pose proof Ea as Ea'. apply try_acquire_none in Ea as [-> Hfull]; [|done]. intros [= <- <-].
    rewrite (proj2 (N.eqb_eq _ _)) by lia. split; [split; [lia|done]|by destruct w].
Qed.

(** C8: through any interleaving of submissions, passes, executions, freed envelopes and
    shutdowns, of a runtime that started or one that failed, the admission count is the
    number of calls that are queued, enveloped or executing, and at most the limit: a
    permit is neither lost nor given back twice.  A submission is refused for overload
    exactly when the limit is reached, and like one to a stopped runtime it then
    changes nothing; any other puts the call at the end of the queue.  An execution
    ends by releasing its own permit. *)
Theorem permits_conserved (limit : N) (start rt : Runtime) :
  limit < width64 -> idle_runtime limit start -> rtc runtime_step start rt ->
  let w := shared (reactor rt) in
  used (admission w) = len (live_calls rt) /\ len (live_calls rt) <= limit
  /\ (forall request handle,
        let '(r, w') := submit request handle w in
        (r = Err Overloaded <-> len (live_calls rt) = limit)
        /\ (if (len (live_calls rt) =? limit) || negb (receiving w) then w' = w
            else commands w' = commands w ++ [Call {| call_request := request; call_handle := handle;
                                                      permit := {| held := 1 |} |}]))
  /\ (forall call app_ rack_errors_ reader, exists w',
        (run_call (bridge (reactor rt)) call app_ rack_errors_ reader w).2 = (release (permit call) w').2).
Proof.
  intros Hlim Hidle Hreach. cbn zeta.
  assert (Had : admitted limit rt).
  { assert (Hstart : admitted limit start) by by apply idle_admitted. clear Hidle.
    induction Hreach as [|x y z Hs _ IH]; [done|]. apply IH. by eapply admitted_step. }
  destruct Had as [Hc _]. pose proof (counted_ok _ _ _ Hlim Hc) as Hok. destruct Hc as [H1 _ H3 H4].
  split_and!; [done..| |intros; apply run_call_releases].
  intros request handle. destruct (submit request handle (shared (reactor rt))) as [r w'] eqn:Es.
  by eapply submit_decides.
Qed.

End admission.

(** Two calls submitted to a runtime that admits two, one taken into execution. *)
Definition quiet_bridge : FiberBridge :=
  {| shutdown_reply := None; thread_object_id := 7; heartbeat := {| started_at := 0; last_pass_ms := 0 |};
     body_class := 8; fiber_envelopes := ∅; admin_envelopes := ∅; answers := [] |}.

Definition idle_example : Runtime :=
  {| reactor := {| bridge := quiet_bridge; shared := world_new 2 |}; executing := [] |}.

Definition example_handle (n : N) : StreamHandle :=
  {| stream := Direct n; waker := {| waker_filter := n; waker_event := 1 |} |}.
Definition example_submit (n : N) : St World (result unit BridgeError) :=
  submit (Request_new "GET" "/" []) (example_handle n).
Definition submitted_once : Reactor := (in_shared (example_submit 1) (reactor idle_example)).2.
Definition submitted_twice : Reactor := (in_shared (example_submit 2) submitted_once).2.
Definition passed : Reactor := (receive_all (H := example_ruby) true submitted_twice).2.
Definition first_call : FiberCall :=
  {| call_request := Request_new "GET" "/" []; call_handle := example_handle 1; permit := {| held := 1 |} |}.

Definition busy_example : Runtime :=
  {| reactor := (in_bridge (take_call 1) passed).2; executing := [] ++ [first_call] |}.

Lemma first_taken : (take_call 1 (bridge passed)).1 = Some first_call.
Proof. by vm_compute. Qed.

Lemma busy_reachable : rtc (runtime_step (H := example_ruby)) idle_example busy_example.
Proof.
  refine (rtc_l _ _ {| reactor := submitted_once; executing := [] |} _ (step_submit _ _ _ _) _).
  refine (rtc_l _ _ {| reactor := submitted_twice; executing := [] |} _ (step_submit _ _ _ _) _).
  refine (rtc_l _ _ {| reactor := passed; executing := [] |} _ (step_pass _ _ true) _).
  exact (rtc_once _ _ (step_begin _ _ _ _ first_taken)).
Qed.

Lemma busy_live : len (live_calls busy_example) = 2.
Proof. by vm_compute. Qed.

Lemma permits_conserved_witness :
  used (admission (shared (reactor busy_example))) = 2
  /\ (example_submit 3 (shared (reactor busy_example))).1 = Err Overloaded.
Proof.
  destruct (permits_conserved (H := example_ruby) 2 idle_example busy_example) as (H1 & _ & H2 & _);
    [reflexivity|by repeat split|apply busy_reachable|].
  rewrite busy_live in H1, H2. split; [exact H1|].
  specialize (H2 (Request_new "GET" "/" []) (example_handle 3)).
  unfold example_submit. destruct (submit _ _ _) as [r w']. apply (proj1 H2). reflexivity.
Defined.
