(* ===== verification/RunnerSpec.v ===== *)
(** * What the reactor's loop promises

    Everything handed over is started once, in order, and has ended when the shutdown is
    acknowledged, with its permit given back; a request whose client is gone is stopped
    at the next pass.  Offloaded work is never left running by a caller that returns. *)

From S2P Require Import Prelude RustStr Types Budget Stream Upstream Wake Request World Client Ruby Chunks RubyExample Rack Fibers Fiber Drain Admission Runner.

Local Open Scope N_scope.

(** Resolving a parked variable makes its fiber ready and touches nothing else. *)
Class QuietResolve `{RubyVM} : Prop :=
  quiet_resolve : forall v w, let w' := (funcall v "resolve" [] w).2 in
    commands w' = commands w /\ admission w' = admission w /\ next_ref w <= next_ref w' /\ cancels_kept w w'.

#[export] Instance example_quiet_resolve : QuietResolve (H := example_ruby).
Proof. intros v w. cbn. split_and!; try done. by intros r. Qed.

(** ** One pass *)

Section pass.
Context `{RubyVM} `{!QuietResolve}.

#[export] Instance cancels_kept_preorder : PreOrder cancels_kept.
Proof. split; [by intros w r|]. intros w1 w2 w3 H1 H2 r Hr. by apply H2, H1. Qed.

(** The store as far as calls and permits go. *)
Record same_calls (w w' : World) : Prop := {
  sc_commands : commands w' = commands w;
  sc_admission : admission w' = admission w;
  sc_refs : next_ref w <= next_ref w';
}.

#[export] Instance same_calls_preorder : PreOrder same_calls.
Proof. split; [by constructor; try lia|]. intros w1 w2 w3 [A1 A2 A3] [B1 B2 B3]. constructor; [congruence..|lia]. Qed.

Lemma resolve_streams_same l w : same_calls w (resolve_streams l w).2.
Proof.
  revert w. induction l as [|r l IH]; intros w; cbn [resolve_streams]; [reflexivity|].
  rewrite bind_run. destruct (on_queue_keeps r unpark w) as (K1 & K2 & K3).
  assert (same_calls w (on_queue r unpark w).2) as Hq by (constructor; [done|done|by rewrite K3]).
  destruct (on_queue r unpark w) as [[v|] w1]; cbn [fst snd] in *; [|by etransitivity].
  unfold tries. pose proof (quiet_resolve v w1) as (F1 & F2 & F3 & _).
  assert (same_calls w1 (funcall v "resolve" [] w1).2) as Hf by done.
  destruct (funcall v "resolve" [] w1) as [[a|e] w2]; cbn [fst snd fails st_ret] in *; [|by etransitivity].
  etransitivity; [exact Hq|]. etransitivity; [exact Hf|]. apply IH.
Qed.

(** Before it receives, a pass changes no envelope and no call. *)
Record undrained (rx rx' : Reactor) : Prop := {
  ud_envelopes : fiber_envelopes (bridge rx') = fiber_envelopes (bridge rx);
  ud_same : same_calls (shared rx) (shared rx');
}.

#[export] Instance undrained_preorder : PreOrder undrained.
Proof. split; [by constructor|]. intros r1 r2 r3 [A1 A2] [B1 B2]. constructor; [congruence|by etransitivity]. Qed.

Definition drained (connected : bool) (rx : Reactor) (res : result Batch MagnusError * Reactor) : Prop :=
  exists rx1, undrained rx rx1 /\ (res = receive_all connected rx1 \/ exists e, res = (Err e, rx1)).

Lemma drained_bind {A} connected (m : St Reactor A) k rx : undrained rx (m rx).2 ->
  drained connected (m rx).2 (k (m rx).1 (m rx).2) -> drained connected rx (st_bind m k rx).
Proof. intros Hm (rx1 & H1 & H2). rewrite bind_run. exists rx1. split; [by etransitivity|done]. Qed.

Lemma drained_tries {A} connected (m : St Reactor (result A MagnusError)) k rx : undrained rx (m rx).2 ->
  (forall a, drained connected (m rx).2 (k a (m rx).2)) -> drained connected rx (tries m k rx).
Proof.
  intros Hm Hk. unfold tries. destruct (m rx) as [[a|e] rx1]; cbn [snd] in *.
  - destruct (Hk a) as (rx2 & H1 & H2). exists rx2. split; [by etransitivity|done].
  - exists rx1. split; [done|]. right. by exists e.
Qed.

Lemma undrained_shared {A} (m : St World A) rx : same_calls (shared rx) (m (shared rx)).2 -> undrained rx (in_shared m rx).2.
Proof. unfold in_shared. destruct (m (shared rx)) as [a w]. by constructor. Qed.

Lemma bridge_drain_drained connected rx : drained connected rx (bridge_drain connected rx).
Proof.
  unfold bridge_drain. apply drained_bind; [|apply drained_bind].
  - apply undrained_shared. unfold now. destruct (instants (shared rx)); by constructor.
  - by constructor.
  - apply drained_tries; [|intros _; apply drained_tries].
    + apply undrained_shared. unfold resolve_wakeups. rewrite bind_run.
      etransitivity; [|apply resolve_streams_same]. unfold take_wakeups. by destruct (take_owed _).
    + unfold mapping. set (m := in_shared drain_socket). set (rx2 := (in_shared resolve_wakeups _).2).
      assert (undrained rx2 (m rx2).2) as Hm.
      { apply undrained_shared. unfold drain_socket. by destruct (Wake.drain _ _). }
      by rewrite bind_run.
    + intros _. eexists. split; [reflexivity|by left].
Qed.

(** ** What receiving makes of the envelopes *)

(** The envelopes in [l] are new and hold their calls. *)
Record filled (rx rx' : Reactor) (l : list N) : Prop := {
  fl_new : Forall (fun e => next_ref (shared rx) <= e < next_ref (shared rx')) l;
  fl_nodup : NoDup l;
  fl_others : forall e, e ∉ l -> fiber_envelopes (bridge rx') !! e = fiber_envelopes (bridge rx) !! e;
  fl_calls : forall e, e ∈ l -> exists env call, fiber_envelopes (bridge rx') !! e = Some env /\ env_call env = Some call;
  fl_refs : next_ref (shared rx) <= next_ref (shared rx');
}.

Lemma filled_nil rx rx' : fiber_envelopes (bridge rx') = fiber_envelopes (bridge rx) ->
  next_ref (shared rx) <= next_ref (shared rx') -> filled rx rx' [].
Proof. intros He Hn. split; [apply Forall_nil_2|apply NoDup_nil_2|intros e _; by rewrite He|intros e Hin; by apply not_elem_of_nil in Hin|done]. Qed.

Lemma receive_fills fuel connected batch rx batch' rx' : receive fuel connected batch rx = (Ok batch', rx') ->
  exists l, envelopes batch' = (envelopes batch ++ l)%list /\ filled rx rx' l.
Proof.
  revert batch rx. induction fuel as [|fuel IH]; intros batch rx Hr.
  { injection Hr as <- <-. exists []. rewrite app_nil_r. split; [done|]. by apply filled_nil; [|lia]. }
  cbn [receive] in Hr. unfold st_bind at 1, in_shared, pop_command in Hr.
  destruct (commands (shared rx)) as [|c cmds] eqn:Ec.
  { injection Hr as <- <-. exists []. rewrite app_nil_r. split; [done|]. apply filled_nil; cbn; [done|lia]. }
  set (rx1 := {| bridge := bridge rx; shared := set_commands (shared rx) cmds |}) in *.
  assert (forall b2, receive fuel connected b2 rx1 = (Ok batch', rx') -> envelopes b2 = envelopes batch ->
    exists l, envelopes batch' = (envelopes batch ++ l)%list /\ filled rx rx' l) as Hsame.
  { intros b2 H2 He. destruct (IH _ _ H2) as (l & E1 & [F1 F2 F3 F4 F5]). exists l. rewrite E1, He. by split. }
  destruct c as [call|call| |reply].
  - unfold st_bind at 1, new_fiber_envelope in Hr. cbn -[receive push_envelope] in Hr. unfold tries, pure, st_ret in Hr.
    destruct (push_envelope _ _) as [l0|e0] eqn:Ep; [|done]. destruct (IH _ _ Hr) as (l & E1 & [F1 F2 F3 F4 F5]).
    cbn [bridge shared set_fiber_envelopes fiber_envelopes next_ref set_commands envelopes] in *.
    unfold push_envelope in Ep. destruct (store_fails _ _); [done|]. injection Ep as <-.
    assert (next_ref (shared rx) ∉ l) as Hn by (intros Hin; eapply list.Forall_forall in F1; [|exact Hin]; cbn in F1; lia).
    exists (next_ref (shared rx) :: l). split; [by rewrite E1, <- app_assoc|]. constructor.
    + constructor; [cbn in F5; lia|]. eapply list.Forall_impl; [exact F1|]. cbn. lia.
    + by constructor.
    + intros e He. apply not_elem_of_cons in He as [He1 He2]. rewrite F3 by done. cbn. by rewrite lookup_insert_ne.
    + intros e [-> |He]%elem_of_cons; [|by apply F4]. rewrite F3 by done. cbn. rewrite lookup_insert_eq. by eexists _, _.
    + cbn in F5. lia.
  - unfold st_bind at 1, new_admin_envelope in Hr. cbn -[receive push_envelope] in Hr. unfold tries, pure, st_ret in Hr.
    destruct (push_envelope _ _) as [l0|e0] eqn:Ep; [|done]. destruct (IH _ _ Hr) as (l & E1 & [F1 F2 F3 F4 F5]).
    exists l. split; [done|]. cbn in F1, F3, F4, F5. constructor; try done; [|lia].
    eapply list.Forall_impl; [exact F1|]. cbn. lia.
  - by apply (Hsame _ Hr).
  - injection Hr as <- <-. exists []. rewrite app_nil_r. split; [done|]. apply filled_nil; cbn; [done|lia].
Qed.

Lemma receive_refs fuel connected batch rx : next_ref (shared rx) <= next_ref (shared (receive fuel connected batch rx).2).
Proof.
  revert batch rx. induction fuel as [|fuel IH]; intros batch rx; [done|]. cbn [receive].
  unfold st_bind at 1, in_shared, pop_command. destruct (commands (shared rx)) as [|c cmds]; [done|].
  set (rx1 := {| bridge := bridge rx; shared := set_commands (shared rx) cmds |}).
  destruct c as [call|call| |reply]; [| |apply (IH _ rx1)|done].
  - unfold st_bind at 1, new_fiber_envelope. cbn -[receive push_envelope]. unfold tries, pure, st_ret.
    destruct (push_envelope _ _) as [l|e]; [|cbn; lia]. etransitivity; [|apply IH]. cbn. lia.
  - unfold st_bind at 1, new_admin_envelope. cbn -[receive push_envelope]. unfold tries, pure, st_ret.
    destruct (push_envelope _ _) as [l|e]; [|cbn; lia]. etransitivity; [|apply IH]. cbn. lia.
Qed.

End pass.

(** ** What the log says *)

Definition handed_in (ev : LoopEvent) : list Job := match ev with Handed l => l | _ => [] end.
Definition started_in (ev : LoopEvent) : list Job := match ev with Started j => [j] | _ => [] end.
Definition ended_in (ev : LoopEvent) : list Job := match ev with Ended j => [j] | _ => [] end.
Definition is_ack (ev : LoopEvent) : bool := match ev with Acked _ => true | _ => false end.
Definition pass_failed (ev : LoopEvent) : bool := match ev with DrainRaised _ => true | _ => false end.

Definition handed (s : Runner) : list Job := rn_log s ≫= handed_in.
Definition started (s : Runner) : list Job := rn_log s ≫= started_in.
Definition ended (s : Runner) : list Job := rn_log s ≫= ended_in.

Definition request_of (j : Job) : option N := match j with RequestJob e => Some e | _ => None end.
Definition requests (l : list Job) : list N := omap request_of l.

(** What the loop is still to start. *)
Definition pending (s : Runner) : list Job := match rn_at s with AtSpawn b => batch_jobs b | _ => [] end.

(** The fibers that have not ended, as jobs, calls and entries of [running]. *)
Definition live_jobs (tasks : gmap N Work) : list Job := map (fun '(_, w) => job_of w) (map_to_list tasks).
Definition call_in (w : N * Work) : option FiberCall := match w.2 with RequestWork _ call => Some call | _ => None end.
Definition executing_of (tasks : gmap N Work) : list FiberCall := omap call_in (map_to_list tasks).
Definition entry_in (w : N * Work) : option (N * N) := match w.2 with RequestWork e _ => Some (e, w.1) | _ => None end.
Definition running_of (tasks : gmap N Work) : list (N * N) := omap entry_in (map_to_list tasks).

Lemma keys_of_running tasks : (running_of tasks).*1 = requests (live_jobs tasks).
Proof.
  unfold running_of, requests, live_jobs. induction (map_to_list tasks) as [|[t w] l IH]; [done|].
  destruct w; cbn; by rewrite ?IH.
Qed.

Section tasks.
Implicit Types tasks : gmap N Work.

Lemma insert_task tasks t w : tasks !! t = None -> map_to_list (<[t := w]> tasks) ≡ₚ (t, w) :: map_to_list tasks.
Proof. apply map_to_list_insert. Qed.

Lemma delete_task tasks t w : tasks !! t = Some w -> map_to_list tasks ≡ₚ (t, w) :: map_to_list (delete t tasks).
Proof. intros Ht. by rewrite map_to_list_delete. Qed.

Lemma live_jobs_perm tasks t w l : map_to_list tasks ≡ₚ (t, w) :: l ->
  live_jobs tasks ≡ₚ job_of w :: map (fun '(_, w) => job_of w) l.
Proof. unfold live_jobs. by intros ->. Qed.

Lemma omap_perm {A B} (f : A -> option B) l k : l ≡ₚ k -> omap f l ≡ₚ omap f k.
Proof. by intros ->. Qed.

End tasks.

Lemma filter_entries l k e : l ≡ₚ k -> running_delete e l ≡ₚ running_delete e k.
Proof.
  intros Hp. unfold running_delete. induction Hp as [|[x t] l k Hp IH|[x t] [y u] l|l1 l2 l3 H1 IH1 H2 IH2]; cbn; try done.
  - destruct (negb (x =? e)); [by constructor|done].
  - destruct (negb (x =? e)), (negb (y =? e)); try done. constructor.
  - by etransitivity.
Qed.

Lemma delete_absent e l : e ∉ l.*1 -> running_delete e l = l.
Proof.
  unfold running_delete. induction l as [|[x t] l IH]; [done|]. cbn. intros [H1 H2]%not_elem_of_cons.
  replace (x =? e) with false by (symmetry; apply N.eqb_neq; congruence). cbn. by rewrite IH.
Qed.

(** ** The invariant *)

Definition runtime_of (s : Runner) : Runtime :=
  {| reactor := rn_reactor s; executing := executing_of (rn_tasks s) |}.

Record runner_inv (limit : N) (s : Runner) : Prop := {
  ri_admitted : admitted limit (runtime_of s);
  ri_started : handed s = (started s ++ pending s)%list;
  ri_ended : started s ≡ₚ (ended s ++ live_jobs (rn_tasks s))%list;
  ri_running : rn_running s ≡ₚ running_of (rn_tasks s);
  ri_once : NoDup (requests (handed s));
  ri_refs : Forall (fun e => e < next_ref (shared (rn_reactor s))) (requests (handed s));
  ri_pending : forall e, RequestJob e ∈ pending s ->
    exists env call, fiber_envelopes (bridge (rn_reactor s)) !! e = Some env /\ env_call env = Some call;
  ri_taken : existsb pass_failed (rn_log s) = false -> forall e env call,
    fiber_envelopes (bridge (rn_reactor s)) !! e = Some env -> env_call env = Some call -> RequestJob e ∈ pending s;
  ri_tasks : forall t, rn_next s <= t -> rn_tasks s !! t = None;
  ri_ack : match rn_at s with
           | AtEnd => rn_tasks s = ∅ /\ exists l sent, rn_log s = (l ++ [Acked sent])%list /\ existsb is_ack l = false
           | _ => existsb is_ack (rn_log s) = false
           end;
}.

Definition at_end (a : At) : bool := match a with AtEnd => true | _ => false end.

Ltac log_of part := unfold part; cbn; by rewrite bind_app, ?app_nil_r.

Section steps.
Context `{RubyVM} `{!QuietResolve} (limit : N) (limit_fits : limit < width64).
Implicit Types s : Runner.
#[local] Abbreviation inv := (runner_inv limit).

Lemma log_app s l : rn_log (add_log l s) = (rn_log s ++ l)%list.
Proof. done. Qed.

Lemma ack_open s : inv s -> at_end (rn_at s) = false -> existsb is_ack (rn_log s) = false.
Proof. intros I Ha. pose proof (ri_ack _ _ I) as Hk. by destruct (rn_at s). Qed.

Lemma ack_stays a (l : list LoopEvent) k : at_end a = false -> existsb is_ack l = false -> existsb is_ack k = false ->
  match a with
  | AtEnd => False
  | _ => existsb is_ack (l ++ k) = false
  end.
Proof. intros Ha Hl Hk. rewrite existsb_app, Hl, Hk. by destruct a. Qed.

(** Asking and stopping a fiber changes nothing but the log. *)
Definition asking (ev : LoopEvent) : bool := match ev with StopSent _ => true | _ => false end.

Lemma asking_events l : forallb asking l = true ->
  l ≫= handed_in = [] /\ l ≫= started_in = [] /\ l ≫= ended_in = []
  /\ existsb is_ack l = false /\ existsb pass_failed l = false.
Proof.
  induction l as [|ev l IH]; [done|]. cbn [forallb]. intros [He Hl]%andb_true_iff. destruct (IH Hl) as (H1 & H2 & H3 & H4 & H5).
  destruct ev; try done.
Qed.

Lemma inv_moves s a l : inv s -> at_end (rn_at s) = false -> at_end a = false -> forallb asking l = true ->
  pending (set_at a s) = pending s -> inv (add_log l (set_at a s)).
Proof.
  intros I Ha Hb Hl Hp. destruct (asking_events l Hl) as (L1 & L2 & L3 & L4 & L5).
  pose proof (ack_open s I Ha) as Hk. destruct I as [I1 I2 I3 I4 I5 I6 I7 I8 I9 _].
  assert (handed (add_log l (set_at a s)) = handed s) as E1 by (unfold handed; cbn; by rewrite bind_app, L1, app_nil_r).
  assert (started (add_log l (set_at a s)) = started s) as E2 by (unfold started; cbn; by rewrite bind_app, L2, app_nil_r).
  assert (ended (add_log l (set_at a s)) = ended s) as E3 by (unfold ended; cbn; by rewrite bind_app, L3, app_nil_r).
  assert (pending (add_log l (set_at a s)) = pending s) as E4 by exact Hp.
  constructor; rewrite ?E1, ?E2, ?E3, ?E4; try done.
  - intros Hf. apply I8. cbn in Hf. by rewrite existsb_app, L5, orb_false_r in Hf.
  - cbn [rn_at add_log set_at rn_log]. pose proof (ack_stays a (rn_log s) l Hb Hk L4). by destruct a.
Qed.

(** Other orders of the calls that are executing count the same. *)
Lemma admitted_perm rx k k' : k ≡ₚ k' -> admitted limit {| reactor := rx; executing := k |} ->
  admitted limit {| reactor := rx; executing := k' |}.
Proof.
  intros Hp [Hc Hf]. constructor; [|done]. eapply counted_perm; [|exact Hc]. unfold live_calls. cbn. by rewrite Hp.
Qed.

(** Neither a call nor an envelope changes. *)
Lemma admitted_same rx rx' k : fiber_envelopes (bridge rx') = fiber_envelopes (bridge rx) ->
  same_calls (shared rx) (shared rx') -> admitted limit {| reactor := rx; executing := k |} ->
  admitted limit {| reactor := rx'; executing := k |}.
Proof.
  intros He [S1 S2 S3] [Hc Hf]. constructor; unfold live_calls in *; cbn in *; rewrite He; [by rewrite S1, S2|].
  intros e Hle. apply Hf. lia.
Qed.

Lemma inv_outside s w : inv s -> outside (shared (rn_reactor s)) w ->
  inv (set_reactor {| bridge := bridge (rn_reactor s); shared := w |} s).
Proof.
  intros [I1 I2 I3 I4 I5 I6 I7 I8 I9 I10] Ho.
  assert (admitted limit {| reactor := {| bridge := bridge (rn_reactor s); shared := w |}; executing := executing_of (rn_tasks s) |}
    /\ next_ref (shared (rn_reactor s)) <= next_ref w) as [Ha Hn].
  { unfold runtime_of in I1. inversion Ho as [w0 request handle|w0 c Hc|w0 w1 H1 H2 H3 H4]; subst w0; subst w.
    - pose proof (admitted_step limit _ _ limit_fits (step_submit (rn_reactor s) (executing_of (rn_tasks s)) request handle) I1) as Ha.
      unfold in_shared in Ha. destruct I1 as [Hc _]. unfold live_calls in Hc. cbn [reactor executing] in Hc.
      destruct (submit_counted limit request handle (shared (rn_reactor s)) _ limit_fits Hc) as [_ Hn].
      destruct (submit request handle (shared (rn_reactor s))) as [r w]. cbn [snd] in *. split; [done|by rewrite Hn].
    - assert (call_of c = None) as Hcall by (destruct c as [call| | |]; [by destruct (Hc call)|done..]).
      pose proof (admitted_step limit _ _ limit_fits (step_send (rn_reactor s) (executing_of (rn_tasks s)) c Hcall) I1) as Ha.
      unfold in_shared in Ha. destruct (send_counted c (shared (rn_reactor s)) Hcall) as (_ & _ & Hn).
      destruct (send_and_wake c (shared (rn_reactor s))) as [r w]. cbn [snd] in *. split; [done|by rewrite Hn].
    - split; [|done]. by apply (admitted_step limit _ _ limit_fits (step_other (rn_reactor s) _ w1 H1 H2 H3) I1). }
  constructor; try done. cbn. eapply list.Forall_impl; [exact I6|]. cbn. lia.
Qed.

(** A fiber other than a request's ends. *)
Lemma inv_fiber_ends s t w rx : inv s -> rn_tasks s !! t = Some w -> call_in (t, w) = None ->
  undrained (rn_reactor s) rx -> inv (fiber_ends t (job_of w) (set_reactor rx s)).
Proof.
  intros I Ht Hw [U1 U2]. pose proof I as [I1 I2 I3 I4 I5 I6 I7 I8 I9 I10]. set (s' := fiber_ends _ _ _).
  assert (at_end (rn_at s) = false) as Ha.
  { destruct (rn_at s); try done. destruct I10 as [H10 _]. by rewrite H10, lookup_empty in Ht. }
  pose proof (delete_task _ _ _ Ht) as Hp.
  assert (entry_in (t, w) = None) as Hw' by (by destruct w).
  assert (executing_of (rn_tasks s) ≡ₚ executing_of (delete t (rn_tasks s))) as Hx.
  { unfold executing_of. rewrite Hp. cbn [omap list_omap]. by rewrite Hw. }
  assert (running_of (rn_tasks s) ≡ₚ running_of (delete t (rn_tasks s))) as Hy.
  { unfold running_of. rewrite Hp. cbn [omap list_omap]. by rewrite Hw'. }
  assert (live_jobs (rn_tasks s) ≡ₚ job_of w :: live_jobs (delete t (rn_tasks s))) as Hz by (exact (live_jobs_perm _ t w _ Hp)).
  assert (handed s' = handed s) as E1 by log_of handed.
  assert (started s' = started s) as E2 by log_of started.
  assert (ended s' = ended s ++ [job_of w])%list as E3 by log_of ended.
  constructor; rewrite ?E1, ?E2, ?E3; try done.
  - apply (admitted_perm _ _ _ Hx). by apply (admitted_same (rn_reactor s)).
  - rewrite I3, Hz, <- app_assoc. done.
  - cbn. by rewrite <- Hy.
  - cbn. eapply list.Forall_impl; [exact I6|]. cbn. pose proof (sc_refs _ _ U2). lia.
  - intros e He. cbn. rewrite U1. by apply I7.
  - intros Hf e env call. cbn. rewrite U1. apply I8. cbn in Hf. by rewrite existsb_app, orb_false_r in Hf.
  - intros t' Hle. cbn. destruct (decide (t' = t)) as [-> |Hne]; [by rewrite lookup_delete_eq|]. rewrite lookup_delete_ne by done. by apply I9.
  - pose proof (ack_stays (rn_at s) (rn_log s) [Ended (job_of w)] Ha (ack_open s I Ha) eq_refl) as Hk. cbn. by destruct (rn_at s).
Qed.

(** The keys of [running] are the requests started and not ended, each once. *)
Lemma running_keys s : inv s -> (rn_running s).*1 ≡ₚ requests (live_jobs (rn_tasks s)) /\ NoDup (rn_running s).*1.
Proof.
  intros [I1 I2 I3 I4 I5 I6 I7 I8 I9 I10].
  assert ((rn_running s).*1 ≡ₚ requests (live_jobs (rn_tasks s))) as Hk by (by rewrite I4, keys_of_running).
  split; [done|]. rewrite Hk. rewrite I2 in I5. unfold requests in *. rewrite omap_app in I5.
  apply list.NoDup_app in I5 as [I5 _]. rewrite I3, omap_app in I5. by apply list.NoDup_app in I5 as (_ & _ & I5).
Qed.

(** A request's fiber ends. *)
Lemma inv_request_ends s t e call : inv s -> rn_tasks s !! t = Some (RequestWork e call) -> inv (request_ends t e call s).
Proof.
  intros I Ht. pose proof I as [I1 I2 I3 I4 I5 I6 I7 I8 I9 I10]. set (s' := request_ends _ _ _ _).
  assert (at_end (rn_at s) = false) as Ha.
  { destruct (rn_at s); try done. destruct I10 as [H10 _]. by rewrite H10, lookup_empty in Ht. }
  pose proof (delete_task _ _ _ Ht) as Hp.
  assert (executing_of (rn_tasks s) ≡ₚ call :: executing_of (delete t (rn_tasks s))) as Hx by (unfold executing_of; by rewrite Hp).
  assert (running_of (rn_tasks s) ≡ₚ (e, t) :: running_of (delete t (rn_tasks s))) as Hy by (unfold running_of; by rewrite Hp).
  assert (live_jobs (rn_tasks s) ≡ₚ RequestJob e :: live_jobs (delete t (rn_tasks s))) as Hz.
  { exact (live_jobs_perm _ t (RequestWork e call) _ Hp). }
  assert (handed s' = handed s) as E1 by log_of handed.
  assert (started s' = started s) as E2 by log_of started.
  assert (ended s' = ended s ++ [RequestJob e])%list as E3 by log_of ended.
  destruct (running_keys s I) as [_ Hnd]. rewrite I4, Hy in Hnd. cbn in Hnd. apply list.NoDup_cons in Hnd as [Hnd _].
  constructor; rewrite ?E1, ?E2, ?E3; try done.
  - pose proof (admitted_perm _ _ _ Hx I1) as I1'.
    exact (admitted_step limit _ _ limit_fits (step_end (rn_reactor s) [] call _) I1').
  - rewrite I3, Hz, <- app_assoc. done.
  - cbn. rewrite (filter_entries _ _ e I4), (filter_entries _ _ e Hy).
    unfold running_delete at 1. cbn. rewrite N.eqb_refl. cbn. fold (running_delete e (running_of (delete t (rn_tasks s)))).
    by rewrite delete_absent.
  - intros Hf. apply I8. cbn in Hf. by rewrite existsb_app, orb_false_r in Hf.
  - intros t' Hle. cbn. destruct (decide (t' = t)) as [-> |Hne]; [by rewrite lookup_delete_eq|]. rewrite lookup_delete_ne by done. by apply I9.
  - pose proof (ack_stays (rn_at s) (rn_log s) [Ended (RequestJob e)] Ha (ack_open s I Ha) eq_refl) as Hk. cbn. by destruct (rn_at s).
Qed.

(** A fiber that is no request's starts. *)
Lemma inv_spawn s w b : inv s -> at_end (rn_at s) = false -> call_in (rn_next s, w) = None ->
  pending s = job_of w :: batch_jobs b -> (forall e, job_of w <> RequestJob e) -> inv (set_at (AtSpawn b) (spawn w s)).
Proof.
  intros I Ha Hw Hp Hj. pose proof I as [I1 I2 I3 I4 I5 I6 I7 I8 I9 I10]. set (s' := set_at _ _).
  pose proof (insert_task (rn_tasks s) (rn_next s) w (I9 _ (N.le_refl _))) as Hi.
  assert (entry_in (rn_next s, w) = None) as Hw' by (by destruct w).
  assert (executing_of (rn_tasks s) ≡ₚ executing_of (rn_tasks s')) as Hx.
  { unfold executing_of. cbn. rewrite Hi. cbn [omap list_omap]. by rewrite Hw. }
  assert (running_of (rn_tasks s) ≡ₚ running_of (rn_tasks s')) as Hy.
  { unfold running_of. cbn. rewrite Hi. cbn [omap list_omap]. by rewrite Hw'. }
  assert (live_jobs (rn_tasks s') ≡ₚ job_of w :: live_jobs (rn_tasks s)) as Hz by (exact (live_jobs_perm _ _ _ _ Hi)).
  assert (handed s' = handed s) as E1 by log_of handed.
  assert (started s' = started s ++ [job_of w])%list as E2 by log_of started.
  assert (ended s' = ended s)%list as E3 by log_of ended.
  constructor; rewrite ?E1, ?E2, ?E3; try done.
  - exact (admitted_perm _ _ _ Hx I1).
  - rewrite I2, Hp, <- app_assoc. done.
  - rewrite I3, Hz, <- app_assoc. apply Permutation_app_head. symmetry. apply Permutation_cons_append.
  - by rewrite <- Hy.
  - intros e He. apply I7. rewrite Hp. by right.
  - intros Hf e env call He Hc. cbn in Hf. rewrite existsb_app, orb_false_r in Hf. pose proof (I8 Hf e env call He Hc) as Hin.
    rewrite Hp in Hin. apply elem_of_cons in Hin as [Heq|Hin]; [by destruct (Hj e)|done].
  - intros t Hle. cbn in *. rewrite lookup_insert_ne by lia. apply I9. lia.
  - cbn. rewrite existsb_app, (ack_open s I Ha). done.
Qed.

(** A request's fiber starts: its envelope still holds the call. *)
Lemma inv_spawn_request s e b : inv s -> at_end (rn_at s) = false ->
  pending s = RequestJob e :: batch_jobs b -> inv (set_at (AtSpawn b) (spawn_request e s)).
Proof.
  intros I Ha Hp. pose proof I as [I1 I2 I3 I4 I5 I6 I7 I8 I9 I10].
  destruct (I7 e ltac:(rewrite Hp; by left)) as (env & call & He & Hc).
  pose proof (running_keys s I) as [Hkeys _].
  assert (e ∉ (rn_running s).*1) as Hnew.
  { rewrite Hkeys. rewrite I2, Hp in I5. unfold requests in *. rewrite omap_app in I5. cbn [omap list_omap request_of] in I5.
    apply list.NoDup_app in I5 as (_ & I5 & _). intros Hin. apply (I5 e); [|by left].
    rewrite I3, omap_app. apply elem_of_app. by right. }
  unfold spawn_request, take_call. rewrite He, Hc. set (bridge' := set_fiber_envelopes _ _). cbn [rn_running set_reactor rn_next].
  unfold running_set, runs. rewrite bool_decide_false by exact Hnew. set (s' := set_at _ _).
  pose proof (insert_task (rn_tasks s) (rn_next s) (RequestWork e call) (I9 _ (N.le_refl _))) as Hi.
  assert (executing_of (rn_tasks s) ++ [call] ≡ₚ executing_of (rn_tasks s'))%list as Hx.
  { unfold executing_of. cbn. rewrite Hi. cbn [omap list_omap call_in snd]. symmetry. apply Permutation_cons_append. }
  assert (running_of (rn_tasks s') ≡ₚ (e, rn_next s) :: running_of (rn_tasks s)) as Hy by (unfold running_of; cbn; by rewrite Hi).
  assert (live_jobs (rn_tasks s') ≡ₚ RequestJob e :: live_jobs (rn_tasks s)) as Hz by (exact (live_jobs_perm _ _ _ _ Hi)).
  assert (handed s' = handed s) as E1 by log_of handed.
  assert (started s' = started s ++ [RequestJob e])%list as E2 by log_of started.
  assert (ended s' = ended s)%list as E3 by log_of ended.
  constructor; rewrite ?E1, ?E2, ?E3; try done.
  - assert ((take_call e (bridge (rn_reactor s))).1 = Some call) as Ht by (unfold take_call; by rewrite He).
    pose proof (admitted_step limit _ _ limit_fits (step_begin (rn_reactor s) (executing_of (rn_tasks s)) e call Ht) I1) as Had.
    unfold in_bridge, take_call in Had. rewrite He in Had. exact (admitted_perm _ _ _ Hx Had).
  - rewrite I2, Hp, <- app_assoc. done.
  - rewrite I3, Hz, <- app_assoc. apply Permutation_app_head. symmetry. apply Permutation_cons_append.
  - rewrite Hy, <- I4. symmetry. apply Permutation_cons_append.
  - intros e' He'. cbn. destruct (decide (e' = e)) as [-> |Hne].
    { exfalso. rewrite I2, Hp in I5. unfold requests in I5. rewrite omap_app in I5. cbn [omap list_omap request_of] in I5.
      apply list.NoDup_app in I5 as (_ & _ & I5). apply list.NoDup_cons in I5 as [I5 _]. apply I5.
      apply list_elem_of_omap. by exists (RequestJob e). }
    rewrite lookup_insert_ne by done. apply I7. rewrite Hp. by right.
  - intros Hf e' env' call' He' Hc'. cbn in Hf. rewrite existsb_app, orb_false_r in Hf. cbn in He'.
    destruct (decide (e' = e)) as [-> |Hne].
    { rewrite lookup_insert_eq in He'. injection He' as <-. done. }
    rewrite lookup_insert_ne in He' by done. pose proof (I8 Hf e' env' call' He' Hc') as Hin.
    rewrite Hp in Hin. apply elem_of_cons in Hin as [[= Heq]|Hin]; [done|exact Hin].
  - intros t Hle. cbn in *. rewrite lookup_insert_ne by lia. apply I9. lia.
  - cbn. rewrite existsb_app, (ack_open s I Ha). done.
Qed.

Lemma inv_spawn_next s b : inv s -> rn_at s = AtSpawn b -> inv (spawn_next b s).
Proof.
  intros I Hat. assert (at_end (rn_at s) = false) as Ha by (by rewrite Hat).
  assert (pending s = batch_jobs b) as Hp by (unfold pending; by rewrite Hat).
  unfold spawn_next. destruct (envelopes b) as [|e rest] eqn:Ee.
  2: { apply inv_spawn_request; [done..|]. rewrite Hp. unfold batch_jobs. by rewrite Ee. }
  destruct (default [] (admin_batch b)) as [|a rest] eqn:Eb.
  2: { apply inv_spawn; [done..| |done]. rewrite Hp. unfold batch_jobs. by rewrite Ee, Eb. }
  destruct (draining b) eqn:Ed.
  - apply inv_spawn; [done..| |done]. rewrite Hp. unfold batch_jobs. by rewrite Ee, Eb, Ed.
  - pose proof (inv_moves s (AtSweep (rn_running s).*1 (shutting_down b)) [] I Ha eq_refl eq_refl) as Hm.
    unfold add_log in Hm. cbn [rn_log set_at] in Hm. rewrite app_nil_r in Hm. apply Hm. rewrite Hp. unfold batch_jobs. by rewrite Ee, Eb, Ed.
Qed.

(** A pass counts the same calls, in envelopes now. *)
Lemma receive_admitted connected rx rx' res k : admitted limit {| reactor := rx; executing := k |} ->
  receive_all connected rx = (res, rx') -> admitted limit {| reactor := rx'; executing := k |}.
Proof.
  intros [Hc Hf] Hr. destruct (receive_keeps _ _ _ _ _ _ Hf Hr) as (R1 & R2 & R3).
  constructor; [|done]. unfold live_calls in *. cbn in *. rewrite R2. eapply counted_perm; [|exact Hc].
  rewrite !app_assoc. f_equiv. by symmetry.
Qed.

Lemma requests_of_batch b : requests (batch_jobs b) = envelopes b.
Proof.
  unfold requests, batch_jobs. rewrite !omap_app.
  assert (omap request_of (map RequestJob (envelopes b)) = envelopes b) as -> by (induction (envelopes b) as [|e l IH]; [done|cbn; by rewrite IH]).
  assert (omap request_of (map AdminJob (default [] (admin_batch b))) = []) as -> by (by induction (default [] (admin_batch b))).
  assert (omap request_of (if draining b then [DrainJob] else []) = []) as -> by (by destruct (draining b)).
  by rewrite !app_nil_r.
Qed.

Lemma request_in_batch e b : RequestJob e ∈ batch_jobs b <-> e ∈ envelopes b.
Proof.
  rewrite <- requests_of_batch at 1. unfold requests. rewrite list_elem_of_omap. split.
  - intros Hin. by exists (RequestJob e).
  - intros ([e'| |] & Hin & He); try done. by injection He as ->.
Qed.

Lemma inv_pass_fails s rx : inv s -> rn_at s = AtWait -> admitted limit {| reactor := rx; executing := executing_of (rn_tasks s) |} ->
  next_ref (shared (rn_reactor s)) <= next_ref (shared rx) ->
  forall e, inv (set_at AtJoin (add_log [DrainRaised e] (set_reactor rx s))).
Proof.
  intros I Hat Had Hn e. pose proof (ack_open s I ltac:(by rewrite Hat)) as Hk. destruct I as [I1 I2 I3 I4 I5 I6 I7 I8 I9 I10].
  assert (pending s = []) as Hp by (unfold pending; by rewrite Hat). set (s' := set_at _ _).
  assert (handed s' = handed s) as E1 by log_of handed.
  assert (started s' = started s)%list as E2 by log_of started.
  assert (ended s' = ended s)%list as E3 by log_of ended.
  constructor; rewrite ?E1, ?E2, ?E3; try done.
  - by rewrite I2, Hp.
  - eapply list.Forall_impl; [exact I6|]. cbn. lia.
  - intros e' He'. by apply not_elem_of_nil in He'.
  - cbn. rewrite existsb_app. cbn. by rewrite orb_true_r.
  - cbn. rewrite existsb_app, Hk. done.
Qed.

Lemma inv_pass s connected : inv s -> rn_at s = AtWait -> inv (parent_step connected (fun _ => true) s).
Proof.
  intros I Hat. unfold parent_step. rewrite Hat. pose proof I as [I1 I2 I3 I4 I5 I6 I7 I8 I9 I10].
  pose proof (ack_open s I ltac:(by rewrite Hat)) as Hk.
  destruct (bridge_drain_drained connected (rn_reactor s)) as (rx1 & [U1 U2] & Hd).
  pose proof (admitted_same (rn_reactor s) rx1 _ U1 U2 I1) as Had1. pose proof (sc_refs _ _ U2) as Hn1.
  destruct Hd as [Hd|(e & Hd)]; rewrite Hd; [|by apply inv_pass_fails].
  destruct (receive_all connected rx1) as [res rx] eqn:Er. pose proof (receive_admitted _ _ _ _ _ Had1 Er) as Had.
  pose proof (receive_refs (S (length (commands (shared rx1)))) connected batch_new rx1) as Hn2.
  unfold receive_all in Er. rewrite Er in Hn2. cbn [snd] in Hn2.
  destruct res as [batch|e]; [|apply inv_pass_fails; [done..|lia]].
  destruct (receive_fills _ _ _ _ _ _ Er) as (l & El & [F1 F2 F3 F4 F5]). cbn [envelopes batch_new app] in El. set (s' := set_at _ _).
  assert (pending s = []) as Hp by (unfold pending; by rewrite Hat).
  assert (handed s' = handed s ++ batch_jobs batch)%list as E1.
  { unfold handed. change (rn_log s') with (rn_log s ++ [Handed (batch_jobs batch)])%list. rewrite bind_app. f_equal. apply app_nil_r. }
  assert (started s' = started s)%list as E2 by log_of started.
  assert (ended s' = ended s)%list as E3 by log_of ended.
  assert (requests (handed s') = requests (handed s) ++ l)%list as E4.
  { rewrite E1. unfold requests at 1. rewrite omap_app. fold (requests (handed s)) (requests (batch_jobs batch)).
    by rewrite requests_of_batch, El. }
  constructor; rewrite ?E4, ?E1, ?E2, ?E3; try done.
  - by rewrite I2, Hp, app_nil_r.
  - apply list.NoDup_app. split_and!; [done| |done]. intros e He Hin.
    eapply list.Forall_forall in I6; [|exact He]. eapply list.Forall_forall in F1; [|exact Hin]. cbn in *. lia.
  - apply Forall_app. split; [eapply list.Forall_impl; [exact I6|]; cbn; lia|]. eapply list.Forall_impl; [exact F1|]. cbn. lia.
  - intros e He. cbn in He. apply request_in_batch in He. rewrite El in He. by apply F4.
  - intros Hf e env call He Hc. cbn. apply request_in_batch. rewrite El. destruct (decide (e ∈ l)) as [|Hin]; [done|].
    cbn in He. rewrite F3, U1 in He by done. cbn in Hf. rewrite existsb_app, orb_false_r in Hf.
    pose proof (I8 Hf e env call He Hc) as Hpe. rewrite Hp in Hpe. by apply not_elem_of_nil in Hpe.
  - cbn. rewrite existsb_app, Hk. done.
Qed.

Lemma inv_moved_to s a : inv s -> at_end (rn_at s) = false -> at_end a = false -> pending (set_at a s) = pending s -> inv (set_at a s).
Proof.
  intros I Ha Hb Hp. pose proof (inv_moves s a [] I Ha Hb eq_refl Hp) as Hm.
  unfold add_log in Hm. cbn [rn_log set_at] in Hm. by rewrite app_nil_r in Hm.
Qed.

Lemma inv_parent s connected listening : inv s -> inv (parent_step connected listening s).
Proof.
  intros I. unfold parent_step. destruct (rn_at s) as [|b|[|e rest] shutting|[|e rest]| |] eqn:Hat; try done.
  all: assert (rn_at s = AtEnd \/ at_end (rn_at s) = false) as Ha by (rewrite Hat; auto).
  - pose proof (inv_pass s connected I Hat) as Hp. unfold parent_step in Hp. by rewrite Hat in Hp.
  - by apply inv_spawn_next.
  - destruct Ha as [Ha|Ha]; [by rewrite Hat in Ha|]. apply inv_moved_to; [done..| |]; unfold pending; cbn [rn_at set_at]; rewrite ?Hat; by destruct shutting.
  - destruct Ha as [Ha|Ha]; [by rewrite Hat in Ha|].
    case_match; [apply (inv_moves s _ [StopSent e])|apply inv_moved_to]; try done; unfold pending; cbn [rn_at set_at]; by rewrite Hat.
  - destruct Ha as [Ha|Ha]; [by rewrite Hat in Ha|]. apply inv_moved_to; try done. unfold pending; cbn [rn_at set_at]; by rewrite Hat.
  - destruct Ha as [Ha|Ha]; [by rewrite Hat in Ha|].
    case_match; [apply (inv_moves s _ [StopSent e])|apply inv_moved_to]; try done; unfold pending; cbn [rn_at set_at]; by rewrite Hat.
  - destruct Ha as [Ha|Ha]; [by rewrite Hat in Ha|]. case_bool_decide as Ht; [|done].
    pose proof (ack_open s I Ha) as Hk. destruct I as [I1 I2 I3 I4 I5 I6 I7 I8 I9 I10].
    unfold ack_shutdown, in_bridge. set (res := match shutdown_reply _ with Some _ => _ | None => _ end).
    assert (fiber_envelopes res.2 = fiber_envelopes (bridge (rn_reactor s))) as Hres.
    { unfold res, send_answer. destruct (shutdown_reply _); [|done]. by destruct (listening _). }
    destruct res as [sent b']. cbn [snd] in Hres. set (s' := set_at _ _).
    assert (handed s' = handed s) as E1 by log_of handed.
    assert (started s' = started s)%list as E2 by log_of started.
    assert (ended s' = ended s)%list as E3 by log_of ended.
    assert (pending s' = pending s) as E4 by (unfold pending; cbn [rn_at set_at s']; by rewrite Hat).
    constructor; rewrite ?E1, ?E2, ?E3, ?E4; try done.
    + by apply (admitted_same (rn_reactor s)).
    + intros e He. cbn. rewrite Hres. by apply I7.
    + intros Hf e env call. cbn. rewrite Hres. apply I8. cbn in Hf. by rewrite existsb_app, orb_false_r in Hf.
    + cbn. split; [done|]. by exists (rn_log s), sent.
Qed.

Lemma runner_inv_step s s' : runner_step s s' -> inv s -> inv s'.
Proof.
  intros Hs I. destruct Hs as [s connected listening|s t e call Ht|s t e listening pages Ht|s t Ht|s w Ho].
  - by apply inv_parent.
  - by apply inv_request_ends.
  - apply (inv_fiber_ends s t (AdminWork e)); [done..|]. constructor; unfold admin_handle.
    all: destruct (admin_envelopes _ !! e) as [env|] eqn:Ee; [|done]; destruct (admin_answer _ _) as [[status body]|]; [|done].
    all: unfold admin_reply_, in_bridge; rewrite Ee; destruct (env_reply env) as [reply|]; [|done].
    all: unfold send_answer; by destruct (listening reply).
  - apply (inv_fiber_ends s t DrainWork (rn_reactor s)) in I; [|done..]. exact I.
  - by apply inv_outside.
Qed.

End steps.

(** ** Every pass stops those whose client has gone *)

(** The loop's two rounds over [running]: [true] for the one that stops them all. *)
Definition round (s : Runner) : option (list N * bool) :=
  match rn_at s with
  | AtSweep visits _ => Some (visits, false)
  | AtStop visits => Some (visits, true)
  | _ => None
  end.

Definition in_round (all : bool) (s : Runner) : Prop := exists visits, round s = Some (visits, all).

Definition round_step `{RubyVM} (all : bool) (s s' : Runner) : Prop := runner_step s s' /\ in_round all s /\ in_round all s'.

Definition gone (s : Runner) (e : N) : Prop := (envelope_cancelled e (rn_reactor s)).1 = true.

Section rounds.
Context `{RubyVM}.
Implicit Types s : Runner.

(** Since the round began at [s0]: no request has started, those gone stay so, and one
    that runs has been stopped or is still to be visited. *)
Record rounding (all : bool) (s0 s : Runner) : Prop := {
  rd_running : forall e, e ∈ (rn_running s).*1 -> e ∈ (rn_running s0).*1;
  rd_gone : forall e, gone s0 e -> gone s e;
  rd_log : exists l visits, rn_log s = (rn_log s0 ++ l)%list /\ round s = Some (visits, all)
    /\ forall e, e ∈ (rn_running s).*1 -> all = true \/ gone s0 e -> e ∈ visits \/ StopSent e ∈ l;
}.

Lemma deleted_runs e x l : x ∈ (running_delete e l).*1 -> x ∈ l.*1.
Proof.
  unfold running_delete. induction l as [|[y t] l IH]; [done|]. cbn. destruct (negb (y =? e)); cbn; rewrite !elem_of_cons; intuition.
Qed.

(** Nothing but the loop visits, and what else happens starts nothing. *)
Lemma rounding_rest all s0 s s' ev : rounding all s0 s -> rn_at s' = rn_at s -> rn_log s' = (rn_log s ++ ev)%list ->
  (forall e, e ∈ (rn_running s').*1 -> e ∈ (rn_running s).*1) -> (forall e, gone s e -> gone s' e) -> rounding all s0 s'.
Proof.
  intros [R1 R2 (l & visits & R3 & R4 & R5)] Ha Hl Hr Hg. constructor; [auto..|]. exists (l ++ ev)%list, visits.
  rewrite Hl, R3, <- app_assoc. split_and!; [done|unfold round in *; by rewrite Ha|].
  intros e He Hd. destruct (R5 e (Hr e He) Hd) as [|]; [by left|]. right. apply elem_of_app. by left.
Qed.

Lemma rounding_parent all s0 s connected listening :
  rounding all s0 s -> in_round all (parent_step connected listening s) -> rounding all s0 (parent_step connected listening s).
Proof.
  intros [R1 R2 (l & visits & R3 & R4 & R5)] [visits' Hin]. unfold parent_step, round in *.
  destruct (rn_at s) as [|b|[|e rest] shutting|[|e rest]| |] eqn:Hat; simplify_eq.
  - destruct shutting; by cbn in Hin.
  - assert (forall s', rn_log s' = (rn_log s ++ (if runs e (rn_running s) && (envelope_cancelled e (rn_reactor s)).1 then [StopSent e] else []))%list ->
      rn_running s' = rn_running s -> rn_reactor s' = rn_reactor s -> rn_at s' = AtSweep rest shutting -> rounding false s0 s') as Hgo.
    { intros s' L1 L2 L3 L4. constructor; unfold gone; rewrite ?L2, ?L3; [done..|]. eexists _, rest. rewrite L1, R3, <- app_assoc.
      split_and!; [done|unfold round; by rewrite L4|]. intros x Hx Hd. destruct (R5 x Hx Hd) as [Hv|Hv]; [|right; apply elem_of_app; by left].
      apply elem_of_cons in Hv as [-> |Hv]; [|by left]. right. apply elem_of_app. right.
      unfold runs. rewrite bool_decide_true by done. destruct Hd as [|Hd]; [done|]. rewrite (R2 _ Hd). by left. }
    cbn [rn_running rn_reactor set_at]. destruct (runs e (rn_running s) && (envelope_cancelled e (rn_reactor s)).1) eqn:E; apply Hgo; rewrite ?app_nil_r; done.
  - assert (forall s', rn_log s' = (rn_log s ++ (if runs e (rn_running s) then [StopSent e] else []))%list ->
      rn_running s' = rn_running s -> rn_reactor s' = rn_reactor s -> rn_at s' = AtStop rest -> rounding true s0 s') as Hgo.
    { intros s' L1 L2 L3 L4. constructor; unfold gone; rewrite ?L2, ?L3; [done..|]. eexists _, rest. rewrite L1, R3, <- app_assoc.
      split_and!; [done|unfold round; by rewrite L4|]. intros x Hx Hd. destruct (R5 x Hx Hd) as [Hv|Hv]; [|right; apply elem_of_app; by left].
      apply elem_of_cons in Hv as [-> |Hv]; [|by left]. right. apply elem_of_app. right.
      unfold runs. rewrite bool_decide_true by done. by left. }
    cbn [rn_running set_at]. destruct (runs e (rn_running s)) eqn:E; apply Hgo; rewrite ?app_nil_r; done.
Qed.

Lemma send_and_wake_queue c w r : get_queue (send_and_wake c w).2 r = get_queue w r.
Proof.
  unfold send_and_wake, signal_runtime. destruct (receiving w); [destruct (signal _ _) as [x y]; by destruct r|].
  destruct c as [call| | |]; by destruct r.
Qed.

Lemma outside_gone w w' : outside w w' -> cancels_kept w w'.
Proof.
  intros [w0 request handle|w0 c Hc|w0 w1 H1 H2 H3 H4]; [| |done]; intros r.
  - assert (get_queue (submit request handle w0).2 r = get_queue w0 r) as ->; [|done].
    unfold submit. destruct (try_acquire _ _) as [[lease|] a]; [|by destruct r]. rewrite send_and_wake_queue. by destruct r.
  - by rewrite send_and_wake_queue.
Qed.

Lemma rounding_step all s0 s s' : round_step all s s' -> rounding all s0 s -> rounding all s0 s'.
Proof.
  intros (Hs & _ & Hin) R. destruct Hs as [s connected listening|s t e call Ht|s t e listening pages Ht|s t Ht|s w Ho].
  - by apply rounding_parent.
  - apply (rounding_rest all s0 s _ [Ended (RequestJob e)]); try done. { intros x Hx. by apply deleted_runs in Hx. }
  - apply (rounding_rest all s0 s _ [Ended (AdminJob e)]); try done. intros x Hx. unfold gone, envelope_cancelled in *. cbn in *.
    unfold admin_handle. destruct (admin_envelopes _ !! e) as [env|] eqn:Ee; [|done]. destruct (admin_answer _ _) as [[status body]|]; [|done].
    unfold admin_reply_, in_bridge. rewrite Ee. destruct (env_reply env) as [reply|]; [|done]. unfold send_answer. by destruct (listening reply).
  - by apply (rounding_rest all s0 s _ [Ended DrainJob]).
  - apply (rounding_rest all s0 s _ []); rewrite ?app_nil_r; try done. intros x. unfold gone, envelope_cancelled. cbn.
    destruct (fiber_envelopes _ !! x); [|done]. apply (outside_gone _ _ Ho).
Qed.

End rounds.

(** ** The loop as a whole *)

Section loop.
Context `{RubyVM} `{!QuietResolve}.

Lemma new_inv limit rx : idle_runtime limit {| reactor := rx; executing := [] |} -> runner_inv limit (runner_new rx).
Proof.
  intros Hi. pose proof (idle_admitted limit _ Hi) as Ha. destruct Hi as (_ & H2 & _). cbn in H2.
  constructor; try done.
  - apply NoDup_nil_2.
  - intros e He. by apply not_elem_of_nil in He.
  - intros _ e env call. cbn. by rewrite H2, lookup_empty.
Qed.

Lemma reachable_runner_inv limit rx s : limit < width64 -> idle_runtime limit {| reactor := rx; executing := [] |} ->
  rtc runner_step (runner_new rx) s -> runner_inv limit s.
Proof.
  intros Hl Hi Hr. pose proof (new_inv limit rx Hi) as I. clear Hi.
  induction Hr as [|x y z Hs _ IH]; [done|]. apply IH. by eapply runner_inv_step.
Qed.

Lemma no_calls_enveloped m : (forall e env, m !! e = Some env -> env_call env = None) -> enveloped m = [].
Proof.
  intros Hm. unfold enveloped. assert (Forall (fun p : N * FiberEnvelope => env_call p.2 = None) (map_to_list m)) as Hf.
  { apply list.Forall_forall. intros [e env] Hin. apply elem_of_map_to_list in Hin. by apply (Hm e). }
  induction Hf as [|[e env] l Hx Hf IH]; [done|]. cbn in *. by rewrite Hx.
Qed.

(** C9: the reactor's loop runs what it is handed, once, and leaves nothing behind.
    Whatever clients and workers do and however the fibers take turns, jobs are started
    in the order they were handed over, no request twice; [running] holds exactly the
    requests started and not ended; and the shutdown is acknowledged at most once, last,
    when every job handed over has ended and - unless a pass failed - every permit is
    back but those of the calls queued behind the shutdown. *)
Theorem reactor_leaves_nothing (limit : N) (rx : Reactor) (s : Runner) :
  limit < width64 -> idle_runtime limit {| reactor := rx; executing := [] |} ->
  rtc runner_step (runner_new rx) s ->
  handed s = (started s ++ pending s)%list /\ NoDup (requests (started s))
  /\ NoDup (rn_running s).*1
  /\ (forall e, e ∈ (rn_running s).*1 <-> RequestJob e ∈ started s /\ RequestJob e ∉ ended s)
  /\ match rn_at s with
     | AtEnd =>
         ended s ≡ₚ handed s /\ rn_tasks s = ∅ /\ rn_running s = []
         /\ (exists l sent, rn_log s = (l ++ [Acked sent])%list /\ existsb is_ack l = false)
         /\ (existsb pass_failed (rn_log s) = false ->
             used (admission (shared (rn_reactor s))) = len (omap call_of (commands (shared (rn_reactor s)))))
     | _ => existsb is_ack (rn_log s) = false
     end.
Proof.
  intros Hlim Hidle Hr. pose proof (reachable_runner_inv limit rx s Hlim Hidle Hr) as I.
  destruct (running_keys limit s I) as [Hkeys Hnd]. destruct I as [[I1 _] I2 I3 I4 I5 I6 I7 I8 I9 I10].
  assert (NoDup (requests (started s))) as Honce.
  { unfold requests in *. rewrite I2, omap_app in I5. by apply list.NoDup_app in I5 as [I5 _]. }
  split_and!; [done..| |].
  - intros e. rewrite Hkeys, I3. unfold requests. rewrite list_elem_of_omap, elem_of_app.
    assert (forall l, e ∈ requests l <-> RequestJob e ∈ l) as Hreq.
    { intros l. unfold requests. rewrite list_elem_of_omap. split; [|intros Hin; by exists (RequestJob e)].
      intros ([e'| |] & Hin & He); try done. by injection He as ->. }
    rewrite <- list_elem_of_omap. fold (requests (live_jobs (rn_tasks s))). rewrite Hreq. split; [|intros [[Hin|Hin] Hne]; done].
    intros Hlive. split; [by right|]. intros Hend. unfold requests in Honce. rewrite I3, omap_app in Honce.
    apply list.NoDup_app in Honce as (_ & Hno & _). apply (Hno e); by apply Hreq.
  - destruct (rn_at s) eqn:Hat; try done. destruct I10 as [Ht Hack].
    assert (pending s = []) as Hp by (unfold pending; by rewrite Hat).
    split_and!; [|done| |done|].
    + rewrite I2, I3, Hp, Ht, !app_nil_r. done.
    + apply Permutation_nil_r. rewrite I4, Ht. done.
    + intros Hf. destruct I1 as [Hu _ _ _]. unfold live_calls in Hu. cbn [reactor executing runtime_of] in Hu. rewrite Hu, Ht.
      rewrite no_calls_enveloped; [by rewrite !app_nil_r|]. intros e env He. destruct (env_call env) as [call|] eqn:Ec; [|done].
      pose proof (I8 Hf e env call He Ec) as Hin. rewrite Hp in Hin. by apply not_elem_of_nil in Hin.
Qed.

(** C10: a request whose client has gone does not outlive the next pass.  The round every
    pass makes over [running], in whatever way fibers end and clients leave meanwhile,
    sends a stop to every request that still runs at its end and whose queue was
    cancelled when it began; the round of a shutdown, to every one that still runs. *)
Theorem gone_clients_are_stopped (all : bool) (s0 s : Runner) :
  round s0 = Some ((rn_running s0).*1, all) -> rtc (round_step all) s0 s -> round s = Some ([], all) ->
  exists l, rn_log s = (rn_log s0 ++ l)%list
  /\ forall e, e ∈ (rn_running s).*1 -> e ∈ (rn_running s0).*1 /\ (all = true \/ gone s0 e -> StopSent e ∈ l).
Proof.
  intros Hbegin Hr Hend.
  assert (rounding all s0 s0) as R0.
  { constructor; [done..|]. exists [], (rn_running s0).*1. rewrite app_nil_r. split_and!; [done|done|]. intros e He _. by left. }
  assert (rounding all s0 s) as [R1 R2 (l & visits & R3 & R4 & R5)].
  { clear Hend Hbegin. revert R0. generalize s0 at 1 3. intros s1 R1. revert R1. induction Hr as [|x y z Hs _ IH]; [done|].
    intros R. apply IH. by eapply rounding_step. }
  rewrite Hend in R4. injection R4 as <-. exists l. split; [done|]. intros e He. split; [by apply R1|].
  intros Hd. destruct (R5 e He Hd) as [Hin|]; [|done]. by apply not_elem_of_nil in Hin.
Qed.

(** Left alone, a pass ends: the loop is back at the bridge, or waits for its last
    fibers when it was told to shut down. *)
Definition left_alone connected listening (n : nat) (s : Runner) : Runner := Nat.iter n (parent_step connected listening) s.

Lemma left_alone_then connected listening n m s :
  left_alone connected listening (n + m) s = left_alone connected listening n (left_alone connected listening m s).
Proof. unfold left_alone. by rewrite Nat.iter_add. Qed.

Lemma left_alone_steps connected listening n s : rtc runner_step s (left_alone connected listening n s).
Proof.
  induction n as [|n IH]; [done|]. eapply rtc_r; [exact IH|]. apply step_parent.
Qed.

Definition arrives connected listening (s : Runner) (a : At) : Prop := exists n, rn_at (left_alone connected listening n s) = a.

Lemma arrives_next connected listening s a : arrives connected listening (parent_step connected listening s) a -> arrives connected listening s a.
Proof. intros [n Hn]. exists (n + 1)%nat. by rewrite left_alone_then. Qed.

Lemma stop_ends connected listening visits s : rn_at s = AtStop visits -> arrives connected listening s AtJoin.
Proof.
  revert s. induction visits as [|e visits IH]; intros s Hs; apply arrives_next; unfold parent_step; rewrite Hs; [by exists 0%nat|].
  apply IH. by case_match.
Qed.

Lemma sweep_ends connected listening visits shutting s : rn_at s = AtSweep visits shutting ->
  arrives connected listening s (if shutting then AtJoin else AtWait).
Proof.
  revert s. induction visits as [|e visits IH]; intros s Hs; apply arrives_next; unfold parent_step; rewrite Hs; [|apply IH; by destruct (_ && _)].
  destruct shutting; [by eapply stop_ends|by exists 0%nat].
Qed.

Lemma pass_ends connected listening b s : rn_at s = AtSpawn b ->
  arrives connected listening s (if shutting_down b then AtJoin else AtWait).
Proof.
  remember (length (batch_jobs b)) as n eqn:Hn. revert b s Hn. induction n as [n IH] using lt_wf_ind. intros b s -> Hs.
  apply arrives_next. unfold parent_step. rewrite Hs. unfold spawn_next, batch_jobs in *.
  destruct (envelopes b) as [|e rest] eqn:Ee; [destruct (default [] (admin_batch b)) as [|a rest] eqn:Ea; [destruct (draining b) eqn:Ed|]|].
  2: by eapply sweep_ends.
  all: match goal with |- arrives _ _ (set_at (AtSpawn ?b') ?x) _ => refine (IH _ _ b' (set_at (AtSpawn b') x) eq_refl eq_refl) end.
  all: cbn; rewrite ?length_app, ?length_map; cbn; lia.
Qed.

End loop.

(** ** Examples *)

(** A request is accepted and the runtime told to stop; the fiber is stopped, ends, and
    the stop is acknowledged. *)
Definition runner_example : Runner := runner_new (reactor idle_example).

#[local] Abbreviation parent := (parent_step (H := example_ruby) true (fun _ => true)).

Definition into (s : Runner) (w : World) : Runner := set_reactor {| bridge := bridge (rn_reactor s); shared := w |} s.
Definition one_asked : Runner := into runner_example (example_submit 1 (shared (rn_reactor runner_example))).2.
Definition stop_asked : Runner := into one_asked (send_and_wake (Shutdown 9) (shared (rn_reactor one_asked))).2.
Definition joining : Runner := left_alone (H := example_ruby) true (fun _ => true) 8 stop_asked.
Definition last_ended : Runner := request_ends 0 1 first_call joining.
Definition stopped : Runner := parent last_ended.

Lemma stopped_reachable : rtc (runner_step (H := example_ruby)) runner_example stopped.
Proof.
  apply (rtc_l _ _ one_asked); [apply step_outside; exact (outside_submit _ (Request_new "GET" "/" []) (example_handle 1))|].
  apply (rtc_l _ _ stop_asked); [apply step_outside, (outside_send _ (Shutdown 9)); by intros|].
  transitivity joining; [exact (left_alone_steps true (fun _ => true) 8 stop_asked)|].
  apply (rtc_l _ _ last_ended); [apply step_request_ends; vm_compute; reflexivity|].
  exact (rtc_once _ _ (step_parent last_ended true (fun _ => true))).
Qed.

Lemma reactor_leaves_nothing_witness :
  used (admission (shared (rn_reactor stopped))) = 0
  /\ rn_log stopped = [Handed [RequestJob 1]; Started (RequestJob 1); StopSent 1; Ended (RequestJob 1); Acked true].
Proof.
  assert (rn_at stopped = AtEnd /\ existsb pass_failed (rn_log stopped) = false
    /\ omap call_of (commands (shared (rn_reactor stopped))) = []) as (E1 & E2 & E3) by (vm_compute; auto).
  pose proof (reactor_leaves_nothing (H := example_ruby) 2 (reactor idle_example) stopped eq_refl) as Ht.
  split; [|vm_compute; reflexivity].
  destruct Ht as (_ & _ & _ & _ & Ht); [by repeat split|exact stopped_reachable|].
  rewrite E1 in Ht. destruct Ht as (_ & _ & _ & _ & Ht). rewrite (Ht E2), E3. reflexivity.
Defined.

(** The client leaves before its fiber ends: the pass in hand stops it. *)
Definition client_left : Runner :=
  into one_asked (on_queue (Direct 1) (modify cancel) (shared (rn_reactor one_asked))).2.
Definition sweeping : Runner := left_alone (H := example_ruby) true (fun _ => true) 3 client_left.

Lemma gone_clients_are_stopped_witness :
  (rn_running (parent sweeping)).*1 = [1] /\ exists l, rn_log (parent sweeping) = (rn_log sweeping ++ l)%list /\ StopSent 1 ∈ l.
Proof.
  split; [vm_compute; reflexivity|].
  destruct (gone_clients_are_stopped (H := example_ruby) false sweeping (parent sweeping)) as (l & H1 & H2).
  - vm_compute. reflexivity.
  - apply rtc_once. split; [apply step_parent|]. split; eexists; vm_compute; reflexivity.
  - vm_compute. reflexivity.
  - exists l. split; [exact H1|]. apply (H2 1); [vm_compute; left|right; vm_compute; reflexivity].
Defined.

(** ** Admin pages, hooks, offloading *)

(** A path that is answered, with what status: pages that raise are answered too, unless
    the fiber itself is stopped. *)
Lemma admin_answer_status pages path : (forall route query, pages route query <> Err Stop) ->
  exists status body, admin_answer pages path = Some (status, body) /\ (status = 200 \/ status = 404 \/ status = 500).
Proof.
  intros Hp. unfold admin_answer, admin_page. destruct (split_query path) as [[p q]|]; [|by eexists _, _; split; [reflexivity|auto]].
  destruct (ROUTES (chomp_slash p)) as [route|]; [|by eexists _, _; split; [reflexivity|auto]].
  specialize (Hp route (default ""%string q)). destruct (pages route _) as [json|e]; [by eexists _, _; split; [reflexivity|auto]|].
  destruct e as [c m|e|]; [by eexists _, _; split; [reflexivity|auto]..|done].
Qed.

(** An admin request is answered once, however often its envelope is handled. *)
Lemma admin_answered_once listening pages e env reply rx : (forall route query, pages route query <> Err Stop) ->
  admin_envelopes (bridge rx) !! e = Some env -> env_reply env = Some reply -> listening reply = true ->
  let rx1 := (admin_handle listening pages e rx).2 in
  (exists status body, answers (bridge rx1) = (answers (bridge rx) ++ [Answered reply status body])%list
     /\ (status = 200 \/ status = 404 \/ status = 500))
  /\ forall pages', answers (bridge (admin_handle listening pages' e rx1).2) = answers (bridge rx1).
Proof.
  intros Hp He Hr Hl. destruct (admin_answer_status pages (admin_path (env_request env)) Hp) as (status & body & Ha & Hs).
  set (b1 := set_answers (set_admin_envelopes (bridge rx)
    (<[e := {| env_request := env_request env; env_reply := None |}]> (admin_envelopes (bridge rx))))
    (answers (bridge rx) ++ [Answered reply status body])).
  assert (admin_handle listening pages e rx = (tt, {| bridge := b1; shared := shared rx |})) as ->.
  { unfold admin_handle. rewrite He, Ha. unfold admin_reply_, in_bridge. rewrite He, Hr. unfold send_answer. by rewrite Hl. }
  cbn [snd bridge]. split; [exists status, body; by split|]. intros pages'. unfold admin_handle.
  assert (admin_envelopes b1 !! e = Some {| env_request := env_request env; env_reply := None |}) as E1 by (cbn; by rewrite lookup_insert_eq).
  cbn [bridge]. rewrite E1. destruct (admin_answer pages' _) as [[s' b']|]; [|done].
  unfold admin_reply_, in_bridge. cbn [bridge]. by rewrite E1.
Qed.

Example admin_paths :
  map (fun path => admin_answer (fun _ _ => Ok "{}"%string) path) ["/ruvoy/"; "/ruvoy/gc?compact=1"; "/other"; ""]%string
  = [Some (200, "{}" ++ newline); Some (200, "{}" ++ newline); Some (404, "no such ruvoy endpoint" ++ newline);
     Some (500, "NoMethodError: undefined method 'chomp' for nil" ++ newline)]%string.
Proof. reflexivity. Qed.

(** Every drain hook runs, however the others fail, unless the fiber itself is stopped. *)
Lemma drain_hooks_all_run hooks : Forall (fun hook => hook <> Some Stop) hooks -> lifecycle_drain hooks = (length hooks, None).
Proof.
  induction 1 as [|hook hooks Hh _ IH]; [done|]. cbn [lifecycle_drain length]. rewrite IH.
  destruct hook as [[c m|e|]|]; done.
Qed.

(** A caller of offloaded work returns only once its thread has ended; interrupted before
    that, it raises the first interruption, and otherwise what the work ended with. *)
Lemma offload_waits {A} (work : result A Exn) evs o rest : offload_run work evs = (o, rest) -> o <> Waiting ->
  exists before, evs = (before ++ ThreadEnds :: rest)%list /\ ThreadEnds ∉ before
  /\ o = match before with
         | Interruption e :: _ => Raised e
         | _ => (match work with Ok a => Done a | Err e => Raised e end)
         end.
Proof.
  assert (forall evs rest, join_retry evs = Some rest -> exists before, evs = (before ++ ThreadEnds :: rest)%list /\ ThreadEnds ∉ before) as Hjoin.
  { clear. induction evs as [|[e|] evs IH]; intros rest Hj; [done| |].
    - destruct (IH _ Hj) as (before & -> & Hn). exists (Interruption e :: before). split; [done|]. by apply not_elem_of_cons.
    - injection Hj as ->. exists []. split; [done|apply not_elem_of_nil]. }
  destruct evs as [|[e|] evs]; cbn [offload_run].
  - intros [= <- <-]. done.
  - destruct (join_retry evs) as [rest'|] eqn:Ej; intros [= <- <-]; [|done]. intros _.
    destruct (Hjoin _ _ Ej) as (before & -> & Hn). exists (Interruption e :: before). split_and!; [done|by apply not_elem_of_cons|done].
  - intros [= <- <-] _. exists []. split_and!; [done|apply not_elem_of_nil|done].
Qed.
