(* ===== verification/Probe.v ===== *)
(** * The stability probe ([src/examples/fiber_stability_probe.rs])

    A program that drives the fiber runtime through its client: it keeps so many
    requests of a wave in flight at a time, checks every response, and asks for a
    garbage collection between waves.  The client is the one of [Client], the store is
    the one of [World]; the Ruby thread and its fibers act between the probe's own calls
    and while it waits, by a schedule. *)

From S2P Require Import Prelude RustStr Types Budget Stream StreamTrace Upstream Wake Request World Client Ruby Chunks RubyExample Rack Fiber Drain Admission.
From Stdlib Require Import Strings.String.

Local Open Scope N_scope.

(** ** Errors

    What [main] boxes: an [io::Error] of one of two kinds, a [BridgeError], or the
    channel's own. *)

Inductive ProbeError :=
| InvalidInput (message : string)
| Other (message : string)
| Bridge (error : BridgeError)
| Waiting (error : RecvTimeoutError).

(** ** Settings *)

(** [std::env::var_os]: unset, or set to what may not be UTF-8. *)
Definition Environment := string -> option (option string).

Definition from_env (env : Environment) (name kind : string) (default_ : N)
    (accepts : N -> bool) : result N ProbeError :=
  match env name with
  | None => Ok default_
  | Some value =>
      let? value := ok_or value (InvalidInput (name ++ " must contain valid UTF-8")) in
      let? value := ok_or (parse_uint usize_MAX value) (InvalidInput (name ++ " must be a " ++ kind ++ " integer")) in
      if accepts value then Ok value
      else Err (InvalidInput (name ++ " must be a " ++ kind ++ " integer"))
  end.

Definition positive_env_usize (env : Environment) (name : string) (default_ : N) : result N ProbeError :=
  from_env env name "positive" default_ (fun value => negb (value =? 0)).

Definition non_negative_env_usize (env : Environment) (name : string) (default_ : N) : result N ProbeError :=
  from_env env name "non-negative" default_ (fun _ => true).

Definition MAX_BODY_BYTES : N := 2 * 1024 * 1024.

Record ProbeSettings := {
  waves : N;
  requests_per_wave : N;
  concurrency : N;
  body_bytes : N;
  host_thread_count : N;
}.

(** The first part of [main]. *)
Definition probe_settings (env : Environment) : result ProbeSettings ProbeError :=
  let? waves := positive_env_usize env "RUVOY_PROBE_WAVES" 3 in
  let? requests := positive_env_usize env "RUVOY_PROBE_REQUESTS_PER_WAVE" 1000 in
  let? concurrency := positive_env_usize env "RUVOY_PROBE_CONCURRENCY" 100 in
  let? body_bytes := non_negative_env_usize env "RUVOY_PROBE_BODY_BYTES" 0 in
  let? threads := non_negative_env_usize env "RUVOY_PROBE_HOST_THREADS" 4 in
  if DEFAULT_MAX_INFLIGHT_REQUESTS <? concurrency then
    Err (InvalidInput ("RUVOY_PROBE_CONCURRENCY exceeds runtime limit " ++ show DEFAULT_MAX_INFLIGHT_REQUESTS))
  else if MAX_BODY_BYTES <? body_bytes then
    Err (InvalidInput ("RUVOY_PROBE_BODY_BYTES exceeds " ++ show MAX_BODY_BYTES))
  else
    Ok {| waves := waves; requests_per_wave := requests; concurrency := concurrency;
          body_bytes := body_bytes; host_thread_count := threads |}.

(** ** Idle host threads

    Threads are numbered in the order they are spawned; [spawns] says which [spawn] the
    operating system grants. *)

Inductive HostEvent :=
| Spawned (thread : N)
| Stopping                           (* [stop] is set *)
| Unparked (thread : N)
| Joined (thread : N).

Definition stop_threads (handles : list N) : list HostEvent :=
  (Stopping :: (Unparked <$> handles) ++ (Joined <$> handles))%list.

(** The [for index in 0..count] of [start], [left] indices from [index] on. *)
Fixpoint spawn_threads (spawns : N -> option string) (left_ : nat) (index : N) (handles : list N)
    (log : list HostEvent) : result (list N) ProbeError * list HostEvent :=
  match left_ with
  | O => (Ok handles, log)
  | S left_ =>
      match spawns index with
      | None => spawn_threads spawns left_ (index + 1) (handles ++ [index]) (log ++ [Spawned index])
      | Some error => (Err (Other error), (log ++ stop_threads handles)%list)
      end
  end.

Definition start_host_threads (spawns : N -> option string) (count : N)
    : result (list N) ProbeError * list HostEvent :=
  spawn_threads spawns (N.to_nat count) 0 [] [].

(** [impl Drop for IdleHostThreads] *)
Definition drop_host_threads (handles : list N) (log : list HostEvent) : list HostEvent :=
  (log ++ stop_threads handles)%list.

(** ** Requests and responses *)

Definition probe_request (id : N) (body : bytes) : Request :=
  let with_ name value r := with_header r name value in
  with_ "x-ruvoy-expected-bytes" (into_bytes (show (len body)))
    (with_ "x-ruvoy-probe-id" (into_bytes (show id))
      (with_ "content-length" (into_bytes (show (len body)))
        (with_ "user-agent" (into_bytes "ruvoy-fiber-stability-probe")
          (with_ "accept" (into_bytes "*/*")
            (with_ "host" (into_bytes "127.0.0.1")
              (Request_new "POST" "/benchmark" body)))))).

Definition verify_response (expected_id expected_body_bytes expected_ruby_thread_id : N)
    (response : Response) : result unit ProbeError :=
  let id := show expected_id in
  if negb (resp_status response =? 200) then
    Err (Other ("request " ++ id ++ " returned status " ++ show (resp_status response)))
  else if negb (resp_ruby_thread_object_id response =? expected_ruby_thread_id) then
    Err (Other ("request " ++ id ++ " moved from Ruby thread " ++ show expected_ruby_thread_id ++ " to "
                ++ show (resp_ruby_thread_object_id response)))
  else if negb (bool_decide (header response "x-ruvoy-probe-id" = Some id)) then
    Err (Other ("response probe id mismatch for request " ++ id))
  else if negb (bool_decide (header response "x-request-bytes" = Some (show expected_body_bytes))) then
    Err (Other ("response body size mismatch for request " ++ id))
  else if negb (len (resp_body response) =? 0) then
    Err (Other ("request " ++ id ++ " returned a non-empty body"))
  else Ok tt.

Definition required_header (response : Response) (name : string) : result string ProbeError :=
  ok_or (header response name) (Other ("missing " ++ name ++ " response header")).

(** ** The probe beside the Ruby thread *)

(** What the Ruby thread does: take what was sent to it, and for the call that answers on
    a queue, publish a head, write a chunk, or end it.  One thread runs every fiber, and
    [execute] returns the permit of the call it ended before it does anything else; but
    the probe's thread may run in between. *)
Inductive Doing :=
| Takes
| Answers (queue : N) (head : ResponseHead)
| Writes (queue : N) (chunk : bytes)
| Finishes (queue : N) (failure : option BridgeError).

(** What is sent and received, in order: the ids of the requests the client took or
    refused, and the results. *)
Inductive ProbeEvent :=
| Submitted (id : N)
| Refused_ (id : N) (error : BridgeError)
| Received (id : N) (answer : result Response BridgeError)
| Collecting_ (inflight : N).        (* [client.call] of a wave's end begins *)

Record Probe := {
  store : World;
  collectors : gmap N (N * CollectingResponse);   (* by the queue their waker reads *)
  results : list (N * result Response BridgeError);
  running : list FiberCall;
  finishing : option FiberCall;        (* ended, its permit not yet returned *)
  schedule : list (list Doing);
  log : list ProbeEvent;
}.

Definition set_store (p : Probe) (w : World) : Probe :=
  {| store := w; collectors := collectors p; results := results p; running := running p;
     finishing := finishing p; schedule := schedule p; log := log p |}.
Definition set_running (p : Probe) (l : list FiberCall) : Probe :=
  {| store := store p; collectors := collectors p; results := results p; running := l;
     finishing := finishing p; schedule := schedule p; log := log p |}.
Definition set_finishing (p : Probe) (c : option FiberCall) : Probe :=
  {| store := store p; collectors := collectors p; results := results p; running := running p;
     finishing := c; schedule := schedule p; log := log p |}.
Definition set_schedule (p : Probe) (s : list (list Doing)) : Probe :=
  {| store := store p; collectors := collectors p; results := results p; running := running p;
     finishing := finishing p; schedule := s; log := log p |}.
Definition note (p : Probe) (ev : ProbeEvent) : Probe :=
  {| store := store p; collectors := collectors p; results := results p; running := running p;
     finishing := finishing p; schedule := schedule p; log := log p ++ [ev] |}.

(** The waker of [submit_collected]: it takes what is queued, and its completion sends
    the result on the probe's channel. *)
Definition look (n : N) (p : Probe) : Probe :=
  match collectors p !! n with
  | None => p
  | Some (id, c) =>
      let '(c', w) := on_queue (Direct n) (collect_wake c) (store p) in
      {| store := w; collectors := <[n := (id, c')]> (collectors p);
         results := results p ++ (pair id <$> drop (Datatypes.length (completed c)) (completed c'));
         running := running p; finishing := finishing p; schedule := schedule p; log := log p |}
  end.

(** [handle.stream.push(item); handle.wake()] *)
Definition publish (n : N) (item : StreamItem) (p : Probe) : Probe :=
  look n (set_store p (on_queue (Direct n) (push item) (store p)).2).

(** [drop(call.permit)] *)
Definition released (p : Probe) : Probe :=
  match finishing p with
  | Some call => set_finishing (set_store p (release (permit call) (store p)).2) None
  | None => p
  end.

Definition answers_on (n : N) (call : FiberCall) : bool :=
  bool_decide (stream (call_handle call) = Direct n).

Definition is_running (n : N) (p : Probe) : bool := existsb (answers_on n) (running p).

(** The call that answers on a queue, and the others. *)
Fixpoint take_running (n : N) (l : list FiberCall) : option (FiberCall * list FiberCall) :=
  match l with
  | [] => None
  | call :: l =>
      if answers_on n call then Some (call, l)
      else '(found, rest) ← take_running n l; Some (found, call :: rest)
  end.

Definition does (p : Probe) (d : Doing) : Probe :=
  let p := released p in
  match d with
  | Takes =>
      set_store (set_running p (running p ++ omap call_of (commands (store p)))) (set_commands (store p) [])
  | Answers n head => if is_running n p then publish n (Head head) p else p
  | Writes n chunk => if is_running n p then publish n (Chunk chunk) p else p
  | Finishes n failure =>
      match take_running n (running p) with
      | Some (call, rest) =>
          publish n (match failure with Some e => Failed e | None => End end)
            (set_finishing (set_running p rest) (Some call))
      | None => p
      end
  end.

(** What the Ruby thread gets done before the probe's next step. *)
Definition meanwhile : St Probe unit := fun p =>
  match schedule p with
  | [] => (tt, p)
  | doings :: later => (tt, foldl does (set_schedule p later) doings)
  end.

(** [client.submit_collected(request, move |result| result_tx.send((id, result)))] *)
Definition submit_collected (id : N) (request : Request) : St Probe (result unit BridgeError) := fun p =>
  let n := next_ref (store p) in
  let '(r, w) := new_queue usize_MAX (store p) in
  let '(sent, w) := submit request {| stream := r; waker := {| waker_filter := 0; waker_event := n |} |} w in
  (sent,
    note {| store := w; collectors := <[n := (id, collecting_new)]> (collectors p); results := results p;
            running := running p; finishing := finishing p; schedule := schedule p; log := log p |}
      (match sent with Ok _ => Submitted id | Err e => Refused_ id e end)).

Definition submit_request (id : N) (body : bytes) : St Probe (result unit ProbeError) :=
  do* meanwhile in mapping Bridge (submit_collected id (probe_request id body)).

(** [result_rx.recv_timeout(RESPONSE_TIMEOUT)]: the Ruby thread runs until there is a
    result, or does nothing more in time. *)
Fixpoint waits (later : list (list Doing)) (p : Probe) : result (N * result Response BridgeError) ProbeError * Probe :=
  match results p with
  | (id, answer) :: rest =>
      (Ok (id, answer),
        note {| store := store p; collectors := collectors p; results := rest; running := running p;
                finishing := finishing p; schedule := later; log := log p |} (Received id answer))
  | [] =>
      match later with
      | [] => (Err (Waiting Timeout), set_schedule p [])
      | doings :: later => waits later (foldl does p doings)
      end
  end.

Definition receive_result (body_bytes ruby_thread_id : N) : St Probe (result unit ProbeError) :=
  let?* (id, answer) := (fun p => waits (schedule p) p) in
  let?* response := pure (map_err Bridge answer) in
  pure (verify_response id body_bytes ruby_thread_id response).

(** ** A wave *)

Definition usize_checked (n : N) (error : string) : result N ProbeError :=
  if n <? width64 then Ok n else Err (Other error).

(** [for offset in 0..initial] *)
Definition offsets (initial : N) : list N := N.of_nat <$> seq 0 (N.to_nat initial).

Section wave.
(** What the other threads do while [client.call] waits, and how often it looks before
    its deadline has passed. *)
Context (recv_timeout : Duration -> St World unit) (rounds : nat).
Context (first_id requests ruby_thread_id : N) (body : bytes).

(** [while completed < requests], for the requests not completed. *)
Fixpoint complete (left_ : nat) (submitted completed : N) : St Probe (result unit ProbeError) :=
  match left_ with
  | O => ok tt
  | S left_ =>
      if completed <? requests then
        let?* _ := receive_result (len body) ruby_thread_id in
        if submitted <? requests then
          let?* _ := submit_request (usize_add first_id submitted) body in
          complete left_ (submitted + 1) (completed + 1)
        else complete left_ submitted (completed + 1)
      else ok tt
  end.

Definition client_call (request : Request) : St Probe (result Response ProbeError) := fun p =>
  let p := note p (Collecting_ (inflight_requests (store p))) in
  let '(answer, w) := call_ recv_timeout rounds request {| waker_filter := 0; waker_event := next_ref (store p) |} (store p) in
  (map_err Bridge (default (Err ResponseTimeout) answer), set_store p w).

(** The requests of [run_wave], up to its call for a collection. *)
Definition drive (concurrency : N) : St Probe (result unit ProbeError) :=
  let initial := N.min concurrency requests in
  let?* _ := try_map (fun offset => submit_request (usize_add first_id offset) body) (offsets initial) in
  complete (N.to_nat requests) initial 0.

End wave.

Definition in_store {A} (m : St World A) : St Probe A := fun p =>
  let '(a, w) := m (store p) in (a, set_store p w).

Definition run_wave (recv_timeout : Duration -> St World unit) (rounds : nat)
    (wave requests concurrency : N) (body : bytes) (ruby_thread_id : N)
    : St Probe (result (Duration * Response) ProbeError) :=
  let?* first_id := pure (usize_checked ((wave - 1) * requests) "request id overflow") in
  let* started_at := in_store now in
  let?* _ := drive first_id requests ruby_thread_id body concurrency in
  let?* gc_id := pure (usize_checked (first_id + requests) "GC request id overflow") in
  let?* gc_response := client_call recv_timeout rounds (with_forced_gc (probe_request gc_id [])) in
  let?* _ := pure (verify_response gc_id 0 ruby_thread_id gc_response) in
  let* t := in_store now in
  ok (duration_since t started_at, gc_response).

(** [for wave in 1..=waves] of [main], with what it prints of each wave. *)
Definition run_waves (recv_timeout : Duration -> St World unit) (rounds : nat) (s : ProbeSettings)
    (ruby_thread_id : N) : St Probe (result (list (Duration * string * string)) ProbeError) :=
  let body := repeat "R"%byte (N.to_nat (body_bytes s)) in
  try_map (fun wave =>
    let?* (elapsed, gc_response) :=
      run_wave recv_timeout rounds (N.of_nat wave) (requests_per_wave s) (concurrency s) body ruby_thread_id in
    let?* heap_live_slots := pure (required_header gc_response "x-ruby-heap-live-slots") in
    let?* ruby_call_count := pure (required_header gc_response "x-ruby-call-count") in
    ok (elapsed, heap_live_slots, ruby_call_count))
  (seq 1 (N.to_nat (waves s))).
