(* ===== verification/ProbeSpec.v ===== *)
(** * What a wave of the probe does to the runtime

    The probe's requests are counted against what it has received, whatever the Ruby
    thread gets done in between: the window is never wider than the concurrency, and
    below the runtime's limit no request is refused admission. *)

From S2P Require Import Prelude RustStr Types Budget Stream StreamTrace Upstream Wake Request World Client Ruby Chunks RubyExample Rack Fiber Drain Admission Probe.

Local Open Scope N_scope.

(** ** The invariant *)

Definition sent_id (ev : ProbeEvent) : option N :=
  match ev with
  | Submitted id => Some id
  | _ => None
  end.

Definition received_id (ev : ProbeEvent) : option N :=
  match ev with
  | Received id _ => Some id
  | _ => None
  end.

Definition sent (l : list ProbeEvent) : list N := omap sent_id l.
Definition received (l : list ProbeEvent) : list N := omap received_id l.

Lemma sent_app l k : sent (l ++ k) = (sent l ++ sent k)%list.
Proof. apply omap_app. Qed.

Lemma received_app l k : received (l ++ k) = (received l ++ received k)%list.
Proof. apply omap_app. Qed.

(** The calls whose answer has not ended. *)
Definition unfinished (p : Probe) : list FiberCall :=
  (omap call_of (commands (store p)) ++ running p)%list.

(** A queue that is open, read and empty. *)
Definition between_looks (s : ResponseStream) : Prop :=
  items s = [] /\ paused s = false /\ cancelled s = false /\ ended s = false.

Definition uncompleted (c : CollectingResponse) : Prop := completion c = true /\ completed c = [].

Definition waiting_on (p : Probe) (n : N) : Prop :=
  n < next_ref (store p) /\ between_looks (get_queue (store p) (Direct n))
  /\ exists id c, collectors p !! n = Some (id, c) /\ uncompleted c.

Definition waiting (p : Probe) (call : FiberCall) : Prop :=
  exists n, stream (call_handle call) = Direct n /\ waiting_on p n.

(** The id the probe gave a call. *)
Definition id_of (cs : gmap N (N * CollectingResponse)) (call : FiberCall) : option N :=
  match stream (call_handle call) with
  | Direct n => fst <$> cs !! n
  | _ => None
  end.

Record driving (limit : N) (p : Probe) : Prop := {
  dr_counted : counted limit (unfinished p ++ option_list (finishing p)) (admission (store p));
  dr_waiting : Forall (waiting p) (unfinished p);
  dr_apart : NoDup ((fun call => stream (call_handle call)) <$> unfinished p);
  dr_ids : sent (log p) ≡ₚ
    (received (log p) ++ (fst <$> results p) ++ omap (id_of (collectors p)) (unfinished p))%list;
}.

(** ** One item for one call *)

Lemma collect_item_uncompleted c item :
  uncompleted c ->
  if terminal item then exists r, completed (collect_item c item) = [r] else uncompleted (collect_item c item).
Proof.
  destruct c as [h b k d]. intros [Hc Hd]. cbn in Hc, Hd. subst.
  destruct item as [head|chunk| |e]; cbn; [done|done| |by eexists].
  destruct h; by eexists.
Qed.

(** What a push and the look it causes make of a queue. *)
Lemma push_collect item c s :
  between_looks s ->
  (collect_wake c (push item s).2).1 = collect_item c item
  /\ (terminal item = false -> between_looks (collect_wake c (push item s).2).2).
Proof.
  intros (Hi & Hp & Hc & He).
  assert (Hpush : items (push item s).2 = [item] /\ paused (push item s).2 = false
    /\ cancelled (push item s).2 = false /\ ended (push item s).2 = terminal item).
  { unfold push. rewrite Hc, He. cbn. rewrite Hi. by destruct item. }
  destruct Hpush as (Hi' & Hp' & Hc' & He'). unfold collect_wake.
  destruct (collect_spec (S (List.length (items (push item s).2))) c _ Hp' ltac:(lia)) as (H1 & H2 & H3 & H4 & H5).
  rewrite H1, Hi'. split; [done|]. intros Ht. unfold between_looks. rewrite <- Hi', H4, H5, He'. by split_and!.
Qed.

(** Everything but the queue, the collector and the results. *)
Record beside_queue (p p' : Probe) : Prop := {
  bq_commands : commands (store p') = commands (store p);
  bq_admission : admission (store p') = admission (store p);
  bq_next : next_ref (store p') = next_ref (store p);
  bq_running : running p' = running p;
  bq_finishing : finishing p' = finishing p;
  bq_schedule : schedule p' = schedule p;
  bq_log : log p' = log p;
}.

Lemma publish_spec n item p id c :
  collectors p !! n = Some (id, c) -> uncompleted c -> between_looks (get_queue (store p) (Direct n)) ->
  beside_queue p (publish n item p)
  /\ collectors (publish n item p) = <[n := (id, collect_item c item)]> (collectors p)
  /\ results (publish n item p) = (results p ++ (pair id <$> completed (collect_item c item)))%list
  /\ (terminal item = false -> between_looks (get_queue (store (publish n item p)) (Direct n)))
  /\ (forall m, m <> n -> get_queue (store (publish n item p)) (Direct m) = get_queue (store p) (Direct m)).
Proof.
  intros Hn [_ Hnil] Hq. unfold publish, look. cbn [collectors set_store store]. rewrite Hn.
  set (w1 := (on_queue (Direct n) (push item) (store p)).2).
  pose proof (on_queue_keeps (Direct n) (push item) (store p)) as (A1 & A2 & A3). fold w1 in A1, A2, A3.
  pose proof (on_queue_keeps (Direct n) (collect_wake c) w1) as (B1 & B2 & B3).
  pose proof (get_on_queue (Direct n) (push item) (store p)) as Hq1. fold w1 in Hq1.
  pose proof (get_on_queue (Direct n) (collect_wake c) w1) as Hq2.
  pose proof (on_queue_fst (Direct n) (collect_wake c) w1) as Hc.
  assert (Hne : forall m, m <> n ->
    get_queue (on_queue (Direct n) (collect_wake c) w1).2 (Direct m) = get_queue (store p) (Direct m)).
  { intros m Hm. rewrite get_on_queue_ne by congruence. apply get_on_queue_ne. congruence. }
  destruct (push_collect item c _ Hq) as [H1 H2]. rewrite Hq1, H1 in *.
  destruct (on_queue _ _ w1) as [c' w2]. cbn [fst snd] in *. subst c'. rewrite Hnil.
  split_and!; [constructor; cbn; congruence|done|done| |done].
  intros Ht. cbn [store]. rewrite Hq2. by apply H2.
Qed.

(** ** The Ruby thread keeps the invariant *)

Lemma waiting_on_beside p p' n :
  waiting_on p n -> next_ref (store p) <= next_ref (store p') ->
  get_queue (store p') (Direct n) = get_queue (store p) (Direct n) ->
  collectors p' !! n = collectors p !! n -> waiting_on p' n.
Proof. intros (H1 & H2 & H3) Hn Hq Hc. split_and!; [lia|by rewrite Hq|by rewrite Hc]. Qed.

Lemma unfinished_beside p p' : beside_queue p p' -> unfinished p' = unfinished p.
Proof. intros []. unfold unfinished. congruence. Qed.

(** The id of every call survives a look. *)
Lemma id_of_look cs n id c c' call :
  cs !! n = Some (id, c) -> id_of (<[n := (id, c')]> cs) call = id_of cs call.
Proof.
  intros Hn. unfold id_of. destruct (stream (call_handle call)) as [m|m|m]; [|done..].
  destruct (decide (m = n)) as [->|Hne]; [by rewrite lookup_insert_eq, Hn|by rewrite lookup_insert_ne].
Qed.

Lemma omap_same {A B} (f g : A -> option B) (l : list A) : (forall x, f x = g x) -> omap f l = omap g l.
Proof. intros H. induction l as [|x l IH]; [done|]. cbn. by rewrite H, IH. Qed.

(** An item on one queue leaves the calls that answer on others waiting. *)
Lemma publish_other n item p id c call :
  collectors p !! n = Some (id, c) -> uncompleted c -> between_looks (get_queue (store p) (Direct n)) ->
  waiting p call -> stream (call_handle call) <> Direct n -> waiting (publish n item p) call.
Proof.
  intros Hn Hc Hq (m & Hm & Hw) Hne. destruct (publish_spec n item p id c Hn Hc Hq) as ([] & Hcs & _ & _ & Hqs).
  assert (Hmn : m <> n) by congruence.
  exists m. split; [done|]. apply (waiting_on_beside p); [done|lia|by apply Hqs|].
  by rewrite Hcs, lookup_insert_ne.
Qed.

Lemma is_running_spec n p :
  is_running n p = true -> exists call, call ∈ running p /\ stream (call_handle call) = Direct n.
Proof.
  unfold is_running. intros (call & Hin & Hs)%existsb_exists. exists call.
  split; [by apply list_elem_of_In|]. by apply bool_decide_eq_true in Hs.
Qed.

Lemma take_running_spec n l call rest :
  take_running n l = Some (call, rest) -> l ≡ₚ call :: rest /\ stream (call_handle call) = Direct n.
Proof.
  revert rest. induction l as [|c l IH]; intros rest H; cbn in H; [done|].
  destruct (answers_on n c) eqn:E.
  - injection H as -> ->. split; [done|]. by apply bool_decide_eq_true in E.
  - apply bind_Some in H as ([found others] & H1 & [= -> <-]). destruct (IH _ H1) as [H2 H3].
    split; [|done]. rewrite H2. constructor.
Qed.

Lemma waiting_publish n item p call :
  stream (call_handle call) = Direct n -> waiting_on p n -> terminal item = false ->
  waiting (publish n item p) call.
Proof.
  intros Hs (Hn & Hq & id & c & Hl & Hc) Ht. exists n. split; [done|].
  destruct (publish_spec n item p id c Hl Hc Hq) as ([] & Hcs & _ & Hq' & _).
  split_and!; [lia|by apply Hq'|]. rewrite Hcs, lookup_insert_eq. do 2 eexists. split; [done|].
  pose proof (collect_item_uncompleted c item Hc) as H. by rewrite Ht in H.
Qed.

Lemma streamed_keeps limit n item p :
  terminal item = false -> is_running n p = true -> driving limit p -> driving limit (publish n item p).
Proof.
  intros Ht Hr [Hcount Hw Hnd Hids]. apply is_running_spec in Hr as (call & Hin & Hs).
  assert (Hin' : call ∈ unfinished p) by (unfold unfinished; apply elem_of_app; by right).
  pose proof Hw as Hw'. rewrite list.Forall_forall in Hw'. destruct (Hw' call Hin') as (m & Hm & Hon).
  assert (m = n) as -> by congruence. pose proof Hon as (_ & Hq & id & c & Hl & Hc).
  destruct (publish_spec n item p id c Hl Hc Hq) as (Hb & Hcs & Hres & _ & _).
  pose proof (collect_item_uncompleted c item Hc) as Hcc. rewrite Ht in Hcc. destruct Hcc as [_ Hnil].
  rewrite Hnil, app_nil_r in Hres. pose proof (unfinished_beside _ _ Hb) as Hu. destruct Hb.
  constructor; rewrite ?Hu; [by rewrite bq_finishing0, bq_admission0| |done|].
  - rewrite list.Forall_forall. intros call' Hin2. destruct (Hw' call' Hin2) as (m' & Hm' & Hon').
    destruct (decide (m' = n)) as [->|Hne]; [by apply waiting_publish|].
    eapply publish_other; [done..|by exists m'|congruence].
  - rewrite bq_log0, Hres, Hcs, Hids. do 2 f_equiv. apply Permutation_refl', omap_same.
    intros x. symmetry. by eapply id_of_look.
Qed.

Lemma released_keeps limit p : limit < width64 -> driving limit p -> driving limit (released p) /\ finishing (released p) = None.
Proof.
  intros Hlim [Hcount Hw Hnd Hids]. unfold released. destruct (finishing p) as [call|] eqn:Ef; [|by split; [constructor; rewrite ?Ef|]].
  split; [|done]. constructor; [|done..]. cbn. rewrite app_nil_r. apply (counted_release _ _ call); [done|].
  eapply counted_perm; [|exact Hcount]. cbn. by rewrite <- Permutation_cons_append.
Qed.

Lemma taken_keeps limit p :
  driving limit p ->
  driving limit (set_store (set_running p (running p ++ omap call_of (commands (store p)))) (set_commands (store p) [])).
Proof.
  intros [Hcount Hw Hnd Hids]. set (p' := set_store _ _).
  assert (Hp : unfinished p' ≡ₚ unfinished p) by (unfold unfinished; cbn; apply Permutation_app_comm).
  constructor; change (admission (store p')) with (admission (store p)).
  - eapply counted_perm; [|exact Hcount]. by rewrite Hp.
  - rewrite Hp. eapply list.Forall_impl; [exact Hw|]. intros call (n & Hn & Hon). by exists n.
  - by rewrite Hp.
  - rewrite Hp. done.
Qed.

(** A call that ends: its result is on the channel, its permit still out. *)
Lemma finished_keeps limit n item p call rest :
  terminal item = true -> finishing p = None -> take_running n (running p) = Some (call, rest) ->
  driving limit p -> driving limit (publish n item (set_finishing (set_running p rest) (Some call))).
Proof.
  intros Ht Hf Htake [Hcount Hw Hnd Hids]. apply take_running_spec in Htake as [Hp Hs].
  set (p1 := set_finishing (set_running p rest) (Some call)).
  assert (Hu : unfinished p ≡ₚ call :: unfinished p1).
  { unfold unfinished. cbn. rewrite Hp. by rewrite Permutation_middle. }
  rewrite Hu in Hw, Hnd, Hids. rewrite Hf, app_nil_r in Hcount. cbn in Hnd. apply list.NoDup_cons in Hnd as [Hfresh Hnd].
  apply Forall_cons_1 in Hw as [(m & Hm & Hon) Hw]. assert (m = n) as -> by congruence.
  pose proof Hon as (_ & Hq & id & c & Hl & Hc).
  destruct (publish_spec n item p1 id c Hl Hc Hq) as (Hb & Hcs & Hres & _ & _).
  pose proof (collect_item_uncompleted c item Hc) as Hr. rewrite Ht in Hr. destruct Hr as [r Hr].
  rewrite Hr in Hres. pose proof (unfinished_beside _ _ Hb) as Hu1. destruct Hb as [_ Hadm _ _ Hfin _ Hlog].
  constructor; rewrite ?Hu1.
  - rewrite Hfin, Hadm. eapply counted_perm; [|exact Hcount]. rewrite Hu.
    apply Permutation_cons_append.
  - rewrite list.Forall_forall in Hw |- *. intros call' Hin. eapply publish_other; [done..|by apply Hw|].
    intros E. apply Hfresh. rewrite Hs, <- E. by apply (list_elem_of_fmap_2 (fun call => stream (call_handle call))).
  - done.
  - rewrite Hlog, Hres, Hcs, fmap_app. cbn [log p1 set_finishing set_running results fmap list_fmap fst].
    rewrite Hids. cbn. assert (Hid : id_of (collectors p) call = Some id) by (unfold id_of; by rewrite Hs, Hl).
    rewrite Hid. rewrite (omap_same (id_of (<[n := _]> _)) (id_of (collectors p))) by (intros; by eapply id_of_look).
    rewrite <- app_assoc. done.
Qed.

Lemma does_keeps limit p d : limit < width64 -> driving limit p -> driving limit (does p d) /\ log (does p d) = log p.
Proof.
  intros Hlim Hd. destruct (released_keeps limit p Hlim Hd) as [Hr Hnone].
  assert (Hlog : log (released p) = log p) by (unfold released; by destruct (finishing p)).
  assert (Hpub : forall n item q, log (publish n item q) = log q).
  { intros n item q. unfold publish, look. cbn [collectors set_store]. destruct (collectors q !! n) as [[id c]|]; [|done].
    by destruct (on_queue _ _ _). }
  rewrite <- Hlog. unfold does. set (p1 := released p) in *. destruct d as [|n head|n chunk|n failure].
  - split; [by apply taken_keeps|done].
  - destruct (is_running n p1) eqn:E; [|done]. split; [by apply streamed_keeps|apply Hpub].
  - destruct (is_running n p1) eqn:E; [|done]. split; [by apply streamed_keeps|apply Hpub].
  - destruct (take_running n (running p1)) as [[call rest]|] eqn:E; [|done].
    split; [apply finished_keeps; by destruct failure|by rewrite Hpub].
Qed.

Lemma doings_keep limit l p :
  limit < width64 -> driving limit p -> driving limit (foldl does p l) /\ log (foldl does p l) = log p.
Proof.
  intros Hlim. revert p. induction l as [|d l IH]; intros p Hd; [done|]. cbn.
  destruct (does_keeps limit p d Hlim Hd) as [H1 H2]. destruct (IH _ H1) as [H3 H4]. by rewrite H4.
Qed.

(** [driving] says nothing of the schedule. *)
Lemma driving_schedule limit s p : driving limit p -> driving limit (set_schedule p s).
Proof. by intros []; constructor. Qed.

Lemma meanwhile_keeps limit p :
  limit < width64 -> driving limit p -> driving limit (meanwhile p).2 /\ log (meanwhile p).2 = log p.
Proof.
  intros Hlim Hd. unfold meanwhile. destruct (schedule p) as [|doings later]; [done|].
  by apply (doings_keep limit doings (set_schedule p later)), driving_schedule.
Qed.

(** ** Submitting *)

Lemma submit_ok request handle w w' :
  submit request handle w = (Ok tt, w') ->
  exists call, call_handle call = handle /\ commands w' = (commands w ++ [Call call])%list
    /\ next_ref w' = next_ref w /\ forall r, get_queue w' r = get_queue w r.
Proof.
  unfold submit. destruct (try_acquire (admission w) 1) as [[lease|] a]; [|done].
  unfold send_and_wake, signal_runtime. cbn [receiving set_admission]. destruct (receiving w); [|done].
  destruct (signal _ _) as [r s]. intros [= -> <-]. eexists {| call_request := _; call_handle := _; permit := _ |}.
  split_and!; [done..|]. by intros [n|c|c].
Qed.

(** The permits out: one for each unfinished call, and at most one besides. *)
Lemma permits_out limit p :
  driving limit p -> used (admission (store p)) <= len (unfinished p) + 1.
Proof. intros [[H _ _ _] _ _ _]. rewrite H, len_app. destruct (finishing p); cbn; rewrite ?len_cons, ?len_nil; lia. Qed.

Lemma submit_collected_spec limit id request p r p' :
  limit < width64 -> driving limit p -> submit_collected id request p = (r, p') ->
  match r with
  | Ok _ => driving limit p' /\ log p' = (log p ++ [Submitted id])%list
  | Err e => log p' = (log p ++ [Refused_ id e])%list
             /\ (len (unfinished p) + 1 < limit -> e <> Overloaded)
  end.
Proof.
  intros Hlim Hd. pose proof (permits_out _ _ Hd) as Hout. destruct Hd as [Hcount Hw Hnd Hids].
  unfold submit_collected, new_queue, fresh. cbn [fst snd]. set (n := next_ref (store p)).
  set (w := set_queues _ _). set (handle := {| stream := Direct n; waker := _ |}).
  destruct (submit request handle w) as [sent_ w'] eqn:Es. intros [= <- <-].
  destruct sent_ as [[]|e]; cbn [note log].
  2: { split; [done|]. intros Hroom ->. pose proof (counted_ok _ _ _ Hlim Hcount) as Hok.
       destruct Hcount as [_ _ Hcap _]. assert (Hle : used (admission (store p)) <= limit) by (destruct Hok; lia).
       destruct (submit_decides limit _ request handle w _ w' Hok eq_refl Hcap Hle Es) as [Hfull _].
       apply proj1 in Hfull. specialize (Hfull eq_refl). change (admission w) with (admission (store p)) in Hfull. lia. }
  split; [|done].
  destruct (submit_counted limit request handle w (running p ++ option_list (finishing p)) Hlim) as [Hc' _].
  { by rewrite app_assoc. }
  rewrite Es in Hc'. cbn [snd] in Hc'.
  destruct (submit_ok _ _ _ _ Es) as (call & Hh & Hcmd & Hnext & Hqs).
  set (p' := {| store := w'; collectors := _; results := _; running := _; finishing := _; schedule := _; log := _ |}).
  assert (Hu : unfinished p' ≡ₚ call :: unfinished p).
  { unfold unfinished. cbn. rewrite Hcmd, omap_app. cbn. rewrite <- app_assoc. symmetry. apply Permutation_middle. }
  assert (Hold : forall c', c' ∈ unfinished p -> exists m, stream (call_handle c') = Direct m /\ waiting_on p m /\ m <> n).
  { intros c' Hin. rewrite list.Forall_forall in Hw. destruct (Hw c' Hin) as (m & Hm & Hon).
    exists m. split_and!; [done..|]. destruct Hon as (Hlt & _). subst n. lia. }
  assert (Hqueue : forall m, get_queue w' (Direct m) = if decide (m = n) then stream_new usize_MAX else get_queue (store p) (Direct m)).
  { intros m. rewrite Hqs. cbn. destruct (decide (m = n)) as [->|Hne]; [by rewrite lookup_insert_eq|by rewrite lookup_insert_ne]. }
  constructor.
  - unfold unfinished. cbn. by rewrite <- app_assoc.
  - rewrite Hu. constructor.
    + exists n. rewrite Hh. split; [done|]. split_and!; cbn.
      * rewrite Hnext. cbn. subst n. lia.
      * change (between_looks (get_queue w' (Direct n))). rewrite Hqueue. by rewrite decide_True.
      * rewrite lookup_insert_eq. by exists id, collecting_new.
    + rewrite list.Forall_forall. intros c' Hin. destruct (Hold c' Hin) as (m & Hm & Hon & Hne).
      exists m. split; [done|]. apply (waiting_on_beside p); [done| | |].
      * cbn. rewrite Hnext. cbn. lia.
      * change (get_queue w' (Direct m) = get_queue (store p) (Direct m)). rewrite Hqueue. by rewrite decide_False.
      * cbn. by rewrite lookup_insert_ne.
  - rewrite Hu. cbn. constructor; [|done]. rewrite Hh. intros Hin.
    apply (list_elem_of_fmap (fun call => stream (call_handle call))) in Hin as (c' & Heq & Hin).
    destruct (Hold c' Hin) as (m & Hm & _ & Hne). cbn in Heq. congruence.
  - rewrite Hu. change (sent (log p ++ [Submitted id]) ≡ₚ received (log p ++ [Submitted id]) ++ (fst <$> results p)
      ++ omap (id_of (<[n := (id, collecting_new)]> (collectors p))) (call :: unfinished p))%list.
    rewrite sent_app, received_app. cbn [sent received omap list_omap sent_id received_id].
    rewrite app_nil_r. assert (Hid : id_of (<[n := (id, collecting_new)]> (collectors p)) call = Some id).
    { unfold id_of. rewrite Hh. cbn. by rewrite lookup_insert_eq. }
    rewrite Hid, Hids.
    assert (Hsame : omap (id_of (<[n := (id, collecting_new)]> (collectors p))) (unfinished p)
                    = omap (id_of (collectors p)) (unfinished p)).
    { clear -Hold. induction (unfinished p) as [|c' l IH]; [done|]. cbn.
      rewrite IH by (intros; apply Hold; by right). destruct (Hold c' ltac:(by left)) as (m & Hm & _ & Hne).
      unfold id_of. rewrite Hm. by rewrite lookup_insert_ne. }
    rewrite Hsame. rewrite <- !app_assoc. do 2 f_equiv. symmetry. apply Permutation_cons_append.
Qed.

(** ** Receiving *)

Lemma received_keeps limit p id answer rest later :
  driving limit p -> results p = (id, answer) :: rest ->
  driving limit (note {| store := store p; collectors := collectors p; results := rest; running := running p;
                         finishing := finishing p; schedule := later; log := log p |} (Received id answer)).
Proof.
  intros [Hcount Hw Hnd Hids] Hr. constructor; [done|done|done|].
  change (sent (log p ++ [Received id answer]) ≡ₚ received (log p ++ [Received id answer]) ++ (fst <$> rest)
    ++ omap (id_of (collectors p)) (unfinished p))%list.
  rewrite sent_app, received_app. cbn [sent received omap list_omap sent_id received_id]. rewrite app_nil_r, Hids, Hr.
  by rewrite <- !app_assoc.
Qed.

Lemma waits_spec limit later p r p' :
  limit < width64 -> driving limit p -> waits later p = (r, p') ->
  driving limit p'
  /\ log p' = match r with Ok (id, answer) => (log p ++ [Received id answer])%list | Err _ => log p end.
Proof.
  intros Hlim. revert p. induction later as [|doings later IH]; intros p Hd; cbn [waits];
    destruct (results p) as [|[id answer] rest] eqn:Er.
  - intros [= <- <-]. split; [by apply driving_schedule|done].
  - intros [= <- <-]. split; [by apply received_keeps|done].
  - intros Hw. destruct (doings_keep limit doings p Hlim Hd) as [H1 H2]. rewrite <- H2. by apply IH.
  - intros [= <- <-]. split; [by apply received_keeps|done].
Qed.

(** ** The window *)

Definition ids (first n : N) : list N := (fun o => first + o) <$> offsets n.

Lemma offsets_snoc n : offsets (n + 1) = (offsets n ++ [n])%list.
Proof.
  unfold offsets. replace (N.to_nat (n + 1)) with (N.to_nat n + 1)%nat by lia. rewrite seq_app, fmap_app. f_equal.
  cbn. f_equal. lia.
Qed.

Lemma ids_snoc first n : ids first (n + 1) = (ids first n ++ [first + n])%list.
Proof. unfold ids. by rewrite offsets_snoc, fmap_app. Qed.

Lemma len_ids first n : len (ids first n) = n.
Proof. unfold len, ids, offsets. rewrite !length_fmap, length_seq. lia. Qed.

Definition windowed (concurrency : N) (l : list ProbeEvent) : Prop :=
  forall k, len (sent (take k l)) <= len (received (take k l)) + concurrency.

Lemma windowed_snoc concurrency l ev :
  windowed concurrency l -> len (sent (l ++ [ev])) <= len (received (l ++ [ev])) + concurrency ->
  windowed concurrency (l ++ [ev]).
Proof.
  intros Hw Hl k. destruct (decide (k <= List.length l)%nat).
  - rewrite take_app_le by done. apply Hw.
  - by rewrite take_ge by (rewrite length_app; cbn; lia).
Qed.

Definition not_overloaded (ev : ProbeEvent) : Prop :=
  match ev with
  | Refused_ _ e => e <> Overloaded
  | _ => True
  end.

Definition verified (body_bytes ruby_thread_id : N) (ev : ProbeEvent) : Prop :=
  match ev with
  | Received id answer =>
      exists response, answer = Ok response /\ verify_response id body_bytes ruby_thread_id response = Ok tt
  | _ => True
  end.

(** Nothing of an earlier wave is under way. *)
Record settled_probe (limit : N) (p : Probe) : Prop := {
  sp_driving : driving limit p;
  sp_unfinished : unfinished p = [];
  sp_results : results p = [];
}.

Lemma id_of_waiting p call : waiting p call -> is_Some (id_of (collectors p) call).
Proof. intros (n & Hs & _ & _ & id & c & Hl & _). unfold id_of. rewrite Hs, Hl. by eexists. Qed.

Lemma len_omap_some {A B} (f : A -> option B) (l : list A) :
  Forall (fun x => is_Some (f x)) l -> len (omap f l) = len l.
Proof. induction 1 as [|x l [y Hy] _ IH]; [done|]. cbn. by rewrite Hy, !len_cons, IH. Qed.

Lemma unfinished_bound limit p0 p l :
  settled_probe limit p0 -> driving limit p -> log p = (log p0 ++ l)%list ->
  sent l ≡ₚ (received l ++ (fst <$> results p) ++ omap (id_of (collectors p)) (unfinished p))%list
  /\ len (received l) + len (results p) + len (unfinished p) = len (sent l).
Proof.
  intros [[_ _ _ H0] Hu Hr] [_ Hw _ Hids] Hl. rewrite Hu, Hr in H0. cbn in H0. rewrite app_nil_r in H0.
  rewrite Hl, sent_app, received_app, H0, <- app_assoc in Hids. apply Permutation_app_inv_l in Hids.
  split; [done|]. apply Permutation_length in Hids. rewrite !length_app, length_fmap in Hids.
  pose proof (len_omap_some (id_of (collectors p)) (unfinished p)) as Hlen.
  specialize (Hlen (list.Forall_impl _ _ _ Hw (id_of_waiting p))). unfold len in *. lia.
Qed.

(** ** A wave *)

Section wave.
Context (limit : N) (Hlim : limit < width64) (start : Probe) (Hstart : settled_probe limit start).
Context (first_id requests concurrency ruby_thread_id : N) (body : bytes).
Context (Hconcurrency : concurrency < limit) (Hids : first_id + requests <= width64).

(** So many requests sent and so many results received, none of them wrong. *)
Record stage (submitted completed : N) (l : list ProbeEvent) (p : Probe) : Prop := {
  sg_driving : driving limit p;
  sg_log : log p = (log start ++ l)%list;
  sg_sent : sent l = ids first_id submitted;
  sg_received : len (received l) = completed;
  sg_windowed : windowed concurrency l;
  sg_admitted : Forall not_overloaded l;
  sg_verified : Forall (verified (len body) ruby_thread_id) l;
}.

(** What holds of a wave's events wherever it stops. *)
Record fair (l : list ProbeEvent) : Prop := {
  fr_windowed : windowed concurrency l;
  fr_sent : exists n, n <= requests /\ sent l = ids first_id n;
  fr_admitted : Forall not_overloaded l;
}.

Definition stops {A} (r : result A ProbeError) (p : Probe) (done_ : Prop) : Prop :=
  match r with
  | Ok _ => done_
  | Err _ => exists l, log p = (log start ++ l)%list /\ fair l
  end.

Lemma stage_fair submitted completed l p : submitted <= requests -> stage submitted completed l p -> fair l.
Proof. intros Hn []. constructor; [done|by exists submitted|done]. Qed.

Lemma stage_meanwhile submitted completed l p :
  stage submitted completed l p -> stage submitted completed l (meanwhile p).2.
Proof.
  intros [Hd Hl]. destruct (meanwhile_keeps limit p Hlim Hd) as [H1 H2]. constructor; try done. congruence.
Qed.

Lemma submit_stage submitted completed l p r p' :
  stage submitted completed l p -> submitted < requests -> submitted < completed + concurrency ->
  submit_request (usize_add first_id submitted) body p = (r, p') ->
  stops r p' (exists l', stage (submitted + 1) completed l' p').
Proof.
  intros Hs Hn Hroom. rewrite usize_add_small by lia. unfold submit_request, mapping, st_bind.
  apply stage_meanwhile in Hs. destruct (meanwhile p) as [[] p1]. cbn [snd] in Hs.
  destruct (submit_collected (first_id + submitted) (probe_request (first_id + submitted) body) p1) as [sent_ p2] eqn:Es. intros [= <- <-].
  destruct Hs as [Hd Hl Hsent Hrecv Hwin Hadm Hver].
  pose proof (submit_collected_spec limit _ _ _ _ _ Hlim Hd Es) as Hspec.
  destruct (unfinished_bound limit start p1 l Hstart Hd Hl) as [_ Hbound]. rewrite Hsent, len_ids in Hbound.
  destruct sent_ as [u|e]; cbn; destruct Hspec as [H1 H2].
  - exists (l ++ [Submitted (first_id + submitted)])%list. constructor; [done| | | | | |].
    + by rewrite H2, Hl, app_assoc.
    + by rewrite sent_app, Hsent, ids_snoc.
    + rewrite received_app. cbn. by rewrite app_nil_r.
    + apply windowed_snoc; [done|]. rewrite sent_app, received_app, !len_app, Hsent, len_ids, Hrecv. cbn. rewrite len_cons, !len_nil. lia.
    + apply Forall_app. by repeat constructor.
    + apply Forall_app. by repeat constructor.
  - exists (l ++ [Refused_ (first_id + submitted) e])%list. split; [by rewrite H1, Hl, app_assoc|]. constructor.
    + apply windowed_snoc; [done|]. rewrite sent_app, received_app. cbn. rewrite !app_nil_r, Hsent, len_ids, Hrecv. lia.
    + exists submitted. split; [lia|]. rewrite sent_app. cbn. by rewrite app_nil_r.
    + apply Forall_app. split; [done|]. constructor; [|done]. apply H2. lia.
Qed.

Lemma receive_stage submitted completed l p r p' :
  stage submitted completed l p -> submitted <= requests ->
  receive_result (len body) ruby_thread_id p = (r, p') ->
  stops r p' (exists l', stage submitted (completed + 1) l' p').
Proof.
  intros [Hd Hl Hsent Hrecv Hwin Hadm Hver] Hn. unfold receive_result, tries.
  destruct (waits (schedule p) p) as [w p1] eqn:Ew.
  destruct (waits_spec limit _ p w p1 Hlim Hd Ew) as [Hd1 Hl1].
  destruct w as [[id answer]|e]; [|intros [= <- <-]; exists l; split; [congruence|]; constructor; [done|by exists submitted|done]].
  set (l' := (l ++ [Received id answer])%list).
  assert (Hlog : log p1 = (log start ++ l')%list) by (unfold l'; by rewrite Hl1, Hl, app_assoc).
  assert (Hsent' : sent l' = ids first_id submitted).
  { unfold l'. rewrite sent_app. cbn. by rewrite app_nil_r. }
  assert (Hrecv' : len (received l') = completed + 1).
  { unfold l'. rewrite received_app, len_app, Hrecv. done. }
  assert (Hwin' : windowed concurrency l').
  { apply windowed_snoc; [done|]. pose proof (Hwin (List.length l)) as H. rewrite firstn_all in H.
    fold l'. rewrite Hsent', Hrecv', len_ids. rewrite Hsent, Hrecv, len_ids in H. lia. }
  assert (Hadm' : Forall not_overloaded l') by (apply Forall_app; by repeat constructor).
  assert (Hfair : fair l') by (constructor; [done|by exists submitted|done]).
  destruct answer as [response|e]; [|intros [= <- <-]; by exists l'].
  unfold pure, st_ret. cbn [map_err]. destruct (verify_response _ _ _ _) as [[]|e] eqn:Ev; intros [= <- <-]; [|by exists l'].
  exists l'. constructor; try done. unfold l'. apply Forall_app. split; [done|]. constructor; [by exists response|done].
Qed.

(** [submitted] and [completed] rise together once the window is full. *)
Lemma complete_stage left_ submitted completed l p r p' :
  stage submitted completed l p -> submitted = N.min requests (completed + concurrency) ->
  completed + N.of_nat left_ = requests -> 0 < concurrency ->
  complete first_id requests ruby_thread_id body left_ submitted completed p = (r, p') ->
  stops r p' (exists l', stage requests requests l' p').
Proof.
  revert submitted completed l p. induction left_ as [|left_ IH]; intros submitted completed l p Hs Hmin Hleft Hpos; cbn [complete].
  - intros [= <- <-]. exists l. replace requests with completed at 2 by lia. by replace requests with submitted by lia.
  - rewrite (proj2 (N.ltb_lt completed requests)) by lia. unfold tries at 1.
    destruct (receive_result _ _ p) as [[u|e] p1] eqn:Er; pose proof (receive_stage _ _ _ _ _ _ Hs ltac:(lia) Er) as Hr;
      [|intros [= <- <-]; exact Hr].
    cbn [stops] in Hr. destruct Hr as (l1 & Hs1). destruct (N.ltb_spec submitted requests) as [Hlt|Hge].
    + unfold tries. destruct (submit_request _ _ p1) as [[u'|e] p2] eqn:Es;
        pose proof (submit_stage _ _ _ _ _ _ Hs1 ltac:(lia) ltac:(lia) Es) as Hsub; [|intros [= <- <-]; exact Hsub].
      cbn [stops] in Hsub. destruct Hsub as (l2 & Hs2). apply (IH _ _ l2); [done|lia..].
    + apply (IH _ _ l1); [done|lia..].
Qed.

Lemma submits_stage m submitted l p r p' :
  stage (N.of_nat submitted) 0 l p -> N.of_nat submitted + N.of_nat m <= N.min concurrency requests ->
  try_map (fun offset => submit_request (usize_add first_id offset) body) (N.of_nat <$> seq submitted m) p = (r, p') ->
  stops r p' (exists l', stage (N.of_nat submitted + N.of_nat m) 0 l' p').
Proof.
  revert submitted l p r p'. induction m as [|m IH]; intros submitted l p r p' Hs Hle; cbn [seq fmap list_fmap try_map].
  - intros [= <- <-]. exists l. by rewrite N.add_0_r.
  - unfold tries at 1. destruct (submit_request _ _ p) as [[u|e] p1] eqn:Es;
      pose proof (submit_stage _ _ _ _ _ _ Hs ltac:(lia) ltac:(lia) Es) as Hsub; [|intros [= <- <-]; exact Hsub].
    destruct Hsub as (l1 & Hs1). unfold tries. destruct (try_map _ _ p1) as [r1 p2] eqn:Em. intros Hr.
    assert (Hrest : stops r1 p2 (exists l', stage (N.of_nat submitted + N.of_nat (S m)) 0 l' p2)).
    { replace (N.of_nat submitted + N.of_nat (S m)) with (N.of_nat (S submitted) + N.of_nat m) by lia.
      apply (IH (S submitted) l1 p1); [|lia|exact Em]. by replace (N.of_nat (S submitted)) with (N.of_nat submitted + 1) by lia. }
    destruct r1; by injection Hr as <- <-.
Qed.

Lemma drive_stage p r p' :
  stage 0 0 [] p -> 0 < concurrency ->
  drive first_id requests ruby_thread_id body concurrency p = (r, p') ->
  stops r p' (exists l', stage requests requests l' p').
Proof.
  intros Hs Hpos. unfold drive, tries. destruct (try_map _ _ p) as [r1 p1] eqn:Em.
  apply (submits_stage _ 0 []) in Em; [|exact Hs|lia]. destruct r1 as [u|e]; [|by intros [= <- <-]].
  destruct Em as (l1 & Hs1). intros Hc.
  refine (complete_stage _ _ _ l1 _ _ _ Hs1 _ _ Hpos _); [| |replace (N.of_nat 0 + _) with (N.min concurrency requests) by lia; exact Hc]; lia.
Qed.

Lemma start_stage : stage 0 0 [] start.
Proof.
  constructor; [apply Hstart|by rewrite app_nil_r|done|done| |done|done].
  intros k. rewrite take_nil. cbn. rewrite len_nil. lia.
Qed.

End wave.

(** A wave that got to its call for a collection. *)
Record whole_wave (first_id requests body_bytes ruby_thread_id : N) (l : list ProbeEvent) : Prop := {
  ww_sent : sent l = ids first_id requests;
  ww_received : received l ≡ₚ ids first_id requests;
  ww_verified : Forall (verified body_bytes ruby_thread_id) l;
}.

Lemma now_settled limit p :
  settled_probe limit p -> settled_probe limit (in_store now p).2 /\ log (in_store now p).2 = log p.
Proof.
  intros [[Hcount Hw Hnd Hids] Hu Hr]. rewrite Hu in Hcount, Hids. unfold in_store, now.
  assert (H : forall w, commands w = commands (store p) -> admission w = admission (store p) ->
    settled_probe limit (set_store p w)).
  { intros w Hc Ha. assert (Hu' : unfinished (set_store p w) = []) by (unfold unfinished; cbn; by rewrite Hc).
    constructor; [|done|done]. constructor; rewrite ?Hu'; cbn; [by rewrite Ha|constructor..|done]. }
  destruct (instants (store p)); cbn [snd]; split; by (apply H || done).
Qed.

Lemma client_call_log recv_timeout rounds request p :
  log (client_call recv_timeout rounds request p).2 = (log p ++ [Collecting_ (inflight_requests (store p))])%list.
Proof. unfold client_call. by destruct (call_ _ _ _ _ _). Qed.

(** All of a wave's results are in, so at most the last call's permit is out. *)
Lemma stage_whole limit start first_id requests concurrency ruby_thread_id body l p :
  settled_probe limit start -> stage limit start first_id concurrency ruby_thread_id body requests requests l p ->
  whole_wave first_id requests (len body) ruby_thread_id l /\ inflight_requests (store p) <= 1.
Proof.
  intros Hstart [Hd Hl Hsent Hrecv Hwin Hadm Hver]. pose proof (permits_out limit p Hd) as Hout.
  destruct (unfinished_bound limit start p l Hstart Hd Hl) as [Hperm Hbound]. rewrite Hsent, len_ids in Hbound.
  unfold inflight_requests. split; [|lia]. constructor; [done| |done].
  rewrite (len_0_nil (results p)), (len_0_nil (unfinished p)) in Hperm by lia. cbn in Hperm.
  rewrite app_nil_r in Hperm. by rewrite <- Hperm, Hsent.
Qed.

(** C34: Whatever the Ruby thread gets done between the steps of a wave whose concurrency is
    below the runtime's limit: at no time are more requests out than the concurrency,
    the ids go up from the wave's first one without a gap, and none is refused for
    overload.  When the wave calls for its collection every request was sent once and
    answered once, by a response that passed the checks for its id, and at most one
    permit is still out; a wave that stops before stopped at an error. *)
Theorem wave_stays_within (recv_timeout : Duration -> St World unit) (rounds : nat)
    (limit wave requests concurrency : N) (body : bytes) (ruby_thread_id : N) (start p : Probe)
    (r : result (Duration * Response) ProbeError) :
  limit < width64 -> settled_probe limit start -> 0 < concurrency < limit ->
  1 <= wave -> wave * requests <= width64 ->
  run_wave recv_timeout rounds wave requests concurrency body ruby_thread_id start = (r, p) ->
  exists l rest, log p = (log start ++ l ++ rest)%list
  /\ fair ((wave - 1) * requests) requests concurrency l
  /\ match rest with
     | [] => is_err r = true
     | _ => whole_wave ((wave - 1) * requests) requests (len body) ruby_thread_id l
            /\ exists out, rest = [Collecting_ out] /\ out <= 1
     end.
Proof.
  intros Hlim Hstart [Hpos Hconc] Hwave Hids. set (first_id := (wave - 1) * requests).
  assert (Hfirst : first_id + requests <= width64) by nia.
  unfold run_wave. fold first_id. unfold tries at 1, pure at 1, st_ret at 1, usize_checked at 1.
  destruct (now_settled limit start Hstart) as [Hnow Hlog].
  pose proof (start_stage limit Hlim _ Hnow first_id requests concurrency ruby_thread_id body Hconc Hfirst) as H0.
  destruct (first_id <? width64).
  2: { intros [= <- <-]. exists [], []. rewrite app_nil_r. split_and!; [done| |done].
       eapply stage_fair; [|exact H0]. lia. }
  unfold st_bind at 1. destruct (in_store now start) as [t p0]. cbn [snd] in *.
  unfold tries at 1. destruct (drive _ _ _ _ _ p0) as [d p1] eqn:Ed.
  apply (drive_stage limit Hlim p0 Hnow first_id requests concurrency ruby_thread_id body Hconc Hfirst _ _ _ H0 Hpos) in Ed.
  destruct d as [u|e]; cbn [stops] in Ed.
  2: { destruct Ed as (l & Hl & Hf). intros [= <- <-]. exists l, []. by rewrite app_nil_r, Hl, Hlog. }
  destruct Ed as (l & Hs). pose proof (stage_fair _ _ _ _ _ _ _ _ _ _ _ (N.le_refl requests) Hs) as Hf.
  destruct (stage_whole _ _ _ _ _ _ _ _ _ Hnow Hs) as [Hw Hout]. destruct Hs as [_ Hl _ _ _ _ _].
  unfold tries at 1, pure at 1, st_ret at 1, usize_checked at 1. destruct (first_id + requests <? width64).
  2: { intros [= <- <-]. exists l, []. by rewrite app_nil_r, Hl, Hlog. }
  intros Hr. exists l, [Collecting_ (inflight_requests (store p1))].
  split_and!; [|done|done|by eexists].
  pose proof (client_call_log recv_timeout rounds (with_forced_gc (probe_request (first_id + requests) [])) p1) as Hc.
  unfold tries at 1 in Hr. destruct (client_call _ _ _ p1) as [[gc|e] p2]; cbn [snd] in Hc.
  2: { injection Hr as <- <-. by rewrite Hc, Hl, Hlog, app_assoc. }
  unfold tries, pure, st_ret in Hr. destruct (verify_response _ _ _ gc) as [u'|e].
  2: { injection Hr as <- <-. by rewrite Hc, Hl, Hlog, app_assoc. }
  unfold st_bind, in_store in Hr. destruct (now (store p2)) as [t' w]. injection Hr as <- <-.
  cbn. by rewrite Hc, Hl, Hlog, app_assoc.
Qed.

(** Three requests, two at a time, of a runtime that admits three: the Ruby thread ends
    the first while its permit is out, and then what waits for it. *)
Definition example_head (id : N) : ResponseHead :=
  {| status := 200; headers := [("X-Ruvoy-Probe-Id"%string, show id); ("x-request-bytes"%string, "0"%string)];
     ruby_thread_object_id := 7 |}.

Definition example_schedule : list (list Doing) :=
  [[]; []; [Takes; Answers 1 (example_head 0); Finishes 1 None]; [];
   [Answers 2 (example_head 1); Finishes 2 None]; [Takes; Answers 3 (example_head 2); Finishes 3 None]].

Definition example_probe (limit : N) (s : list (list Doing)) : Probe :=
  {| store := world_new limit; collectors := ∅; results := []; running := []; finishing := None;
     schedule := s; log := [] |}.

(** The collection's answer comes while [call] waits. *)
Definition example_wait : Duration -> St World unit := fun _ =>
  do* on_queue (Direct 4) (push_head (example_head 3)) in
  do* on_queue (Direct 4) push_end in st_ret tt.

Lemma example_settled limit s : settled_probe limit (example_probe limit s).
Proof. constructor; [|done|done]. constructor; [|constructor..|done]. constructor; cbn; try done. rewrite len_nil. lia. Qed.

Lemma example_wave_ends : is_err (run_wave example_wait 4 1 3 2 [] 7 (example_probe 3 example_schedule)).1 = false.
Proof. vm_compute. reflexivity. Qed.

Lemma wave_stays_within_witness :
  exists r p l rest,
    run_wave example_wait 4 1 3 2 [] 7 (example_probe 3 example_schedule) = (r, p) /\ is_err r = false
    /\ log p = (log (example_probe 3 example_schedule) ++ l ++ rest)%list
    /\ fair ((1 - 1) * 3) 3 2 l /\ whole_wave ((1 - 1) * 3) 3 (len (A := byte) []) 7 l.
Proof.
  destruct (wave_stays_within example_wait 4 3 1 3 2 [] 7 (example_probe 3 example_schedule) _ _
    ltac:(reflexivity) (example_settled 3 example_schedule) ltac:(lia) ltac:(lia) ltac:(unfold width64; lia)
    (surjective_pairing _)) as (l & rest & H1 & H2 & H3).
  pose proof example_wave_ends as Hok. eexists _, _, l, rest.
  split; [apply surjective_pairing|]. split; [exact Hok|]. split; [exact H1|]. split; [exact H2|].
  destruct rest as [|ev rest]; [rewrite Hok in H3; discriminate H3|exact (proj1 H3)].
Defined.

(** ** At the limit *)

Definition limit_env : Environment := fun name =>
  if bool_decide (name = "RUVOY_PROBE_WAVES"%string) then Some (Some "1"%string)
  else if bool_decide (name = "RUVOY_PROBE_REQUESTS_PER_WAVE"%string) then Some (Some "1025"%string)
  else if bool_decide (name = "RUVOY_PROBE_CONCURRENCY"%string) then Some (Some "1024"%string)
  else None.

(** Nothing happens while the first requests are sent; then the first one ends, and its
    result is received before its permit is returned. *)
Definition limit_schedule : list (list Doing) :=
  (repeat [] 1024 ++ [[Takes; Answers 1 (example_head 0); Finishes 1 None]])%list.

(** The probe accepts a concurrency equal to the runtime's limit, and a wave of it can be
    refused: a result reaches the probe before the permit of its request is returned
    ([execute] wakes the collector, then drops the permit). *)
Theorem full_concurrency_may_be_refused :
  match probe_settings limit_env with
  | Ok s =>
      concurrency s = DEFAULT_MAX_INFLIGHT_REQUESTS
      /\ (run_waves example_wait 4 s 7 (example_probe DEFAULT_MAX_INFLIGHT_REQUESTS limit_schedule)).1
         = Err (Bridge Overloaded)
  | Err _ => False
  end.
Proof. vm_compute. split; reflexivity. Qed.

(** ** Settings, threads and totals *)

Lemma from_env_ok env name kind d accepts n :
  from_env env name kind d accepts = Ok n ->
  n = d \/ (n <= usize_MAX /\ accepts n = true).
Proof.
  unfold from_env. destruct (env name) as [[v|]|]; cbn; [|done|intros [= ->]; by left].
  destruct (parse_uint usize_MAX v) as [m|] eqn:E; cbn; [|done]. apply parse_uint_bound in E.
  destruct (accepts m) eqn:Ea; [|done]. intros [= ->]. by right.
Qed.

(** Accepted settings: nothing that must be positive is zero, and the concurrency is at
    most the runtime's limit, which a wave needs it to be below. *)
Lemma probe_settings_ok env s :
  probe_settings env = Ok s ->
  0 < waves s <= usize_MAX /\ 0 < requests_per_wave s <= usize_MAX
  /\ 0 < concurrency s <= DEFAULT_MAX_INFLIGHT_REQUESTS
  /\ body_bytes s <= MAX_BODY_BYTES /\ host_thread_count s <= usize_MAX.
Proof.
  unfold probe_settings. intros (w & Hw & H)%result_bind_ok. apply result_bind_ok in H as (q & Hq & H).
  apply result_bind_ok in H as (c & Hc & H). apply result_bind_ok in H as (b & Hb & H).
  apply result_bind_ok in H as (h & Hh & H).
  destruct (N.ltb_spec DEFAULT_MAX_INFLIGHT_REQUESTS c); [done|]. destruct (N.ltb_spec MAX_BODY_BYTES b); [done|].
  injection H as <-. cbn [waves requests_per_wave concurrency body_bytes host_thread_count].
  assert (Hpos : forall name d n, 0 < d <= usize_MAX -> positive_env_usize env name d = Ok n -> 0 < n <= usize_MAX).
  { intros name d n Hd Hn. apply from_env_ok in Hn as [->|[Hle Hz]]; [done|].
    apply negb_true_iff, N.eqb_neq in Hz. lia. }
  assert (Hbig : 1000 <= usize_MAX) by (unfold usize_MAX, width64; lia).
  apply Hpos in Hw; [|lia]. apply Hpos in Hq; [|lia]. apply Hpos in Hc; [|lia].
  apply from_env_ok in Hh as [->|[? _]]; split_and!; lia.
Qed.

Lemma verify_response_ok id size thread r :
  verify_response id size thread r = Ok tt <->
  resp_status r = 200 /\ resp_ruby_thread_object_id r = thread
  /\ header r "x-ruvoy-probe-id" = Some (show id) /\ header r "x-request-bytes" = Some (show size)
  /\ resp_body r = [].
Proof.
  unfold verify_response. split.
  - destruct (N.eqb_spec (resp_status r) 200); [|done]. destruct (N.eqb_spec (resp_ruby_thread_object_id r) thread); [|done].
    do 2 (case_bool_decide; [|done]). destruct (N.eqb_spec (len (resp_body r)) 0) as [Hl|]; [|done].
    intros _. split_and!; try done. by apply len_0_nil.
  - intros (-> & -> & -> & -> & ->). rewrite !N.eqb_refl. by rewrite !bool_decide_eq_true_2.
Qed.

(** Every thread that was spawned is told to stop, woken and joined, whether the start
    fails part of the way or the threads are dropped at the end. *)
Lemma host_threads_joined spawns count :
  let '(r, log_) := start_host_threads spawns count in
  match r with
  | Ok handles => handles = offsets count /\ drop_host_threads handles log_
      = ((Spawned <$> offsets count) ++ stop_threads (offsets count))%list
  | Err _ => exists n, n < count /\ spawns n <> None
      /\ log_ = ((Spawned <$> offsets n) ++ stop_threads (offsets n))%list
  end.
Proof.
  assert (H : forall left_ index, let '(r, log_) := spawn_threads spawns left_ index (offsets index) (Spawned <$> offsets index) in
    match r with
    | Ok handles => handles = offsets (index + N.of_nat left_) /\ log_ = (Spawned <$> offsets (index + N.of_nat left_))%list
    | Err _ => exists n, n < index + N.of_nat left_ /\ spawns n <> None
        /\ log_ = ((Spawned <$> offsets n) ++ stop_threads (offsets n))%list
    end).
  { induction left_ as [|left_ IH]; intros index; cbn [spawn_threads]; [by rewrite N.add_0_r|].
    destruct (spawns index) as [e|] eqn:E.
    - exists index. split_and!; [lia|congruence|done].
    - specialize (IH (index + 1)). rewrite offsets_snoc, fmap_app in IH. cbn [fmap list_fmap] in IH.
      by replace (index + N.of_nat (S left_)) with (index + 1 + N.of_nat left_) by lia. }
  unfold start_host_threads. specialize (H (N.to_nat count) 0). rewrite N.add_0_l, N2Nat.id in H.
  change (offsets 0) with (@nil N) in H. cbn [fmap list_fmap] in H. destruct (spawn_threads _ _ _ _ _) as [[handles|e] log_]; [|done].
  destruct H as [-> ->]. done.
Qed.

(** A wave that succeeds has checked that its last id is a [usize]. *)
Lemma run_wave_fits recv_timeout rounds wave requests concurrency body thread p :
  1 <= wave -> is_err (run_wave recv_timeout rounds wave requests concurrency body thread p).1 = false ->
  wave * requests < width64.
Proof.
  intros Hw. unfold run_wave. unfold tries at 1, pure at 1, st_ret at 1, usize_checked at 1.
  destruct (N.ltb_spec ((wave - 1) * requests) width64); [|done]. unfold st_bind at 1.
  destruct (in_store now p) as [t p0]. unfold tries at 1. destruct (drive _ _ _ _ _ p0) as [[u|e] p1]; [|done].
  unfold tries at 1, pure at 1, st_ret at 1, usize_checked at 1.
  destruct (N.ltb_spec ((wave - 1) * requests + requests) width64); [nia|done].
Qed.

Lemma try_map_last {S A B E} (m : A -> St S (result B E)) l x (s : S) :
  is_err (try_map m (l ++ [x]) s).1 = false -> exists s', is_err (m x s').1 = false.
Proof.
  revert s. induction l as [|y l IH]; intros s H; cbn in H; unfold tries in H.
  - exists s. by destruct (m x s) as [[b|e] s'].
  - destruct (m y s) as [[b|e] s1]; [|done]. apply (IH s1). by destruct (try_map m _ s1) as [[bs|e] s2].
Qed.

(** [waves * requests_per_wave], which [main] prints without a check, does not wrap. *)
Lemma total_requests_fit recv_timeout rounds s thread p :
  is_err (run_waves recv_timeout rounds s thread p).1 = false -> waves s * requests_per_wave s < width64.
Proof.
  unfold run_waves. destruct (N.to_nat (waves s)) as [|n] eqn:E; [intros _; unfold width64; lia|].
  rewrite seq_S. set (f := fun wave : nat => _). intros H.
  destruct (try_map_last f (seq 1 n) (1 + n)%nat p H) as (p' & Hf). unfold f in Hf. unfold tries at 1 in Hf.
  destruct (run_wave _ _ _ _ _ _ _ p') as [[out|e] p1] eqn:Er; [|done].
  replace (waves s) with (N.of_nat (1 + n)) by lia.
  eapply (run_wave_fits recv_timeout rounds _ _ (concurrency s)); [lia|]. by rewrite Er.
Qed.
