(* ===== verification/Lifecycle.v ===== *)
(** * Starting and stopping the Ruby runtime ([src/src/fiber.rs])

    [FiberRuntime] owns the thread the VM lives on.  What the operating system and the
    VM answer is given: whether the wake socket and the thread came up, what the
    thread reported, how it ended.  What is modelled is what becomes of the object. *)

From S2P Require Import Prelude RustStr Types Fiber.

Local Open Scope N_scope.

Record RuntimeInfo := {
  ruby_description : string;
  rust_thread_id : string;
  info_thread_object_id : N;
}.

(** [runtime_info]: the thread's [object_id] must not be negative. *)
Definition runtime_info (description : result string MagnusError) (object_id : result Z MagnusError)
    (thread_id : string) : result RuntimeInfo BridgeError :=
  let? ruby_description := map_err (ruby_error "reading RUBY_DESCRIPTION") description in
  let? id := map_err (ruby_error "reading Ruby thread object id") object_id in
  let? id := ok_or (u64_try_from id)
    (InvalidResponse ("Ruby thread object id " ++ show_Z id ++ " is negative")%string) in
  Ok {| ruby_description := ruby_description; rust_thread_id := thread_id; info_thread_object_id := id |}.

(** A client shares the channel, the socket and the budget of its runtime ([World]):
    what is its own here is the limit that budget was made with. *)
Record FiberRuntimeClient := { client_limit : N }.

Record FiberRuntime := {
  client : option FiberRuntimeClient;
  info : option RuntimeInfo;
  join : option unit;
}.

Record FiberRuntimeStartup := { runtime : FiberRuntime; startup_error : option BridgeError }.

(** ** Starting *)

(** What the operating system and the runtime thread answer. *)
Record Spawned := {
  socket_pair : result unit string;        (* [UnixStream::pair] *)
  set_nonblocking_ : result unit string;   (* either end *)
  spawn : result unit string;
  (* what [ready_rx.recv] gives: [None] when the thread ended without a word *)
  readiness : option (result RuntimeInfo BridgeError);
}.

Definition start_app_retained (os : Spawned) (max_inflight_requests : N)
    : result FiberRuntimeStartup BridgeError :=
  if max_inflight_requests =? 0
  then Err (Startup "max in-flight requests must be positive")
  else
    let? _ := map_err Io (socket_pair os) in
    let? _ := map_err Io (set_nonblocking_ os) in
    let? _ := map_err Spawn (spawn os) in
    let ready := match readiness os with
                 | Some r => r
                 | None => Err (Startup "fiber runtime exited before reporting readiness")
                 end in
    let '(info, startup_error) :=
      match ready with
      | Ok info => (Some info, None)
      | Err error => (None, Some error)
      end in
    Ok {| runtime := {| client := Some {| client_limit := max_inflight_requests |}; info := info;
                        join := Some tt |};
          startup_error := startup_error |}.

Definition into_parts (s : FiberRuntimeStartup) : FiberRuntime * option BridgeError :=
  (runtime s, startup_error s).

(** On failure the runtime is forgotten rather than dropped. *)
Definition into_result (s : FiberRuntimeStartup) : result FiberRuntime BridgeError :=
  match startup_error s with
  | Some error => Err error
  | None => Ok (runtime s)
  end.

(** [start_rackup_with_limit_retained], given what [canonicalize] and [is_file] say. *)
Definition start_rackup_with_limit_retained (os : Spawned) (path_ : string)
    (canonical : result string string) (is_file : string -> bool) (max_inflight_requests : N)
    : result FiberRuntimeStartup BridgeError :=
  let? rackup := map_err (fun error =>
    Startup ("failed to resolve rackup " ++ path_ ++ ": " ++ error)%string) canonical in
  if negb (is_file rackup)
  then Err (Startup ("rackup is not a file: " ++ rackup)%string)
  else start_app_retained os max_inflight_requests.

(** [client()] and [info()] panic when there is none. *)
Definition client_of (r : FiberRuntime) : option FiberRuntimeClient := client r.
Definition info_of (r : FiberRuntime) : option RuntimeInfo := info r.

(** ** Stopping *)

(** [requested] is what [request_shutdown] answered, [joined] how the thread ended;
    either is asked for only when the code gets there. *)
Definition shutdown_inner (requested : result unit BridgeError)
    (joined : result (result unit BridgeError) PanicPayload) : St FiberRuntime (result unit BridgeError) :=
  fun r =>
  let shutdown_result := match client r with
                         | Some _ => requested
                         | None => Ok tt
                         end in
  let r := {| client := None; info := info r; join := join r |} in
  match shutdown_result with
  | Err error => (Err error, {| client := None; info := info r; join := None |})
  | Ok _ =>
      let r' := {| client := None; info := info r; join := None |} in
      match join r with
      | Some _ =>
          (match joined with
           | Ok ended => ended
           | Err payload => Err (RuntimePanicked (panic_message payload))
           end, r')
      | None => (Ok tt, r')
      end
  end.

(** [impl Drop]: the client and the thread are forgotten, never joined. *)
Definition drop_runtime (r : FiberRuntime) : FiberRuntime :=
  {| client := None; info := info r; join := None |}.
