(* ===== verification/Loading.v ===== *)
(** * Loading the application ([src/src/fiber.rs], [extensions.rs], [chunks.rs], [sync.rs])

    Before it is ready the Ruby thread prepares its VM: encoding, features, the classes
    Rust defines, the Ruby sources that build on them, the application and its
    [before_ready] hooks.  The VM is [RubyVM] extended by [RubyHost]; the Ruby sources
    are texts of the build.  The runtime thread's body ends the file. *)

From S2P Require Import Prelude RustStr Types Budget Stream Upstream Wake Request World Client Ruby Chunks RubyExample Rack Fiber Lifecycle Drain.

Local Open Scope N_scope.

(** ** What loading asks of the VM *)

Class RubyHost `{RubyVM} := {
  eval : string -> St World (result Value MagnusError);
  eval_string : string -> St World (result string MagnusError);
  eval_i64 : string -> St World (result Z MagnusError);
  require_feature : string -> St World (result Value MagnusError);     (* the C entry point *)
  class_object : Value;
  standard_error : Value;
  define_module : string -> St World (result Value MagnusError);
  define_class : Value -> string -> Value -> St World (result Value MagnusError);
  define_error : Value -> string -> Value -> St World (result Value MagnusError);
  define_method : Value -> string -> N -> St World (result unit MagnusError);
  define_private_method : Value -> string -> N -> St World (result unit MagnusError);
  module_const : Value -> string -> St World (result Value MagnusError);
  keyword_symbol : string -> string -> RValue;                          (* kwargs!(k => :s) *)
}.

(** The texts [include_str!] reads. *)
Record RubySources := {
  STREAM_SOURCE : string;
  OFFLOAD_SOURCE : string;
  LIFECYCLE_SOURCE : string;
  UPSTREAM_SOURCE : string;
  FIBER_RUNNER_SOURCE : string;
  REQUEST_BODY_SOURCE : string;
  STREAMING_BODY_READER_SOURCE : string;
  BODY_READER_SOURCE : string;
}.

Inductive FiberApp := FromSource (source : string) | Rackup (path_ : string).

(** ** Unwinding *)

Inductive Unwound (A : Type) := Returned (a : A) | Panicked (payload : PanicPayload).
Arguments Returned {A} a.
Arguments Panicked {A} payload.

(** [catch_unwind]: a panic on the way leaves its payload, and the store as it was. *)
Definition catch_unwind {S A} (panic : option (PanicPayload * S)) (m : St S A) : St S (Unwound A) := fun s =>
  match panic with
  | Some (payload, s') => (Panicked payload, s')
  | None => let '(a, s') := m s in (Returned a, s')
  end.

Section loading.
Context `{RubyHost} (sources : RubySources).

(** [m.map_err(|error| ruby_error(context, error))] *)
Definition within {A} (context_ : string) (m : St World (result A MagnusError)) : St World (result A BridgeError) :=
  mapping (ruby_error context_) m.

(** [define_method(..).and_then(|()| define_method(..))], in order. *)
Fixpoint define_all (define : Value -> string -> N -> St World (result unit MagnusError))
    (class_ : Value) (methods : list (string * N)) : St World (result unit MagnusError) :=
  match methods with
  | [] => ok tt
  | (name, arity) :: rest => let?* _ := define class_ name arity in define_all define class_ rest
  end.

(** ** The classes Rust defines *)

Definition chunk_source_methods : list (string * N) :=
  [("next_chunk", 0); ("finished?", 0); ("park", 1); ("unpark", 0)]%string.
Definition chunk_sink_methods : list (string * N) :=
  [("write", 2); ("writable?", 0); ("cancelled?", 0); ("park", 1); ("unpark", 0); ("finish", 0)]%string.

(** [chunks::define] *)
Definition define_chunks (module_ : Value) : St World (result unit BridgeError) :=
  let?* source := within "defining Ruvoy::ChunkSource" (define_class module_ "ChunkSource" class_object) in
  let?* _ := within "defining Ruvoy::ChunkSource methods" (define_all define_method source chunk_source_methods) in
  let?* sink := within "defining Ruvoy::ChunkSink" (define_class module_ "ChunkSink" class_object) in
  within "defining Ruvoy::ChunkSink methods" (define_all define_method sink chunk_sink_methods).

Definition context_methods : list (string * N) :=
  [("route_name", 0); ("connection", 0); ("tls", 0); ("dynamic_metadata", 0); ("route_metadata", 0);
   ("to_h", 0)]%string.
Definition upstream_methods : list (string * N) :=
  [("dispatch", 4); ("open_stream", 4); ("default_timeout", 0)]%string.
Definition channel_methods : list (string * N) :=
  [("head", 0); ("reader", 0); ("writer", 0); ("close", 0); ("time_out", 0); ("trailers", 0)]%string.
Definition call_methods : list (string * N) :=
  [("response", 0); ("park", 1); ("unpark", 0)]%string.
Definition upstream_errors : list string :=
  ["UpstreamResponseTooLarge"; "UpstreamOverflow"; "UpstreamTimeout"]%string.

Fixpoint define_errors (module_ super : Value) (names : list string) : St World (result unit BridgeError) :=
  match names with
  | [] => ok tt
  | name :: rest =>
      let?* _ := within ("defining " ++ name) (define_error module_ name super) in
      define_errors module_ super rest
  end.

(** [extensions::define] *)
Definition define_extensions (module_ : Value) : St World (result unit BridgeError) :=
  let?* context_ := within "defining Context" (define_class module_ "Context" class_object) in
  let?* _ := within "defining Context methods" (define_all define_method context_ context_methods) in
  let?* upstream := within "defining Upstream" (define_class module_ "Upstream" class_object) in
  let?* _ := within "defining Upstream methods" (define_all define_private_method upstream upstream_methods) in
  let?* channel := within "defining UpstreamChannel" (define_class module_ "UpstreamChannel" class_object) in
  let?* _ := within "defining UpstreamChannel methods" (define_all define_method channel channel_methods) in
  let?* call := within "defining UpstreamCall" (define_class module_ "UpstreamCall" class_object) in
  let?* _ := within "defining UpstreamCall methods" (define_all define_method call call_methods) in
  let?* error := within "defining UpstreamError" (define_error module_ "UpstreamError" standard_error) in
  let?* _ := define_errors module_ error upstream_errors in
  let?* _ := within "loading Upstream#call" (eval (UPSTREAM_SOURCE sources)) in
  ok tt.

Definition bridge_methods : list (string * N) :=
  [("fd", 0); ("drain", 0); ("execute", 4); ("ack_shutdown", 0)]%string.
Definition admin_methods : list (string * N) :=
  [("http_method", 0); ("path", 0); ("body", 0); ("inflight", 0); ("reply", 2)]%string.

(** ** Preparing the fiber runtime's VM *)

Definition set_source_encoding : St World (result unit BridgeError) :=
  let?* _ := within "setting the default encoding" (eval "Encoding.default_external = Encoding::UTF_8") in
  ok tt.

Definition features : list string :=
  ["rubygems"; "bundler/setup"; "stringio"; "io/wait"; "async"; "async/semaphore"; "async/variable"]%string.

Fixpoint load_features (l : list string) : St World (result unit BridgeError) :=
  match l with
  | [] => ok tt
  | feature :: rest =>
      let?* _ := within ("loading " ++ feature) (eval ("require " ++ debug_str feature)%string) in
      load_features rest
  end.

(** A path is a string here: one that is not UTF-8 is refused where it is made. *)
Definition load_fiber_app (a : FiberApp) : St World (result Value BridgeError) :=
  match a with
  | FromSource source => within "evaluating fiber app source" (eval source)
  | Rackup path_ =>
      let?* _ := within "loading Rack" (eval ("require " ++ debug_str "rack")%string) in
      let?* rack := within "loading Rack module" (const_get "Rack") in
      let?* builder := within "loading Rack::Builder" (module_const rack "Builder") in
      within "loading rackup" (funcall builder "parse_file" [str_new path_; keyword_symbol "isolation" "fiber"])
  end.

Definition runtime_info_of (thread_id : string) : St World (result RuntimeInfo BridgeError) :=
  let?* description := within "reading RUBY_DESCRIPTION" (eval_string "RUBY_DESCRIPTION") in
  let* id := eval_i64 "Thread.current.object_id" in
  pure (runtime_info (Ok description) id thread_id).

(** The tuple [PreparedFiberRuntime]. *)
Record PreparedRuntime := {
  p_app : Value;
  p_rack_errors : Value;
  p_body_reader : Value;
  p_runner : Value;
  p_request_body_class : Value;
  p_info : RuntimeInfo;
}.

Definition load_settings (module_ : Value) (settings_json : option string) : St World (result unit BridgeError) :=
  match settings_json with
  | Some json =>
      let?* lifecycle := within "loading Ruvoy::Lifecycle" (module_const module_ "Lifecycle") in
      let?* _ := within "loading the runtime settings" (funcall lifecycle "load_settings" [str_new json]) in
      ok tt
  | None => ok tt
  end.

Definition prepare_fiber_runtime (a : FiberApp) (settings_json : option string) (thread_id : string)
    : St World (result PreparedRuntime BridgeError) :=
  let?* _ := set_source_encoding in
  let?* _ := load_features features in
  let?* ruvoy := within "defining Ruvoy module" (define_module "Ruvoy") in
  let?* bridge_class := within "defining FiberBridge" (define_class ruvoy "FiberBridge" class_object) in
  let?* _ := within "defining FiberBridge methods" (define_all define_method bridge_class bridge_methods) in
  let?* envelope_class := within "defining FiberEnvelope" (define_class ruvoy "FiberEnvelope" class_object) in
  let?* _ := within "defining FiberEnvelope methods" (define_method envelope_class "cancelled?" 0) in
  let?* admin_class := within "defining AdminEnvelope" (define_class ruvoy "AdminEnvelope" class_object) in
  let?* _ := within "defining AdminEnvelope methods" (define_all define_method admin_class admin_methods) in
  let?* _ := define_chunks ruvoy in
  let?* _ := within "loading Ruvoy::Stream" (eval (STREAM_SOURCE sources)) in
  let?* _ := define_extensions ruvoy in
  let?* _ := within "loading Ruvoy.offload" (eval (OFFLOAD_SOURCE sources)) in
  let?* _ := within "loading Ruvoy::Lifecycle" (eval (LIFECYCLE_SOURCE sources)) in
  let?* _ := load_settings ruvoy settings_json in
  let?* loaded := load_fiber_app a in
  let?* _ := within "running before_ready hooks" (eval "Ruvoy::Lifecycle.run_before_ready") in
  let?* rack_errors_ := within "loading rack.errors" (eval "STDERR") in
  let?* reader := within "loading Rack body reader" (eval (STREAMING_BODY_READER_SOURCE sources)) in
  let?* runner := within "evaluating fiber runner" (eval (FIBER_RUNNER_SOURCE sources)) in
  let?* body_class_ := within "loading the Rack input class" (eval (REQUEST_BODY_SOURCE sources)) in
  let?* info_ := runtime_info_of thread_id in
  ok {| p_app := loaded; p_rack_errors := rack_errors_; p_body_reader := reader; p_runner := runner;
        p_request_body_class := body_class_; p_info := info_ |}.

(** ** Preparing the serial runtime's VM ([sync.rs]) *)

Definition boxed (source context_ : string) : St World (result Value BridgeError) := within context_ (eval source).

(** [Prepared], without the context made of it ([SyncRuntime.sync_context]). *)
Record SyncPrepared := {
  sp_app : Value;
  sp_rack_errors : Value;
  sp_body_reader : Value;
  sp_string_io_class : Value;
  sp_info : RuntimeInfo;
}.

Definition sync_prepare (app_source thread_id : string) : St World (result SyncPrepared BridgeError) :=
  let?* string_io := within "loading StringIO"
    (let?* _ := require_feature "stringio" in const_get "StringIO") in
  let?* a := boxed app_source "evaluating app source" in
  let?* errors := boxed "STDERR" "loading rack.errors" in
  let?* reader := boxed (BODY_READER_SOURCE sources) "loading Rack body reader" in
  let?* info_ := runtime_info_of thread_id in
  ok {| sp_app := a; sp_rack_errors := errors; sp_body_reader := reader; sp_string_io_class := string_io;
        sp_info := info_ |}.

(** ** The body of the runtime thread *)

(** The bridge object the thread wraps for Ruby. *)
Definition wrap_bridge (p : PreparedRuntime) : St FiberBridge unit := fun b =>
  (tt, {| shutdown_reply := None; thread_object_id := info_thread_object_id (p_info p);
          heartbeat := heartbeat b; body_class := p_request_body_class p;
          fiber_envelopes := ∅; admin_envelopes := ∅; answers := answers b |}).

(** What the thread sent on its readiness channel, and how it ended; [None] while it
    lives.  [bridge_value] is the wrapped bridge, [waiting] whether the starter still
    waits, [arriving] what is sent to a runtime that failed.  [enter] is [funcall] of
    the runner: the reactor loop, which comes back through the bridge. *)
Definition fiber_runtime_main (enter : Value -> string -> list RValue -> St Reactor (result Value MagnusError))
    (listening : N -> bool) (arriving : list FiberCommand)
    (load_panics : option (PanicPayload * World)) (run_panics : option (PanicPayload * Reactor))
    (waiting : bool) (bridge_value : Value) (a : FiberApp) (settings_json : option string) (thread_id : string)
    : St Reactor (result RuntimeInfo BridgeError * option (result unit BridgeError)) :=
  let* prepared := in_shared (catch_unwind load_panics (prepare_fiber_runtime a settings_json thread_id)) in
  let failed error :=
    let* stopped := retain_failed_runtime listening error arriving in
    st_ret (Err error, if stopped then Some (Err error) else None) in
  match prepared with
  | Returned (Ok p) =>
      do* in_bridge (wrap_bridge p) in
      if negb waiting
      then st_ret (Ok (p_info p), Some (Err (Startup "starter dropped fiber readiness channel")))
      else
        let* run := catch_unwind run_panics
          (mapping (ruby_error "running Async reactor")
            (enter (p_runner p) "call"
               [RObject bridge_value; RObject (p_app p); RObject (p_rack_errors p); RObject (p_body_reader p)])) in
        st_ret (Ok (p_info p), Some match run with
                                    | Returned (Ok _) => Ok tt
                                    | Returned (Err error) => Err error
                                    | Panicked payload => Err (RuntimePanicked (panic_message payload))
                                    end)
  | Returned (Err error) => failed error
  | Panicked payload => failed (RuntimePanicked (panic_message payload))
  end.

End loading.
