(* ===== verification/FailedStart.v ===== *)
(** * A runtime whose application did not load

    It stays up and answers: every call with the failure, every admin request with 503,
    until it is shut down. *)

From S2P Require Import Prelude RustStr Types Budget Stream Upstream Wake Request World Client Ruby Chunks RubyExample Rack Fiber Lifecycle Drain Loading.

Local Open Scope N_scope.

Section failed.
Context (listening : N -> bool) (error : BridgeError).

Definition failure_text : string := (error_to_string error ++ String (Ascii.ascii_of_N 10) "")%string.

Definition refusal_of (call : AdminCall) : list Answer :=
  if listening (admin_reply call) then [Answered (admin_reply call) 503 failure_text] else [].

Definition stopped_answer (reply : option N) : list Answer :=
  match reply with
  | Some n => if listening n then [Stopped n] else []
  | None => []
  end.

Definition streams_of (calls : list FiberCall) : list QRef := map (fun c => stream (call_handle c)) calls.

(** A queue after the calls that answer to it were failed. *)
Definition failed_queue (calls : list FiberCall) (r : QRef) (s : ResponseStream) : ResponseStream :=
  if bool_decide (r ∈ streams_of calls) then (push_failure error s).2 else s.

Lemma fail_twice s : (push_failure error (push_failure error s).2).2 = (push_failure error s).2.
Proof. unfold push_failure, push. by destruct s as [i b [] [] p w m]. Qed.

Lemma failed_queue_cons call calls r w :
  failed_queue calls r (get_queue (on_queue (stream (call_handle call)) (push_failure error) w).2 r)
  = failed_queue (call :: calls) r (get_queue w r).
Proof.
  unfold failed_queue, streams_of. cbn [map]. destruct (decide (r = stream (call_handle call))) as [->|Hne].
  - rewrite get_on_queue, (bool_decide_eq_true_2 (_ ∈ _ :: _)) by (apply elem_of_cons; by left).
    destruct (bool_decide _); [apply fail_twice|done].
  - rewrite get_on_queue_ne by done. rewrite (bool_decide_ext (r ∈ stream (call_handle call) :: _) (r ∈ map (fun c => stream (call_handle c)) calls)); [done|]. rewrite elem_of_cons. split; [by intros [?|?]|by right].
Qed.

Lemma queue_dropped l w r : get_queue (drop_commands l w) r = get_queue w r.
Proof.
  unfold drop_commands. induction l as [|[call|call| |reply] l IH]; cbn; (done || (rewrite <- IH; by destruct r)).
Qed.

Lemma posted_dropped l w : posted (drop_commands l w) = posted w.
Proof. unfold drop_commands. by induction l as [|[call|call| |reply] l IH]. Qed.

Lemma on_queue_posted {A} r (m : St ResponseStream A) w : posted (on_queue r m w).2 = posted w.
Proof. destruct r as [n|c|c]; cbn [on_queue]; unfold on_channel, on_response, on_request; by destruct (m _). Qed.

(** What failing one call does to the store. *)
Definition call_failed (call : FiberCall) (w : World) : World :=
  let w := (on_queue (stream (call_handle call)) (push_failure error) w).2 in
  (release (permit call) (wake_handle (call_handle call) w).2).2.

Lemma retain_call call rest rx :
  retain_failed_runtime listening error (Call call :: rest) rx
  = retain_failed_runtime listening error rest {| bridge := bridge rx; shared := call_failed call (shared rx) |}.
Proof.
  cbn [retain_failed_runtime]. unfold call_failed, st_bind, in_shared, wake_handle, release, modify.
  by destruct (on_queue _ _ (shared rx)).
Qed.

Lemma call_failed_queue call calls r w :
  failed_queue calls r (get_queue (call_failed call w) r) = failed_queue (call :: calls) r (get_queue w r).
Proof. rewrite <- failed_queue_cons. unfold call_failed. by destruct r. Qed.

Lemma call_failed_posted call w : posted (call_failed call w) = (posted w ++ [waker (call_handle call)])%list.
Proof. unfold call_failed. cbn. unfold wake, call_waker. by rewrite on_queue_posted. Qed.

Lemma retain_spec arriving rx :
  let '(stopped, rx') := retain_failed_runtime listening error arriving rx in
  let '(handed, reply, rest) := until_shutdown arriving in
  let calls := omap call_of handed in
  stopped = bool_decide (is_Some reply)
  /\ answers (bridge rx') = (answers (bridge rx) ++ flat_map refusal_of (omap admin_of handed)
                             ++ stopped_answer reply)%list
  /\ posted (shared rx') = (posted (shared rx) ++ map (fun c => waker (call_handle c)) calls)%list
  /\ (forall r, get_queue (shared rx') r = failed_queue calls r (get_queue (shared rx) r))
  /\ (stopped = true -> commands (shared rx') = [] /\ receiving (shared rx') = false).
Proof.
  revert rx. induction arriving as [|c arriving IH]; intros rx.
  { cbn. rewrite !app_nil_r. by split_and!. }
  destruct c as [call|call| |reply]; cbn [until_shutdown].
  - rewrite retain_call. specialize (IH {| bridge := bridge rx; shared := call_failed call (shared rx) |}).
    destruct (retain_failed_runtime _ _ _ _) as [stopped rx'], (until_shutdown arriving) as [[handed reply] rest].
    cbn [bridge shared omap list_omap call_of admin_of] in *. destruct IH as (H1 & H2 & H3 & H4 & H5).
    split_and!; try done.
    + rewrite H3, call_failed_posted, <- app_assoc. done.
    + intros r. by rewrite H4, call_failed_queue.
  - cbn [retain_failed_runtime]. unfold st_bind, in_bridge, send_answer.
    destruct (listening (admin_reply call)) eqn:El; [specialize (IH {| bridge := set_answers (bridge rx)
      (answers (bridge rx) ++ [Answered (admin_reply call) 503 failure_text]); shared := shared rx |})
      |specialize (IH {| bridge := bridge rx; shared := shared rx |})];
      destruct (retain_failed_runtime _ _ _ _) as [stopped rx'], (until_shutdown arriving) as [[handed reply] rest];
      cbn [bridge shared omap list_omap call_of admin_of flat_map answers set_answers] in *;
      destruct IH as (H1 & H2 & H3 & H4 & H5); split_and!; try done;
      rewrite H2; unfold refusal_of at 2; by rewrite El, <- ?app_assoc.
  - cbn [retain_failed_runtime]. specialize (IH rx).
    by destruct (retain_failed_runtime _ _ _ _) as [stopped rx'], (until_shutdown arriving) as [[handed reply] rest].
  - cbn [retain_failed_runtime]. unfold st_bind, in_bridge, in_shared, send_answer, modify, st_ret, stopped_answer.
    destruct (listening reply); cbn -[drop_commands]; rewrite ?app_nil_r, !posted_dropped;
      (split_and!; [done..| |done]); intros r; rewrite <- (queue_dropped arriving (shared rx)),
      <- (queue_dropped (commands (drop_commands arriving (shared rx))) (drop_commands arriving (shared rx)));
      by destruct r.
Qed.

Lemma failed_queue_open calls r s :
  r ∈ streams_of calls -> settled s = false ->
  settled (failed_queue calls r s) = true /\ items (failed_queue calls r s) = (items s ++ [Failed error])%list.
Proof.
  intros Hr Hs. unfold failed_queue. rewrite bool_decide_eq_true_2 by done.
  unfold settled, push_failure, push in *. rewrite Hs. cbn. by rewrite orb_true_r.
Qed.

Lemma failed_queue_settled calls r s :
  r ∈ streams_of calls -> settled s = true -> settled (failed_queue calls r s) = true.
Proof.
  intros Hr Hs. unfold failed_queue. rewrite bool_decide_eq_true_2 by done.
  unfold settled, push_failure, push in *. by rewrite Hs.
Qed.

End failed.

(** ** The thread of a runtime that failed to load *)

Section main.
Context `{RubyHost} (sources : RubySources).

(** Loading ended with [error], by a return or a panic, and left the store [w]. *)
Definition loading_failed (load_panics : option (PanicPayload * World)) (a : FiberApp)
    (settings_json : option string) (thread_id : string) (w0 : World) (error : BridgeError) (w : World) : Prop :=
  match load_panics with
  | Some (payload, w') => error = RuntimePanicked (panic_message payload) /\ w = w'
  | None => prepare_fiber_runtime sources a settings_json thread_id w0 = (Err error, w)
  end.

Lemma main_failed enter listening arriving load_panics run_panics waiting v a json thread_id rx error w :
  loading_failed load_panics a json thread_id (shared rx) error w ->
  fiber_runtime_main sources enter listening arriving load_panics run_panics waiting v a json thread_id rx
  = let '(stopped, rx') := retain_failed_runtime listening error arriving {| bridge := bridge rx; shared := w |} in
    ((Err error, if stopped then Some (Err error) else None), rx').
Proof.
  intros Hf. unfold fiber_runtime_main. unfold st_bind at 1, in_shared at 1, catch_unwind.
  unfold loading_failed in Hf. destruct load_panics as [[payload w']|].
  - destruct Hf as [-> ->]. unfold st_bind. by destruct (retain_failed_runtime _ _ _ _) as [stopped rx'].
  - rewrite Hf. unfold st_bind. by destruct (retain_failed_runtime _ _ _ _) as [stopped rx'].
Qed.

(** C20: a runtime whose application does not load, whether Ruby raised, Rust refused or
    the loading panicked, reports that error as its readiness, once, and then answers
    whatever arrives before a shutdown with it: every call's stream, if it was still
    open, gets the failure as its last item, and its waker is called, in order; every
    admin request whose asker still waits gets 503 and the error's text; a shutdown is
    acknowledged last, and ends the thread with the same error, after which nothing is
    received.  Streams of no such call are left alone. *)
Theorem failed_start_is_answered enter listening arriving load_panics run_panics (waiting : bool) v a json thread_id
    (rx : Reactor) error w :
  loading_failed load_panics a json thread_id (shared rx) error w ->
  let '((sent, ended_), rx') :=
    fiber_runtime_main sources enter listening arriving load_panics run_panics waiting v a json thread_id rx in
  let '(handed, reply, _) := until_shutdown arriving in
  let calls := omap call_of handed in
  sent = Err error
  /\ ended_ = match reply with Some _ => Some (Err error) | None => None end
  /\ answers (bridge rx') = (answers (bridge rx)
       ++ flat_map (refusal_of listening error) (omap admin_of handed) ++ stopped_answer listening reply)%list
  /\ posted (shared rx') = (posted w ++ map (fun c => waker (call_handle c)) calls)%list
  /\ (forall r, r ∈ streams_of calls ->
        settled (get_queue (shared rx') r) = true
        /\ (settled (get_queue w r) = false ->
            items (get_queue (shared rx') r) = (items (get_queue w r) ++ [Failed error])%list))
  /\ (forall r, r ∉ streams_of calls -> get_queue (shared rx') r = get_queue w r)
  /\ (reply <> None -> commands (shared rx') = [] /\ receiving (shared rx') = false).
Proof.
  intros Hf. rewrite (main_failed _ _ _ _ _ _ _ _ _ _ _ _ _ Hf).
  pose proof (retain_spec listening error arriving {| bridge := bridge rx; shared := w |}) as Hs.
  destruct (retain_failed_runtime _ _ _ _) as [stopped rx'], (until_shutdown arriving) as [[handed reply] rest].
  cbn [bridge shared] in Hs. destruct Hs as (H1 & H2 & H3 & H4 & H5). split_and!; try done.
  - rewrite H1. by destruct reply.
  - intros r Hr. rewrite H4. destruct (settled (get_queue w r)) eqn:Es.
    + split; [by apply failed_queue_settled|done].
    + destruct (failed_queue_open error (omap call_of handed) r (get_queue w r) Hr Es). by split.
  - intros r Hr. rewrite H4. unfold failed_queue. by rewrite bool_decide_eq_false_2.
  - intros Hr. apply H5. rewrite H1. by destruct reply.
Qed.

End main.

(** ** An application that does not load *)

#[local] Existing Instance example_ruby.

(** A VM over [example_ruby] in which only the source [boom] raises. *)
#[local] Instance example_host : RubyHost := {|
  eval source := st_ret (if bool_decide (source = "boom") then Err {| magnus_text := "no such app" |} else Ok 1);
  eval_string _ := st_ret (Ok "ruby");
  eval_i64 _ := st_ret (Ok 7%Z);
  require_feature _ := st_ret (Ok 1);
  class_object := 2;
  standard_error := 3;
  define_module _ := st_ret (Ok 4);
  define_class _ _ _ := st_ret (Ok 5);
  define_error _ _ _ := st_ret (Ok 6);
  define_method _ _ _ := st_ret (Ok tt);
  define_private_method _ _ _ := st_ret (Ok tt);
  module_const _ _ := st_ret (Ok 1);
  keyword_symbol _ _ := RNil;
|}%string.

Definition example_sources : RubySources :=
  {| STREAM_SOURCE := "stream"; OFFLOAD_SOURCE := "offload"; LIFECYCLE_SOURCE := "lifecycle";
     UPSTREAM_SOURCE := "upstream"; FIBER_RUNNER_SOURCE := "runner"; REQUEST_BODY_SOURCE := "input";
     STREAMING_BODY_READER_SOURCE := "reader"; BODY_READER_SOURCE := "serial reader" |}%string.

Definition boom : BridgeError := ruby_error "evaluating fiber app source" {| magnus_text := "no such app" |}.

(** A call, an admin request whose asker waits, a shutdown, and a call too late. *)
Definition arriving_example : list FiberCommand :=
  let call n := Call {| call_request := Request_new "GET" "/" [];
                        call_handle := {| stream := Direct n; waker := {| waker_filter := n; waker_event := 1 |} |};
                        permit := {| held := 1 |} |} in
  [call 1;
   Admin {| admin_request := {| admin_method := "GET"; admin_path := "/ruvoy"; admin_body := []; inflight := 1 |};
            admin_reply := 8 |};
   Shutdown 9; call 2].

Definition failing_example : Reactor :=
  {| bridge := {| shutdown_reply := None; thread_object_id := 7;
                  heartbeat := {| started_at := 0; last_pass_ms := 0 |}; body_class := 8;
                  fiber_envelopes := ∅; admin_envelopes := ∅; answers := [] |};
     shared := world_new 4 |}.

Definition never (runner : Value) (name : string) (args : list RValue) : St Reactor (result Value MagnusError) :=
  st_ret (Ok 1).

Lemma failed_start_is_answered_witness : exists ended_ rx',
  fiber_runtime_main example_sources never (fun _ => true) arriving_example None None true 1 (FromSource "boom") None
    "thread" failing_example = ((Err boom, ended_), rx')
  /\ ended_ = Some (Err boom)
  /\ answers (bridge rx') = [Answered 8 503 (failure_text boom); Stopped 9]
  /\ items (get_queue (shared rx') (Direct 1)) = [Failed boom]
  /\ commands (shared rx') = [].
Proof.
  assert (loading_failed example_sources None (FromSource "boom") None "thread" (shared failing_example) boom
            (world_new 4)) as Hf by reflexivity.
  pose proof (failed_start_is_answered example_sources never (fun _ => true) arriving_example None None true 1
                (FromSource "boom") None "thread" failing_example boom (world_new 4) Hf) as Hs.
  destruct (fiber_runtime_main _ _ _ _ _ _ _ _ _ _ _ _) as [[sent ended_] rx'].
  cbn [until_shutdown arriving_example omap list_omap call_of admin_of] in Hs.
  destruct Hs as (-> & -> & H1 & _ & H2 & _ & H3). eexists _, rx'. split; [reflexivity|].
  split; [reflexivity|]. split; [exact H1|]. split; [|apply H3; discriminate].
  apply (H2 (Direct 1)); [by apply elem_of_cons; left|reflexivity].
Defined.
