(* ===== verification/SyncRuntime.v ===== *)
(** * The serial runtime ([src/src/sync.rs])

    One request at a time on the thread that owns the VM: a client queues commands
    and wakes the thread, which serves everything queued before it waits again.  A
    completion is named by reference; what it was called with is logged. *)

From S2P Require Import Prelude RustStr Types Stream Wake Request World Ruby Chunks RubyExample Rack Lifecycle.

Local Open Scope N_scope.

Inductive Command :=
| SyncCall (request : Request) (completion : N)
| ForceGc (reply : N)
| SyncShutdown (reply : N).

(** What the Ruby thread did: completions it ran, replies it sent. *)
Inductive Served :=
| CompletedCall (completion : N) (r : result Response BridgeError)
| Collected (reply : N)
| StoppedSync (reply : N).

Record SyncRuntime := {
  sync_commands : list Command;
  sync_receiving : bool;
  sync_socket : Socket;
  sync_world : World;                  (* the store Ruby code runs over *)
  served : list Served;
}.

Definition set_sync_commands (s : SyncRuntime) c : SyncRuntime :=
  {| sync_commands := c; sync_receiving := sync_receiving s; sync_socket := sync_socket s;
     sync_world := sync_world s; served := served s |}.
Definition set_sync_socket (s : SyncRuntime) k : SyncRuntime :=
  {| sync_commands := sync_commands s; sync_receiving := sync_receiving s; sync_socket := k;
     sync_world := sync_world s; served := served s |}.
Definition stop_receiving (s : SyncRuntime) : SyncRuntime :=
  {| sync_commands := []; sync_receiving := false; sync_socket := sync_socket s;
     sync_world := sync_world s; served := served s |}.

Definition serve (a : Served) : St SyncRuntime unit := fun s =>
  (tt, {| sync_commands := sync_commands s; sync_receiving := sync_receiving s;
          sync_socket := sync_socket s; sync_world := sync_world s; served := served s ++ [a] |}).

Definition in_ruby {A} (m : St World A) : St SyncRuntime A := fun s =>
  let '(a, w) := m (sync_world s) in
  (a, {| sync_commands := sync_commands s; sync_receiving := sync_receiving s;
         sync_socket := sync_socket s; sync_world := w; served := served s |}).

(** ** The client *)

Definition sync_send (command : Command) : St SyncRuntime (result unit BridgeError) := fun s =>
  if sync_receiving s
  then
    let s := set_sync_commands s (sync_commands s ++ [command]) in
    let '(r, k) := signal [] (sync_socket s) in (r, set_sync_socket s k)
  else (Err RuntimeStopped, s).

Definition sync_submit (request : Request) (completion : N) : St SyncRuntime (result unit BridgeError) :=
  sync_send (SyncCall request completion).

(** [await] is what [recv_timeout] on the reply channel gives. *)
Definition sync_call (await : N -> St SyncRuntime (result (result Response BridgeError) RecvTimeoutError))
    (request : Request) (reply : N) : St SyncRuntime (result Response BridgeError) :=
  let* sent := sync_submit request reply in
  match sent with
  | Err e => st_ret (Err e)
  | Ok _ =>
      let* received := await reply in
      st_ret (let? r := recv_reply received in r)
  end.

Definition force_gc_ (await : N -> St SyncRuntime (result (result unit BridgeError) RecvTimeoutError))
    (reply : N) : St SyncRuntime (result unit BridgeError) :=
  let* sent := sync_send (ForceGc reply) in
  match sent with
  | Err e => st_ret (Err e)
  | Ok _ =>
      let* received := await reply in
      st_ret (let? r := recv_reply received in r)
  end.

Definition sync_request_shutdown (await : N -> St SyncRuntime (result unit RecvTimeoutError)) (reply : N)
    : St SyncRuntime (result unit BridgeError) :=
  let* sent := sync_send (SyncShutdown reply) in
  match sent with
  | Err e => st_ret (Err e)
  | Ok _ => let* received := await reply in st_ret (map_err map_recv_timeout received)
  end.

(** ** The Ruby thread *)

Section serving.
Context `{RubyVM}.

(** [Prepared::context] *)
Definition sync_context (app_ string_io rack_errors_ reader : Value) (i : RuntimeInfo) : CallContext :=
  {| app := app_; string_io_class := string_io; request_body_class := None; rack_errors := rack_errors_;
     body_reader := reader; ctx_thread_object_id := info_thread_object_id i; concurrency := Serial;
     extensions := false |}.

Definition pop_sync_command : St SyncRuntime (option Command) := fun s =>
  match sync_commands s with
  | [] => (None, s)
  | c :: rest => (Some c, set_sync_commands s rest)
  end.

(** The inner loop, with fuel for the commands queued: [true] when the thread is to
    return, [false] when it is to wait again. *)
Fixpoint serve_queued (fuel : nat) (connected : bool) (ctx : CallContext) : St SyncRuntime bool :=
  match fuel with
  | O => st_ret false
  | S fuel =>
      let* command := pop_sync_command in
      match command with
      | Some (SyncCall request completion) =>
          let* r := in_ruby (call ctx request) in
          do* serve (CompletedCall completion r) in
          serve_queued fuel connected ctx
      | Some (ForceGc reply) =>
          do* serve (Collected reply) in
          serve_queued fuel connected ctx
      | Some (SyncShutdown reply) =>
          do* serve (StoppedSync reply) in
          do* modify stop_receiving in
          st_ret true
      | None => if connected then st_ret false else st_ret true
      end
  end.

(** One pass of the outer loop, once the thread is awake. *)
Definition sync_pass (connected : bool) (ctx : CallContext) : St SyncRuntime (result bool BridgeError) := fun s =>
  let '(r, k) := drain [] (sync_socket s) in
  let s := set_sync_socket s k in
  match default (Ok tt) r with
  | Err e => (Err e, s)
  | Ok _ =>
      let '(stop, s) := serve_queued (S (length (sync_commands s))) connected ctx s in (Ok stop, s)
  end.

End serving.

(** ** Starting and stopping *)

Record RubyRuntime := { sync_client : bool; sync_info : RuntimeInfo; sync_join : bool }.

(** [ready]: what [ready_rx.recv] gave; [joined]: how the thread ended, when asked. *)
Definition sync_start (socket : result unit BridgeError) (spawned : result unit string)
    (ready : option (result RuntimeInfo BridgeError)) (joined : result (result unit BridgeError) PanicPayload)
    : result RubyRuntime BridgeError :=
  let? _ := socket in
  let? _ := map_err Spawn spawned in
  match ready with
  | Some (Ok i) => Ok {| sync_client := true; sync_info := i; sync_join := true |}
  | Some (Err error) => Err error
  | None =>
      match joined with
      | Ok (Err error) => Err error
      | Ok (Ok _) => Err (Startup "runtime exited before reporting readiness")
      | Err payload => Err (RuntimePanicked (panic_message payload))
      end
  end.

(** Joins the thread whether or not it acknowledged the shutdown. *)
Definition sync_shutdown_inner (requested : result unit BridgeError)
    (joined : result (result unit BridgeError) PanicPayload) : St RubyRuntime (result unit BridgeError) := fun r =>
  let shutdown_result := if sync_client r then requested else Ok tt in
  let join_result := if sync_join r
                     then match joined with
                          | Ok ended => Ok ended
                          | Err payload => Err (RuntimePanicked (panic_message payload))
                          end
                     else Ok (Ok tt) in
  let r := {| sync_client := false; sync_info := sync_info r; sync_join := false |} in
  (let? ended := join_result in let? _ := shutdown_result in ended, r).
