(* ===== verification/SyncServe.v ===== *)
(** * The serial runtime serves in order

    Everything queued before a shutdown is answered once, in the order it was queued,
    one call at a time. *)

From S2P Require Import Prelude RustStr Types Stream Wake Request World Ruby Chunks RubyExample Rack Lifecycle SyncRuntime.

Local Open Scope N_scope.

Fixpoint before_shutdown (cmds : list Command) : list Command * option N :=
  match cmds with
  | [] => ([], None)
  | SyncShutdown reply :: _ => ([], Some reply)
  | c :: rest => let '(b, reply) := before_shutdown rest in (c :: b, reply)
  end.

Section serving.
Context `{RubyVM}.

(** Each command served against the store the one before it left. *)
Fixpoint serve_all (ctx : CallContext) (cmds : list Command) : St World (list Served) :=
  match cmds with
  | [] => st_ret []
  | SyncCall request completion :: rest =>
      let* r := call ctx request in
      let* l := serve_all ctx rest in
      st_ret (CompletedCall completion r :: l)
  | ForceGc reply :: rest => let* l := serve_all ctx rest in st_ret (Collected reply :: l)
  | SyncShutdown reply :: _ => st_ret []
  end.

Definition stop_served (reply : option N) : list Served :=
  match reply with
  | Some n => [StoppedSync n]
  | None => []
  end.

Lemma serve_queued_spec fuel connected ctx s :
  (length (sync_commands s) < fuel)%nat ->
  let '(b, reply) := before_shutdown (sync_commands s) in
  let '(answers, w) := serve_all ctx b (sync_world s) in
  serve_queued fuel connected ctx s =
    (match reply with Some _ => true | None => negb connected end,
     {| sync_commands := []; sync_receiving := match reply with Some _ => false | None => sync_receiving s end;
        sync_socket := sync_socket s; sync_world := w;
        served := served s ++ answers ++ stop_served reply |})%list.
Proof.
  revert s. induction fuel as [|fuel IH]; intros s Hlen; [lia|].
  cbn [serve_queued]. unfold st_bind, pop_sync_command, in_ruby, serve.
  destruct (sync_commands s) as [|c rest] eqn:Ec; cbn [before_shutdown].
  { cbn. destruct s; cbn in *; subst. rewrite app_nil_r. by destruct connected. }
  cbn [length] in Hlen. destruct c as [request completion|reply|reply].
  - destruct (before_shutdown rest) as [b reply] eqn:Eb. cbn [serve_all]. unfold st_bind.
    cbn [sync_world set_sync_commands]. destruct (call ctx request (sync_world s)) as [r w1].
    specialize (IH {| sync_commands := rest; sync_receiving := sync_receiving s; sync_socket := sync_socket s;
      sync_world := w1; served := served s ++ [CompletedCall completion r] |} ltac:(cbn; lia)).
    cbn [sync_commands sync_receiving sync_socket sync_world served] in IH |- *. rewrite Eb in IH.
    destruct (serve_all ctx b w1) as [answers w2]. cbn. rewrite IH. by rewrite <- !app_assoc.
  - destruct (before_shutdown rest) as [b reply'] eqn:Eb. cbn [serve_all]. unfold st_bind.
    specialize (IH {| sync_commands := rest; sync_receiving := sync_receiving s; sync_socket := sync_socket s;
      sync_world := sync_world s; served := served s ++ [Collected reply] |} ltac:(cbn; lia)).
    cbn [sync_commands sync_receiving sync_socket sync_world served set_sync_commands] in IH |- *. rewrite Eb in IH.
    destruct (serve_all ctx b (sync_world s)) as [answers w2]. cbn. rewrite IH. by rewrite <- !app_assoc.
  - done.
Qed.

(** One pass of the serial runtime answers every command queued before a shutdown,
    each once and in the order queued, every call over the store the one before it
    left; with a shutdown it acknowledges it last, refuses what comes later and
    returns, and otherwise it waits again with nothing left queued, or returns when no
    client is left. *)
Lemma pass_serves_in_order (connected : bool) ctx (s : SyncRuntime) :
  socket_ok (sync_socket s) ->
  let '(b, reply) := before_shutdown (sync_commands s) in
  let '(answers, w) := serve_all ctx b (sync_world s) in
  let '(r, s') := sync_pass connected ctx s in
  r = Ok (match reply with Some _ => true | None => negb connected end)
  /\ served s' = (served s ++ answers ++ stop_served reply)%list
  /\ sync_commands s' = []
  /\ sync_receiving s' = match reply with Some _ => false | None => sync_receiving s end
  /\ sync_world s' = w /\ sync_socket s' = set_unread (sync_socket s) 0.
Proof.
  intros Hok. unfold sync_pass. rewrite Wake.Handover.drain_ok by done. cbn [default].
  pose proof (serve_queued_spec (S (length (sync_commands s))) connected ctx
    (set_sync_socket s (set_unread (sync_socket s) 0)) (Nat.lt_succ_diag_r _)) as Hs.
  cbn [sync_commands set_sync_socket sync_receiving sync_socket sync_world served] in *.
  destruct (before_shutdown (sync_commands s)) as [b reply].
  destruct (serve_all ctx b (sync_world s)) as [answers w]. rewrite Hs. by split_and!.
Qed.

End serving.

Definition sync_example : SyncRuntime :=
  {| sync_commands := [SyncCall (Request_new "GET" "/" []) 1; ForceGc 2; SyncShutdown 3;
                       SyncCall (Request_new "GET" "/late" []) 4];
     sync_receiving := true;
     sync_socket := {| unread := 4; room := 64; reader_open := true; writer_open := true |};
     sync_world := world_new 1; served := [] |}.

Definition sync_context_example : CallContext :=
  sync_context 1 2 3 4 {| ruby_description := "ruby"; rust_thread_id := "ThreadId(2)"; info_thread_object_id := 7 |}.

Example pass_example :
  (sync_pass (H := example_ruby) true sync_context_example sync_example).1 = Ok true
  /\ map (fun a => match a with CompletedCall n _ => n | Collected n => n | StoppedSync n => n end)
       (served (sync_pass (H := example_ruby) true sync_context_example sync_example).2) = [1; 2; 3].
Proof.
  assert (Hok : socket_ok (sync_socket sync_example)) by (repeat split; cbn; lia).
  pose proof (pass_serves_in_order (H := example_ruby) true sync_context_example sync_example Hok) as Hs.
  destruct (sync_pass true sync_context_example sync_example) as [r s'] eqn:E.
  cbn in Hs. destruct Hs as (H1 & H2 & _). split; [exact H1|]. cbn [snd]. rewrite H2. reflexivity.
Defined.
