(* ===== verification/SyncMain.v ===== *)
(** * The serial runtime's thread ([main] of [src/src/sync.rs])

    From preparing the VM to the thread's return.  While the thread waits for its socket
    the clients send; what they send while it serves is found by the same loop, after
    what was queued before, and counts with it. *)

From S2P Require Import Prelude RustStr Types Stream Wake Request World Ruby Chunks RubyExample Rack Fiber Lifecycle Loading FailedStart SyncRuntime SyncServe.

Local Open Scope N_scope.

(** One turn of the outer loop: what the clients send, what [thread_wait_fd] gives, and
    whether a client is left. *)
Record Turn := {
  tn_commands : list Command;
  tn_wait : result unit MagnusError;
  tn_connected : bool;
}.

Section thread.
Context `{RubyHost} (sources : RubySources).

(** Each client's [send], from whatever thread; it alone hears of an error. *)
Definition arrive (commands_ : list Command) : St SyncRuntime unit :=
  st_iter (fun c => do* sync_send c in st_ret tt) commands_.

(** The outer loop: how the thread ended, or [None] when it waits again after the last
    turn.  Its end drops the receiver. *)
Fixpoint sync_loop (turns : list Turn) (ctx : CallContext) : St SyncRuntime (option (result unit BridgeError)) :=
  match turns with
  | [] => st_ret None
  | t :: turns =>
      do* arrive (tn_commands t) in
      match tn_wait t with
      | Err error => do* modify stop_receiving in st_ret (Some (Err (ruby_error "waiting for bridge wakeup" error)))
      | Ok _ =>
          let* pass := sync_pass (tn_connected t) ctx in
          match pass with
          | Err error => do* modify stop_receiving in st_ret (Some (Err error))
          | Ok true => do* modify stop_receiving in st_ret (Some (Ok tt))
          | Ok false => sync_loop turns ctx
          end
      end
  end.

(** What was sent as readiness, and how the thread ended.  [waiting]: the starter still
    waits for it. *)
Definition sync_main (app_source thread_id : string) (waiting : bool) (turns : list Turn)
    : St SyncRuntime (result RuntimeInfo BridgeError * option (result unit BridgeError)) :=
  let* prepared := in_ruby (sync_prepare sources app_source thread_id) in
  match prepared with
  | Err error => do* modify stop_receiving in st_ret (Err error, Some (Err error))
  | Ok p =>
      if negb waiting
      then do* modify stop_receiving in
           st_ret (Ok (sp_info p), Some (Err (Startup "starter dropped readiness channel")))
      else
        let ctx := sync_context (sp_app p) (sp_string_io_class p) (sp_rack_errors p) (sp_body_reader p) (sp_info p) in
        let* ended := sync_loop turns ctx in
        st_ret (Ok (sp_info p), ended)
  end.

(** The thread's closure: [main] within [catch_unwind].  [panics]: a panic's payload and
    the state it left; [reported]: the readiness [main] had sent by then, which the
    starter hears first.  Unwinding drops the receiver. *)
Definition sync_thread (app_source thread_id : string) (waiting : bool) (turns : list Turn)
    (reported : option (result RuntimeInfo BridgeError)) (panics : option (PanicPayload * SyncRuntime))
    : St SyncRuntime (result RuntimeInfo BridgeError * option (result unit BridgeError)) :=
  let* unwound := catch_unwind panics (sync_main app_source thread_id waiting turns) in
  match unwound with
  | Returned result_ => st_ret result_
  | Panicked payload =>
      let error := RuntimePanicked (panic_message payload) in
      do* modify stop_receiving in st_ret (default (Err error) reported, Some (Err error))
  end.

(** ** Sequential service *)

Lemma before_shutdown_app a b :
  before_shutdown (a ++ b)
  = match before_shutdown a with
    | (handed, Some reply) => (handed, Some reply)
    | (handed, None) => let '(later, reply) := before_shutdown b in ((handed ++ later)%list, reply)
    end.
Proof.
  induction a as [|c a IH]; cbn; [by destruct (before_shutdown b)|]. destruct c as [q n|n|n]; [| |done]; rewrite IH;
    destruct (before_shutdown a) as [handed [reply|]]; try done; by destruct (before_shutdown b).
Qed.

Lemma before_shutdown_calls l : Forall (fun c => match c with SyncShutdown _ => False | _ => True end) (before_shutdown l).1.
Proof.
  induction l as [|c l IH]; cbn; [constructor|].
  destruct c; cbn; [| |constructor]; destruct (before_shutdown l); cbn in *; by constructor.
Qed.

Lemma serve_all_app ctx a b w :
  Forall (fun c => match c with SyncShutdown _ => False | _ => True end) a ->
  serve_all ctx (a ++ b) w
  = let '(l, w1) := serve_all ctx a w in let '(k, w2) := serve_all ctx b w1 in ((l ++ k)%list, w2).
Proof.
  intros Ha. revert w. induction Ha as [|c a Hc _ IH]; intros w; cbn.
  - by destruct (serve_all ctx b w).
  - destruct c as [request completion|reply|reply]; [| |done]; unfold st_bind.
    + destruct (call ctx request w) as [r w1]. rewrite IH. destruct (serve_all ctx a w1) as [l w2].
      cbn. by destruct (serve_all ctx b w2).
    + rewrite IH. destruct (serve_all ctx a w) as [l w2]. cbn. by destruct (serve_all ctx b w2).
Qed.

(** A runtime that waits with nothing queued. *)
Definition awaiting (s : SyncRuntime) : Prop :=
  sync_commands s = [] /\ sync_receiving s = true /\ socket_ok (sync_socket s).

Lemma arrive_spec l s :
  sync_receiving s = true -> socket_ok (sync_socket s) ->
  let s' := (arrive l s).2 in
  sync_commands s' = (sync_commands s ++ l)%list /\ sync_receiving s' = true /\ socket_ok (sync_socket s')
  /\ sync_world s' = sync_world s /\ served s' = served s.
Proof.
  revert s. induction l as [|c l IH]; intros s Hr Hok; cbn; [by rewrite app_nil_r|].
  unfold arrive. cbn [st_iter]. unfold st_bind, sync_send. rewrite Hr.
  rewrite signal_ok by done. cbn [st_ret].
  destruct (IH (set_sync_socket (set_sync_commands s (sync_commands s ++ [c]))
    (set_unread (sync_socket s) (N.min (unread (sync_socket s) + 1) (room (sync_socket s)))))) as (H1 & H2 & H3 & H4 & H5).
  - done.
  - apply Wake.Handover.set_unread_ok; [done|]. lia.
  - split_and!; [|done..]. refine (eq_trans H1 _). cbn. by rewrite <- app_assoc.
Qed.

(** The commands sent until the thread returns. *)
Definition all_sent (turns : list Turn) : list Command := concat (tn_commands <$> turns).

Definition steady (t : Turn) : Prop := tn_wait t = Ok tt /\ tn_connected t = true.

Lemma sync_loop_spec turns ctx s :
  Forall steady turns -> awaiting s ->
  let '(b, reply) := before_shutdown (all_sent turns) in
  let '(answers, w) := serve_all ctx b (sync_world s) in
  let '(ended, s') := sync_loop turns ctx s in
  ended = match reply with Some _ => Some (Ok tt) | None => None end
  /\ served s' = (served s ++ answers ++ stop_served reply)%list
  /\ sync_world s' = w /\ sync_commands s' = []
  /\ sync_receiving s' = match reply with Some _ => false | None => true end.
Proof.
  intros Ht. revert s. induction Ht as [|t turns [Hw Hc] _ IH]; intros s (Hnil & Hr & Hok).
  { cbn. rewrite app_nil_r. by split_and!. }
  unfold all_sent. cbn [fmap list_fmap concat]. rewrite before_shutdown_app.
  cbn [sync_loop]. unfold st_bind at 1. destruct (arrive_spec (tn_commands t) s Hr Hok) as (A1 & A2 & A3 & A4 & A5).
  destruct (arrive (tn_commands t) s) as [[] s1]. cbn [snd] in *. rewrite Hnil in A1. cbn in A1. rewrite Hw, Hc.
  unfold st_bind at 1. pose proof (pass_serves_in_order true ctx s1 A3) as Hs. rewrite A1, A4, A5, A2 in Hs.
  pose proof (before_shutdown_calls (tn_commands t)) as Hcalls.
  destruct (before_shutdown (tn_commands t)) as [handed [reply|]] eqn:Eb; cbn [fst] in Hcalls;
    destruct (serve_all ctx handed (sync_world s)) as [answers w] eqn:Ea;
    destruct (sync_pass true ctx s1) as [r s2]; destruct Hs as (-> & S1 & S2 & S3 & S4 & S5); cbn [negb].
  - unfold st_bind, modify, st_ret. by split_and!.
  - assert (Hnext : awaiting s2).
    { split_and!; [done|done|]. rewrite S5. apply Wake.Handover.set_unread_ok; [done|lia]. }
    specialize (IH s2 Hnext). unfold all_sent in IH. rewrite S4, S1 in IH.
    destruct (before_shutdown (concat (tn_commands <$> turns))) as [later reply]. rewrite serve_all_app, Ea by done.
    destruct (serve_all ctx later w) as [answers2 w2], (sync_loop turns ctx s2) as [ended s'].
    destruct IH as (I1 & I2 & I3 & I4 & I5). split_and!; try done.
    rewrite I2. cbn. by rewrite app_nil_r, <- !app_assoc.
Qed.

(** However the thread ends, nothing more is received. *)
Lemma ended_refuses app_source thread_id waiting turns s :
  (sync_main app_source thread_id waiting turns s).1.2 <> None ->
  sync_receiving (sync_main app_source thread_id waiting turns s).2 = false
  /\ forall c, (sync_send c (sync_main app_source thread_id waiting turns s).2).1 = Err RuntimeStopped.
Proof.
  intros H1. assert (Hr : sync_receiving (sync_main app_source thread_id waiting turns s).2 = false).
  { revert H1. unfold sync_main, st_bind. destruct (in_ruby _ s) as [[p|error] s0]; [|done].
    destruct waiting; [|done]. cbn [negb]. set (ctx := sync_context _ _ _ _ _). clearbody ctx.
    enough (Hl : (sync_loop turns ctx s0).1 <> None -> sync_receiving (sync_loop turns ctx s0).2 = false).
    { by destruct (sync_loop turns ctx s0). }
    revert s0. induction turns as [|t turns IH]; intros s0; [done|]. cbn [sync_loop]. unfold st_bind.
    destruct (arrive _ s0) as [[] s1]. destruct (tn_wait t); [|done].
    destruct (sync_pass _ _ s1) as [[[|]|error] s2]; [done|apply IH|done]. }
  split; [done|]. intros c. unfold sync_send. by rewrite Hr.
Qed.

(** Nor is anything when [main] panicked; a starter that had heard nothing is told of the
    panic, and what had been served stays served. *)
Lemma panicked_refuses app_source thread_id waiting turns reported payload sp s :
  let '((ready_, ended), s') := sync_thread app_source thread_id waiting turns reported (Some (payload, sp)) s in
  let error := RuntimePanicked (panic_message payload) in
  ended = Some (Err error) /\ served s' = served sp
  /\ (forall c, (sync_send c s').1 = Err RuntimeStopped)
  /\ (reported = None -> forall joined, sync_start (Ok tt) (Ok tt) (Some ready_) joined = Err error).
Proof. unfold sync_thread. cbn. split_and!; [done..|]. by intros ->. Qed.

Lemma calm_thread app_source thread_id waiting turns reported s :
  sync_thread app_source thread_id waiting turns reported None s = sync_main app_source thread_id waiting turns s.
Proof. unfold sync_thread, catch_unwind, st_bind. by destruct (sync_main _ _ _ _ s). Qed.

(** C32: The serial runtime's thread over its whole life, however what the clients send
    is spread over its turns: a VM that cannot be prepared is reported as the readiness,
    and ends the thread with that error and nothing served; otherwise the thread reports
    once that it is ready, and serves every command sent before the first shutdown, each
    once and in the order sent, every call over the store the one before it left, as if
    they had been sent at once; it acknowledges the shutdown last and returns, refusing
    what comes later, and without one it waits with nothing left queued.  Turns are
    steady: every wait for the socket succeeds and a client is left; [main] does not
    panic ([panicked_refuses] says what is left when it does). *)
Theorem thread_serves_in_order (app_source thread_id : string) (turns : list Turn) (s : SyncRuntime) :
  awaiting s -> Forall steady turns ->
  let '(prepared, w0) := sync_prepare sources app_source thread_id (sync_world s) in
  let '((ready_, ended), s') := sync_main app_source thread_id true turns s in
  match prepared with
  | Err error =>
      ready_ = Err error /\ ended = Some (Err error) /\ served s' = served s /\ sync_receiving s' = false
  | Ok p =>
      let ctx := sync_context (sp_app p) (sp_string_io_class p) (sp_rack_errors p) (sp_body_reader p) (sp_info p) in
      let '(b, reply) := before_shutdown (all_sent turns) in
      let '(answers, w) := serve_all ctx b w0 in
      ready_ = Ok (sp_info p)
      /\ ended = match reply with Some _ => Some (Ok tt) | None => None end
      /\ served s' = (served s ++ answers ++ stop_served reply)%list
      /\ sync_world s' = w /\ sync_commands s' = []
      /\ sync_receiving s' = match reply with Some _ => false | None => true end
  end.
Proof.
  intros (Hnil & Hr & Hok) Ht. unfold sync_main. unfold st_bind at 1, in_ruby.
  destruct (sync_prepare sources app_source thread_id (sync_world s)) as [[p|error] w0] eqn:Ep.
  - cbn [negb]. set (ctx := sync_context _ _ _ _ _).
    set (s0 := {| sync_commands := _; sync_receiving := _; sync_socket := _; sync_world := w0; served := _ |}).
    pose proof (sync_loop_spec turns ctx s0 Ht (conj Hnil (conj Hr Hok))) as Hs. cbn [sync_world served s0] in Hs.
    destruct (before_shutdown (all_sent turns)) as [b reply], (serve_all ctx b w0) as [answers w].
    unfold st_bind. destruct (sync_loop turns ctx s0) as [ended s']. unfold st_ret. destruct Hs as (H1 & H2 & H3 & H4 & H5). by split_and!.
  - by unfold st_bind, modify, st_ret.
Qed.

End thread.

(** ** Two turns, the second with a shutdown *)

Definition waiting_example : SyncRuntime :=
  {| sync_commands := []; sync_receiving := true;
     sync_socket := {| unread := 0; room := 64; reader_open := true; writer_open := true |};
     sync_world := world_new 1; served := [] |}.

Definition turns_example : list Turn :=
  [{| tn_commands := [SyncCall (Request_new "GET" "/" []) 1]; tn_wait := Ok tt; tn_connected := true |};
   {| tn_commands := [ForceGc 2; SyncShutdown 3; SyncCall (Request_new "GET" "/late" []) 4]; tn_wait := Ok tt;
      tn_connected := true |}].

Definition served_by (a : Served) : N :=
  match a with
  | CompletedCall n _ | Collected n | StoppedSync n => n
  end.

Lemma thread_serves_in_order_witness : exists info_ ended s',
  sync_main (H := example_ruby) (H0 := example_host) example_sources "app" "ThreadId(2)" true turns_example waiting_example
  = ((Ok info_, ended), s')
  /\ ended = Some (Ok tt) /\ map served_by (served s') = [1; 2; 3] /\ sync_commands s' = [] /\ sync_receiving s' = false.
Proof.
  assert (Ha : awaiting waiting_example) by (repeat split; cbn; lia).
  assert (Ht : Forall steady turns_example) by (repeat constructor).
  pose proof (thread_serves_in_order (H := example_ruby) (H0 := example_host) example_sources "app" "ThreadId(2)"
    turns_example waiting_example Ha Ht) as Hs.
  destruct (sync_main _ _ _ _ _ _) as [[ready_ ended] s']. cbn in Hs.
  destruct Hs as (-> & -> & H1 & _ & H2 & H3). eexists _, _, s'. split; [reflexivity|]. split; [reflexivity|].
  split; [rewrite H1; reflexivity|]. by split.
Defined.
