(* ===== verification/SyncWorker.v ===== *)
(** * The serial runtime's filter ([src/crates/ruvoy-envoy-sync/src/worker.rs])

    The request is collected whole, submitted once, and answered with one local
    response when the Ruby thread has filled the result slot. *)

From S2P Require Import Prelude RustStr Types Stream Wake Request World Envoy EnvoyExample SyncRuntime.
From Stdlib Require Import Strings.Ascii.

Local Open Scope N_scope.

Definition SYNC_RESPONSE_EVENT_ID : N := 1.
Definition MAX_REQUEST_BODY_BYTES : N := 2 * 1024 * 1024.

(** ** Configuration ([runtime.rs], [lib.rs]) *)

(** [flag_env]: [None] when the variable is not set, [Some None] when it is not
    Unicode. *)
Definition flag_env (name : string) (value : option (option string)) : result bool BridgeError :=
  match value with
  | None => Ok false
  | Some (Some "1") => Ok true
  | Some (Some "0") => Ok false
  | Some _ => Err (Startup (name ++ " must be 0 or 1"))
  end%string.

Record SyncRackConfig := {
  sync_diagnostics_enabled : bool;
  sync_runtime_thread_id : string;
}.

(** [runtime] is what starting the runtime gave: the id of its thread. *)
Definition sync_config_start (diagnostics_flag : option (option string)) (runtime : result string BridgeError)
    : result SyncRackConfig BridgeError :=
  let? enabled := flag_env "RUVOY_DIAGNOSTICS" diagnostics_flag in
  let? thread_id := runtime in
  Ok {| sync_diagnostics_enabled := enabled; sync_runtime_thread_id := thread_id |}.

Definition sync_http_filter_config (name : string) (started : result SyncRackConfig BridgeError)
    : option SyncRackConfig :=
  if negb (bool_decide (name = "sync_rack"%string)) then None
  else match started with
       | Ok config => Some config
       | Err _ => None
       end.

(** ** The filter *)

Inductive SyncState := SCollecting | SWaiting | SResponded.

#[export] Instance SyncState_eq_dec : EqDecision SyncState.
Proof. solve_decision. Defined.

Inductive BodyStatus := StopIterationNoBuffer | StopIterationAndBuffer.

(** The filter, Envoy, the calls made to it, the result slot shared with the
    completion, the events posted, and the runtime. *)
Record SyncWorker (E : Type) := {
  s_config : SyncRackConfig;
  s_worker_thread_id : string;
  s_request : option Request;
  s_state : SyncState;
  s_envoy : E;
  s_performed : list EnvoyCall;
  s_result : option (result Response BridgeError);
  s_events : list N;
  s_runtime : SyncRuntime;
}.
Arguments s_config {E}.
Arguments s_worker_thread_id {E}.
Arguments s_request {E}.
Arguments s_state {E}.
Arguments s_envoy {E}.
Arguments s_performed {E}.
Arguments s_result {E}.
Arguments s_events {E}.
Arguments s_runtime {E}.

Section filter.
Context {E : Type} `{EnvoyHttpFilter E}.

Definition set_s_request (s : SyncWorker E) r : SyncWorker E :=
  {| s_config := s_config s; s_worker_thread_id := s_worker_thread_id s; s_request := r;
     s_state := s_state s; s_envoy := s_envoy s; s_performed := s_performed s; s_result := s_result s;
     s_events := s_events s; s_runtime := s_runtime s |}.
Definition set_s_state (s : SyncWorker E) st : SyncWorker E :=
  {| s_config := s_config s; s_worker_thread_id := s_worker_thread_id s; s_request := s_request s;
     s_state := st; s_envoy := s_envoy s; s_performed := s_performed s; s_result := s_result s;
     s_events := s_events s; s_runtime := s_runtime s |}.
Definition set_s_result (s : SyncWorker E) r : SyncWorker E :=
  {| s_config := s_config s; s_worker_thread_id := s_worker_thread_id s; s_request := s_request s;
     s_state := s_state s; s_envoy := s_envoy s; s_performed := s_performed s; s_result := r;
     s_events := s_events s; s_runtime := s_runtime s |}.
Definition set_s_envoy (s : SyncWorker E) e : SyncWorker E :=
  {| s_config := s_config s; s_worker_thread_id := s_worker_thread_id s; s_request := s_request s;
     s_state := s_state s; s_envoy := e; s_performed := s_performed s; s_result := s_result s;
     s_events := s_events s; s_runtime := s_runtime s |}.
Definition set_s_runtime (s : SyncWorker E) r : SyncWorker E :=
  {| s_config := s_config s; s_worker_thread_id := s_worker_thread_id s; s_request := s_request s;
     s_state := s_state s; s_envoy := s_envoy s; s_performed := s_performed s; s_result := s_result s;
     s_events := s_events s; s_runtime := r |}.

Definition send_response (status : N) (headers : list (string * bytes)) (body : bytes) (details : string)
    : St (SyncWorker E) unit := fun s =>
  let call := SendResponse status headers (Some body) details in
  let '(_, e) := perform call (s_envoy s) in
  (tt, {| s_config := s_config s; s_worker_thread_id := s_worker_thread_id s; s_request := s_request s;
          s_state := s_state s; s_envoy := e; s_performed := s_performed s ++ [call];
          s_result := s_result s; s_events := s_events s; s_runtime := s_runtime s |}).

Definition sync_copy_headers (e : E) : Request :=
  {| method := default "GET"%string (from_utf8_lossy <$> get_request_header_value e ":method");
     path := default "/"%string (from_utf8_lossy <$> get_request_header_value e ":path");
     body := []; body_stream := None;
     request_headers := map (fun '(name, value) => (from_utf8_lossy name, value)) (get_request_headers e);
     metadata := RequestMetadata_default; context := None; upstreams := None; force_gc := false;
     diagnostics := None |}.

Definition with_body (r : Request) (b : bytes) : Request :=
  {| method := method r; path := path r; body := b; body_stream := body_stream r;
     request_headers := request_headers r; metadata := metadata r; context := context r;
     upstreams := upstreams r; force_gc := force_gc r; diagnostics := diagnostics r |}.

Definition copy_received_body : St (SyncWorker E) (result unit unit) := fun s =>
  let received := received_body (s_envoy s) in
  match s_request s with
  | None => (Err tt, s)
  | Some request =>
      if MAX_REQUEST_BODY_BYTES <? saturating_add (len (body request)) (len received) then (Err tt, s)
      else (Ok tt, set_s_request s (Some (with_body request (body request ++ received))))
  end.

Definition sync_bridge_error (status : N) (body : string) (details : string) : St (SyncWorker E) unit :=
  do* modify (fun s => set_s_state s SResponded) in
  send_response status
    [("content-type", into_bytes "text/plain"); ("x-ruvoy-error", into_bytes "true")]%string
    (into_bytes body) details.

(** The completion fills the slot and posts the event: [completed] below. *)
Definition sync_submit_request : St (SyncWorker E) unit := fun s =>
  match s_request s with
  | None => sync_bridge_error 500 "missing owned request" "ruvoy_sync_missing_request" s
  | Some request =>
      let s := set_s_request s None in
      let '(r, rt) := sync_submit request 0 (s_runtime s) in
      let s := set_s_runtime s rt in
      match r with
      | Ok _ => (tt, set_s_state s SWaiting)
      | Err error => sync_bridge_error 503 (error_to_string error) "ruvoy_sync_submit_failed" s
      end
  end.

(** The closure given to [submit], run on the Ruby thread. *)
Definition completed (r : result Response BridgeError) : St (SyncWorker E) unit := fun s =>
  (tt, {| s_config := s_config s; s_worker_thread_id := s_worker_thread_id s; s_request := s_request s;
          s_state := s_state s; s_envoy := s_envoy s; s_performed := s_performed s; s_result := Some r;
          s_events := s_events s ++ [SYNC_RESPONSE_EVENT_ID]; s_runtime := s_runtime s |}).

Definition rack_response_headers (s : SyncWorker E) (r : Response) : list (string * bytes) :=
  (map (fun '(name, value) => (name, into_bytes value))
     (List.filter (fun '(name, _) => negb (starts_with_char ":"%char name)) (resp_headers r))
   ++ if sync_diagnostics_enabled (s_config s)
      then [("x-ruvoy-runtime-rust-thread-id", into_bytes (sync_runtime_thread_id (s_config s)));
            ("x-ruvoy-worker-rust-thread-id", into_bytes (s_worker_thread_id s))]%string
      else [])%list.

Definition send_rack_response (r : Response) : St (SyncWorker E) unit := fun s =>
  let headers := rack_response_headers s r in
  send_response (resp_status r) headers (resp_body r) "ruvoy_sync_rack_response" (set_s_state s SResponded).

(** [new_http_filter]: [e] is Envoy as the filter finds it, [runtime] the one its
    client sends to. *)
Definition new_sync_filter (config : SyncRackConfig) (thread_id : string) (e : E) (runtime : SyncRuntime)
    : SyncWorker E :=
  {| s_config := config; s_worker_thread_id := thread_id; s_request := None; s_state := SCollecting;
     s_envoy := e; s_performed := []; s_result := None; s_events := []; s_runtime := runtime |}.

(** ** Callbacks *)

Definition sync_on_request_headers (end_of_stream : bool) : St (SyncWorker E) unit :=
  do* modify (fun s => set_s_request s (Some (sync_copy_headers (s_envoy s)))) in
  if end_of_stream then sync_submit_request else st_ret tt.

Definition sync_on_request_body (end_of_stream : bool) : St (SyncWorker E) BodyStatus := fun s =>
  if negb (bool_decide (s_state s = SCollecting)) then (StopIterationNoBuffer, s)
  else
    match copy_received_body s with
    | (Err _, s) =>
        let '(_, s) := sync_bridge_error 413 "request body exceeds the 2 MiB limit" "ruvoy_sync_body_too_large" s in
        (StopIterationNoBuffer, s)
    | (Ok _, s) =>
        if end_of_stream
        then let '(_, s) := sync_submit_request s in (StopIterationNoBuffer, s)
        else (StopIterationAndBuffer, s)
    end.

Definition sync_on_request_trailers : St (SyncWorker E) unit := fun s =>
  if bool_decide (s_state s = SCollecting) then sync_submit_request s else (tt, s).

Definition sync_on_scheduled (event_id : N) : St (SyncWorker E) unit := fun s =>
  if negb (event_id =? SYNC_RESPONSE_EVENT_ID) || negb (bool_decide (s_state s = SWaiting)) then (tt, s)
  else
    let r := s_result s in
    let s := set_s_result s None in
    match r with
    | Some (Ok response) => send_rack_response response s
    | Some (Err error) => sync_bridge_error 500 (error_to_string error) "ruvoy_sync_ruby_error" s
    | None => sync_bridge_error 500 "scheduler event arrived without a result" "ruvoy_sync_missing_result" s
    end.

(** What may happen after the headers. *)
Inductive SyncEvent :=
| SBody (frame : E) (end_of_stream : bool)      (* Envoy, holding one more frame *)
| STrailers
| SScheduled (event_id : N)
| SCompleted (r : result Response BridgeError).

Definition sync_event (ev : SyncEvent) : St (SyncWorker E) unit :=
  match ev with
  | SBody frame b => fun s => (tt, (sync_on_request_body b (set_s_envoy s frame)).2)
  | STrailers => sync_on_request_trailers
  | SScheduled id => sync_on_scheduled id
  | SCompleted r => completed r
  end.

Fixpoint sync_events (evs : list SyncEvent) : St (SyncWorker E) unit :=
  match evs with
  | [] => st_ret tt
  | ev :: evs => do* sync_event ev in sync_events evs
  end.

(** ** One request, one answer *)

Definition plain_error (status : N) (body details : string) : EnvoyCall :=
  SendResponse status
    [("content-type", into_bytes "text/plain"); ("x-ruvoy-error", into_bytes "true")]%string
    (Some (into_bytes body)) details.

(** What the client of [s] is sent for a result. *)
Definition reply_to (s : SyncWorker E) (r : result Response BridgeError) : EnvoyCall :=
  match r with
  | Ok response =>
      SendResponse (resp_status response) (rack_response_headers s response) (Some (resp_body response))
        "ruvoy_sync_rack_response"
  | Err error => plain_error 500 (error_to_string error) "ruvoy_sync_ruby_error"
  end.

Definition missing_result : EnvoyCall :=
  plain_error 500 "scheduler event arrived without a result" "ruvoy_sync_missing_result".
Definition too_large : EnvoyCall :=
  plain_error 413 "request body exceeds the 2 MiB limit" "ruvoy_sync_body_too_large".

(** How far a request's body has come, from the events alone. *)
Inductive Upload := Uploading (body : bytes) | Uploaded (body : bytes) | TooLarge.

Fixpoint upload (b : bytes) (evs : list SyncEvent) : Upload :=
  match evs with
  | [] => Uploading b
  | SBody frame end_of_stream :: evs =>
      let b := b ++ received_body frame in
      if MAX_REQUEST_BODY_BYTES <? len b then TooLarge
      else if end_of_stream then Uploaded b else upload b evs
  | STrailers :: _ => Uploaded b
  | (SScheduled _ | SCompleted _) :: evs => upload b evs
  end.

Definition same_settings (s s' : SyncWorker E) : Prop :=
  s_config s' = s_config s /\ s_worker_thread_id s' = s_worker_thread_id s.

Lemma reply_to_same s s' r : same_settings s s' -> reply_to s' r = reply_to s r.
Proof. intros [H1 H2]. destruct r; [|done]. unfold reply_to, rack_response_headers. by rewrite H1, H2. Qed.

Lemma sync_bridge_error_run status b details s :
  let s' := (sync_bridge_error status b details s).2 in
  s_state s' = SResponded /\ s_performed s' = s_performed s ++ [plain_error status b details]
  /\ s_runtime s' = s_runtime s /\ same_settings s s'.
Proof.
  cbn. unfold sync_bridge_error, st_bind, modify, send_response. cbn.
  by destruct (perform _ _).
Qed.

Lemma send_rack_response_run r s :
  let s' := (send_rack_response r s).2 in
  s_state s' = SResponded /\ s_performed s' = s_performed s ++ [reply_to s (Ok r)]
  /\ s_runtime s' = s_runtime s /\ same_settings s s'.
Proof. cbn. unfold send_rack_response, send_response. cbn. by destruct (perform _ _). Qed.

Lemma events_cons ev evs s : (sync_events (ev :: evs) s).2 = (sync_events evs (sync_event ev s).2).2.
Proof. cbn. unfold st_bind. by destruct (sync_event ev s). Qed.

(** Nothing follows the answer. *)
Lemma responded_stays evs s :
  s_state s = SResponded ->
  let s' := (sync_events evs s).2 in
  s_state s' = SResponded /\ s_performed s' = s_performed s /\ s_runtime s' = s_runtime s.
Proof.
  revert s. induction evs as [|ev evs IH]; intros s Hs; [done|]. rewrite events_cons.
  assert (s_state (sync_event ev s).2 = SResponded /\ s_performed (sync_event ev s).2 = s_performed s
    /\ s_runtime (sync_event ev s).2 = s_runtime s) as (H1 & H2 & H3).
  { destruct ev as [f b| |id|r]; cbn.
    - unfold sync_on_request_body. cbn. by rewrite Hs.
    - unfold sync_on_request_trailers. by rewrite Hs.
    - unfold sync_on_scheduled. rewrite Hs. by destruct (id =? _).
    - done. }
  specialize (IH _ H1). cbn zeta in *. by rewrite <- H2, <- H3.
Qed.

(** A filter that waits sends the reply to a result the Ruby thread gave, once. *)
Definition waits_or_answered (s s' : SyncWorker E) (given : result Response BridgeError -> Prop) : Prop :=
  s_state s' = SWaiting /\ s_performed s' = []
  \/ s_state s' = SResponded
     /\ (s_performed s' = [missing_result] \/ exists r, given r /\ s_performed s' = [reply_to s r]).

Lemma waiting_runs evs s :
  s_state s = SWaiting -> s_performed s = [] ->
  let s' := (sync_events evs s).2 in
  s_runtime s' = s_runtime s
  /\ waits_or_answered s s' (fun r => s_result s = Some r \/ In (SCompleted r) evs).
Proof.
  revert s. induction evs as [|ev evs IH]; intros s Hs Hp; [by split; [|left]|]. rewrite events_cons.
  cut ((s_state (sync_event ev s).2 = SWaiting /\ s_performed (sync_event ev s).2 = []
        /\ s_runtime (sync_event ev s).2 = s_runtime s /\ same_settings s (sync_event ev s).2
        /\ (forall r, s_result (sync_event ev s).2 = Some r -> s_result s = Some r \/ ev = SCompleted r))
      \/ (s_state (sync_event ev s).2 = SResponded /\ s_runtime (sync_event ev s).2 = s_runtime s
         /\ (s_performed (sync_event ev s).2 = [missing_result]
             \/ exists r, s_result s = Some r /\ s_performed (sync_event ev s).2 = [reply_to s r]))).
  { intros [(H1 & H2 & H3 & H4 & H5)|(H1 & H2 & H3)].
    - destruct (IH _ H1 H2) as [H6 H7]. split; [by rewrite H6|].
      destruct H7 as [H7|[H7 [H8|(r & H8 & H9)]]]; [ by left|right; split; [done|by left]|right; split; [done|right]].
      exists r. rewrite H9, (reply_to_same s) by done. split; [|done].
      destruct H8 as [H8|H8]; [|by right; right].
      destruct (H5 _ H8) as [H10|H10]; [by left|]. right; left. by rewrite H10.
    - destruct (responded_stays evs _ H1) as (H4 & H5 & H6). split; [by rewrite H6|]. right.
      split; [done|]. rewrite H5. destruct H3 as [H3|(r & H3 & H7)]; [by left|right; exists r; split; [by left|done] ]. }
  destruct ev as [f b| |id|r]; cbn.
  - left. unfold sync_on_request_body. cbn. rewrite Hs. cbn. split_and!; [done..|intros r Hr; by left].
  - left. unfold sync_on_request_trailers. rewrite Hs. cbn. split_and!; [done..|intros r Hr; by left].
  - unfold sync_on_scheduled. rewrite Hs, Bool.orb_false_r.
    destruct (id =? SYNC_RESPONSE_EVENT_ID); cbn [negb]; [right|left; split_and!; [done..|intros r Hr; by left]].
    destruct (s_result s) as [[response|error]|] eqn:Er.
    + destruct (send_rack_response_run response (set_s_result s None)) as (H1 & H2 & H3 & H4).
      split_and!; [done..|]. right. eexists. split; [done|]. rewrite H2. cbn. by rewrite Hp.
    + destruct (sync_bridge_error_run 500 (error_to_string error) "ruvoy_sync_ruby_error" (set_s_result s None))
        as (H1 & H2 & H3 & H4).
      split_and!; [done..|]. right. eexists. split; [done|]. rewrite H2. cbn. by rewrite Hp.
    + destruct (sync_bridge_error_run 500 "scheduler event arrived without a result" "ruvoy_sync_missing_result"
        (set_s_result s None)) as (H1 & H2 & H3 & H4).
      split_and!; [done..|]. left. rewrite H2. cbn. by rewrite Hp.
  - left. split_and!; [done..|]. intros r' [= ->]. by right.
Qed.

Definition submit_refused (e : BridgeError) : EnvoyCall :=
  plain_error 503 (error_to_string e) "ruvoy_sync_submit_failed".

(** What a runtime's queue becomes when a client submits a request. *)
Definition queued_after (rt : SyncRuntime) (r : Request) : list Command :=
  (sync_commands rt ++ if sync_receiving rt then [SyncCall r 0] else [])%list.

Lemma submit_request_run r s :
  s_request s = Some r -> s_performed s = [] ->
  let s' := (sync_submit_request s).2 in
  same_settings s s' /\ sync_commands (s_runtime s') = queued_after (s_runtime s) r
  /\ (s_state s' = SWaiting /\ s_performed s' = [] /\ s_result s' = s_result s
      \/ s_state s' = SResponded /\ exists e, s_performed s' = [submit_refused e]).
Proof.
  intros Hr Hp. cbn. unfold sync_submit_request, queued_after. rewrite Hr. unfold sync_submit, sync_send.
  cbn [s_runtime set_s_request].
  assert (Hrefused : forall e rt, let s' := (sync_bridge_error 503 (error_to_string e) "ruvoy_sync_submit_failed"
    (set_s_runtime (set_s_request s None) rt)).2 in
    same_settings s s' /\ sync_commands (s_runtime s') = sync_commands rt
    /\ s_state s' = SResponded /\ s_performed s' = [submit_refused e]).
  { intros e rt. edestruct sync_bridge_error_run as (H1 & H2 & H3 & H4). cbn zeta in *.
    split_and!; [exact H4|by rewrite H3|exact H1|by rewrite H2; cbn; rewrite Hp]. }
  destruct (sync_receiving (s_runtime s)).
  - destruct (signal _ _) as [[[]|e] k].
    + cbn. split_and!; [done..|by left].
    + edestruct Hrefused as (H1 & H2 & H3 & H4). cbn zeta in *.
      split_and!; [exact H1|by rewrite H2|right; eauto].
  - edestruct Hrefused as (H1 & H2 & H3 & H4). cbn zeta in *.
    split_and!; [exact H1|by rewrite H2, app_nil_r|right; eauto].
Qed.

(** Where a filter that had read [b] of the body of [r0] is after [evs]. *)
Definition outcome (s s' : SyncWorker E) (r0 : Request) (evs : list SyncEvent) (u : Upload) : Prop :=
  match u with
  | Uploading b =>
      sync_commands (s_runtime s') = sync_commands (s_runtime s)
      /\ s_state s' = SCollecting /\ s_performed s' = [] /\ s_request s' = Some (with_body r0 b)
  | TooLarge =>
      sync_commands (s_runtime s') = sync_commands (s_runtime s)
      /\ s_state s' = SResponded /\ s_performed s' = [too_large]
  | Uploaded b =>
      sync_commands (s_runtime s') = queued_after (s_runtime s) (with_body r0 b)
      /\ (waits_or_answered s s' (fun r => s_result s = Some r \/ In (SCompleted r) evs)
          \/ s_state s' = SResponded /\ exists e, s_performed s' = [submit_refused e])
  end.

Lemma outcome_weaken s s1 s' r0 ev evs u :
  same_settings s s1 -> s_runtime s1 = s_runtime s ->
  (forall r, s_result s1 = Some r -> s_result s = Some r \/ ev = SCompleted r) ->
  outcome s1 s' r0 evs u -> outcome s s' r0 (ev :: evs) u.
Proof.
  intros Hs Hrt Hr. unfold outcome. rewrite Hrt. destruct u; try done.
  intros [H1 [[H2|[H2 [H3|(r & H3 & H4)]]]|H2]]; (split; [done|]).
  - left. by left.
  - left. right. split; [done|by left].
  - left. right. split; [done|right]. exists r. rewrite H4, (reply_to_same s s1) by done.
    split; [|done]. destruct H3 as [H3|H3]; [|by right; right].
    destruct (Hr _ H3) as [H5|H5]; [by left|]. right; left. by rewrite H5.
  - by right.
Qed.

(** A submission followed by anything. *)
Lemma submitted_runs r0 b evs s s1 :
  same_settings s s1 -> s_runtime s1 = s_runtime s -> s_result s1 = s_result s ->
  s_request s1 = Some (with_body r0 b) -> s_performed s1 = [] ->
  outcome s (sync_events evs (sync_submit_request s1).2).2 r0 evs (Uploaded b).
Proof.
  intros Hset Hrt Hres Hreq Hp.
  destruct (submit_request_run _ s1 Hreq Hp) as (H1 & H2 & H3). cbn zeta in *.
  set (s2 := (sync_submit_request s1).2) in *.
  assert (Hset2 : same_settings s s2) by (destruct Hset, H1; split; congruence).
  destruct H3 as [(H3 & H4 & H5)|(H3 & e & H4)].
  - destruct (waiting_runs evs s2 H3 H4) as [H6 H7]. unfold outcome. rewrite H6, H2, Hrt.
    split; [done|]. left. destruct H7 as [H7|[H7 [H8|(r & H8 & H9)]]]; [by left|right; split; [done|by left]|].
    right. split; [done|right]. exists r. rewrite H9, (reply_to_same s s2), <- Hres, <- H5 by done. by split.
  - destruct (responded_stays evs s2 H3) as (H5 & H6 & H7). unfold outcome. rewrite H7, H2, Hrt.
    split; [done|]. right. split; [done|]. exists e. by rewrite H6.
Qed.

Lemma upload_bound evs b :
  len b <= MAX_REQUEST_BODY_BYTES ->
  match upload b evs with Uploaded b' => len b' <= MAX_REQUEST_BODY_BYTES | _ => True end.
Proof.
  revert b. induction evs as [|[f last| |id|r] evs IH]; intros b Hb; cbn [upload]; [done| |done|by apply IH..].
  destruct (N.ltb_spec MAX_REQUEST_BODY_BYTES (len (b ++ received_body f))); [done|].
  destruct last; [done|]. by apply IH.
Qed.

Lemma body_run f last r s :
  s_state s = SCollecting -> s_request s = Some r ->
  (sync_event (SBody f last) s).2
  = let s := set_s_envoy s f in
    let b := body r ++ received_body f in
    if MAX_REQUEST_BODY_BYTES <? len b
    then (sync_bridge_error 413 "request body exceeds the 2 MiB limit" "ruvoy_sync_body_too_large" s).2
    else let s := set_s_request s (Some (with_body r b)) in
         if last then (sync_submit_request s).2 else s.
Proof.
  intros Hs Hr. cbn [sync_event snd]. unfold sync_on_request_body, copy_received_body.
  cbn [s_state s_request s_envoy set_s_envoy]. rewrite Hs, Hr, saturating_add_exceeds, len_app by done.
  cbn [bool_decide negb]. rewrite bool_decide_eq_true_2 by done. cbn [negb].
  destruct (_ <? _); [by destruct (sync_bridge_error _ _ _ _)|].
  destruct last; [|done]. by destruct (sync_submit_request _).
Qed.

Lemma collecting_runs evs r0 b s :
  s_state s = SCollecting -> s_performed s = [] -> s_request s = Some (with_body r0 b) ->
  outcome s (sync_events evs s).2 r0 evs (upload b evs).
Proof.
  revert s b. induction evs as [|ev evs IH]; intros s b Hs Hp Hr; [done|].
  rewrite events_cons. destruct ev as [f last| |id|r]; cbn [upload].
  - rewrite (body_run f last (with_body r0 b)) by done. cbv zeta. cbn [body with_body].
    destruct (MAX_REQUEST_BODY_BYTES <? len (b ++ received_body f)).
    + edestruct sync_bridge_error_run as (H1 & H2 & H3 & H4). cbv zeta in *.
      destruct (responded_stays evs _ H1) as (H5 & H6 & H7). unfold outcome. rewrite H7, H3, H6, H2.
      cbn [s_performed set_s_envoy]. by rewrite Hp.
    + set (s1 := set_s_request _ _). destruct last.
      * eapply (outcome_weaken s s); [by split|done|by left|]. by apply submitted_runs.
      * eapply (outcome_weaken s s1); [by split|done|by left|]. by apply IH.
  - cbn [sync_event]. unfold sync_on_request_trailers. rewrite bool_decide_eq_true_2 by done.
    eapply (outcome_weaken s s); [by split|done|by left|]. by apply submitted_runs.
  - cbn [sync_event]. unfold sync_on_scheduled. rewrite (bool_decide_eq_false_2 (s_state s = SWaiting)) by congruence.
    rewrite Bool.orb_true_r. eapply (outcome_weaken s s); [by split|done|by left|]. by apply IH.
  - cbn. eapply (outcome_weaken s (completed r s).2); [by split|done| |by apply IH].
    intros r' Hr'. cbn in Hr'. right. congruence.
Qed.

(** C33: whatever events follow a request's headers, the serial filter queues the request
    at most once, when the body is complete, with the headers of the client and the body
    that is the concatenation of the frames it was given, never more than 2 MiB; it
    sends the client at most one response, none before the body is complete or refused;
    and what it sends for a result is the reply to one the Ruby thread gave. *)
Theorem sync_answers_once config thread_id (e : E) runtime (end_of_stream : bool) (evs : list SyncEvent) :
  let s := new_sync_filter config thread_id e runtime in
  let r0 := sync_copy_headers e in
  let s' := (sync_events evs (sync_on_request_headers end_of_stream s).2).2 in
  let u := if end_of_stream then Uploaded [] else upload [] evs in
  (match u with Uploaded b => len b <= MAX_REQUEST_BODY_BYTES | _ => True end)
  /\ sync_commands (s_runtime s')
     = (match u with
        | Uploaded b => queued_after runtime (with_body r0 b)
        | _ => sync_commands runtime
        end)
  /\ match u with
     | Uploading _ => s_state s' = SCollecting /\ s_performed s' = []
     | TooLarge => s_performed s' = [too_large]
     | Uploaded _ =>
         s_state s' = SWaiting /\ s_performed s' = []
         \/ s_performed s' = [missing_result]
         \/ (exists r, In (SCompleted r) evs /\ s_performed s' = [reply_to s r])
         \/ exists error, s_performed s' = [submit_refused error]
     end.
Proof.
  cbn zeta. set (s := new_sync_filter config thread_id e runtime). set (r0 := sync_copy_headers e).
  set (u := if end_of_stream then _ else _). set (s' := (sync_events evs _).2).
  assert (Hbound : match u with Uploaded b => len b <= MAX_REQUEST_BODY_BYTES | _ => True end).
  { unfold u. destruct end_of_stream; [by vm_compute|]. apply upload_bound. by vm_compute. }
  split; [done|].
  assert (Ho : outcome s s' r0 evs u).
  { unfold s', u, sync_on_request_headers, st_bind, modify. destruct end_of_stream.
    - apply submitted_runs; done.
    - pose proof (collecting_runs evs r0 [] (set_s_request s (Some r0))) as Hc. by apply Hc. }
  destruct u; cbn in Ho.
  - by destruct Ho as (H1 & H2 & H3 & _).
  - destruct Ho as [H1 H2]. split; [done|].
    destruct H2 as [[H2|[_ [H2|(r & [H3|H3] & H4)]]]|[_ H2]]; [by left|right; by left|done| |].
    + right; right; left. eauto.
    + do 3 right. done.
  - by destruct Ho as (H1 & _ & H3).
Qed.

End filter.
