(* ===== verification/Config.v ===== *)
(** * Configuration and the one runtime of a process
    ([src/crates/ruvoy-envoy-fiber/src/runtime.rs], [bootstrap.rs], [lib.rs])

    The bootstrap extension's settings start the runtime, once per process; a filter
    configuration only joins it.  [serde_json], the file system and the VM are
    parameters; the statics are the state of a process.  The file system does not change
    while a process runs: every start resolves its paths to the same answers. *)

From S2P Require Import Prelude RustStr Types Upstream Authority Fiber Lifecycle.
From Stdlib Require Import Strings.Ascii.

Local Open Scope N_scope.

Definition DEFAULT_SHUTDOWN_TIMEOUT_MS : N := 10000.
Definition DEFAULT_UPSTREAM_TIMEOUT_MS : N := 15000.
Definition DEFAULT_MAX_UPSTREAM_RESPONSE_BYTES : N := 1024 * 1024.
Definition DEFAULT_STREAM_BUFFER_BYTES : N := 1024 * 1024.

(** ** Documents

    What deserializing a JSON object yields: a field left out is [None]. *)

Record RuntimeDocument := {
  doc_rackup : string;
  doc_max_inflight_requests : option N;
  doc_shutdown_timeout_ms : option N;
  doc_diagnostics : option bool;
}.

Record UpstreamDocument := {
  doc_clusters : list string;
  doc_timeout_ms : option N;
  doc_max_response_bytes : option N;
  doc_stream_buffer_bytes : option N;
}.

Record FilterDocument := {
  doc_names_rackup : bool;
  doc_context : option (option (list string));   (* metadata_namespaces *)
  doc_upstream : option UpstreamDocument;
}.

Record RuntimeSettings := {
  rackup : string;
  max_inflight_requests : N;
  shutdown_timeout_ms : N;
  diagnostics : bool;
}.

(** [#[serde(default = ...)]] *)
Definition settings_of (d : RuntimeDocument) : RuntimeSettings :=
  {| rackup := doc_rackup d;
     max_inflight_requests := default DEFAULT_MAX_INFLIGHT_REQUESTS (doc_max_inflight_requests d);
     shutdown_timeout_ms := default DEFAULT_SHUTDOWN_TIMEOUT_MS (doc_shutdown_timeout_ms d);
     diagnostics := default false (doc_diagnostics d) |}.

Record UpstreamConfig := {
  cfg_clusters : list string;
  cfg_timeout_ms : N;
  cfg_max_response_bytes : N;
  cfg_stream_buffer_bytes : N;
}.

Definition upstream_of (d : UpstreamDocument) : UpstreamConfig :=
  {| cfg_clusters := doc_clusters d;
     cfg_timeout_ms := default DEFAULT_UPSTREAM_TIMEOUT_MS (doc_timeout_ms d);
     cfg_max_response_bytes := default DEFAULT_MAX_UPSTREAM_RESPONSE_BYTES (doc_max_response_bytes d);
     cfg_stream_buffer_bytes := default DEFAULT_STREAM_BUFFER_BYTES (doc_stream_buffer_bytes d) |}.

Record FilterConfiguration := {
  cfg_rackup : bool;
  cfg_context : option ContextConfig;
  cfg_upstream : option UpstreamConfig;
}.

Definition filter_default : FilterConfiguration :=
  {| cfg_rackup := false; cfg_context := None; cfg_upstream := None |}.

Definition filter_of (d : FilterDocument) : FilterConfiguration :=
  {| cfg_rackup := doc_names_rackup d;
     cfg_context := (fun namespaces => {| metadata_namespaces := default [] namespaces |}) <$> doc_context d;
     cfg_upstream := upstream_of <$> doc_upstream d |}.

Definition startup {A} (message : string) : result A BridgeError := Err (Startup message).

Definition moved {A} : result A BridgeError :=
  startup ("the rackup is configured on the ruvoy bootstrap extension, not on the filter; "
           ++ "the filter configuration is a JSON object with optional context and upstream")%string.

Definition invalid {A} (message : string) : result A BridgeError :=
  startup ("invalid filter configuration: " ++ message)%string.

(** [UpstreamConfig::into_settings] *)
Definition into_settings (c : UpstreamConfig) : result UpstreamSettings BridgeError :=
  match cfg_clusters c with
  | [] => invalid "upstream.clusters must name at least one cluster"
  | _ =>
    if existsb is_empty (cfg_clusters c) then invalid "upstream.clusters must not contain an empty name"
    else if cfg_timeout_ms c =? 0 then invalid "upstream.timeout_ms must be positive"
    else if cfg_max_response_bytes c =? 0 then invalid "upstream.max_response_bytes must be positive"
    else if cfg_stream_buffer_bytes c =? 0 then invalid "upstream.stream_buffer_bytes must be positive"
    else Ok {| clusters := cfg_clusters c; timeout := from_millis (cfg_timeout_ms c);
               max_response_bytes := cfg_max_response_bytes c;
               stream_buffer_bytes := cfg_stream_buffer_bytes c |}
  end.

(** ** Parsing *)

Section config.
Context (json_runtime : string -> result RuntimeDocument string).
Context (json_filter : string -> result FilterDocument string).
Context (canonicalize : string -> result string string).
Context (is_file : string -> bool).
Context (current_dir : option string).
Context (atexit : Z).

Definition parse_runtime_settings (config : bytes) : result RuntimeSettings BridgeError :=
  let? text := ok_or (from_utf8 config)
    (Startup "bootstrap extension configuration must contain valid UTF-8") in
  let text := trim text in
  if is_empty text then startup "bootstrap extension configuration must name a rackup file"
  else
    let? doc := map_err (fun error =>
      Startup ("invalid bootstrap extension configuration: " ++ error)%string) (json_runtime text) in
    let settings := settings_of doc in
    if is_empty (rackup settings) then startup "rackup must not be empty"
    else if max_inflight_requests settings =? 0
    then startup "max_inflight_requests must be a positive integer"
    else if shutdown_timeout_ms settings =? 0
    then startup "shutdown_timeout_ms must be a positive integer"
    else Ok settings.

Definition parse_filter_config (filter_config : bytes) : result FilterConfiguration BridgeError :=
  let? text := ok_or (from_utf8 filter_config)
    (Startup "filter configuration must contain valid UTF-8") in
  let text := trim text in
  if is_empty text then Ok filter_default
  else if negb (starts_with_char "{"%char text) then moved
  else
    let? doc := map_err (fun error => Startup ("invalid filter configuration: " ++ error)%string)
      (json_filter text) in
    let config := filter_of doc in
    if cfg_rackup config then moved else Ok config.

(** ** The runtime of a process *)

Record ProcessRuntimeConfig := {
  proc_rackup : string;
  proc_max_inflight_requests : N;
  proc_shutdown_timeout : Duration;
  proc_diagnostics : bool;
}.

#[local] Instance ProcessRuntimeConfig_eq_dec : EqDecision ProcessRuntimeConfig.
Proof. solve_decision. Defined.

Record Ready := {
  ready_client : FiberRuntimeClient;
  ready_thread_id : string;
  ready_diagnostics : bool;
}.

Record ProcessRuntime := {
  proc_config : ProcessRuntimeConfig;
  proc_runtime : option FiberRuntime;
  proc_ready : result Ready BridgeError;
}.

(** The statics of a process; [vms] lists the configurations a VM was started with. *)
Record Process := {
  process_runtime : option (result ProcessRuntime BridgeError);
  process_shutdown_hook : option (result unit BridgeError);
  vms : list ProcessRuntimeConfig;
}.

Definition process_new : Process :=
  {| process_runtime := None; process_shutdown_hook := None; vms := [] |}.

Context (spawned : ProcessRuntimeConfig -> Spawned).
Context (requested : Duration -> result unit BridgeError).
Context (joined : result (result unit BridgeError) PanicPayload).

Definition canonical_rackup (path_ : string) : result string BridgeError :=
  let? rackup := map_err (fun error =>
    Startup ("failed to resolve rackup " ++ path_ ++ " from working directory "
             ++ default "<unknown>" current_dir ++ ": " ++ error)%string) (canonicalize path_) in
  if negb (is_file rackup) then startup ("rackup is not a file: " ++ rackup)%string else Ok rackup.

Definition runtime_config_new (s : RuntimeSettings) : result ProcessRuntimeConfig BridgeError :=
  let? rackup := canonical_rackup (rackup s) in
  Ok {| proc_rackup := rackup; proc_max_inflight_requests := max_inflight_requests s;
        proc_shutdown_timeout := from_millis (shutdown_timeout_ms s);
        proc_diagnostics := diagnostics s |}.

Definition terminal_startup_failure (error : BridgeError) : BridgeError :=
  Startup (error_to_string error
           ++ ". The Ruby VM is created once per process, so Envoy must be restarted after fixing this.")%string.

(** [client()] and [info()] would panic without a client or an identity. *)
Definition ready_of (config : ProcessRuntimeConfig) (r : FiberRuntime) (startup_error_ : option BridgeError)
    : result Ready BridgeError :=
  match startup_error_ with
  | Some error => Err error
  | None =>
      match client_of r, info_of r with
      | Some c, Some i =>
          Ok {| ready_client := c; ready_thread_id := rust_thread_id i;
                ready_diagnostics := proc_diagnostics config |}
      | _, _ => Err (RuntimePanicked "fiber runtime info is only available after successful startup")
      end
  end.

Definition process_runtime_start (config : ProcessRuntimeConfig) : result ProcessRuntime BridgeError :=
  let? s := start_rackup_with_limit_retained (spawned config) (proc_rackup config)
              (canonicalize (proc_rackup config)) is_file (proc_max_inflight_requests config) in
  let '(runtime, startup_error) := into_parts s in
  Ok {| proc_config := config; proc_runtime := Some runtime;
        proc_ready := ready_of config runtime startup_error |}.

Definition ready_of_process (p : ProcessRuntime) : result Ready BridgeError :=
  map_err terminal_startup_failure (proc_ready p).

Definition ensure_compatible (p : ProcessRuntime) (requested_ : ProcessRuntimeConfig)
    : result unit BridgeError :=
  if bool_decide (proc_config p = requested_) then Ok tt
  else startup ("Ruvoy is already running with a different rackup; this process cannot serve a "
    ++ "second configuration. The Ruby VM is created once per process, so restart Envoy to change it. "
    ++ "active rackup=" ++ proc_rackup (proc_config p) ++ " requested rackup=" ++ proc_rackup requested_)%string.

Definition register_process_shutdown_hook : St Process (result unit BridgeError) := fun p =>
  match process_shutdown_hook p with
  | Some r => (r, p)
  | None =>
      let r := if (atexit =? 0)%Z then Ok tt
               else startup "failed to register the Ruvoy process shutdown hook" in
      (r, {| process_runtime := process_runtime p; process_shutdown_hook := Some r; vms := vms p |})
  end.

(** [PROCESS_RUNTIME.get_or_init(..)] *)
Definition get_or_init (config : ProcessRuntimeConfig) : St Process (result ProcessRuntime BridgeError) := fun p =>
  match process_runtime p with
  | Some r => (r, p)
  | None =>
      let r := process_runtime_start config in
      (r, {| process_runtime := Some r; process_shutdown_hook := process_shutdown_hook p;
             vms := vms p ++ [config] |})
  end.

Definition start (settings : RuntimeSettings) : St Process (result Ready BridgeError) := fun p =>
  match runtime_config_new settings with
  | Err e => (Err e, p)
  | Ok config =>
      let '(hook, p) := register_process_shutdown_hook p in
      match hook with
      | Err e => (Err e, p)
      | Ok _ =>
          let '(r, p) := get_or_init config p in
          (let? runtime := map_err terminal_startup_failure r in
           let? _ := ensure_compatible runtime config in
           ready_of_process runtime, p)
      end
  end.

Definition ready (p : Process) : result Ready BridgeError :=
  match process_runtime p with
  | None => startup ("the Ruby runtime is not configured: add the ruvoy bootstrap extension under "
                     ++ "bootstrap_extensions, which names the rackup")%string
  | Some (Err error) => Err (terminal_startup_failure error)
  | Some (Ok r) => ready_of_process r
  end.

Definition shutdown : St Process (result bool BridgeError) := fun p =>
  match process_runtime p with
  | Some (Ok r) =>
      let p' := {| process_runtime := Some (Ok {| proc_config := proc_config r; proc_runtime := None;
                                                  proc_ready := proc_ready r |});
                   process_shutdown_hook := process_shutdown_hook p; vms := vms p |} in
      match proc_runtime r with
      | Some rt =>
          let '(stopped, _) := shutdown_inner (requested (proc_shutdown_timeout (proc_config r))) joined rt in
          (let? _ := stopped in Ok true, p')
      | None => (Ok false, p')
      end
  | _ => (Ok false, p)
  end.

(** ** A filter's configuration *)

Record FiberRackConfig := {
  rack_client : FiberRuntimeClient;
  rack_diagnostics_enabled : bool;
  rack_runtime_thread_id : string;
  rack_metrics : option unit;
  rack_context : option ContextConfig;
  rack_upstream : option UpstreamSettings;
}.

Definition rack_config_start (filter_config : bytes) (metrics : option unit) (p : Process)
    : result FiberRackConfig BridgeError :=
  let? config := parse_filter_config filter_config in
  let? upstream := match cfg_upstream config with
                   | Some u => let? s := into_settings u in Ok (Some s)
                   | None => Ok None
                   end in
  let? ready := ready p in
  Ok {| rack_client := ready_client ready; rack_diagnostics_enabled := ready_diagnostics ready;
        rack_runtime_thread_id := ready_thread_id ready; rack_metrics := metrics;
        rack_context := cfg_context config; rack_upstream := upstream |}.

Definition new_http_filter_config_fn (name : string) (config : bytes) (metrics : option unit) (p : Process)
    : option FiberRackConfig :=
  if negb (bool_decide (name = "fiber_rack"%string)) then None
  else match rack_config_start config metrics p with
       | Ok config => Some config
       | Err _ => None
       end.

(** ** The bootstrap extension *)

Definition EXTENSION_NAME : string := "ruvoy".
Definition PUBLISH_INTERVAL : Duration := from_secs 1.
Definition ADMIN_TIMEOUT : Duration := from_secs 2.

(** Whether the extension serves the configuration. *)
Definition new_bootstrap_extension_config_fn (name : string) (config : bytes) : St Process (option Ready) :=
  fun p =>
  if negb (bool_decide (name = EXTENSION_NAME)) then (None, p)
  else match parse_runtime_settings config with
       | Err _ => (None, p)
       | Ok settings =>
           let '(r, p) := start settings p in
           (match r with Ok ready => Some ready | Err _ => None end, p)
       end.

(** What the admin interface answers, given what [FiberRuntimeClient::admin] did. *)
Definition on_admin_request (answer : result (N * string) BridgeError) : N * string :=
  match answer with
  | Ok answer => answer
  | Err ResponseTimeout =>
      (504, "Ruby did not answer within " ++ show (as_millis ADMIN_TIMEOUT) ++ " ms"
            ++ String (ascii_of_N 10) "")%string
  | Err error => (500, error_to_string error ++ String (ascii_of_N 10) "")%string
  end.

End config.
