(* ===== verification/ConfigSafety.v ===== *)
(** * One runtime per process, on usable terms

    Whatever the bootstrap extension and Envoy's shutdown stage ask for, in any order,
    a process starts at most one VM and stops it at most once; and what the parsers
    accept is what the filter and the runtime can serve under. *)

From S2P Require Import Prelude RustStr Types Upstream Authority Fiber Lifecycle Config.
From Stdlib Require Import Strings.Ascii.

Local Open Scope N_scope.

Inductive ProcessOp := OpStart (s : RuntimeSettings) | OpShutdown.

Inductive Outcome :=
| Started (s : RuntimeSettings) (r : result Ready BridgeError)
| ShutDown (r : result bool BridgeError).

Definition stops (o : Outcome) : bool :=
  match o with
  | ShutDown (Ok true) => true
  | _ => false
  end.

Section process.
Context (canonicalize : string -> result string string) (is_file : string -> bool)
  (current_dir : option string) (atexit : Z) (spawned : ProcessRuntimeConfig -> Spawned)
  (requested : Duration -> result unit BridgeError)
  (joined : result (result unit BridgeError) PanicPayload).

Abbreviation start_ := (start canonicalize is_file current_dir atexit spawned).
Abbreviation shutdown_ := (shutdown requested joined).

Definition process_step (op : ProcessOp) : St Process Outcome :=
  match op with
  | OpStart s => let* r := start_ s in st_ret (Started s r)
  | OpShutdown => let* r := shutdown_ in st_ret (ShutDown r)
  end.

Fixpoint process_run (ops : list ProcessOp) : St Process (list Outcome) :=
  match ops with
  | [] => st_ret []
  | op :: ops => let* o := process_step op in let* os := process_run ops in st_ret (o :: os)
  end.

(** ** The invariant *)

(** The runtime still held, to be stopped. *)
Definition running (p : Process) : bool :=
  match process_runtime p with
  | Some (Ok r) => bool_decide (is_Some (proc_runtime r))
  | _ => false
  end.

Definition process_inv (p : Process) : Prop :=
  match process_runtime p with
  | None => vms p = []
  | Some (Err _) => exists c, vms p = [c]
  | Some (Ok r) => vms p = [proc_config r]
  end.

(** What a successful start says, for as long as the process lives. *)
Definition serves (p : Process) (s : RuntimeSettings) (r : Ready) : Prop :=
  exists c, vms p = [c] /\ runtime_config_new canonicalize is_file current_dir s = Ok c /\ ready p = Ok r.

Lemma process_runtime_start_config c r :
  process_runtime_start canonicalize is_file spawned c = Ok r -> proc_config r = c.
Proof.
  unfold process_runtime_start. intros Hr. apply result_bind_ok in Hr as (s & _ & Hr).
  destruct (into_parts s). by injection Hr as <-.
Qed.

Lemma start_step s p :
  process_inv p ->
  let '(r, p') := start_ s p in
  process_inv p'
  /\ (process_runtime p <> None -> process_runtime p' = process_runtime p /\ vms p' = vms p)
  /\ (forall x, r = Ok x -> serves p' s x).
Proof.
  intros Hp. unfold start. destruct (runtime_config_new _ _ _ s) as [c|e] eqn:Ec; [|done].
  unfold register_process_shutdown_hook.
  set (r0 := match process_shutdown_hook p with Some r => (r, p) | None => _ end).
  assert (Hh : process_runtime r0.2 = process_runtime p /\ vms r0.2 = vms p)
    by (unfold r0; by destruct (process_shutdown_hook p)).
  destruct r0 as [[[]|e] p0]; cbn [snd] in Hh; destruct Hh as [Hr Hv].
  2:{ split_and!; [unfold process_inv in *; by rewrite Hr, Hv | done | done]. }
  unfold get_or_init. rewrite Hr. unfold process_inv in Hp.
  destruct (process_runtime p) as [[rt|e]|] eqn:Ep.
  - cbn [map_err result_bind]. split_and!; [unfold process_inv; by rewrite Hr, Hv | done |].
    intros x Hx. apply result_bind_ok in Hx as ([] & Hx & Hready). unfold ensure_compatible in Hx.
    case_bool_decide as Hc; [|done]. exists c. rewrite Hv, Hp, Hc. split_and!; try done.
    unfold ready. by rewrite Hr.
  - cbn. split_and!; [unfold process_inv; by rewrite Hr, Hv | done | done].
  - cbn [process_runtime vms]. unfold process_inv. cbn. rewrite Hv, Hp.
    destruct (process_runtime_start _ _ _ c) as [rt|e] eqn:Es; cbn; split_and!; try done; [..|by exists c].
    + by rewrite (process_runtime_start_config _ _ Es).
    + intros x Hx. apply result_bind_ok in Hx as ([] & _ & Hready). exists c.
      split_and!; try done.
Qed.

Lemma shutdown_step p :
  process_inv p ->
  let '(r, p') := shutdown_ p in
  process_inv p' /\ vms p' = vms p /\ ready p' = ready p
  /\ (r = Ok true -> running p = true /\ running p' = false)
  /\ (running p' = true -> running p = true).
Proof.
  unfold shutdown, process_inv, running, ready. intros Hp.
  destruct (process_runtime p) as [[rt|e]|] eqn:Ep; cbn; rewrite ?Ep; try done.
  destruct (proc_runtime rt) as [f|] eqn:Ef; cbn; [|by split_and!].
  destruct (shutdown_inner _ _ f) as [[[]|e] ?]; cbn; by split_and!.
Qed.

(** Stops a process still has in it. *)
Definition credit (p : Process) : nat :=
  match process_runtime p with
  | None => 1
  | Some _ => if running p then 1 else 0
  end.

Lemma credit_le p : (credit p <= 1)%nat.
Proof. unfold credit. destruct (process_runtime p); [destruct (running p)|]; lia. Qed.

Lemma serves_started p s x : process_inv p -> serves p s x -> process_runtime p <> None.
Proof. intros Hp (c & Hv & _) Hn. unfold process_inv in Hp. rewrite Hn in Hp. congruence. Qed.

Lemma step_spec op p :
  process_inv p ->
  let '(o, p') := process_step op p in
  process_inv p'
  /\ (process_runtime p <> None -> process_runtime p' <> None /\ vms p' = vms p /\ ready p' = ready p)
  /\ (forall s x, o = Started s (Ok x) -> serves p' s x)
  /\ ((if stops o then 1 else 0) + credit p' <= credit p)%nat.
Proof.
  intros Hp. destruct op as [s|]; unfold process_step, st_bind.
  - pose proof (start_step s p Hp) as Hs. destruct (start_ s p) as [r p']. cbn.
    destruct Hs as (Hi & Hsame & Hserves). split_and!; [done | | by intros s' x [= <- ->]; apply Hserves |].
    + intros Hn. destruct (Hsame Hn) as [E1 E2]. unfold ready. by rewrite E1.
    + destruct (process_runtime p) as [rt|] eqn:Ep; [|unfold credit at 2; rewrite Ep; apply credit_le].
      destruct (Hsame ltac:(done)) as [E1 _]. unfold credit, running. rewrite E1, Ep. done.
  - pose proof (shutdown_step p Hp) as Hs. unfold shutdown in *. unfold credit.
    destruct (process_runtime p) as [[rt|e]|] eqn:Ep; cbn in *; rewrite ?Ep; [|by split_and!..].
    destruct (proc_runtime rt) as [f|] eqn:Ef; cbn in *.
    + destruct (shutdown_inner _ _ f) as [[[]|e] ?]; cbn in *; destruct Hs as (Hi & Hv & Hr & _);
        unfold running; rewrite ?Ep; cbn; rewrite ?Ef; cbn; split_and!; try done; lia.
    + destruct Hs as (Hi & Hv & Hr & _). unfold running. cbn. rewrite Ep. cbn. rewrite Ef. by split_and!.
Qed.

Lemma run_spec ops p :
  process_inv p ->
  let '(os, p') := process_run ops p in
  process_inv p'
  /\ (process_runtime p <> None -> process_runtime p' <> None /\ vms p' = vms p /\ ready p' = ready p)
  /\ (forall s x, In (Started s (Ok x)) os -> serves p' s x)
  /\ (length (List.filter stops os) + credit p' <= credit p)%nat.
Proof.
  revert p. induction ops as [|op ops IH]; intros p Hp; cbn [process_run]; [by split_and!|].
  unfold st_bind. pose proof (step_spec op p Hp) as Hs. destruct (process_step op p) as [o p1].
  destruct Hs as (Hi & Hk & Hst & Hc). specialize (IH p1 Hi). destruct (process_run ops p1) as [os p2].
  destruct IH as (Hi2 & Hk2 & Hst2 & Hc2). cbn. split_and!; [done | | |].
  - intros Hn. destruct (Hk Hn) as (E1 & E2 & E3). destruct (Hk2 E1) as (F1 & F2 & F3). split_and!; congruence.
  - intros s x [E|Hin]; [|by apply Hst2]. pose proof (Hst s x E) as Hsv.
    destruct (Hk2 (serves_started _ _ _ Hi Hsv)) as (_ & E2 & E3).
    destruct Hsv as (c & V1 & V2 & V3). exists c. by rewrite E2, E3.
  - destruct (stops o); cbn; lia.
Qed.

(** C19: over any sequence of starts and shutdowns a process starts at most one VM and
    stops it at most once; a start succeeds only when its settings resolve to the very
    configuration the VM runs under, and what it handed out stays what [ready] gives
    every filter configuration from then on.  The file system (what a path resolves to,
    what is a file, the working directory) is the same throughout. *)
Theorem one_runtime_per_process (ops : list ProcessOp) :
  let '(outcomes, p) := process_run ops process_new in
  (length (vms p) <= 1)%nat
  /\ (length (List.filter stops outcomes) <= 1)%nat
  /\ (forall s x, In (Started s (Ok x)) outcomes -> serves p s x)
  /\ (forall s s' x x', In (Started s (Ok x)) outcomes -> In (Started s' (Ok x')) outcomes ->
       x = x' /\ runtime_config_new canonicalize is_file current_dir s
               = runtime_config_new canonicalize is_file current_dir s').
Proof.
  pose proof (run_spec ops process_new eq_refl) as Hs. destruct (process_run ops process_new) as [os p].
  destruct Hs as (Hi & _ & Hst & Hc). pose proof (credit_le process_new). split_and!; [|lia|done|].
  - unfold process_inv in Hi. destruct (process_runtime p) as [[rt|e]|]; [rewrite Hi; cbn; lia | | rewrite Hi; cbn; lia].
    destruct Hi as [c ->]. cbn. lia.
  - intros s s' x x' H1 H2. destruct (Hst _ _ H1) as (c & V1 & V2 & V3). destruct (Hst _ _ H2) as (c' & W1 & W2 & W3).
    split; congruence.
Qed.

End process.

(** ** Accepted settings are usable *)

Definition usable (u : UpstreamSettings) : Prop :=
  clusters u <> [] /\ Forall (fun c => c <> ""%string) (clusters u)
  /\ NANOS_PER_MILLI <= timeout u /\ 1 <= max_response_bytes u /\ 1 <= stream_buffer_bytes u.

Lemma into_settings_ok c u : into_settings c = Ok u -> usable u.
Proof.
  unfold into_settings. destruct (cfg_clusters c) as [|x l] eqn:El; [done|].
  destruct (existsb is_empty (x :: l)) eqn:Ee; [done|].
  destruct (cfg_timeout_ms c =? 0) eqn:E1; [done|]. destruct (cfg_max_response_bytes c =? 0) eqn:E2; [done|].
  destruct (cfg_stream_buffer_bytes c =? 0) eqn:E3; [done|]. intros [= <-].
  unfold usable; cbn [clusters timeout max_response_bytes stream_buffer_bytes]. split_and!; [done | | |lia|lia].
  - apply list.Forall_forall. intros y Hy ->.
    enough (existsb is_empty (x :: l) = true) by congruence. apply existsb_exists.
    exists ""%string. split; [by apply list_elem_of_In | done].
  - unfold from_millis, NANOS_PER_MILLI. lia.
Qed.

Lemma is_empty_false s : is_empty s = false -> s <> ""%string.
Proof. by intros Hs ->. Qed.

(** Settings the bootstrap extension accepts name a rackup, admit at least one
    request and wait a positive time for shutdown; a filter configuration accepted
    joins the runtime that is ready, and every call its application may make has a
    named cluster, a deadline of at least a millisecond and room for a byte. *)
Theorem accepted_settings_usable (json_runtime : string -> result RuntimeDocument string)
    (json_filter : string -> result FilterDocument string) (config : bytes) (metrics : option unit) (p : Process) :
  (forall s, parse_runtime_settings json_runtime config = Ok s ->
     rackup s <> ""%string /\ 1 <= max_inflight_requests s /\ 1 <= shutdown_timeout_ms s)
  /\ (forall c, rack_config_start json_filter config metrics p = Ok c ->
     (exists r, ready p = Ok r /\ rack_client c = ready_client r)
     /\ forall u, rack_upstream c = Some u -> usable u).
Proof.
  split.
  - intros s Hs. unfold parse_runtime_settings in Hs. apply result_bind_ok in Hs as (text & _ & Hs).
    destruct (is_empty (trim text)); [done|]. apply result_bind_ok in Hs as (doc & _ & Hs).
    destruct (is_empty (rackup (settings_of doc))) eqn:E1; [done|].
    destruct (max_inflight_requests (settings_of doc) =? 0) eqn:E2; [done|].
    destruct (shutdown_timeout_ms (settings_of doc) =? 0) eqn:E3; [done|]. injection Hs as <-.
    split_and!; [by apply is_empty_false | lia | lia].
  - intros c Hc. unfold rack_config_start in Hc. apply result_bind_ok in Hc as (f & _ & Hc).
    apply result_bind_ok in Hc as (up & Hu & Hc). apply result_bind_ok in Hc as (r & Hr & Hc).
    injection Hc as <-. cbn. split; [by exists r|]. intros u ->.
    destruct (cfg_upstream f) as [cu|]; [|done]. apply result_bind_ok in Hu as (u' & Hu & [= ->]).
    by eapply into_settings_ok.
Qed.

(** A document deserialized to these fields, and a runtime that came up. *)
Definition documents : string -> result FilterDocument string := fun _ =>
  Ok {| doc_names_rackup := false; doc_context := None;
        doc_upstream := Some {| doc_clusters := ["users"%string]; doc_timeout_ms := None;
                                doc_max_response_bytes := None; doc_stream_buffer_bytes := Some 4096 |} |}.

Definition came_up : Spawned :=
  {| socket_pair := Ok tt; set_nonblocking_ := Ok tt; spawn := Ok tt;
     readiness := Some (Ok {| ruby_description := "ruby"; rust_thread_id := "ThreadId(2)";
                              info_thread_object_id := 8 |}) |}%string.

Definition settings_example : RuntimeSettings :=
  {| rackup := "config.ru"; max_inflight_requests := 4; shutdown_timeout_ms := 100; diagnostics := false |}.

Definition run_example : list Outcome * Process :=
  process_run (fun p => Ok p) (fun _ => true) None 0%Z (fun _ => came_up) (fun _ => Ok tt) (Ok (Ok tt))
    [OpStart settings_example; OpStart settings_example; OpShutdown; OpShutdown] process_new.

(** Both starts succeed; only the first shutdown stops anything. *)
Example run_example_outcomes :
  map (fun o => match o with Started _ r => negb (is_err r) | ShutDown (Ok b) => b | _ => false end) run_example.1
  = [true; true; true; false].
Proof. reflexivity. Qed.

Lemma one_runtime_per_process_witness : exists r,
  serves (fun p => Ok p) (fun _ => true) None run_example.2 settings_example r
  /\ length (vms run_example.2) = 1%nat.
Proof.
  pose proof (one_runtime_per_process (fun p => Ok p) (fun _ => true) None 0%Z (fun _ => came_up)
    (fun _ => Ok tt) (Ok (Ok tt)) [OpStart settings_example; OpStart settings_example; OpShutdown; OpShutdown])
    as H. change (process_run _ _ _ _ _ _ _ _ process_new) with run_example in H.
  destruct run_example as [outs p] eqn:E. destruct H as (_ & _ & H & _).
  eexists. split; [apply H; apply (f_equal fst) in E; cbn [fst] in E; rewrite <- E; left; reflexivity|].
  apply (f_equal snd) in E. cbn [snd] in *. rewrite <- E. reflexivity.
Defined.

Lemma accepted_settings_usable_witness : exists c u,
  rack_config_start documents (into_bytes "{}"%string) None run_example.2 = Ok c
  /\ rack_upstream c = Some u /\ usable u.
Proof.
  destruct (rack_config_start documents (into_bytes "{}"%string) None run_example.2) as [c|e] eqn:E;
    [|discriminate E].
  destruct (accepted_settings_usable (fun _ => Err ""%string) documents (into_bytes "{}"%string) None run_example.2)
    as [_ H]. destruct (H c E) as [_ Hu].
  destruct (rack_upstream c) as [u|] eqn:Eu.
  - exists c, u. split; [reflexivity|]. split; [exact Eu|]. exact (Hu u eq_refl).
  - exfalso. injection E as <-. discriminate Eu.
Defined.
