(* ===== verification/Host.v ===== *)
(** * Entry points and exits of a process

    Pinning the module ([src/src/host.rs]), the convenience constructors and the final
    shutdown of both runtimes ([src/src/fiber.rs], [sync.rs]), what runs at exit and what
    the application is told ([crates/ruvoy-envoy-fiber/src/runtime.rs],
    [crates/ruvoy-envoy-sync/src/runtime.rs]).  The dynamic linker is given. *)

From S2P Require Import Prelude RustStr Types Fiber Lifecycle Config SyncRuntime.

Local Open Scope N_scope.

(** ** Pinning *)

(** What the linker answers: [dladdr] for an address of this object, [dlopen] of a path,
    [dlerror]. *)
Record Linker := {
  dladdr : Z * option string;
  dlopen : string -> bool;
  dlerror : option string;
}.

Definition own_object_path (l : Linker) : option string :=
  let '(found, dli_fname) := dladdr l in
  if (found =? 0)%Z then None else dli_fname.

Definition last_dl_error (l : Linker) : string := default "unknown error"%string (dlerror l).

(** The cell [PINNED], and how often the linker was asked to pin. *)
Record Pinning := { pinned : option (result unit string); promotions : nat }.

(** The first time: what is answered, and whether the linker was asked. *)
Definition pin (l : Linker) : result unit string * nat :=
  match own_object_path l with
  | None => (Err "this object has no resolvable path"%string, 0%nat)
  | Some path => (if dlopen l path then Ok tt else Err (path ++ ": " ++ last_dl_error l)%string, 1%nat)
  end.

Definition pin_in_memory (l : Linker) : St Pinning (result unit string) := fun p =>
  match pinned p with
  | Some r => (r, p)
  | None =>
      let '(r, asked) := pin l in
      (r, {| pinned := Some r; promotions := promotions p + asked |})
  end.

(** [init] of either module: a module that could not be pinned is loaded all the same. *)
Definition init (l : Linker) : St Pinning (bool * option string) := fun p =>
  let '(r, p) := pin_in_memory l p in
  ((true, match r with Ok _ => None | Err reason => Some reason end), p).

Fixpoint inits (ls : list Linker) (p : Pinning) : list (bool * option string) * Pinning :=
  match ls with
  | [] => ([], p)
  | l :: ls =>
      let '(r, p) := init l p in
      let '(rs, p) := inits ls p in
      (r :: rs, p)
  end.

(** However often the modules are loaded, the linker is asked to pin at most once, and
    every load succeeds and hears the first answer. *)
Lemma pinned_once l ls :
  let '(rs, p) := inits (l :: ls) {| pinned := None; promotions := 0 |} in
  (promotions p <= 1)%nat /\ exists reason, rs = repeat (true, reason) (S (length ls))
    /\ (reason = None <-> exists path, own_object_path l = Some path /\ dlopen l path = true).
Proof.
  cbn [inits]. unfold init at 1, pin_in_memory at 1. cbn [pinned promotions].
  assert ((pin l).2 <= 1)%nat as Hone by (unfold pin; destruct (own_object_path l); cbn; lia).
  assert (forall r, match r with Ok _ => None | Err e => Some e end = @None string <-> is_err (A := unit) r = false) as Hok
    by (by intros [[]|e]).
  assert (is_err (pin l).1 = false <-> exists path, own_object_path l = Some path /\ dlopen l path = true) as Hfirst.
  { unfold pin. destruct (own_object_path l) as [path|]; cbn; [|split; [done|by intros (? & ? & ?)]].
    destruct (dlopen l path) eqn:Ed; cbn; split; try done; [by exists path|]. intros (? & [= <-] & Hd). congruence. }
  destruct (pin l) as [r n]. cbn [fst snd] in *.
  assert (forall ls, inits ls {| pinned := Some r; promotions := n |}
    = (repeat (true, match r with Ok _ => None | Err e => Some e end) (length ls), {| pinned := Some r; promotions := n |}))
    as Hinits.
  { intros ls'. induction ls' as [|l' ls' IH]; cbn [inits length repeat]; [done|].
    unfold init, pin_in_memory. cbn [pinned]. by rewrite IH. }
  change (0 + n)%nat with n. rewrite Hinits. split; [done|].
  exists (match r with Ok _ => None | Err e => Some e end). split; [done|]. by rewrite Hok.
Qed.

(** ** Starting a fiber runtime *)

Definition start_with_limit (os : Spawned) (max_inflight_requests : N) : result FiberRuntime BridgeError :=
  let? s := start_app_retained os max_inflight_requests in into_result s.

Definition start_default_limit (os : Spawned) : result FiberRuntime BridgeError :=
  start_with_limit os DEFAULT_MAX_INFLIGHT_REQUESTS.

Definition start_rackup_with_limit (os : Spawned) (path_ : string) (canonical : result string string)
    (is_file : string -> bool) (max_inflight_requests : N) : result FiberRuntime BridgeError :=
  let? s := start_rackup_with_limit_retained os path_ canonical is_file max_inflight_requests in into_result s.

Definition start_rackup (os : Spawned) (path_ : string) (canonical : result string string)
    (is_file : string -> bool) : result FiberRuntime BridgeError :=
  start_rackup_with_limit os path_ canonical is_file DEFAULT_MAX_INFLIGHT_REQUESTS.

(** A runtime handed out has its client, its thread and what the thread said of itself. *)
Lemma start_with_limit_ready os n r : start_with_limit os n = Ok r ->
  n <> 0 /\ exists i, readiness os = Some (Ok i)
    /\ r = {| client := Some {| client_limit := n |}; info := Some i; join := Some tt |}.
Proof.
  unfold start_with_limit, start_app_retained. intros Hs. apply result_bind_ok in Hs as (s & Hs & Hr).
  destruct (n =? 0) eqn:En; [done|]. apply result_bind_ok in Hs as (? & _ & Hs).
  apply result_bind_ok in Hs as (? & _ & Hs). apply result_bind_ok in Hs as (? & _ & Hs). split; [lia|].
  destruct (readiness os) as [[i|e]|]; injection Hs as <-; cbn in Hr; try done. injection Hr as <-. by exists i.
Qed.

(** The final shutdown; the object is dropped after it. *)
Definition shutdown_with_timeout (requested : Duration -> result unit BridgeError)
    (joined : result (result unit BridgeError) PanicPayload) (timeout_ : Duration)
    : St FiberRuntime (result unit BridgeError) := fun r =>
  let '(answer, r) := shutdown_inner (requested timeout_) joined r in (answer, drop_runtime r).

Definition shutdown_fiber (requested : Duration -> result unit BridgeError)
    (joined : result (result unit BridgeError) PanicPayload) : St FiberRuntime (result unit BridgeError) :=
  shutdown_with_timeout requested joined DEFAULT_RESPONSE_TIMEOUT.

(** ** The serial runtime *)

Definition sync_shutdown (requested : result unit BridgeError) (joined : result (result unit BridgeError) PanicPayload)
    : St RubyRuntime (result unit BridgeError) := fun r =>
  let '(answer, r) := sync_shutdown_inner requested joined r in
  (* [impl Drop] *)
  let '(_, r) := sync_shutdown_inner requested joined r in
  (answer, r).

Definition drop_sync_runtime (requested : result unit BridgeError) (joined : result (result unit BridgeError) PanicPayload)
    (r : RubyRuntime) : RubyRuntime := (sync_shutdown_inner requested joined r).2.

(** Dropping what was shut down asks for nothing and joins nothing. *)
Lemma drop_after_shutdown requested joined requested' joined' r :
  let r' := (sync_shutdown_inner requested joined r).2 in
  sync_shutdown_inner requested' joined' r' = (Ok tt, r').
Proof. done. Qed.

(** [impl Drop for SyncRackConfig]: what goes to stderr. *)
Definition drop_sync_config (requested : result unit BridgeError) (joined : result (result unit BridgeError) PanicPayload)
    : St (option RubyRuntime) (option string) := fun slot =>
  match slot with
  | None => (None, None)
  | Some runtime =>
      (Some (match (sync_shutdown requested joined runtime).1 with
             | Ok _ => "[ruvoy] Ruby runtime stopped"
             | Err error => "[ruvoy] Ruby runtime shutdown failed: " ++ error_to_string error
             end)%string, None)
  end.

(** ** Leaving the process *)

(** [shutdown_process_runtime], the [atexit] handler. *)
Definition shutdown_process_runtime (requested : Duration -> result unit BridgeError)
    (joined : result (result unit BridgeError) PanicPayload) : St Process (option string) := fun p =>
  let '(stopped, p) := Config.shutdown requested joined p in
  (match stopped with
   | Ok true => Some "[ruvoy] Fiber runtime stopped"
   | Ok false => None
   | Err error => Some ("[ruvoy] Fiber runtime shutdown failed: " ++ error_to_string error)
   end%string, p).

(** After Envoy's own shutdown stage, successful or not, the handler stops nothing more
    and says nothing. *)
Lemma exit_after_shutdown requested joined requested' joined' (p : Process) :
  let p' := (Config.shutdown requested joined p).2 in
  shutdown_process_runtime requested' joined' p' = (None, p').
Proof.
  unfold shutdown_process_runtime, Config.shutdown. destruct (process_runtime p) as [[r|e]|] eqn:Ep; cbn; rewrite ?Ep; try done.
  destruct (proc_runtime r) as [rt|]; [destruct (shutdown_inner _ _ rt)|]; done.
Qed.

(** ** What the application is told *)

Inductive Json :=
| JText (s : string)
| JNumber (n : N)
| JBool (b : bool).

(** [ruby_settings_json], as the object it prints; a count of milliseconds keeps 64 bits. *)
Definition ruby_settings (version : string) (c : ProcessRuntimeConfig) : list (string * Json) :=
  [("version", JText version);
   ("rackup", JText (proc_rackup c));
   ("max_inflight_requests", JNumber (proc_max_inflight_requests c));
   ("shutdown_timeout_ms", JNumber (as_millis (proc_shutdown_timeout c) mod width64));
   ("diagnostics", JBool (proc_diagnostics c))]%string.

(** The source's own test of it. *)
Definition the_application_sees_the_settings_it_runs_under : bool :=
  let config := {| proc_rackup := "/srv/app/config.ru"; proc_max_inflight_requests := 128;
                   proc_shutdown_timeout := from_secs 5; proc_diagnostics := true |} in
  let json name := List.find (fun '(n, _) => bool_decide (n = name)) (ruby_settings "0.1.0" config) in
  match json "rackup", json "max_inflight_requests", json "shutdown_timeout_ms", json "diagnostics", json "version" with
  | Some (_, JText r), Some (_, JNumber n), Some (_, JNumber t), Some (_, JBool d), Some (_, JText v) =>
      bool_decide (r = "/srv/app/config.ru") && (n =? 128)%N && (t =? 5000)%N && d && bool_decide (v = "0.1.0")
  | _, _, _, _, _ => false
  end%string.

Lemma settings_test_passes : the_application_sees_the_settings_it_runs_under = true.
Proof. by vm_compute. Qed.
