(* ===== verification/ConfigTests.v ===== *)
(** * The source's own tests of its configuration
    ([src/crates/ruvoy-envoy-fiber/src/runtime.rs])

    [Config] takes the reader of JSON documents as a parameter.  Here is one: JSON of
    objects, arrays, strings without escapes, whole numbers and literals, and the
    documents as [serde]'s derived readers make them of it, which refuse a field they do
    not know, one that is missing or given twice, and a value of another type.  The unit
    tests of [runtime.rs] are run on the model with it. *)

From S2P Require Import Prelude RustStr Types Upstream Authority Fiber Lifecycle Config.
From Stdlib Require Import Strings.Ascii Strings.String.

Local Open Scope N_scope.

(** ** JSON *)

Inductive Json :=
| JNull
| JBool (b : bool)
| JNumber (n : N)
| JString (s : string)
| JArray (l : list Json)
| JObject (fields : list (string * Json)).

Definition quote : ascii := ascii_of_N 34.

Definition json_ws (c : ascii) : bool := is_code 32 c || is_code 9 c || is_code 10 c || is_code 13 c.

Fixpoint skip_json_ws (s : string) : string :=
  match s with
  | String c s' => if json_ws c then skip_json_ws s' else s
  | EmptyString => s
  end.

(** The text up to the closing quote; a text with an escape is not read. *)
Fixpoint json_text (s : string) : option (string * string) :=
  match s with
  | EmptyString => None
  | String c s' =>
      if Ascii.eqb c quote then Some (EmptyString, s')
      else if is_code 92 c then None
      else '(t, rest) ← json_text s'; Some (String c t, rest)
  end.

Fixpoint json_digits (s : string) : string * string :=
  match s with
  | String c s' => if in_range 48 57 c then let '(d, rest) := json_digits s' in (String c d, rest) else (EmptyString, s)
  | EmptyString => (EmptyString, s)
  end.

Definition literal (word : string) (v : Json) (s : string) : option (Json * string) :=
  if String.prefix word s then Some (v, str_drop (String.length word) s) else None.

(** The character a text goes on with, white space apart, and what follows it. *)
Definition next (s : string) : option (ascii * string) :=
  match skip_json_ws s with
  | String c rest => Some (c, rest)
  | EmptyString => None
  end.

Definition expect (c : ascii) (s : string) : option string :=
  '(d, rest) ← next s; if Ascii.eqb c d then Some rest else None.

(** A value.  Of two nested calls at least one has read a character, so twice the length
    of the text is fuel enough. *)
Fixpoint json_value (fuel : nat) (s : string) : option (Json * string) :=
  match fuel with
  | O => None
  | S fuel =>
      '(c, rest) ← next s;
      if Ascii.eqb c quote then '(t, rest) ← json_text rest; Some (JString t, rest)
      else if Ascii.eqb c "[" then
        '(d, after) ← next rest;
        if Ascii.eqb d "]" then Some (JArray [], after)
        else '(l, rest) ← json_elements fuel rest; Some (JArray l, rest)
      else if Ascii.eqb c "{" then
        '(d, after) ← next rest;
        if Ascii.eqb d "}" then Some (JObject [], after)
        else '(l, rest) ← json_fields fuel rest; Some (JObject l, rest)
      else if in_range 48 57 c then
        let '(digits, rest) := json_digits (String c rest) in
        n ← parse_uint u64_MAX digits;
        (* no leading zero *)
        if is_code 48 c && negb (String.eqb digits "0") then None else Some (JNumber n, rest)
      else if Ascii.eqb c "t" then literal "true" (JBool true) (String c rest)
      else if Ascii.eqb c "f" then literal "false" (JBool false) (String c rest)
      else if Ascii.eqb c "n" then literal "null" JNull (String c rest)
      else None
  end
with json_elements (fuel : nat) (s : string) : option (list Json * string) :=
  match fuel with
  | O => None
  | S fuel =>
      '(v, rest) ← json_value fuel s;
      '(c, rest) ← next rest;
      if Ascii.eqb c "," then '(l, rest) ← json_elements fuel rest; Some (v :: l, rest)
      else if Ascii.eqb c "]" then Some ([v], rest)
      else None
  end
with json_fields (fuel : nat) (s : string) : option (list (string * Json) * string) :=
  match fuel with
  | O => None
  | S fuel =>
      rest ← expect quote s;
      '(name, rest) ← json_text rest;
      rest ← expect ":" rest;
      '(v, rest) ← json_value fuel rest;
      '(c, rest) ← next rest;
      if Ascii.eqb c "," then '(l, rest) ← json_fields fuel rest; Some ((name, v) :: l, rest)
      else if Ascii.eqb c "}" then Some ([(name, v)], rest)
      else None
  end.

(** The whole text is one value. *)
Definition json (s : string) : result Json string :=
  match json_value (2 * S (String.length s)) s with
  | Some (v, rest) => if is_empty (skip_json_ws rest) then Ok v else Err "trailing characters"%string
  | None => Err "expected value"%string
  end.

(** ** Documents *)

Definition mismatch {A} : result A string := Err "invalid type"%string.

(** [deny_unknown_fields], and no field twice. *)
Definition fields_of (known : list string) (v : Json) : result (list (string * Json)) string :=
  match v with
  | JObject fields =>
      if negb (forallb (fun '(name, _) => bool_decide (name ∈ known)) fields) then Err "unknown field"%string
      else if bool_decide (NoDup (fst <$> fields)) then Ok fields
      else Err "duplicate field"%string
  | _ => mismatch
  end.

Definition field (fields : list (string * Json)) (name : string) : option Json :=
  snd <$> List.find (fun '(n, _) => bool_decide (n = name)) fields.

(** A field that may be left out. *)
Definition optional {A} (read : Json -> result A string) (o : option Json) : result (option A) string :=
  match o with
  | Some v => let? a := read v in Ok (Some a)
  | None => Ok None
  end.

(** A field of an [Option] type, which [null] leaves out as well. *)
Definition nullable {A} (read : Json -> result A string) (o : option Json) : result (option A) string :=
  match o with
  | Some JNull | None => Ok None
  | Some v => let? a := read v in Ok (Some a)
  end.

Definition required {A} (read : Json -> result A string) (o : option Json) : result A string :=
  match o with
  | Some v => read v
  | None => Err "missing field"%string
  end.

Definition as_string (v : Json) : result string string := match v with JString s => Ok s | _ => mismatch end.
Definition as_u64 (v : Json) : result N string := match v with JNumber n => Ok n | _ => mismatch end.
Definition as_bool (v : Json) : result bool string := match v with JBool b => Ok b | _ => mismatch end.
Definition as_any (v : Json) : result unit string := Ok tt.

Fixpoint as_each {A} (read : Json -> result A string) (l : list Json) : result (list A) string :=
  match l with
  | [] => Ok []
  | v :: l => let? a := read v in let? rest := as_each read l in Ok (a :: rest)
  end.

Definition as_strings (v : Json) : result (list string) string :=
  match v with
  | JArray l => as_each as_string l
  | _ => mismatch
  end.

Definition runtime_document (v : Json) : result RuntimeDocument string :=
  let? f := fields_of ["rackup"; "max_inflight_requests"; "shutdown_timeout_ms"; "diagnostics"]%string v in
  let? rackup := required as_string (field f "rackup") in
  let? inflight := optional as_u64 (field f "max_inflight_requests") in
  let? timeout := optional as_u64 (field f "shutdown_timeout_ms") in
  let? diagnostics := optional as_bool (field f "diagnostics") in
  Ok {| doc_rackup := rackup; doc_max_inflight_requests := inflight; doc_shutdown_timeout_ms := timeout;
        doc_diagnostics := diagnostics |}.

Definition context_document (v : Json) : result (option (list string)) string :=
  let? f := fields_of ["metadata_namespaces"%string] v in
  optional as_strings (field f "metadata_namespaces").

Definition upstream_document (v : Json) : result UpstreamDocument string :=
  let? f := fields_of ["clusters"; "timeout_ms"; "max_response_bytes"; "stream_buffer_bytes"]%string v in
  let? clusters := required as_strings (field f "clusters") in
  let? timeout := optional as_u64 (field f "timeout_ms") in
  let? max := optional as_u64 (field f "max_response_bytes") in
  let? buffer := optional as_u64 (field f "stream_buffer_bytes") in
  Ok {| doc_clusters := clusters; doc_timeout_ms := timeout; doc_max_response_bytes := max;
        doc_stream_buffer_bytes := buffer |}.

Definition filter_document (v : Json) : result FilterDocument string :=
  let? f := fields_of ["rackup"; "context"; "upstream"]%string v in
  let? rackup := nullable as_any (field f "rackup") in
  let? context := nullable context_document (field f "context") in
  let? upstream := nullable upstream_document (field f "upstream") in
  Ok {| doc_names_rackup := bool_decide (is_Some rackup); doc_context := context; doc_upstream := upstream |}.

Definition json_runtime (text : string) : result RuntimeDocument string := let? v := json text in runtime_document v.
Definition json_filter (text : string) : result FilterDocument string := let? v := json text in filter_document v.

(** ** The tests

    A quotation mark is written as an apostrophe in the texts below. *)

Definition encoding (s : string) : bytes :=
  into_bytes (map_chars (fun c => if is_code 39 c then quote else c) s).

Definition runtime_settings (s : string) : result RuntimeSettings BridgeError := parse_runtime_settings json_runtime (encoding s).
Definition filter_config (s : string) : result FilterConfiguration BridgeError := parse_filter_config json_filter (encoding s).

Definition mentions (needle s : string) : bool :=
  match String.index 0 needle s with
  | Some _ => true
  | None => false
  end.

Definition runtime_settings_take_their_documented_defaults : bool :=
  match runtime_settings "{'rackup': '/srv/app/config.ru'}" with
  | Ok parsed =>
      String.eqb (rackup parsed) "/srv/app/config.ru"
      && (max_inflight_requests parsed =? DEFAULT_MAX_INFLIGHT_REQUESTS)
      && (shutdown_timeout_ms parsed =? DEFAULT_SHUTDOWN_TIMEOUT_MS) && negb (diagnostics parsed)
  | Err _ => false
  end.

Definition runtime_settings_reject_what_could_not_serve : bool :=
  forallb (fun s => is_err (runtime_settings s))
    [""; "   "; "/srv/app/config.ru"; "{'rackup': ''}"; "{'rackup': 7}"; "{'rack_up': '/a'}";
     "{'rackup': '/a', 'max_inflight_requests': 0}"; "{'rackup': '/a', 'shutdown_timeout_ms': 0}";
     "{'rackup': '/a', 'diagnostics': 'yes'}"]%string.

Definition filter_config_is_optional : bool :=
  forallb (fun s => match filter_config s with
                    | Ok c => match cfg_context c with None => true | Some _ => false end
                              && match cfg_upstream c with None => true | Some _ => false end
                    | Err _ => false
                    end) [""; "   "; "{}"]%string.

Definition a_filter_config_that_still_names_the_rackup_is_told_where_it_went : bool :=
  forallb (fun s => match filter_config s with
                    | Ok _ => false
                    | Err e => mentions "bootstrap extension" (error_to_string e)
                    end)
    ["/srv/app/config.ru"; "'/srv/app/config.ru'"; "{'rackup': '/srv/app/config.ru'}"]%string.

Definition extension_settings_take_their_documented_defaults : bool :=
  match filter_config "{'context': {}, 'upstream': {'clusters': ['users']}}" with
  | Ok c =>
      match cfg_context c with Some x => bool_decide (metadata_namespaces x = []) | None => false end
      && match into_settings <$> cfg_upstream c with
         | Some (Ok s) =>
             bool_decide (clusters s = ["users"%string]) && (timeout s =? from_secs 15)
             && (max_response_bytes s =? 1024 * 1024) && (stream_buffer_bytes s =? 1024 * 1024)
         | _ => false
         end
  | Err _ => false
  end.

Definition upstream_settings_no_call_could_use_are_refused : bool :=
  forallb (fun s => match filter_config s with
                    | Ok c => match into_settings <$> cfg_upstream c with
                              | Some settings => is_err settings
                              | None => false
                              end
                    | Err _ => false
                    end)
    ["{'upstream': {'clusters': []}}"; "{'upstream': {'clusters': ['']}}";
     "{'upstream': {'clusters': ['users'], 'timeout_ms': 0}}";
     "{'upstream': {'clusters': ['users'], 'max_response_bytes': 0}}"]%string.

Definition misspelled_extension_fields_are_rejected : bool :=
  forallb (fun s => is_err (filter_config s))
    ["{'context': {'metadata_namespace': []}}"; "{'upstream': {'cluster': ['users']}}";
     "{'upstreams': {'clusters': ['users']}}"]%string.

Definition config_tests : list bool :=
  [runtime_settings_take_their_documented_defaults;
   runtime_settings_reject_what_could_not_serve;
   filter_config_is_optional;
   a_filter_config_that_still_names_the_rackup_is_told_where_it_went;
   extension_settings_take_their_documented_defaults;
   upstream_settings_no_call_could_use_are_refused;
   misspelled_extension_fields_are_rejected].

Example config_tests_pass : forallb id config_tests = true.
Proof. vm_compute. reflexivity. Qed.
