(* ===== verification/Bootstrap.v ===== *)
(** * The bootstrap extension ([src/crates/ruvoy-envoy-fiber/src/bootstrap.rs])

    It starts the runtime before Envoy accepts traffic, publishes gauges from a timer,
    answers the admin interface, and tells the runtime when Envoy drains or stops.
    What it asks of Envoy is logged; what Envoy answers is given. *)

From S2P Require Import Prelude RustStr Types Budget Stream Upstream Wake Request World Client Fiber Lifecycle Config.
From Stdlib Require Import Strings.Ascii.

Local Open Scope N_scope.

Definition ADMIN_ENDPOINTS : list (string * string) :=
  [("/ruvoy", "The Ruby runtime: version, application, requests in flight");
   ("/ruvoy/gc", "GC.stat; POST collects, and ?compact=1 compacts too");
   ("/ruvoy/fibers", "Live fibers with their backtraces");
   ("/ruvoy/config", "The runtime's settings")]%string.

(** What the extension asks of Envoy. *)
Inductive BootstrapCall :=
| NewTimer
| EnableTimer (interval : Duration)
| RegisterAdminHandler (path_ help : string)
| DefineGauge (name : string)
| SetGauge (gauge : N) (value : N)
| SignalInitComplete
| Complete.                                 (* the shutdown's completion callback *)

(** ** Resident memory *)

(** [str::split_whitespace], with fuel for the characters. *)
Fixpoint words (fuel : nat) (s : string) (word : string) : list string :=
  let done_ := if is_empty word then [] else [str_rev word ""] in
  match fuel with
  | O => done_
  | S fuel =>
      match skip_ws s with
      | Some s' => done_ ++ words fuel s' ""
      | None =>
          match s with
          | EmptyString => done_
          | String c s' => words fuel s' (String c word)
          end
      end
  end.

Definition split_whitespace (s : string) : list string := words (S (String.length s)) s "".

Lemma skip_ws_shorter s s' : skip_ws s = Some s' -> (String.length s' < String.length s)%nat.
Proof.
  destruct s as [|a s]; [done|]. cbn [skip_ws]. destruct (ascii_ws a); [intros [= <-]; cbn; lia|].
  destruct s as [|b s]; [done|]. destruct (is_code 194 a && _); [intros [= <-]; cbn; lia|].
  destruct s as [|c s]; [done|]. match goal with |- context [if ?b then _ else _] => destruct b end; [|done].
  intros [= <-]. cbn. lia.
Qed.

(** Any fuel that covers the string gives the same words. *)
Lemma words_fuel n s word : (String.length s <= n)%nat -> words n s word = words (String.length s) s word.
Proof.
  enough (forall k n m s word, (String.length s <= k)%nat -> (String.length s <= n)%nat -> (String.length s <= m)%nat ->
            words n s word = words m s word) as Hall by (intros Hn; by apply (Hall (String.length s))).
  clear. induction k as [|k IH]; intros n m s word Hk Hn Hm.
  - assert (s = "")%string as -> by (destruct s; [done|cbn in *; lia]). by destruct n, m.
  - destruct s as [|c s]; [by destruct n, m|]. destruct n as [|n], m as [|m]; cbn in Hn, Hm; try lia.
    cbn [words]. destruct (skip_ws (String c s)) as [s'|] eqn:E; [apply skip_ws_shorter in E; cbn in Hk, E; f_equal|];
      apply IH; cbn in Hk; lia.
Qed.

(** [resident_bytes], from what reading [/proc/self/statm] and [sysconf] give; the
    product is a [u64]'s, which wraps. *)
Definition resident_bytes (statm : option string) (page_size : Z) : option N :=
  statm ← statm;
  field ← split_whitespace statm !! 1%nat;
  pages ← parse_u64 field;
  (fun size => (pages * size) mod width64) <$> u64_try_from page_size.

(** ** Gauges *)

Record Gauges := { g_inflight_requests : N; g_reactor_idle_ms : N; g_resident_bytes : N }.

Record RuvoyBootstrap := { boot_client : FiberRuntimeClient; gauges : option Gauges }.

Section bootstrap.
(** Which gauges Envoy lets the extension define, and as what. *)
Context (define : string -> option N).

Definition Log := list BootstrapCall.

Definition log (c : BootstrapCall) : St Log unit := fun l => (tt, (l ++ [c])%list).

Definition define_gauge (name : string) : St Log (option N) := fun l => (define name, (l ++ [DefineGauge name])%list).

(** [?] in [define]: a refused definition is the last one asked for. *)
Definition Gauges_define : St Log (option Gauges) :=
  let* inflight := define_gauge "inflight_requests" in
  match inflight with
  | None => st_ret None
  | Some inflight =>
      let* idle := define_gauge "reactor_idle_ms" in
      match idle with
      | None => st_ret None
      | Some idle =>
          let* resident := define_gauge "resident_bytes" in
          st_ret ((fun r => {| g_inflight_requests := inflight; g_reactor_idle_ms := idle;
                               g_resident_bytes := r |}) <$> resident)
      end
  end.

(** What the extension reads when it publishes: the store, the heartbeat and the clock,
    and what the operating system says of the process. *)
Record Sample := {
  store_now : World;
  heartbeat_now : ReactorHeartbeat;
  time_now : Instant;
  statm_now : option string;
  page_size_now : Z;
}.

Definition inflight_now (s : Sample) : N := inflight_requests (store_now s).
Definition idle_now (s : Sample) : Duration := idle_for (heartbeat_now s) (time_now s).
Definition resident_now (s : Sample) : option N := resident_bytes (statm_now s) (page_size_now s).

(** [as u64] keeps the low 64 bits. *)
Definition publish (b : RuvoyBootstrap) (s : Sample) : St Log unit :=
  match gauges b with
  | None => st_ret tt
  | Some g =>
      do* log (SetGauge (g_inflight_requests g) (inflight_now s)) in
      do* log (SetGauge (g_reactor_idle_ms g) (as_millis (idle_now s) mod width64)) in
      match resident_now s with
      | Some bytes => log (SetGauge (g_resident_bytes g) bytes)
      | None => st_ret tt
      end
  end.

(** ** Callbacks *)

Fixpoint register_all (endpoints : list (string * string)) : St Log unit :=
  match endpoints with
  | [] => st_ret tt
  | (path_, help) :: rest => do* log (RegisterAdminHandler path_ help) in register_all rest
  end.

(** What [new_bootstrap_extension_config_fn] does once the runtime is ready. *)
Definition serve_extension (ready : Ready) (s : Sample) : St Log RuvoyBootstrap :=
  do* log NewTimer in
  do* log (EnableTimer PUBLISH_INTERVAL) in
  do* register_all ADMIN_ENDPOINTS in
  let* g := Gauges_define in
  let extension := {| boot_client := ready_client ready; gauges := g |} in
  do* publish extension s in
  do* log SignalInitComplete in
  st_ret extension.

(** [started] is [Config.new_bootstrap_extension_config_fn] at Envoy's configuration. *)
Definition new_extension (started : St Process (option Ready)) (s : Sample)
    : St (Process * Log) (option RuvoyBootstrap) := fun '(p, l) =>
  let '(r, p) := started p in
  match r with
  | None => (None, (p, l))
  | Some ready => let '(x, l) := serve_extension ready s l in (Some x, (p, l))
  end.

Definition on_timer_fired (b : RuvoyBootstrap) (s : Sample) : St Log unit :=
  do* publish b s in log (EnableTimer PUBLISH_INTERVAL).

Definition admin_request (await : N -> St World (result (N * string) RecvTimeoutError)) (m p : string) (body : bytes)
    : St World (N * string) :=
  let* answer := admin await m p body in st_ret (on_admin_request answer).

Definition on_drain_started : St World unit := do* drain_application in st_ret tt.

(** The outcome is only logged; Envoy is told that the extension is done either way. *)
Definition on_shutdown (stop : St Process (result bool BridgeError)) : St (Process * Log) unit := fun '(p, l) =>
  let '(_, p) := stop p in let '(u, l) := log Complete l in (u, (p, l)).

End bootstrap.

(** ** What Envoy sees of the extension *)

Section published.
Context (define : string -> option N).

(** The gauges a sample sets. *)
Definition published (g : option Gauges) (s : Sample) : list BootstrapCall :=
  match g with
  | None => []
  | Some g =>
      [SetGauge (g_inflight_requests g) (inflight_now s);
       SetGauge (g_reactor_idle_ms g) (as_millis (idle_now s) mod width64)]
      ++ match resident_now s with
         | Some bytes => [SetGauge (g_resident_bytes g) bytes]
         | None => []
         end
  end.

(** The definitions asked for: up to the first that is refused. *)
Fixpoint until_refused (names : list string) : list BootstrapCall :=
  match names with
  | [] => []
  | name :: rest => DefineGauge name :: match define name with Some _ => until_refused rest | None => [] end
  end.

Definition gauge_names : list string := ["inflight_requests"; "reactor_idle_ms"; "resident_bytes"]%string.

Definition all_defined : option Gauges :=
  a ← define "inflight_requests"; b ← define "reactor_idle_ms"; c ← define "resident_bytes";
  Some {| g_inflight_requests := a; g_reactor_idle_ms := b; g_resident_bytes := c |}.

Lemma publish_log b s l : publish b s l = (tt, (l ++ published (gauges b) s)%list).
Proof.
  unfold publish, published. destruct (gauges b) as [g|]; [|by rewrite app_nil_r].
  unfold st_bind, log. destruct (resident_now s); by rewrite <- !app_assoc.
Qed.

Lemma register_log eps l :
  register_all eps l = (tt, (l ++ map (fun '(p, h) => RegisterAdminHandler p h) eps)%list).
Proof.
  revert l. induction eps as [|[p h] eps IH]; intros l; cbn [register_all]; [by rewrite app_nil_r|].
  unfold st_bind, log. by rewrite IH, <- app_assoc.
Qed.

Lemma define_log l : Gauges_define define l = (all_defined, (l ++ until_refused gauge_names)%list).
Proof.
  unfold Gauges_define, define_gauge, all_defined, gauge_names, st_bind. cbn.
  destruct (define "inflight_requests"); [|done]. destruct (define "reactor_idle_ms"); [|by rewrite <- app_assoc].
  destruct (define "resident_bytes"); by rewrite <- !app_assoc.
Qed.

Lemma fires_log b fires l :
  (st_iter (on_timer_fired b) fires l).2
  = (l ++ flat_map (fun s => published (gauges b) s ++ [EnableTimer PUBLISH_INTERVAL]) fires)%list.
Proof.
  revert l. induction fires as [|s fires IH]; intros l; cbn [st_iter flat_map]; [by rewrite app_nil_r|].
  unfold st_bind, on_timer_fired at 1, st_bind. rewrite publish_log. unfold log. rewrite IH.
  by rewrite <- !app_assoc.
Qed.

(** C35: Envoy hears of the extension only if the runtime is ready to serve, and then in
    one order: the timer, armed; the admin endpoints, each once; the gauges, which are
    kept only if all three were defined; their first values; and, once and last, that
    initialisation is complete.  Each time the timer fires, the gauges get that
    moment's values and the timer is armed again, once. *)
Theorem bootstrap_announces (started : St Process (option Ready)) (p : Process) (now_ : Sample) (fires : list Sample) :
  let '(extension, (_, l)) := new_extension define started now_ (p, []) in
  match extension with
  | None => (started p).1 = None /\ l = []
  | Some b =>
      gauges b = all_defined /\ ((boot_client <$> extension) = (ready_client <$> (started p).1))
      /\ l = ([NewTimer; EnableTimer PUBLISH_INTERVAL]
              ++ map (fun '(path_, help) => RegisterAdminHandler path_ help) ADMIN_ENDPOINTS
              ++ until_refused gauge_names ++ published all_defined now_ ++ [SignalInitComplete])%list
      /\ (st_iter (on_timer_fired b) fires l).2
         = (l ++ flat_map (fun s => published all_defined s ++ [EnableTimer PUBLISH_INTERVAL]) fires)%list
  end.
Proof.
  unfold new_extension. destruct (started p) as [[ready|] p']; [|done].
  unfold serve_extension, st_bind, log. rewrite register_log, define_log, publish_log. cbn [fst gauges st_ret].
  split_and!; [done|done|by rewrite <- !app_assoc|]. by rewrite fires_log.
Qed.

End published.
