(* ===== verification/Baseline.v ===== *)
(** * The baseline filter ([src/crates/ruvoy-envoy-baseline/src/lib.rs])

    It answers without Ruby: at once, after a hop through Envoy's scheduler, or, for a
    benchmark request, after its body and a wait.  Threads it spawns are listed until
    they commit their event. *)

From S2P Require Import Prelude RustStr Types Stream World Envoy EnvoyExample.
From Stdlib Require Import Strings.Ascii.

Local Open Scope N_scope.

Definition SCHEDULER_EVENT_ID : N := 1.
Definition BENCHMARK_EVENT_ID : N := 2.
Definition MAX_BODY_BYTES : N := 2 * 1024 * 1024.

Definition baseline_config (name : string) : option unit :=
  if bool_decide (name = "baseline"%string) then Some tt else None.

Record BenchmarkRequest := {
  wait_ms : N;
  response_bytes : N;
  expected_request_bytes : option N;
  request_body : bytes;
}.

(** ** Parsing the query *)

Definition parsed (o : option N) (message value : string) : result N string :=
  ok_or o (message ++ value)%string.

(** The body of the loop, on the settings read so far. *)
Definition benchmark_parameter (b : BenchmarkRequest) (parameter : string) : result BenchmarkRequest string :=
  let? (name, value) := ok_or (split_once "="%char parameter) ("invalid benchmark parameter: " ++ parameter)%string in
  if bool_decide (name = "wait_ms"%string) then
    let? n := parsed (parse_u64 value) "invalid wait_ms: " value in
    Ok {| wait_ms := n; response_bytes := response_bytes b;
          expected_request_bytes := expected_request_bytes b; request_body := request_body b |}
  else if bool_decide (name = "response_bytes"%string) then
    let? n := parsed (parse_uint usize_MAX value) "invalid response_bytes: " value in
    Ok {| wait_ms := wait_ms b; response_bytes := n;
          expected_request_bytes := expected_request_bytes b; request_body := request_body b |}
  else if bool_decide (name = "expected_request_bytes"%string) then
    let? n := parsed (parse_uint usize_MAX value) "invalid expected_request_bytes: " value in
    Ok {| wait_ms := wait_ms b; response_bytes := response_bytes b;
          expected_request_bytes := Some n; request_body := request_body b |}
  else Err ("unknown benchmark parameter: " ++ name)%string.

Fixpoint benchmark_parameters (b : BenchmarkRequest) (parameters : list string) : result BenchmarkRequest string :=
  match parameters with
  | [] => Ok b
  | p :: rest => let? b := benchmark_parameter b p in benchmark_parameters b rest
  end.

Definition no_benchmark : BenchmarkRequest :=
  {| wait_ms := 0; response_bytes := 0; expected_request_bytes := None; request_body := [] |}.

Definition parse_benchmark_request (path : string) : result BenchmarkRequest string :=
  let query := default ""%string (snd <$> split_once "?"%char path) in
  let? b := benchmark_parameters no_benchmark
              (List.filter (fun p => negb (is_empty p)) (split "&"%char query)) in
  if 1000 <? wait_ms b then Err "wait_ms exceeds the 1000 ms limit"
  else if MAX_BODY_BYTES <? response_bytes b then Err "response_bytes exceeds the 2 MiB limit"
  else if match expected_request_bytes b with Some n => MAX_BODY_BYTES <? n | None => false end
       then Err "expected_request_bytes exceeds the 2 MiB limit"
  else Ok b.

(** ** The filter *)

(** A spawned thread: what it waits for and the event it commits then. *)
Record Timer := { timer_ms : N; timer_event : N }.

Record BaselineFilter (E : Type) := {
  base_worker : option Timer;
  benchmark : option BenchmarkRequest;
  base_waiting : bool;
  base_responded : bool;
  base_envoy : E;
  base_performed : list EnvoyCall;
  base_threads : list Timer;
}.
Arguments base_worker {E}.
Arguments benchmark {E}.
Arguments base_waiting {E}.
Arguments base_responded {E}.
Arguments base_envoy {E}.
Arguments base_performed {E}.
Arguments base_threads {E}.

Section filter.
Context {E : Type} `{EnvoyHttpFilter E}.

Definition new_baseline_filter (e : E) : BaselineFilter E :=
  {| base_worker := None; benchmark := None; base_waiting := false; base_responded := false;
     base_envoy := e; base_performed := []; base_threads := [] |}.

Definition set_benchmark (s : BaselineFilter E) b : BaselineFilter E :=
  {| base_worker := base_worker s; benchmark := b; base_waiting := base_waiting s;
     base_responded := base_responded s; base_envoy := base_envoy s; base_performed := base_performed s;
     base_threads := base_threads s |}.
Definition set_base_state (s : BaselineFilter E) w r : BaselineFilter E :=
  {| base_worker := base_worker s; benchmark := benchmark s; base_waiting := w; base_responded := r;
     base_envoy := base_envoy s; base_performed := base_performed s; base_threads := base_threads s |}.
Definition set_base_envoy (s : BaselineFilter E) e : BaselineFilter E :=
  {| base_worker := base_worker s; benchmark := benchmark s; base_waiting := base_waiting s;
     base_responded := base_responded s; base_envoy := e; base_performed := base_performed s;
     base_threads := base_threads s |}.
Definition set_base_threads (s : BaselineFilter E) l : BaselineFilter E :=
  {| base_worker := base_worker s; benchmark := benchmark s; base_waiting := base_waiting s;
     base_responded := base_responded s; base_envoy := base_envoy s; base_performed := base_performed s;
     base_threads := l |}.

Definition base_send (status : N) (headers : list (string * bytes)) (body : bytes) (details : string)
    (s : BaselineFilter E) : BaselineFilter E :=
  let call := SendResponse status headers (Some body) details in
  {| base_worker := base_worker s; benchmark := benchmark s; base_waiting := base_waiting s;
     base_responded := base_responded s; base_envoy := (perform call (base_envoy s)).2;
     base_performed := base_performed s ++ [call]; base_threads := base_threads s |}.

Definition spawn (t : Timer) (s : BaselineFilter E) : BaselineFilter E :=
  {| base_worker := Some t; benchmark := benchmark s; base_waiting := base_waiting s;
     base_responded := base_responded s; base_envoy := base_envoy s; base_performed := base_performed s;
     base_threads := base_threads s ++ [t] |}.

Definition benchmark_body (r : BenchmarkRequest) : bytes := repeat "B"%byte (N.to_nat (response_bytes r)).

Definition send_benchmark_response (s : BaselineFilter E) : BaselineFilter E :=
  match benchmark s with
  | None => s
  | Some request =>
      let s := set_benchmark s None in
      let body := benchmark_body request in
      let s := base_send 200
                 [("content-type", into_bytes "application/octet-stream");
                  ("content-length", into_bytes (show (len body)));
                  ("x-request-bytes", into_bytes (show (len (request_body request))))]%string
                 body "ruvoy_baseline_benchmark" s in
      set_base_state s false true
  end.

Definition send_bad_request (message : string) (s : BaselineFilter E) : BaselineFilter E :=
  let s := base_send 400 [("content-type"%string, into_bytes "text/plain")] (into_bytes message)
             "ruvoy_baseline_bad_benchmark_request" s in
  set_base_state s (base_waiting s) true.

Definition body_size_mismatch (s : BaselineFilter E) : bool :=
  match benchmark s with
  | Some request =>
      match expected_request_bytes request with
      | Some expected => negb (len (request_body request) =? expected)
      | None => false
      end
  | None => false
  end.

Definition finish_benchmark (s : BaselineFilter E) : BaselineFilter E :=
  if base_waiting s || base_responded s then s
  else if body_size_mismatch s then send_bad_request "unexpected request body size" s
  else
    let ms := default 0 (wait_ms <$> benchmark s) in
    if ms =? 0 then send_benchmark_response s
    else set_base_state (spawn {| timer_ms := ms; timer_event := BENCHMARK_EVENT_ID |} s)
           true (base_responded s).

(** ** Callbacks *)

Definition request_path (e : E) : string :=
  default "/"%string (from_utf8_lossy <$> get_request_header_value e ":path").

Definition base_on_request_headers (end_of_stream : bool) (s : BaselineFilter E) : BaselineFilter E :=
  let path := request_path (base_envoy s) in
  if bool_decide (List.hd_error (split "?"%char path) = Some "/benchmark"%string) then
    match parse_benchmark_request path with
    | Ok request =>
        let s := set_benchmark s (Some request) in
        if end_of_stream then finish_benchmark s else s
    | Err message => send_bad_request message s
    end
  else if bool_decide (path = "/scheduler"%string) then
    spawn {| timer_ms := 0; timer_event := SCHEDULER_EVENT_ID |} s
  else
    base_send 200 [("content-type", into_bytes "text/plain"); ("x-ruvoy-mode", into_bytes "direct")]%string
      (into_bytes "rust-baseline") "ruvoy_baseline_direct" s.

Definition with_request_body (r : BenchmarkRequest) (b : bytes) : BenchmarkRequest :=
  {| wait_ms := wait_ms r; response_bytes := response_bytes r;
     expected_request_bytes := expected_request_bytes r; request_body := b |}.

Definition base_on_request_body (end_of_stream : bool) (s : BaselineFilter E) : BaselineFilter E :=
  if base_responded s then s
  else
    match benchmark s with
    | None => s
    | Some request =>
        let received := received_body (base_envoy s) in
        if MAX_BODY_BYTES <? saturating_add (len (request_body request)) (len received)
        then send_bad_request "request body exceeds the 2 MiB limit" s
        else
          let s := set_benchmark s (Some (with_request_body request (request_body request ++ received))) in
          if end_of_stream then finish_benchmark s else s
    end.

Definition base_on_request_trailers (s : BaselineFilter E) : BaselineFilter E := finish_benchmark s.

Definition base_on_scheduled (event_id : N) (s : BaselineFilter E) : BaselineFilter E :=
  if (event_id =? BENCHMARK_EVENT_ID) && base_waiting s then send_benchmark_response s
  else if event_id =? SCHEDULER_EVENT_ID then
    base_send 200 [("content-type", into_bytes "text/plain"); ("x-ruvoy-mode", into_bytes "scheduler")]%string
      (into_bytes "rust-scheduler") "ruvoy_baseline_scheduler" s
  else
    base_send 500 [("content-type"%string, into_bytes "text/plain")] (into_bytes "unexpected scheduler event")
      "ruvoy_baseline_bad_event" s.

End filter.

(** ** Parsing: limits and round trip *)

Definition benchmark_path (wait response expected : N) : string :=
  ("/benchmark?wait_ms=" ++ show wait ++ "&response_bytes=" ++ show response
   ++ "&expected_request_bytes=" ++ show expected)%string.

(** The largest values a benchmark may ask for. *)
Definition within_limits (b : BenchmarkRequest) : Prop :=
  wait_ms b <= 1000 /\ response_bytes b <= MAX_BODY_BYTES
  /\ match expected_request_bytes b with Some n => n <= MAX_BODY_BYTES | None => True end.

Lemma benchmark_parameter_values value b :
  benchmark_parameter b ("wait_ms" ++ String "="%char value)
    = (let? n := parsed (parse_u64 value) "invalid wait_ms: " value in
       Ok {| wait_ms := n; response_bytes := response_bytes b;
             expected_request_bytes := expected_request_bytes b; request_body := request_body b |})
  /\ benchmark_parameter b ("response_bytes" ++ String "="%char value)
    = (let? n := parsed (parse_uint usize_MAX value) "invalid response_bytes: " value in
       Ok {| wait_ms := wait_ms b; response_bytes := n;
             expected_request_bytes := expected_request_bytes b; request_body := request_body b |})
  /\ benchmark_parameter b ("expected_request_bytes" ++ String "="%char value)
    = (let? n := parsed (parse_uint usize_MAX value) "invalid expected_request_bytes: " value in
       Ok {| wait_ms := wait_ms b; response_bytes := response_bytes b;
             expected_request_bytes := Some n; request_body := request_body b |}).
Proof. unfold benchmark_parameter. by rewrite !split_once_app by done. Qed.

Lemma benchmark_path_query wait response expected :
  List.filter (fun p => negb (is_empty p))
    (split "&"%char (default ""%string (snd <$> split_once "?"%char (benchmark_path wait response expected))))
  = ["wait_ms" ++ String "="%char (show wait); "response_bytes" ++ String "="%char (show response);
     "expected_request_bytes" ++ String "="%char (show expected)]%string.
Proof.
  unfold benchmark_path.
  set (p1 := ("wait_ms" ++ String "="%char (show wait))%string).
  set (p2 := ("response_bytes" ++ String "="%char (show response))%string).
  set (p3 := ("expected_request_bytes" ++ String "="%char (show expected))%string).
  change (_ ++ _)%string with
    ("/benchmark" ++ String "?"%char (p1 ++ String "&"%char (p2 ++ String "&"%char p3)))%string.
  assert (Hp : forall name n, contains_char "&"%char name = false ->
    contains_char "&"%char (name ++ String "="%char (show n)) = false).
  { intros name n Hn. rewrite contains_char_app, Hn. cbn. by apply show_no_char. }
  rewrite split_once_app by done. cbn [fmap option_fmap option_map snd default from_option].
  unfold id. rewrite !split_app, split_none by by apply Hp.
  done.
Qed.

Lemma benchmark_parameters_body l b b' :
  benchmark_parameters b l = Ok b' -> request_body b' = request_body b.
Proof.
  revert b. induction l as [|p l IH]; cbn; intros b; [by intros [= ->]|].
  intros Hb. apply result_bind_ok in Hb as (b1 & Hp & Hb). rewrite (IH _ Hb). clear IH Hb.
  unfold benchmark_parameter in Hp. apply result_bind_ok in Hp as ([name value] & _ & Hp).
  repeat case_match; try done; apply result_bind_ok in Hp as (n & _ & [= <-]); done.
Qed.

(** A benchmark request that is accepted stays within the limits and starts with no
    body; the settings written in a query within the limits are the ones read back; and
    each one beyond its limit is refused. *)
Theorem benchmark_request_limits (path : string) (wait response expected : N) :
  wait <= u64_MAX -> response <= usize_MAX -> expected <= usize_MAX ->
  (forall b, parse_benchmark_request path = Ok b -> within_limits b /\ request_body b = [])
  /\ let b := {| wait_ms := wait; response_bytes := response; expected_request_bytes := Some expected;
                 request_body := [] |} in
     let p := parse_benchmark_request (benchmark_path wait response expected) in
     (within_limits b -> p = Ok b) /\ (~ within_limits b -> is_err p = true).
Proof.
  intros Hw Hr He. split.
  - intros b. unfold parse_benchmark_request, within_limits. intros Hp.
    apply result_bind_ok in Hp as (b0 & Hb & Hp). apply benchmark_parameters_body in Hb.
    destruct (N.ltb_spec 1000 (wait_ms b0)); [done|].
    destruct (N.ltb_spec MAX_BODY_BYTES (response_bytes b0)); [done|].
    destruct (expected_request_bytes b0) as [n|] eqn:E; [destruct (N.ltb_spec MAX_BODY_BYTES n); [done|]|];
      injection Hp as <-; rewrite E; by split_and!.
  - unfold parse_benchmark_request, within_limits. rewrite benchmark_path_query.
    cbn [benchmark_parameters].
    rewrite (proj1 (benchmark_parameter_values _ _)). unfold parsed, parse_u64. rewrite parse_uint_show by done.
    cbn [ok_or result_bind]. rewrite (proj1 (proj2 (benchmark_parameter_values _ _))).
    unfold parsed. rewrite parse_uint_show by done.
    cbn [ok_or result_bind]. rewrite (proj2 (proj2 (benchmark_parameter_values _ _))).
    unfold parsed. rewrite parse_uint_show by done.
    cbn -[N.ltb MAX_BODY_BYTES]. split.
    + intros (H1 & H2 & H3). by rewrite !(proj2 (N.ltb_ge _ _)) by done.
    + intros Hn. destruct (N.ltb_spec 1000 wait), (N.ltb_spec MAX_BODY_BYTES response),
        (N.ltb_spec MAX_BODY_BYTES expected); try done. exfalso. by apply Hn.
Qed.

Lemma benchmark_request_limits_witness :
  parse_benchmark_request "/benchmark?wait_ms=5&response_bytes=10&expected_request_bytes=1024"
  = Ok {| wait_ms := 5; response_bytes := 10; expected_request_bytes := Some 1024; request_body := [] |}.
Proof.
  pose proof (benchmark_request_limits "/" 5 10 1024 ltac:(done) ltac:(done) ltac:(done)) as [_ [H _]].
  apply H. by vm_compute.
Defined.

(** ** Answers *)

Section answers.
Context {E : Type} `{EnvoyHttpFilter E}.

(** What may happen after the headers: more of the body until it ends, the end as
    trailers, and the event of a spawned thread, once. [more]: the body may go on. *)
Inductive base_step : BaselineFilter E * bool -> BaselineFilter E * bool -> Prop :=
| base_body s frame last :
    base_step (s, true) (base_on_request_body last (set_base_envoy s frame), negb last)
| base_trailers s : base_step (s, true) (base_on_request_trailers s, false)
| base_scheduled s before t after more :
    base_threads s = before ++ t :: after ->
    base_step (s, more) (base_on_scheduled (timer_event t) (set_base_threads s (before ++ after)), more).

Inductive base_reaches (e : E) : BaselineFilter E * bool -> Prop :=
| base_start end_of_stream :
    base_reaches e (base_on_request_headers end_of_stream (new_baseline_filter e), negb end_of_stream)
| base_next c c' : base_reaches e c -> base_step c c' -> base_reaches e c'.

(** The states of a request: its body is read, a thread waits, it is answered. *)
Inductive base_inv : BaselineFilter E * bool -> Prop :=
| inv_reading s r :
    benchmark s = Some r -> base_waiting s = false -> base_responded s = false ->
    base_performed s = [] -> base_threads s = [] -> base_inv (s, true)
| inv_waiting s r ms :
    benchmark s = Some r -> base_waiting s = true -> base_responded s = false ->
    base_performed s = [] -> base_threads s = [{| timer_ms := ms; timer_event := BENCHMARK_EVENT_ID |}] ->
    base_inv (s, false)
| inv_scheduled s more :
    benchmark s = None -> base_waiting s = false -> base_responded s = false ->
    base_performed s = [] -> base_threads s = [{| timer_ms := 0; timer_event := SCHEDULER_EVENT_ID |}] ->
    base_inv (s, more)
| inv_direct s more call :
    benchmark s = None -> base_waiting s = false -> base_responded s = false ->
    base_performed s = [call] -> base_threads s = [] -> base_inv (s, more)
| inv_answered s more call :
    base_waiting s = false -> base_responded s = true ->
    base_performed s = [call] -> base_threads s = [] -> base_inv (s, more).

(** Finishing a request that was being read answers it or leaves one thread waiting. *)
Lemma finish_answers s r :
  benchmark s = Some r -> base_waiting s = false -> base_responded s = false ->
  base_performed s = [] -> base_threads s = [] -> base_inv (finish_benchmark s, false).
Proof.
  intros Hb Hw Hr Hp Ht. unfold finish_benchmark. rewrite Hw, Hr. cbn [orb].
  destruct (body_size_mismatch s).
  - eapply inv_answered; cbn; rewrite ?Hw, ?Hp; done.
  - rewrite Hb. cbn. destruct (wait_ms r =? 0).
    + unfold send_benchmark_response. rewrite Hb. eapply inv_answered; cbn; rewrite ?Hp; done.
    + eapply inv_waiting; cbn; rewrite ?Ht; done.
Qed.

(** Without a benchmark there is nothing to finish. *)
Lemma finish_idle s : benchmark s = None -> base_waiting s = false -> finish_benchmark s = s.
Proof.
  intros Hb Hw. unfold finish_benchmark, body_size_mismatch, send_benchmark_response.
  rewrite Hb, Hw. cbn. by destruct (base_responded s).
Qed.

Lemma headers_inv e end_of_stream :
  base_inv (base_on_request_headers end_of_stream (new_baseline_filter e), negb end_of_stream).
Proof.
  unfold base_on_request_headers. case_bool_decide.
  - destruct (parse_benchmark_request _) as [r|message].
    + destruct end_of_stream; [by eapply finish_answers|by eapply inv_reading].
    + by eapply inv_answered.
  - case_bool_decide; [by eapply inv_scheduled|by eapply inv_direct].
Qed.

Ltac base_cases Hi :=
  inversion Hi as [? r Hb Hw Hr Hp Ht|? r ms Hb Hw Hr Hp Ht|? m Hb Hw Hr Hp Ht
                  |? m call Hb Hw Hr Hp Ht|? m call Hw Hr Hp Ht]; subst.

Lemma body_inv s frame last :
  base_inv (s, true) -> base_inv (base_on_request_body last (set_base_envoy s frame), negb last).
Proof.
  intros Hi. unfold base_on_request_body. base_cases Hi; cbn [base_responded benchmark set_base_envoy].
  - rewrite Hr, Hb. destruct (_ <? _).
    + eapply inv_answered; cbn; rewrite ?Hp; done.
    + destruct last; [by eapply finish_answers|by eapply inv_reading].
  - rewrite Hr, Hb. by eapply inv_scheduled.
  - rewrite Hr, Hb. by eapply inv_direct.
  - rewrite Hr. by eapply inv_answered.
Qed.

Lemma trailers_inv s : base_inv (s, true) -> base_inv (base_on_request_trailers s, false).
Proof.
  intros Hi. unfold base_on_request_trailers. base_cases Hi.
  - by eapply finish_answers.
  - rewrite finish_idle by done. by eapply inv_scheduled.
  - rewrite finish_idle by done. by eapply inv_direct.
  - unfold finish_benchmark. rewrite Hw, Hr. by eapply inv_answered.
Qed.

Lemma scheduled_inv s before t after more :
  base_threads s = before ++ t :: after -> base_inv (s, more) ->
  base_inv (base_on_scheduled (timer_event t) (set_base_threads s (before ++ after)), more).
Proof.
  intros Hs Hi. unfold base_on_scheduled. base_cases Hi; rewrite Ht in Hs.
  all: destruct before as [|t' before]; [|try by destruct before]; try done.
  all: injection Hs as <- <-; cbn [timer_event base_waiting set_base_threads].
  - rewrite Hw. cbn [andb N.eqb Pos.eqb BENCHMARK_EVENT_ID]. unfold send_benchmark_response.
    cbn [benchmark set_base_threads]. rewrite Hb. eapply inv_answered; cbn; rewrite ?Hp; done.
  - rewrite Hw, Bool.andb_false_r. cbn. eapply inv_direct; cbn; rewrite ?Hp; done.
Qed.

(** Whatever the order of body frames, trailers and scheduler events, a request to
    the baseline filter is sent at most one response; while it has none, its body is
    still coming or exactly one thread is yet to commit the event that answers it. *)
Theorem baseline_answers_once (e : E) (s : BaselineFilter E) (more : bool) :
  base_reaches e (s, more) ->
  (length (base_performed s) <= 1)%nat
  /\ (base_performed s = [] -> more = true \/ exists t, base_threads s = [t])
  /\ (base_threads s <> [] -> base_performed s = []).
Proof.
  intros Hreach. assert (Hi : base_inv (s, more)).
  { induction Hreach as [last|c c' _ IH Hstep]; [apply headers_inv|].
    destruct Hstep; [by apply body_inv|by apply trailers_inv|by apply scheduled_inv]. }
  base_cases Hi; rewrite Hp, Ht; cbn; split_and!; try done; try lia; eauto.
Qed.

End answers.

(** A benchmark that waits, its body in two frames, then its event. *)
Definition benchmark_envoy : ExampleEnvoy :=
  {| ex_headers := [(":path", into_bytes "/benchmark?wait_ms=5&expected_request_bytes=3")]%string;
     ex_attributes := ex_attribute; ex_port := None; ex_buffered := [];
     ex_received := [into_bytes "abc"]; ex_replies := [] |}.

Lemma baseline_answers_once_witness :
  let s := base_on_request_headers false (new_baseline_filter benchmark_envoy) in
  let s := base_on_request_body true (set_base_envoy s benchmark_envoy) in
  let s := base_on_scheduled BENCHMARK_EVENT_ID (set_base_threads s []) in
  (length (base_performed s) <= 1)%nat /\ length (base_performed s) = 1%nat.
Proof.
  cbv zeta. split; [|by vm_compute].
  refine (proj1 (baseline_answers_once benchmark_envoy _ false _)).
  refine (base_next _ _ _ (base_next _ _ _ (base_start _ false) (base_body _ benchmark_envoy true)) _).
  by apply (base_scheduled _ [] {| timer_ms := 5; timer_event := BENCHMARK_EVENT_ID |} []).
Defined.
