(* ===== verification/QueueTests.v ===== *)
(** * The source's own tests of queues, routes and budgets

    The unit tests of [src/src/stream.rs], [upstream.rs] and [budget.rs], translated
    method by method and run on the model: each is a [bool] that must be [true].  The
    [loom] tests run two threads under every interleaving; so do these, and those whose
    threads loop for as long as they must are theorems about every reachable state. *)

From S2P Require Import Prelude RustStr Types Budget Stream Upstream Wake World.
From Stdlib Require Import Strings.String.

Local Open Scope N_scope.

(** ** Scripts

    [m gives p ;; k]: what the method returns must satisfy [p], or the test fails. *)

Definition asserting {S A} (m : St S A) (p : A -> bool) (k : St S bool) : St S bool :=
  let* a := m in if p a then k else st_ret false.

Definition eq_to {A} `{EqDecision A} (v a : A) : bool := bool_decide (a = v).

Notation "m 'gives' p ;; k" := (asserting m p k)
  (at level 99, p at level 98, k at level 99, right associativity) : ruvoy_scope.

Definition passed {S} : St S bool := st_ret true.

Definition run_test {S} (s : S) (test : St S bool) : bool := (test s).1.

(** A look at the state. *)
Definition reading {S A} (f : S -> A) : St S A := fun s => (f s, s).

Definition any {A} (a : A) : bool := true.

Definition text (s : string) : bytes := into_bytes s.
Definition zeros (n : nat) : bytes := repeat "000"%byte n.
Definition ones (n : nat) : bytes := repeat "001"%byte n.
Definition contains (needle s : string) : bool :=
  match String.index 0 needle s with
  | Some _ => true
  | None => false
  end.

(** The tests' [waiter()]: a value that is only stored. *)
Definition waiter_ : Value := 8.

Definition is_some {A} (o : option A) : bool := match o with Some _ => true | None => false end.
Definition is_none {A} (o : option A) : bool := negb (is_some o).
Definition is_ok {A E} (r : result A E) : bool := match r with Ok _ => true | Err _ => false end.

(** ** [stream.rs] *)

Module StreamTests.

Definition parking_is_refused_once_a_read_would_not_wait : bool :=
  let buffered := (push_chunk (zeros 4) (stream_new 64)).2 in
  let ended := (push_end (stream_new 64)).2 in
  let cancelled := cancel (stream_new 64) in
  forallb (fun stream => run_test stream (park waiter_ gives negb ;; unpark gives is_none ;; passed))
    [buffered; ended; cancelled].

Definition an_empty_stream_holds_the_waiter_until_it_is_taken : bool :=
  run_test (stream_new 64) (park waiter_ gives id ;; unpark gives is_some ;; unpark gives is_none ;; passed).

Definition a_chunk_larger_than_the_budget_is_taken_in_slices : bool :=
  let body := text "abcdefghij" in
  run_test (stream_new 4)
    (push_chunk_within_budget body gives eq_to (Some 4) ;;
     push_chunk_within_budget (ndrop 4 body) gives eq_to (Some 0) ;;
     reading buffered_bytes gives eq_to 4 ;;
     take_next gives eq_to (Some (Chunk (text "abcd"))) ;;
     push_chunk_within_budget (ndrop 4 body) gives eq_to (Some 4) ;;
     reading buffered_bytes gives eq_to 4 ;;
     passed).

Definition nothing_is_accepted_after_the_end : bool :=
  run_test (stream_new 64)
    (push_end gives id ;; push_end gives negb ;;
     push_failure (Types.Upstream "late") gives negb ;;
     push_chunk_within_budget (text "late") gives is_none ;;
     push_chunk_if_room (text "late") gives is_none ;;
     passed).

Definition a_writer_parks_only_while_the_queue_is_full : bool :=
  run_test (stream_new 4)
    (park_writer waiter_ gives negb ;;
     push_chunk_within_budget (text "abcd") gives eq_to (Some 4) ;;
     park_writer waiter_ gives id ;;
     reading writer_owed_wakeup gives negb ;;
     take_next gives any ;;
     reading writer_owed_wakeup gives id ;;
     unpark gives is_some ;;
     reading writer_owed_wakeup gives negb ;;
     passed).

Definition a_paused_downstream_parks_the_writer_until_it_resumes : bool :=
  run_test (stream_new 4)
    (modify (set_paused true) gives any ;;
     park_writer waiter_ gives id ;;
     reading writer_owed_wakeup gives negb ;;
     modify (set_paused false) gives any ;;
     reading writer_owed_wakeup gives id ;;
     passed).

Definition cancelling_owes_a_parked_writer_its_wakeup : bool :=
  run_test (stream_new 4)
    (push_chunk_within_budget (text "abcd") gives eq_to (Some 4) ;;
     park_writer waiter_ gives id ;;
     modify cancel gives any ;;
     reading writer_owed_wakeup gives id ;;
     park_writer waiter_ gives negb ;;
     passed).

Definition a_delivery_is_taken_whole_or_refused_whole : bool :=
  run_test (stream_new 4)
    (push_chunk_if_room (ones 8) gives eq_to (Some true) ;;
     push_chunk_if_room (ones 1) gives eq_to (Some false) ;;
     take_next gives any ;;
     push_chunk_if_room (ones 3) gives eq_to (Some true) ;;
     push_chunk_if_room (ones 2) gives eq_to (Some false) ;;
     modify cancel gives any ;;
     push_chunk_if_room (ones 1) gives is_none ;;
     passed).

Definition a_cancelled_stream_takes_nothing : bool :=
  run_test (stream_new 4)
    (modify cancel gives any ;;
     push_chunk_within_budget (text "abc") gives is_none ;;
     reading buffered_bytes gives eq_to 0 ;;
     passed).

End StreamTests.

(** ** Two threads, every interleaving

    A thread is the steps it takes on the shared state, one locked method each. *)

Inductive Thread (S A : Type) :=
| Finished (a : A)
| Running (step : S -> Thread S A * S).
Arguments Finished {S A} a.
Arguments Running {S A} step.

(** One step, then the rest; each argument is a thread. *)
Definition stepping {S A B} (m : St S A) (k : A -> Thread S B) : Thread S B :=
  Running (fun s => let '(a, s) := m s in (k a, s)).

(** What both threads return and the state they leave, for every interleaving;
    [None] when some interleaving is longer than [fuel]. *)
Fixpoint interleavings {S A B} (fuel : nat) (a : Thread S A) (b : Thread S B) (s : S) : option (list (A * B * S)) :=
  match fuel with
  | O => match a, b with
         | Finished x, Finished y => Some [(x, y, s)]
         | _, _ => None
         end
  | Datatypes.S fuel =>
      match a, b with
      | Finished x, Finished y => Some [(x, y, s)]
      | Running f, Finished _ => let '(a', s') := f s in interleavings fuel a' b s'
      | Finished _, Running g => let '(b', s') := g s in interleavings fuel a b' s'
      | Running f, Running g =>
          let '(a', s1) := f s in
          let '(b', s2) := g s in
          l ← interleavings fuel a' b s1;
          r ← interleavings fuel a b' s2;
          Some (l ++ r)%list
      end
  end.

(** A [loom] test: the assertion holds of every interleaving, and there is one. *)
Definition model {S A B} (a : Thread S A) (b : Thread S B) (s : S) (assertion : A -> B -> S -> bool) : bool :=
  match interleavings 16 a b s with
  | Some l => negb (match l with [] => true | _ => false end) && forallb (fun '(x, y, s) => assertion x y s) l
  | None => false
  end.

Module StreamLoomTests.

(** [while let Some(Chunk(chunk)) = stream.take_next()], for a queue of chunks. *)
Fixpoint consumer (fuel : nat) (taken : N) : Thread ResponseStream N :=
  match fuel with
  | O => Finished taken
  | Datatypes.S fuel =>
      stepping take_next (fun item =>
        match item with
        | Some (Chunk chunk) => consumer fuel (taken + len chunk)
        | _ => Finished taken
        end)
  end.

Fixpoint drained (fuel : nat) (s : ResponseStream) (taken : N) : N * ResponseStream :=
  match fuel with
  | O => (taken, s)
  | Datatypes.S fuel =>
      match take_next s with
      | (Some (Chunk chunk), s) => drained fuel s (taken + len chunk)
      | (_, s) => (taken, s)
      end
  end.

Definition concurrent_push_and_take_conserve_every_chunk : bool :=
  model
    (stepping (push_chunk (zeros 2)) (fun _ => stepping (push_chunk (zeros 3)) (fun _ => Finished tt)))
    (consumer 3 0) (stream_new 64)
    (fun _ taken s =>
       let '(taken, s) := drained 3 s taken in (taken =? 5) && (buffered_bytes s =? 0)).

Definition cancelling_never_strands_buffered_bytes : bool :=
  model (stepping (push_chunk (zeros 4)) Finished) (stepping (modify cancel) Finished) (stream_new 64)
    (fun accepted _ s =>
       cancelled s && implb accepted (is_none (take_next s).1) && (buffered_bytes (take_next s).2 =? 0)).

Definition a_parked_writer_is_never_stranded : bool :=
  let '(pushed, s) := push_chunk_within_budget ["001"; "002"]%byte (stream_new 2) in
  eq_to (Some 2) pushed
  && model (stepping (park_writer waiter_) Finished)
       (stepping take_next (fun _ => stepping (reading writer_owed_wakeup) Finished)) s
       (fun parked owed _ => negb parked || owed).

End StreamLoomTests.

(** ** A body in slices

    The producer of [slices_never_take_the_queue_past_its_budget] and its consumer both
    loop until the whole body is through, yielding in between, so their runs have no
    bound: each turn of either loop is a step, and the assertions hold of every state
    the two can reach, for any body and any bound. *)

Module Slices.

Record Slicing := { sl_queue : ResponseStream; sl_offset : N; sl_received : bytes }.

Definition sliced_from (max_buffered_bytes : N) : Slicing :=
  {| sl_queue := stream_new max_buffered_bytes; sl_offset := 0; sl_received := [] |}.

(** A turn of the producer's [while]; [None] once it has left it, or when [expect]
    panics. *)
Definition produce (body : bytes) (s : Slicing) : option Slicing :=
  if sl_offset s <? len body
  then match push_chunk_within_budget (ndrop (sl_offset s) body) (sl_queue s) with
       | (Some taken, q) =>
           Some {| sl_queue := q; sl_offset := sl_offset s + taken; sl_received := sl_received s |}
       | (None, _) => None
       end
  else None.

(** A turn of the consumer's; [None] once it has left it, or when it reaches the
    [unreachable!]. *)
Definition consume (body : bytes) (s : Slicing) : option Slicing :=
  if len (sl_received s) <? len body
  then match take_next (sl_queue s) with
       | (Some (Chunk chunk), q) =>
           Some {| sl_queue := q; sl_offset := sl_offset s; sl_received := (sl_received s ++ chunk)%list |}
       | (Some _, _) => None
       | (None, q) => Some {| sl_queue := q; sl_offset := sl_offset s; sl_received := sl_received s |}
       end
  else None.

Definition slicing_step (body : bytes) (s s' : Slicing) : Prop :=
  produce body s = Some s' \/ consume body s = Some s'.

(** What every turn keeps. *)
Record slicing (max : N) (body : bytes) (s : Slicing) : Prop := {
  sl_wf : stream_wf (sl_queue s);
  sl_max : max_buffered_bytes (sl_queue s) = N.max max 1;
  sl_bound : buffered_bytes (sl_queue s) <= N.max max 1;
  sl_open : cancelled (sl_queue s) = false /\ ended (sl_queue s) = false /\ paused (sl_queue s) = false;
  sl_chunks : Forall (fun i => exists c, i = Chunk c) (items (sl_queue s));
  sl_within : sl_offset s <= len body;
  sl_whole : (sl_received s ++ queued_bytes (items (sl_queue s)))%list = ntake (sl_offset s) body;
}.

Lemma sliced_from_slicing max body : max < width64 -> slicing max body (sliced_from max).
Proof. intros H. constructor; cbn; try done; auto with ruvoy; lia. Qed.

Lemma produce_slicing max body s :
  slicing max body s -> sl_offset s < len body ->
  exists s', produce body s = Some s' /\ slicing max body s'.
Proof.
  intros [Hwf Hmax Hb (Hc & He & Hp) Hch Hin Hw] Ho. unfold produce.
  replace (sl_offset s <? len body) with true by (symmetry; by apply N.ltb_lt).
  pose proof (push_chunk_within_budget_wf (ndrop (sl_offset s) body) _ Hwf) as Hwf'.
  unfold push_chunk_within_budget, saturating_sub in *. rewrite Hc, He in *. cbn [orb snd] in *.
  set (n := N.min _ _) in *. eexists. split; [done|].
  assert (n <= len body - sl_offset s) by (subst n; rewrite len_ndrop; lia).
  destruct (N.ltb_spec 0 n) as [Hn|Hn]; cbn in Hwf'.
  - constructor; cbn; try done; try lia.
    + pose proof (wf_max _ Hwf). rewrite usize_add_small by lia. lia.
    + apply Forall_app. split; [done|]. constructor; [by eexists | done].
    + rewrite queued_bytes_app, app_assoc, Hw. cbn. by rewrite app_nil_r, ntake_ntake_add.
  - constructor; cbn; try done; try lia. replace (sl_offset s + n) with (sl_offset s) by lia. done.
Qed.

Lemma consume_slicing max body s :
  slicing max body s -> len (sl_received s) < len body ->
  exists s', consume body s = Some s' /\ slicing max body s'.
Proof.
  intros [Hwf Hmax Hb (Hc & He & Hp) Hch Hin Hw] Ho. unfold consume.
  replace (len (sl_received s) <? len body) with true by (symmetry; by apply N.ltb_lt).
  pose proof (take_next_wf _ Hwf) as Hwf'. unfold take_next in *. rewrite Hp in *.
  destruct (items (sl_queue s)) as [|i rest] eqn:Ei; cbn [snd] in Hwf'.
  - eexists. split; [done|]. constructor; cbn; rewrite ?Ei; done.
  - apply Forall_cons_1 in Hch as [[c ->] Hch]. eexists. split; [done|].
    constructor; cbn; try done; [unfold saturating_sub; lia|].
    by rewrite <- app_assoc.
Qed.

Lemma slicing_steps max body s s' :
  rtc (slicing_step body) s s' -> slicing max body s -> slicing max body s'.
Proof.
  induction 1 as [|x y z Hs _ IH]; [done|]. intros H. apply IH. destruct Hs as [E|E].
  - destruct (N.lt_ge_cases (sl_offset x) (len body)) as [L|L].
    + destruct (produce_slicing _ _ _ H L) as (? & E' & ?). congruence.
    + unfold produce in E. apply N.ltb_ge in L. by rewrite L in E.
  - destruct (N.lt_ge_cases (len (sl_received x)) (len body)) as [L|L].
    + destruct (consume_slicing _ _ _ H L) as (? & E' & ?). congruence.
    + unfold consume in E. apply N.ltb_ge in L. by rewrite L in E.
Qed.

(** [slices_never_take_the_queue_past_its_budget]: however the two loops interleave,
    the queue is within its bound, neither loop panics, what the consumer has and what
    is queued are what the producer has sliced off so far, in order, and when the
    consumer leaves its loop it has the body. *)
Theorem slices_never_take_the_queue_past_its_budget max body s :
  max < width64 -> rtc (slicing_step body) (sliced_from max) s ->
  buffered_bytes (sl_queue s) <= N.max max 1
  /\ (sl_offset s < len body -> is_Some (produce body s))
  /\ (len (sl_received s) < len body -> is_Some (consume body s))
  /\ (sl_received s ++ queued_bytes (items (sl_queue s)))%list = ntake (sl_offset s) body
  /\ (len body <= len (sl_received s) -> sl_received s = body).
Proof.
  intros Hm Hr. pose proof (slicing_steps _ _ _ _ Hr (sliced_from_slicing _ body Hm)) as H.
  split_and!; [apply H| | |apply H|].
  - intros L. destruct (produce_slicing _ _ _ H L) as (? & E & _). by eexists.
  - intros L. destruct (consume_slicing _ _ _ H L) as (? & E & _). by eexists.
  - intros L. pose proof (sl_whole _ _ _ H) as Hw. pose proof (sl_within _ _ _ H) as Hi.
    apply (f_equal len) in Hw as Hl. rewrite len_app, len_ntake in Hl.
    replace (sl_offset s) with (len body) in Hw by lia. rewrite ntake_ge in Hw by lia.
    rewrite <- Hw in L. rewrite len_app in L.
    rewrite <- Hw, (len_0_nil (queued_bytes _)) at 1 by lia. by rewrite app_nil_r.
Qed.

End Slices.

(** ** [upstream.rs] *)

Module UpstreamTests.

Definition settings_ : UpstreamSettings :=
  {| clusters := ["users"%string]; timeout := from_secs 1; max_response_bytes := 64; stream_buffer_bytes := 64 |}.

Definition request_ : UpstreamRequest :=
  {| req_cluster := "users"; req_headers := []; req_body := []; req_timeout := from_secs 1; req_response := Direct 1 |}.

Definition stream_request : UpstreamStreamRequest :=
  {| sreq_cluster := "users"; sreq_headers := []; sreq_timeout := 0; sreq_channel := 1 |}.

(** A route, and the events its waker committed. *)
Definition new_upstreams : Upstreams * list Waker :=
  (upstreams_new settings_ {| waker_filter := 1; waker_event := 1 |}, []).

Definition wakes : St (Upstreams * list Waker) N := reading (fun u => len u.2).

Definition is_upstream (r : result unit BridgeError) : bool :=
  match r with
  | Err (Types.Upstream _) => true
  | _ => false
  end.

Definition only_listed_clusters_are_allowed : bool :=
  allows settings_ "users" && negb (allows settings_ "user") && negb (allows settings_ "").

Definition a_queued_call_wakes_the_worker_and_is_taken_once : bool :=
  run_test new_upstreams
    (queue request_ gives is_ok ;; queue request_ gives is_ok ;;
     wakes gives eq_to 2 ;;
     on_calls take_queued gives (fun l => len l =? 2) ;;
     on_calls take_queued gives (fun l => len l =? 0) ;;
     passed).

Definition closing_hands_back_unsent_calls_and_refuses_later_ones : bool :=
  run_test new_upstreams
    (queue request_ gives is_ok ;;
     on_calls close_calls gives (fun unsent => len (unsent_calls unsent) =? 1) ;;
     queue request_ gives is_upstream ;;
     on_calls take_queued gives (fun l => len l =? 0) ;;
     passed).

Definition a_queued_stream_wakes_the_worker_and_a_close_hands_it_back : bool :=
  run_test new_upstreams
    (queue_stream stream_request gives is_ok ;;
     wakes gives eq_to 1 ;;
     on_calls close_calls gives (fun unsent => len (unsent_streams unsent) =? 1) ;;
     queue_stream stream_request gives (fun r => negb (is_ok r)) ;;
     passed).

Definition a_failed_channel_keeps_the_error_for_the_fiber_and_wants_a_reset : bool :=
  run_test (channel_new 8)
    (modify (fail (UpstreamOverflow "read too slowly")) gives any ;;
     reading wants_reset gives id ;;
     reading (fun c => cancelled (request c)) gives id ;;
     on_response take_next gives (fun i => match i with Some (Failed (UpstreamOverflow _)) => true | _ => false end) ;;
     passed).

Definition closing_a_channel_drops_what_was_buffered_and_wants_a_reset : bool :=
  run_test (channel_new 8)
    (on_response (push_chunk_if_room ["001"; "002"; "003"]%byte) gives eq_to (Some true) ;;
     modify close gives any ;;
     reading wants_reset gives id ;;
     reading (fun c => cancelled (response c)) gives id ;;
     on_response take_next gives is_none ;;
     reading timed_out gives negb ;;
     passed).

Definition a_channel_timed_out_is_closed_and_says_so : bool :=
  run_test (channel_new 8)
    (modify time_out gives any ;;
     reading wants_reset gives id ;;
     reading (fun c => cancelled (response c)) gives id ;;
     reading timed_out gives id ;;
     passed).

(** The [loom] test: a call races the close. *)
Definition a_call_racing_the_close_is_refused_or_handed_back : bool :=
  model (stepping (queue request_) (fun r => Finished (is_ok r)))
    (stepping (on_calls close_calls) (fun unsent => Finished (len (unsent_calls unsent)))) new_upstreams
    (fun queued_ handed_back u =>
       let left_ := len (on_calls take_queued u).1 in
       ((if queued_ : bool then 1 else 0) =? handed_back + left_)
       && (negb queued_ || (handed_back =? 1) || (left_ =? 1))).

End UpstreamTests.

(** ** [budget.rs] *)

Module BudgetTests.

Definition acquire (amount : N) : St Ceiling (option Lease) := fun b => try_acquire b amount.

Definition rejects_overcommit_and_releases_capacity : bool :=
  let '(lease, b) := acquire 8 (Budget_new 10) in
  match lease with
  | None => false
  | Some lease =>
      run_test b (acquire 3 gives is_none ;; modify (drop_lease lease) gives any ;; acquire 10 gives is_some ;; passed)
  end.

Definition a_single_permit_is_exclusive : bool :=
  let '(permit, b) := acquire 1 (Budget_new 1) in
  match permit with
  | None => false
  | Some permit =>
      run_test b (acquire 1 gives is_none ;; modify (drop_lease permit) gives any ;; acquire 1 gives is_some ;; passed)
  end.

End BudgetTests.

(** The two [loom] tests: their threads are runs of [race_step], which has more
    threads, any amounts and, like [loom], stale relaxed loads. *)

Module BudgetLoomTests.

(** A thread whose acquisition is over and whose lease, if any, was dropped. *)
Definition joined (pc : Pc) : bool :=
  match pc with
  | Refused | Released => true
  | _ => false
  end.

Lemma joined_holds l : Forall (fun pc => joined pc = true) l -> held_by l = 0.
Proof.
  induction 1 as [|pc l Hpc _ IH]; [done|]. change (holds pc + held_by l = 0). rewrite IH.
  by destruct pc.
Qed.

(** [budget.used()], whichever value the relaxed load returns, and the counter when
    the threads are joined. *)
Lemma concurrent_acquires_never_exceed_capacity (r : Race) :
  race_reachable 2 r ->
  Forall (fun seen => seen <= 2) (history r)
  /\ (Forall (fun pc => joined pc = true) (threads r) -> used (ceiling r) = 0).
Proof.
  intros Hr. destruct (race_reachable_inv 2 r) as [(Hu & _ & Hh & _) Hc]; [done|done|].
  rewrite Hc in Hh. split; [done|]. intros Hj. rewrite Hu. by apply joined_holds.
Qed.

(** The state after the lease of one unit is taken and the other thread is spawned. *)
Definition racing : Race :=
  {| ceiling := {| used := 1; capacity := 4 |}; history := [1; 0];
     threads := [Holding {| held := 1 |}; Start 2] |}.

Lemma racing_reachable : race_reachable 4 racing.
Proof.
  eapply rtc_l; [apply (step_spawn _ 1)|].
  eapply rtc_l; [apply (step_load _ 0 1 0); [reflexivity | apply elem_of_cons; by left]|].
  eapply rtc_l; [apply (step_exchange _ 0 1 0); reflexivity|].
  eapply rtc_l; [apply (step_spawn _ 2) | apply rtc_refl].
Qed.

Lemma releasing_races_acquiring_without_losing_capacity (r : Race) :
  rtc race_step racing r -> Forall (fun pc => joined pc = true) (threads r) -> used (ceiling r) = 0.
Proof.
  intros Hr Hj. destruct (race_reachable_inv 4 r) as [(Hu & _) _]; [done| |].
  - unfold race_reachable. etrans; [apply racing_reachable | done].
  - rewrite Hu. by apply joined_holds.
Qed.

End BudgetLoomTests.

(** ** They pass *)

Definition queue_tests : list bool :=
  [StreamTests.parking_is_refused_once_a_read_would_not_wait;
   StreamTests.an_empty_stream_holds_the_waiter_until_it_is_taken;
   StreamTests.a_chunk_larger_than_the_budget_is_taken_in_slices;
   StreamTests.nothing_is_accepted_after_the_end;
   StreamTests.a_writer_parks_only_while_the_queue_is_full;
   StreamTests.a_paused_downstream_parks_the_writer_until_it_resumes;
   StreamTests.cancelling_owes_a_parked_writer_its_wakeup;
   StreamTests.a_delivery_is_taken_whole_or_refused_whole;
   StreamTests.a_cancelled_stream_takes_nothing;
   StreamLoomTests.concurrent_push_and_take_conserve_every_chunk;
   StreamLoomTests.cancelling_never_strands_buffered_bytes;
   StreamLoomTests.a_parked_writer_is_never_stranded;
   UpstreamTests.only_listed_clusters_are_allowed;
   UpstreamTests.a_queued_call_wakes_the_worker_and_is_taken_once;
   UpstreamTests.closing_hands_back_unsent_calls_and_refuses_later_ones;
   UpstreamTests.a_queued_stream_wakes_the_worker_and_a_close_hands_it_back;
   UpstreamTests.a_failed_channel_keeps_the_error_for_the_fiber_and_wants_a_reset;
   UpstreamTests.closing_a_channel_drops_what_was_buffered_and_wants_a_reset;
   UpstreamTests.a_channel_timed_out_is_closed_and_says_so;
   UpstreamTests.a_call_racing_the_close_is_refused_or_handed_back;
   BudgetTests.rejects_overcommit_and_releases_capacity;
   BudgetTests.a_single_permit_is_exclusive].

Example queue_tests_pass : forallb id queue_tests = true.
Proof. vm_compute. reflexivity. Qed.
