(* ===== verification/WorkerTests.v ===== *)
(** * The source's own tests of the worker

    The unit tests of [upstream.rs], [context.rs] and [worker.rs] of
    [src/crates/ruvoy-envoy-fiber], of [src/src/rack.rs] and [fiber.rs], and of the baseline filter,
    translated as those of [QueueTests].  What a test's mock of Envoy answers is the
    reply list of [EnvoyExample]; what it expects of a call is asserted of the log. *)

From S2P Require Import Prelude RustStr Types Budget Stream Upstream Wake Request World Client Envoy EnvoyExample Metrics Calls Authority Rack Fiber FailedStart Lifecycle Config Baseline QueueTests.
From Stdlib Require Import Floats.SpecFloat.

Local Open Scope N_scope.

#[local] Instance StreamAction_eq_dec : EqDecision StreamAction.
Proof. solve_decision. Defined.

(** ** Calls ([upstream.rs]) *)

Module CallTests.

Definition test_request (b : bytes) (timeout_ : Duration) : UpstreamRequest :=
  {| req_cluster := "users";
     req_headers := [(":method", text "GET"); (":path", text "/users/42"); ("host", text "users")]%string;
     req_body := b; req_timeout := timeout_; req_response := Direct 1 |}.

Fixpoint take_all (fuel : nat) (s : ResponseStream) : list StreamItem :=
  match fuel with
  | O => []
  | S fuel => match take_next s with
              | (Some i, s) => i :: take_all fuel s
              | (None, _) => []
              end
  end.
Definition items_ (s : ResponseStream) : list StreamItem := take_all (S (length (items s))) s.

(** A mock that answers one call. *)
Definition mock (r : CalloutInitResult) (id : N) : Env ExampleEnvoy :=
  {| envoy := example [] [] [{| init_result := r; reply_id := id; reentrant := [] |}]; performed := [];
     store := set_queues (world_new 4) {[1 := stream_new 64]} |}.

Definition a_sent_call_waits_under_the_id_envoy_gave_it : bool :=
  let '((refused, in_flight), e) := send (test_request [] 10000) [] ∅ (mock InitSuccess 7) in
  match performed e with
  | [SendHttpCallout cluster headers body timeout_ms] =>
      eq_to "users"%string cluster && eq_to (Some (":path"%string, text "/users/42")) (headers !! 1%nat)
      && is_none body && (timeout_ms =? 1)
  | _ => false
  end && is_none refused && is_some (in_flight !! 7).

Definition a_call_envoy_refuses_fails_on_the_spot : bool :=
  let '((refused, in_flight), e) := send (test_request (text "payload") (from_secs 1)) [] ∅ (mock ClusterNotFound 0) in
  match performed e, refused with
  | [SendHttpCallout _ _ body _], Some (q, cluster) =>
      eq_to (Some (text "payload")) body && eq_to "users"%string cluster
      && bool_decide (map_to_list in_flight = [])
      && match items_ (get_queue (store e) q) with
         | [Failed (Types.Upstream reason)] => contains "does not exist" reason
         | _ => false
         end
  | _, _ => false
  end.

Definition the_request_trace_goes_along_unless_the_application_set_it : bool :=
  let base := test_request [] (from_secs 1) in
  let own := {| req_cluster := req_cluster base;
                req_headers := req_headers base ++ [("traceparent"%string, text "00-mine-01")];
                req_body := req_body base; req_timeout := req_timeout base; req_response := req_response base |} in
  let trace := [("traceparent", text "00-request-01"); ("x-request-id", text "r-1")]%string in
  let '((refused, _), e) := send own trace ∅ (mock InitSuccess 7) in
  match performed e with
  | [SendHttpCallout _ headers _ _] =>
      bool_decide (("traceparent"%string, text "00-mine-01") ∈ headers)
      && negb (bool_decide (("traceparent"%string, text "00-request-01") ∈ headers))
      && bool_decide (("x-request-id"%string, text "r-1") ∈ headers)
  | _ => false
  end && is_none refused.

Definition a_response_arrives_as_its_head_body_and_end : bool :=
  let headers_ := [(text ":status", text "201"); (text "set-cookie", text "a=1"); (text "set-cookie", text "b=2")] in
  let '(outcome, s) := deliver CalloutSuccess (Some headers_) (Some [text "hel"; text "lo"]) 64 (stream_new 64) in
  eq_to Completed outcome
  && match items_ s with
     | [Head head; Chunk chunk; End] =>
         (status head =? 201) && eq_to [("set-cookie", "a=1"); ("set-cookie", "b=2")]%string (headers head)
         && eq_to (text "hello") chunk
     | _ => false
     end.

(** Why delivering a five byte body failed, and what it was counted as. *)
Definition failure (r : CalloutResult) (headers_ : EnvoyHeaders) (limit : N) : option (string * CallOutcome) :=
  let '(outcome, s) := deliver r (Some headers_) (Some [text "12345"]) limit (stream_new 64) in
  match items_ s with
  | [Failed (Types.Upstream reason | UpstreamTooLarge reason)] => Some (reason, outcome)
  | _ => None
  end.

Definition every_unusable_outcome_arrives_as_a_failure : bool :=
  let status_ := [(text ":status", text "200")] in
  let no_status := [(text "x-a", text "1")] in
  forallb (fun '(found, expected, expected_outcome) =>
      match found with
      | Some (reason, outcome) => contains expected reason && eq_to expected_outcome outcome
      | None => false
      end)
    [(failure CalloutSuccess status_ 4, "limit"%string, TooLarge);
     (failure CalloutSuccess no_status 64, ":status"%string, OutcomeReset);
     (failure CalloutReset [] 64, "reset"%string, OutcomeReset);
     (failure ExceedResponseBufferLimit [] 64, "buffer limit"%string, TooLarge)].

End CallTests.

(** ** Streams ([upstream.rs]) *)

Module OpenStreamTests.
Import CallTests.

Definition test_stream_request (timeout_ : Duration) : UpstreamStreamRequest :=
  {| sreq_cluster := "users";
     sreq_headers := [(":method", text "GET"); (":path", text "/feed"); ("host", text "users")]%string;
     sreq_timeout := timeout_; sreq_channel := 1 |}.

Definition status_ (code : string) : EnvoyHeaders := [(text ":status", text code)].

(** The same mock, with the channel the test made. *)
Definition mock_with (c : StreamChannel) (r : CalloutInitResult) (id : N) : Env ExampleEnvoy :=
  let e := mock r id in
  {| envoy := envoy e; performed := []; store := set_channels (store e) {[1 := c]} |}.

(** A stream beside its channel, as [OpenStream] holds it. *)
Definition opened (budget : N) (request_ended : bool) : Pair :=
  (OpenStream_new 1 "users" request_ended 0, channel_new budget).

Definition on_chan {A} (m : St StreamChannel A) : St Pair A := fun '(o, c) => let '(a, c) := m c in (a, (o, c)).

Definition event (line : string) : bytes := (text line ++ [x0a; x0a])%list.

(** [items(&channel.response)] *)
Definition response_items : St Pair (list StreamItem) := reading (fun p => items_ (response p.2)).

Definition a_stream_without_a_body_starts_ended_and_without_a_deadline : bool :=
  let c := (on_request push_end (channel_new 64)).2 in
  let '((started, _), e)   := Calls.start (test_stream_request 0) [] (mock_with c InitSuccess 9) in
  match performed e, started with
  | [StartHttpStream cluster _ body end_stream timeout_ms], Open handle o =>
      eq_to "users"%string cluster && is_none body && end_stream && (timeout_ms =? 0) && (handle =? 9)
      && is_none (next_action (o, get_channel (store e) 1)).1
  | _, _ => false
  end.

Definition a_sub_millisecond_deadline_is_kept : bool :=
  let '((started, _), e)   := Calls.start (test_stream_request 400000) [] (mock_with (channel_new 64) InitSuccess 9) in
  match performed e, started with
  | [StartHttpStream _ _ _ _ timeout_ms], Open handle _ => (timeout_ms =? 1) && (handle =? 9)
  | _, _ => false
  end.

Definition a_stream_envoy_refuses_fails_on_the_spot : bool :=
  let '((started, _), e)   := Calls.start (test_stream_request 0) [] (mock_with (channel_new 64) ClusterNotFound 0) in
  match started, items_ (response (get_channel (store e) 1)) with
  | StartRefused _ _, [Failed (Types.Upstream reason)] => contains "does not exist" reason
  | _, _ => false
  end.

Definition a_stream_the_fiber_closed_before_it_started_never_starts : bool :=
  let '((started, _), e)   := Calls.start (test_stream_request 0) [] (mock_with (close (channel_new 64)) InitSuccess 9) in
  match started, performed e with
  | Skipped _, [] => true
  | _, _ => false
  end.

Definition the_body_goes_out_a_piece_at_a_time_and_then_ends : bool :=
  run_test (opened 64 false)
    (on_chan (on_request (push_chunk_within_budget (text "ab"))) gives eq_to (Some 2) ;;
     next_action gives eq_to (Some (Send (text "ab") false)) ;;
     next_action gives is_none ;;
     on_chan (on_request push_end) gives any ;;
     next_action gives eq_to (Some (Send [] true)) ;;
     next_action gives is_none ;;
     passed).

Definition a_wanted_reset_is_asked_for_once : bool :=
  run_test (opened 64 false)
    (on_chan (modify close) gives any ;;
     next_action gives eq_to (Some Reset) ;;
     next_action gives is_none ;;
     passed).

Definition the_response_arrives_as_its_head_its_chunks_and_its_end : bool :=
  run_test (opened 64 true)
    (headers_arrived [(text ":status", text "200"); (text "content-type", text "text/event-stream")] false gives id ;;
     data_arrived [event "data: 1"] false gives negb ;;
     data_arrived [event "data: 2"] true gives negb ;;
     completed gives any ;;
     reading (fun p => outcome p.1) gives eq_to Completed ;;
     response_items gives (fun l =>
       match l with
       | [Head head; Chunk first; Chunk second; End] =>
           (status head =? 200) && eq_to [("content-type", "text/event-stream")]%string (headers head)
           && eq_to (event "data: 1") first && eq_to (event "data: 2") second
       | _ => false
       end) ;;
     passed).

Definition a_body_still_going_up_when_the_stream_ends_is_stopped : bool :=
  run_test (opened 64 false)
    (on_chan (on_request (push_chunk_within_budget (text "part"))) gives eq_to (Some 4) ;;
     headers_arrived (status_ "200") true gives any ;;
     completed gives any ;;
     reading (fun p => cancelled (request p.2)) gives id ;;
     on_chan (on_request (push_chunk_within_budget (text "rest"))) gives is_none ;;
     response_items gives (fun l => match l with [Head _; End] => true | _ => false end) ;;
     passed).

Definition a_delivery_past_the_buffer_fails_the_stream_and_wants_a_reset : bool :=
  run_test (opened 4 true)
    (headers_arrived (status_ "200") false gives any ;;
     data_arrived [text "abc"] false gives negb ;;
     data_arrived [text "de"] false gives id ;;
     reading (fun p => wants_reset p.2) gives id ;;
     data_arrived [text "f"] false gives negb ;;
     response_items gives (fun l => match head (reverse l) with Some (Failed (UpstreamOverflow _)) => true | _ => false end) ;;
     next_action gives eq_to (Some Reset) ;;
     reset_by_envoy LocalReset gives any ;;
     reading (fun p => outcome p.1) gives eq_to OutcomeOverflow ;;
     passed).

Definition a_reset_from_envoy_arrives_as_a_failure_naming_its_reason : bool :=
  run_test (opened 64 true)
    (reset_by_envoy ConnectionFailure gives any ;;
     reading (fun p => outcome p.1) gives eq_to OutcomeReset ;;
     response_items gives (fun l =>
       match l with [Failed (Types.Upstream reason)] => contains "could not be reached" reason | _ => false end) ;;
     passed).

Definition an_upgraded_stream_the_upstream_closes_ends_after_what_it_sent : bool :=
  run_test (opened 64 false)
    (headers_arrived (status_ "101") false gives any ;;
     data_arrived [text "bye"] false gives negb ;;
     reset_by_envoy LocalReset gives any ;;
     response_items gives (fun l =>
       match l with [Head _; Chunk b; End] => eq_to (text "bye") b | _ => false end) ;;
     reading (fun p => cancelled (request p.2)) gives id ;;
     reading (fun p => outcome p.1) gives eq_to Completed ;;
     passed).

Definition an_upgraded_stream_the_worker_reset_still_fails : bool :=
  run_test (opened 64 false)
    (headers_arrived (status_ "101") false gives any ;;
     on_chan (modify close) gives any ;;
     next_action gives eq_to (Some Reset) ;;
     reset_by_envoy LocalReset gives any ;;
     reading (fun p => cancelled (response p.2)) gives id ;;
     reading (fun p => outcome p.1) gives eq_to Completed ;;
     passed).

Definition trailers_end_the_response_and_are_kept : bool :=
  run_test (opened 64 true)
    (headers_arrived (status_ "200") false gives any ;;
     trailers_arrived [(text "grpc-status", text "0")] gives any ;;
     reading (fun p => trailers p.2) gives eq_to (Some [("grpc-status", "0")]%string) ;;
     response_items gives (fun l => eq_to (Some End) (head (reverse l))) ;;
     passed).

Definition a_request_that_finishes_first_fails_its_streams : bool :=
  run_test (opened 64 true)
    (abandon gives any ;;
     response_items gives (fun l =>
       match l with [Failed (Types.Upstream reason)] => contains "finished before" reason | _ => false end) ;;
     reading (fun p => outcome p.1) gives eq_to Abandoned ;;
     passed).

(** The outcome of a stream that got its head, after the fiber [stops] it. *)
Definition stopped (stops : StreamChannel -> StreamChannel) (code : string) (expected : CallOutcome) : bool :=
  run_test (opened 64 true)
    (headers_arrived (status_ code) false gives any ;;
     on_chan (modify stops) gives any ;;
     next_action gives eq_to (Some Reset) ;;
     reset_by_envoy LocalReset gives any ;;
     reading (fun p => outcome p.1) gives eq_to expected ;;
     passed).

Definition a_stream_the_fiber_stops_is_abandoned_or_timed_out : bool :=
  stopped close "200" Abandoned && stopped time_out "200" TimedOut && stopped time_out "101" TimedOut.

Definition a_stream_envoy_turns_away_after_starting_it_is_refused : bool :=
  run_test (opened 64 true)
    (reset_by_envoy Overflow gives any ;; reading (fun p => outcome p.1) gives eq_to Refused ;; passed).

Definition an_upgraded_session_whose_request_finished_has_completed : bool :=
  run_test (opened 64 false)
    (headers_arrived (status_ "101") false gives any ;;
     abandon gives any ;;
     reading (fun p => outcome p.1) gives eq_to Completed ;;
     passed).

End OpenStreamTests.

(** ** The context ([context.rs]) *)

Module ContextTests.

(** A request on connection 7 that matched route [api] and carries tenant metadata;
    the two flags shape the connection it arrived on. *)
Record ContextMock := { mock_tls : bool; mock_presented : bool }.

Definition mock_string (e : ContextMock) (a : AttributeId) : option bytes :=
  text <$> match a with
           | XdsRouteName => Some "api"%string
           | SourceAddress => Some "10.0.0.7:51234"%string
           | DestinationAddress => Some "10.0.0.9:8443"%string
           | ConnectionTlsVersion => if mock_tls e then Some "TLSv1.3"%string else None
           | ConnectionRequestedServerName => if mock_tls e then Some "api.example.com"%string else None
           | ConnectionSubjectPeerCertificate => if mock_presented e then Some "CN=client"%string else None
           | ConnectionUriSanPeerCertificate =>
               if mock_presented e then Some "spiffe://example.com/client"%string else None
           | ConnectionSha256PeerCertificateDigest => if mock_presented e then Some "ab12"%string else None
           | _ => None
           end.

(** The doubles 3.0 and 2.0. *)
Definition three : f64 := binary_normalize 53 1024 3 0 false.
Definition two : f64 := binary_normalize 53 1024 2 0 false.

Definition is_key (key wanted : string) : bool := bool_decide (key = wanted).

#[local] Instance context_mock : EnvoyHttpFilter ContextMock := {|
  get_request_headers _ := [];
  get_request_header_value _ _ := None;
  get_attribute_string := mock_string;
  get_attribute_int _ a :=
    match a with
    | ConnectionId => Some 7%Z
    | SourcePort => Some 51234%Z
    | DestinationPort => Some 8443%Z
    | _ => None
    end;
  get_attribute_bool e a :=
    match a with
    | ConnectionMtls => if mock_tls e then Some (mock_presented e) else None
    | _ => None
    end;
  get_metadata_keys _ source namespace :=
    if is_key namespace "acme.tenant"
    then match source with
         | Dynamic => Some (map text ["id"; "weight"; "beta"; "regions"; "nested"]%string)
         | RouteSource => Some [text "tier"]
         end
    else None;
  get_metadata_string _ source _ key :=
    match source with
    | Dynamic => if is_key key "id" then Some (text "t-42") else None
    | RouteSource => if is_key key "tier" then Some (text "gold") else None
    end;
  get_metadata_number _ source _ key :=
    match source with
    | Dynamic => if is_key key "weight" then Some three else None
    | RouteSource => None
    end;
  get_metadata_bool _ source _ key :=
    match source with
    | Dynamic => if is_key key "beta" then Some true else None
    | RouteSource => None
    end;
  get_metadata_list_size _ source _ key :=
    match source with
    | Dynamic => if is_key key "regions" then Some 2 else None
    | RouteSource => None
    end;
  get_metadata_list_string _ _ _ key index :=
    if is_key key "regions" && (index =? 0) then Some (text "us") else None;
  get_metadata_list_number _ _ _ key index :=
    if is_key key "regions" && (index =? 1) then Some two else None;
  get_metadata_list_bool _ _ _ _ _ := None;
  received_buffered_request_body _ := false;
  get_buffered_request_body _ := None;
  get_received_request_body _ := None;
  get_buffered_request_body_size _ := 0;
  get_received_request_body_size _ := 0;
  perform _ e := (no_reply, e);
|}.

Definition config_ : ContextConfig := {| metadata_namespaces := ["acme.tenant"; "absent"]%string |}.

Definition a_plaintext_request_carries_its_route_connection_and_listed_metadata : Prop :=
  copy {| mock_tls := false; mock_presented := false |} config_
  = {| route_name := Some "api";
       connection := {| conn_id := Some 7; source_address := Some "10.0.0.7"; source_port := Some 51234;
                        destination_address := Some "10.0.0.9"; destination_port := Some 8443 |};
       tls := None;
       dynamic_metadata :=
         [{| ns_name := "acme.tenant";
             ns_fields := [("id", MString "t-42"); ("weight", MNumber three); ("beta", MBool true);
                           ("regions", MList [MString "us"; MNumber two])] |}];
       route_metadata := [{| ns_name := "acme.tenant"; ns_fields := [("tier", MString "gold")] |}] |}%string.

Definition a_client_certificate_is_reported_only_when_one_was_presented : Prop :=
  tls (copy {| mock_tls := true; mock_presented := false |} config_)
  = Some {| tls_version := "TLSv1.3"; tls_server_name := Some "api.example.com"; peer_certificate := None |}%string
  /\ (t ← tls (copy {| mock_tls := true; mock_presented := true |} config_); peer_certificate t)
     = Some {| subject := Some "CN=client"; uri_san := Some "spiffe://example.com/client"; dns_san := None;
               sha256 := Some "ab12" |}%string.

Example context_tests_pass :
  a_plaintext_request_carries_its_route_connection_and_listed_metadata
  /\ a_client_certificate_is_reported_only_when_one_was_presented.
Proof. by vm_compute. Qed.

End ContextTests.

(** ** Authorities, configuration, Rack, benchmarks *)

Module OtherTests.

Definition authority_is_split_without_corrupting_ipv6_hosts : bool :=
  eq_to (Some "example.com"%string) (authority_host "example.com:8443")
  && eq_to (Some 8443) (authority_port "example.com:8443")
  && eq_to (Some "[::1]"%string) (authority_host "[::1]:18083")
  && eq_to (Some 18083) (authority_port "[::1]:18083")
  && eq_to (Some "example.com"%string) (authority_host "example.com")
  && is_none (authority_port "example.com").

Definition a_startup_failure_says_it_survives_the_next_configuration : bool :=
  let message := error_to_string (terminal_startup_failure (Startup "no such file")) in
  contains "no such file" message && contains "restarted" message.

#[local] Instance ProcessRuntimeConfig_eq : EqDecision ProcessRuntimeConfig.
Proof. solve_decision. Defined.

Definition process_runtime_config_requires_exact_reuse : bool :=
  let active path_ := {| proc_rackup := path_; proc_max_inflight_requests := 128;
                         proc_shutdown_timeout := from_secs 5; proc_diagnostics := false |} in
  eq_to (active "/srv/app/config.ru"%string) (active "/srv/app/config.ru"%string)
  && negb (eq_to (active "/srv/app/config.ru"%string) (active "/srv/other/config.ru"%string)).

Definition request_headers_ (pairs : list (string * string)) : list (string * bytes) :=
  map (fun '(name, value) => (name, text value)) pairs.

Definition an_upgrade_offers_its_protocols_only_with_connection_upgrade : bool :=
  eq_to (Some ["websocket"]%string)
    (upgrade_protocols (request_headers_ [("connection", "keep-alive, Upgrade"); ("upgrade", "websocket")]%string))
  && is_none (upgrade_protocols (request_headers_ [("upgrade", "websocket")]%string))
  && is_none (upgrade_protocols (request_headers_ [("connection", "upgrade")]%string)).

Definition an_accepted_protocol_must_be_one_the_client_offered : bool :=
  let offered := ["websocket"%string] in
  match accepted_protocol [("rack.protocol", "websocket"); ("Upgrade", "h2c"); ("sec-websocket-accept", "x")]%string
          (Some offered) with
  | Ok (protocol, headers) =>
      eq_to (Some "websocket"%string) protocol && eq_to [("sec-websocket-accept", "x")]%string headers
  | Err _ => false
  end
  && negb (is_ok (accepted_protocol [("rack.protocol", "h2c")]%string (Some offered)))
  && negb (is_ok (accepted_protocol [("rack.protocol", "websocket")]%string None))
  && match accepted_protocol [("content-type", "text/plain")]%string (Some offered) with
     | Ok (protocol, _) => is_none protocol
     | Err _ => false
     end.

Definition header_names_map_onto_rack_keys : bool :=
  is_none (env_header_key ":method")
  && eq_to (Some "CONTENT_TYPE"%string) (env_header_key "Content-Type")
  && eq_to (Some "CONTENT_LENGTH"%string) (env_header_key "content-length")
  && eq_to (Some "HTTP_X_RUVOY_TEST"%string) (env_header_key "X-Ruvoy-Test").

Definition interned_keys_are_unique : bool := bool_decide (NoDup INTERNED_KEYS).

Definition benchmark_request_accepts_expected_request_bytes : bool :=
  match parse_benchmark_request "/benchmark?wait_ms=5&response_bytes=10&expected_request_bytes=1024" with
  | Ok b => (wait_ms b =? 5) && (response_bytes b =? 10) && eq_to (Some 1024) (expected_request_bytes b)
  | Err _ => false
  end.

Definition benchmark_request_rejects_oversized_expected_request_bytes : bool :=
  match parse_benchmark_request ("/benchmark?expected_request_bytes=" ++ show (MAX_BODY_BYTES + 1))%string with
  | Ok _ => false
  | Err error => eq_to "expected_request_bytes exceeds the 2 MiB limit"%string error
  end.

(** [fiber.rs]: the call fails with the error, its worker is woken, and the shutdown
    that follows is acknowledged. *)
Definition failed_runtime_rejects_calls_and_waits_for_final_shutdown : bool :=
  let startup_error := Startup "invalid rackup" in
  let call := {| call_request := Request_new "GET" "/" [];
                 call_handle := {| stream := Direct 1; waker := {| waker_filter := 1; waker_event := 1 |} |};
                 permit := {| held := 1 |} |} in
  let '(returned, rx) := retain_failed_runtime (fun _ => true) startup_error [Call call; Shutdown 9] failing_example in
  returned && eq_to [waker (call_handle call)] (posted (shared rx))
  && eq_to (Some (Failed startup_error)) (take_next (get_queue (shared rx) (Direct 1))).1
  && match answers (bridge rx) with
     | [Stopped 9] => true
     | _ => false
     end.

End OtherTests.

(** ** They pass *)

Definition worker_tests : list bool :=
  [CallTests.a_sent_call_waits_under_the_id_envoy_gave_it;
   CallTests.a_call_envoy_refuses_fails_on_the_spot;
   CallTests.the_request_trace_goes_along_unless_the_application_set_it;
   CallTests.a_response_arrives_as_its_head_body_and_end;
   CallTests.every_unusable_outcome_arrives_as_a_failure;
   OpenStreamTests.a_stream_without_a_body_starts_ended_and_without_a_deadline;
   OpenStreamTests.a_sub_millisecond_deadline_is_kept;
   OpenStreamTests.a_stream_envoy_refuses_fails_on_the_spot;
   OpenStreamTests.a_stream_the_fiber_closed_before_it_started_never_starts;
   OpenStreamTests.the_body_goes_out_a_piece_at_a_time_and_then_ends;
   OpenStreamTests.a_wanted_reset_is_asked_for_once;
   OpenStreamTests.the_response_arrives_as_its_head_its_chunks_and_its_end;
   OpenStreamTests.a_body_still_going_up_when_the_stream_ends_is_stopped;
   OpenStreamTests.a_delivery_past_the_buffer_fails_the_stream_and_wants_a_reset;
   OpenStreamTests.a_reset_from_envoy_arrives_as_a_failure_naming_its_reason;
   OpenStreamTests.an_upgraded_stream_the_upstream_closes_ends_after_what_it_sent;
   OpenStreamTests.an_upgraded_stream_the_worker_reset_still_fails;
   OpenStreamTests.trailers_end_the_response_and_are_kept;
   OpenStreamTests.a_request_that_finishes_first_fails_its_streams;
   OpenStreamTests.a_stream_the_fiber_stops_is_abandoned_or_timed_out;
   OpenStreamTests.a_stream_envoy_turns_away_after_starting_it_is_refused;
   OpenStreamTests.an_upgraded_session_whose_request_finished_has_completed;
   OtherTests.authority_is_split_without_corrupting_ipv6_hosts;
   OtherTests.a_startup_failure_says_it_survives_the_next_configuration;
   OtherTests.process_runtime_config_requires_exact_reuse;
   OtherTests.an_upgrade_offers_its_protocols_only_with_connection_upgrade;
   OtherTests.an_accepted_protocol_must_be_one_the_client_offered;
   OtherTests.header_names_map_onto_rack_keys;
   OtherTests.interned_keys_are_unique;
   OtherTests.benchmark_request_accepts_expected_request_bytes;
   OtherTests.benchmark_request_rejects_oversized_expected_request_bytes;
   OtherTests.failed_runtime_rejects_calls_and_waits_for_final_shutdown].

Example worker_tests_pass : forallb id worker_tests = true.
Proof. vm_compute. reflexivity. Qed.
